(* ===== verification/_CoqProject ===== *)
-Q . S2P
Prelude.v
GoStr.v
Path.v
Fs.v
Sha256.v
Verifier.v
RateLimit.v
StepUp.v
Database.v
DeviceAuth.v
IdStore.v
Threads.v
AuthRace.v
Pairing.v
Totp.v
Password.v
WebAuthn.v
Http.v
Middleware.v
Tickets.v
Regex.v
NetAddr.v
Config.v
Locks.v
Tmux.v
Manager.v
Stream.v
SessionRace.v
TermHttp.v
FileStore.v
Upload.v
FilesHttp.v
UploadRace.v
FileRace.v
Owner.v
OwnerProps.v
Concurrent.v
Mux.v
Daemon.v
DaemonProps.v
DaemonUse.v
Startup.v
