(* ===== verification/Prelude.v ===== *)
(** * remote-agent daemon: verification library

    The daemon under src/daemon lets paired devices use terminals and exchange
    files on one machine. This library translates its Go code into functions
    and proves what each component promises and what the daemon as a whole
    guarantees.

    ** The parts and where they are

    Ground. [Prelude]: Go errors, results, 64-bit integers and times, shared
    tactics and hints. [GoStr], [Path], [NetAddr], [Regex], [Sha256], [Http],
    [Mux]: the parts of Go's standard library the code uses (strings, strconv,
    hex, base64, path, net.SplitHostPort and ParseIP, regexp, sha256, requests
    and responses, ServeMux). [Fs]: the file system under package os, with
    symbolic links, path resolution and injected failures, short writes among
    them.

    Identity (internal/identity). [Pairing]: an attempt with three factors
    (pairing.go), over the interface of [Verifier]. [Password], [Totp],
    [WebAuthn]: the three verifiers (password.go, totp.go, webauthn.go).
    [RateLimit]: failure counters and lockouts (ratelimit.go). [StepUp]:
    single-use grants (stepup.go). [DeviceAuth]: challenge and signature
    (device.go), over the interface [DeviceLookup]; [IdStore] implements it
    with the devices table (store.go); [AuthRace]: challenges and signatures that
    overlap. [Owner]: the pairing and device routes
    (owner.go); [OwnerProps]: their theorems; [Concurrent]: factor requests and
    completions that overlap. [Middleware]: RequireDevice and
    RequireStepUp (middleware.go) for any state that has challenges and grants,
    reached through a [Lens].

    Storage. [Database]: the sessions and devices tables and every statement on
    them (internal/db/db.go). [Locks]: the lock files (internal/locks/locks.go).

    Terminals (internal/terminal). [Tmux]: the commands sent to the tmux binary
    (tmux.go). [Manager]: sessions as a row, a tmux session and a lock
    (manager.go); [SessionRace]: creations and closings that overlap. [Stream]:
    one WebSocket stream as two loops, and how it ends; [TermHttp]: the routes,
    and any number of live streams (http.go).

    Files (internal/files). [FileStore]: files under a list of roots (store.go).
    [Upload]: resumable uploads (upload.go). [FilesHttp]: the routes (http.go);
    [UploadRace]: PATCH requests of one upload that overlap; [FileRace]:
    downloads and deletions that overlap with any change of the files.

    Daemon (cmd/claudecode-remoted). [Tickets]: the WebSocket tickets. [Config]:
    the checks on flags, and setup-owner. [Daemon]: newRouter, its middleware
    and handlers, over one [daemon_state]. [DaemonProps], [DaemonUse]: what
    follows for the whole daemon. [Startup]: main.

    ** How the code is translated

    A handler is a function from the state it shares, the request and what the
    environment supplies (clock readings, random bytes, the driver's answers) to
    the response and the new state; [None] is a panic. Each method that runs
    under a mutex is one step, and a history is a list of steps in the order the
    mutex admitted them. Times are nanoseconds; int64 arithmetic wraps where the
    code can overflow ([wrap64]). A stream is not one step: each iteration of
    either of its loops is an event ([stream_event_at]), and so are the end of
    the wait after them and the closing of the connection, so that a history may
    interleave the events of several streams with requests.

    Requests that hold no lock between two calls on a store may overlap.
    [Threads] has what is common to that: a component gives a type of threads,
    which says where a request stands, and the step to its next section
    ([thread_step]); interleavings ([conc_run]), schedules that can be executed
    ([do_moves]) and invariants over all interleavings come with it. Its five
    clients are [AuthRace], [Concurrent], [SessionRace], [UploadRace] and
    [FileRace], each of which proves that its sections, with nothing in between,
    are the handler or the method that the other files use ([alone]). In
    [FileRace] a call on a path returns the location its path leads to with its
    result ([traced], [at_path]), and the label of a section is what its own
    calls returned.

    ** What is proved

    Of the whole daemon: without a valid signature or ticket a request neither
    sees nor touches files and terminals; a signed request within the time of
    its challenge is served, a ticket opens one stream; request bodies are
    bounded; a daemon that listens has none of the wildcard addresses
    checkBindAddress knows, and without authentication only a local one. As the
    code stands no device is ever added or revoked, and a fresh installation
    admits nobody.

    Of pairing: a device row only comes from an attempt whose three factors were
    each accepted in time, and holds the name and the key its start call gave,
    also when requests overlap, and each start call brings at most one; guessing
    locks the account, from wherever the guesses and the later requests come,
    until a factor is accepted, and unless the guesses race (the limiter is
    asked before a guess and told after it); no request panics with a
    well-formed hash; wrong e-mail and wrong password look alike for a live
    attempt. Of authentication, also when requests overlap: an accepted
    signature is over a fresh challenge that is used up, so that no more
    requests are let through than challenges were kept; revoked devices stay
    revoked and no Verify succeeds for them any more; the challenges are no more
    than the devices.

    Of files: opening, listing and deleting stay inside the roots, also when the
    files change between resolving a path and using it, as long as nobody adds
    symbolic links; uploads refine an append-only log, a client that resumes
    after failures, of the connection before or after all was sent or of a full
    disk, completes, a corrupt upload is discarded, a download carries its
    checksum; requests of one upload that race install nothing but data with the
    declared hash, yet without a declared hash a late PATCH lengthens the file.
    These upload theorems share [destination]: what exists above the target is
    directories (what is missing is made), and the target is no directory and,
    when the upload directory is on another device, no symbolic link, which the
    copy would follow ([Finish_follows_dangling_link]). They are about a file
    system whose calls do not fail, but for the full disk; what a failing copy
    leaves is [failed_copy_spoils_target]. Of terminals: a lock is held exactly
    while its session is open, when requests come one after the other; when they
    overlap an open session still has its lock once it has been taken, but a
    Close that comes before it leaves a lock nobody can release; failed creates
    are undone where the code undoes them; a session keeps what it was created
    with, but for its name and its last activity, until it is closed, and closed
    is final; streams carry bytes unchanged in both directions, and one whose
    client has gone ends.

    Several components are proved against a reference: [StepUp] and [Tickets]
    against the last call about a key, [RateLimit] against the number of
    failures, [Upload] against a log, [Locks] against a set, [Regex] against the
    language of an expression, validatePublicDomain against a description of
    host names.

    ** Fuel and bounds

    [walk] follows 40 links, as Linux does, and 255 in EvalSymlinks, as Go does;
    both are limits of the program that is modelled. [resolve_loop] and
    [MkdirAll_loop] remove a path component per call, so the length of the path
    is enough ([resolve_loop_fuel]). [backoff_loop] runs over the lockouts
    counted and stops at the hour. The IPv6 loop reads at most eight groups. An
    unbounded repetition in [Regex] consumes a byte per round, so the length of
    the rest is enough, as [mtch_decides] proves. SHA-256 runs over the blocks
    of the padded message.

    ** Parameters

    Code outside the repository is a parameter: Argon2, TOTP, WebAuthn, Ed25519,
    the tmux binary ([TmuxBinary], with [TmuxSpec] what its manual says), the
    SQL driver's errors and row order, JSON decoding of requests and of the
    upload state (with its round trip), Unicode tables ([Unicode]), strconv.Quote,
    url.Parse, the WebSocket handshake, redirections and the embedded test
    client. Every parameter has an instance that the examples run with.

    ** What is not modelled

    Interleaving inside one request, beyond the requests above (challenges and
    signatures, factor requests and completions, Create and Close of sessions,
    PATCH, downloads and deletions, streams): every other
    handler is one step, and so are the commands one call of [Tmux] sends. That
    fs.Sub of the embedded directory fails. The HTTP server itself, TLS,
    timeouts, logging and the parsing of flags. SQLite's file, and rows.Err in
    the middle of an iteration. Partial JSON bodies are whatever the decoder
    says. SetClock and other test hooks: the clock is an argument. The client
    applications, which are in other languages, and the provisioning scripts. *)

From stdpp Require Export base gmap strings list fin_maps sorting.
From Stdlib Require Export ZArith Lia.
From Stdlib Require Ascii String.
#[export] Set Default Goal Selector "!".

#[global] Arguments String.append : simpl nomatch.

#[global] Open Scope string_scope.
#[global] Open Scope list_scope.
#[global] Open Scope Z_scope.

(** ** Go errors

    An error value is a sentinel of one of the packages, a plain message, or a
    wrapping built by [fmt.Errorf] with one or two [%w] verbs. [errors_is]
    walks the chain the way [errors.Is] does. *)

Inductive sentinel :=
  | ErrNotExist            (* ENOENT, what os.IsNotExist tests *)
  | ErrExist               (* EEXIST *)
  | ErrNotDir | ErrIsDir | ErrLoop | ErrCrossDevice | ErrNotEmpty | ErrInvalid
  | ErrNoRows              (* database/sql *)
  | ErrConstraint          (* a violated SQL constraint *)
  | ErrEOF                 (* io.EOF *)
  | ErrOutsideRoots | ErrOffsetConflict | ErrChecksumMismatch
  | ErrFactorNotImplemented | ErrPairingExpired | ErrPairingIncomplete
  | ErrPairingConsumed | ErrUnknownFactor
  | ErrEmptyPassword | ErrMalformedHash | ErrPasswordMismatch
  | ErrTOTPCodeInvalid | ErrTOTPCodeReused
  | ErrRelyingPartyNotConfigured | ErrPasskeyNotBound
  | ErrRateLimited
  | ErrStepUpRequired | ErrStepUpExpired
  | ErrDeviceAuthFailed | ErrChallengeExpired
  | ErrWildcardBind.

#[export] Instance sentinel_eq_dec : EqDecision sentinel.
Proof. solve_decision. Defined.

Inductive goerr :=
  | ESent (s : sentinel)
  | EMsg (msg : string)
  | EWrap (pre : string) (inner : goerr) (post : string)
  | EWrap2 (a : goerr) (sep : string) (b : goerr).

#[export] Instance goerr_eq_dec : EqDecision goerr.
Proof. solve_decision. Defined.

Fixpoint errors_is (e : goerr) (s : sentinel) : bool :=
  match e with
  | ESent s' => bool_decide (s' = s)
  | EMsg _ => false
  | EWrap _ e' _ => errors_is e' s
  | EWrap2 a _ b => errors_is a s || errors_is b s
  end.

(** ** Results *)

Inductive result (A : Type) : Type :=
  | Ok (a : A)
  | Err (e : goerr).
Arguments Ok {A} a.
Arguments Err {A} e.

#[export] Instance result_ret : MRet result := fun A a => Ok a.
#[export] Instance result_bind : MBind result := fun A B k r =>
  match r with Ok a => k a | Err e => Err e end.

Definition is_ok {A} (r : result A) : bool :=
  match r with Ok _ => true | Err _ => false end.

(** An [error] return value: [None] is Go's nil. *)
Abbreviation error := (option goerr).

Definition err_is (e : error) (s : sentinel) : bool :=
  match e with None => false | Some e => errors_is e s end.

(** ** Machine integers and time

    [int], [int64] and [time.Duration] are 64-bit two's complement. A
    [time.Time] is the number of nanoseconds since a fixed origin; [Sub]
    saturates at the ends of [time.Duration], as the Go library's does. *)

Definition max_int64 : Z := 2 ^ 63 - 1.
Definition min_int64 : Z := - 2 ^ 63.

Definition wrap64 (z : Z) : Z := (z + 2 ^ 63) mod 2 ^ 64 - 2 ^ 63.

Definition Millisecond : Z := 1000000.
Definition Second : Z := 1000 * Millisecond.
Definition Minute : Z := 60 * Second.
Definition Hour : Z := 60 * Minute.

Definition time_sub (t u : Z) : Z := Z.max min_int64 (Z.min max_int64 (t - u)).
Definition time_add (t d : Z) : Z := t + d.
Definition time_before (t u : Z) : bool := t <? u.
Definition time_after (t u : Z) : bool := u <? t.

(** ** Generic lemmas *)

Lemma wrap64_id z : min_int64 ≤ z ≤ max_int64 → wrap64 z = z.
Proof. unfold wrap64, min_int64, max_int64. intros H. rewrite Z.mod_small; lia. Qed.

Lemma time_sub_gt t u d :
  0 ≤ d < max_int64 → (d <? time_sub t u) = (u + d <? t).
Proof.
  unfold time_sub, max_int64, min_int64. intros Hd.
  destruct (Z.ltb_spec d (Z.max (- 2 ^ 63) (Z.min (2 ^ 63 - 1) (t - u))));
    destruct (Z.ltb_spec (u + d) t); lia.
Qed.

Lemma Ok_inj {A} (a b : A) : Ok a = Ok b → a = b.
Proof. by intros [= ->]. Qed.

Lemma delete_idemp_None {V} (m : gmap string V) k : m !! k = None → delete k m = m.
Proof. apply delete_id. Qed.

Lemma lookup_delete_is_Some {V} (m : gmap string V) i j x :
  delete i m !! j = Some x ↔ i ≠ j ∧ m !! j = Some x.
Proof. apply lookup_delete_Some. Qed.

(** ** Automation shared by the components *)

Create HintDb remote discriminated.
Create Rewrite HintDb remote.
#[export] Hint Resolve lookup_insert_eq lookup_delete_eq lookup_empty : remote.
#[export] Hint Rewrite @lookup_insert_eq @lookup_delete_eq @lookup_empty : remote.

(** Splits every [if] and [match] of the goal and hypotheses. *)
Ltac split_cases :=
  repeat (case_match; simplify_eq/=; try done).

(** Turns boolean comparisons on Z into propositions. *)
Ltac to_prop :=
  rewrite ?Z.ltb_lt, ?Z.ltb_ge, ?Z.leb_le, ?Z.leb_gt, ?Z.eqb_eq, ?Z.eqb_neq,
    ?andb_true_iff, ?orb_true_iff, ?negb_true_iff, ?bool_decide_eq_true,
    ?bool_decide_eq_false in *.

(** Closed decidable goals. *)
Ltac by_decide := apply (bool_decide_eq_true_1 _); vm_compute; reflexivity.
