(* ===== verification/GoStr.v ===== *)
(** * The parts of Go's [strings], [strconv], [unicode/utf8], [encoding/hex]
      and [encoding/base64] that the daemon calls.

    A Go string is a byte string. The byte-wise functions work on [string];
    the rune-wise ones and the codecs on its bytes as integers in [0,256). *)

From S2P Require Import Prelude.
From Stdlib Require Import Ascii DecimalString DecimalN.

(** ** Bytes *)

Definition byte_of (a : ascii) : Z := Z.of_N (N_of_ascii a).
Definition ascii_of (b : Z) : ascii := ascii_of_N (Z.to_N b).

Fixpoint bytes (s : string) : list Z :=
  match s with
  | EmptyString => []
  | String a s' => byte_of a :: bytes s'
  end.

Fixpoint of_bytes (l : list Z) : string :=
  match l with
  | [] => EmptyString
  | b :: l' => String (ascii_of b) (of_bytes l')
  end.

Definition is_byte (b : Z) : Prop := 0 ≤ b < 256.

(** len(s) *)
Definition slen (s : string) : Z := Z.of_nat (String.length s).

(** ** strings *)

Fixpoint has_prefix (s p : string) {struct p} : bool :=
  match p, s with
  | EmptyString, _ => true
  | String a p', String b s' => Ascii.eqb a b && has_prefix s' p'
  | String _ _, EmptyString => false
  end.

Fixpoint drop_str (n : nat) (s : string) : string :=
  match n, s with
  | S n', String _ s' => drop_str n' s'
  | _, _ => s
  end.

Definition trim_prefix (s p : string) : string :=
  if has_prefix s p then drop_str (String.length p) s else s.

Definition has_suffix (s p : string) : bool :=
  let n := (String.length s - String.length p)%nat in
  (String.length p <=? String.length s)%nat && String.eqb (drop_str n s) p.

Fixpoint contains (s sub : string) : bool :=
  has_prefix s sub ||
  match s with EmptyString => false | String _ s' => contains s' sub end.

Fixpoint contains_char (c : ascii) (s : string) : bool :=
  match s with
  | EmptyString => false
  | String a s' => Ascii.eqb a c || contains_char c s'
  end.

(** strings.Split with a one-byte separator. *)
Fixpoint split_char (c : ascii) (s : string) : list string :=
  match s with
  | EmptyString => [""]
  | String a s' =>
     if Ascii.eqb a c then "" :: split_char c s'
     else match split_char c s' with
          | h :: t => String a h :: t
          | [] => [String a ""]
          end
  end.

(** strings.SplitN(s, c, 2): what precedes the first separator, and what
    follows it when there is one. *)
Fixpoint cut_char (c : ascii) (s : string) : string * option string :=
  match s with
  | EmptyString => ("", None)
  | String a s' =>
     if Ascii.eqb a c then ("", Some s')
     else let '(h, t) := cut_char c s' in (String a h, t)
  end.

(** The parts around the last occurrence of [c]. *)
Fixpoint cut_last (c : ascii) (s : string) : option (string * string) :=
  match s with
  | EmptyString => None
  | String a s' =>
     match cut_last c s' with
     | Some (h, t) => Some (String a h, t)
     | None => if Ascii.eqb a c then Some ("", s') else None
     end
  end.

(** strings.Join with a one-byte separator. *)
Fixpoint join_char (c : ascii) (l : list string) : string :=
  match l with
  | [] => ""
  | [x] => x
  | x :: l' => x +:+ String c (join_char c l')
  end.

(** strings.TrimRight with a cutset of bytes. *)
Fixpoint trim_right (cut : list ascii) (s : string) : string :=
  match s with
  | EmptyString => ""
  | String a s' =>
     match trim_right cut s' with
     | EmptyString => if existsb (Ascii.eqb a) cut then "" else String a ""
     | r => String a r
     end
  end.

(** ** unicode/utf8 *)

Definition RuneError : Z := 65533.

Definition in_range (lo hi b : Z) : bool := (lo <=? b) && (b <=? hi).
Definition cont (b : Z) : bool := in_range 128 191 b.

(** The well-formed two, three and four byte sequences of the UTF-8 table. *)
Definition rune2 (b0 b1 : Z) : option Z :=
  if in_range 194 223 b0 && cont b1 then Some ((b0 - 192) * 64 + (b1 - 128)) else None.

Definition rune3 (b0 b1 b2 : Z) : option Z :=
  let ok1 := if b0 =? 224 then in_range 160 191 b1
             else if b0 =? 237 then in_range 128 159 b1
             else in_range 225 239 b0 && cont b1 in
  if ok1 && cont b2
  then Some ((b0 - 224) * 4096 + (b1 - 128) * 64 + (b2 - 128)) else None.

Definition rune4 (b0 b1 b2 b3 : Z) : option Z :=
  let ok1 := if b0 =? 240 then in_range 144 191 b1
             else if b0 =? 244 then in_range 128 143 b1
             else in_range 241 243 b0 && cont b1 in
  if ok1 && cont b2 && cont b3
  then Some ((b0 - 240) * 262144 + (b1 - 128) * 4096 + (b2 - 128) * 64 + (b3 - 128))
  else None.

(** [for _, r := range s]: an ill-formed byte yields U+FFFD and advances by one. *)
Fixpoint runes (bs : list Z) : list Z :=
  match bs with
  | [] => []
  | b0 :: t0 =>
     if b0 <? 128 then b0 :: runes t0 else
     match t0 with
     | [] => [RuneError]
     | b1 :: t1 =>
        match rune2 b0 b1 with
        | Some r => r :: runes t1
        | None =>
           match t1 with
           | [] => RuneError :: runes t0
           | b2 :: t2 =>
              match rune3 b0 b1 b2 with
              | Some r => r :: runes t2
              | None =>
                 match t2 with
                 | [] => RuneError :: runes t0
                 | b3 :: t3 =>
                    match rune4 b0 b1 b2 b3 with
                    | Some r => r :: runes t3
                    | None => RuneError :: runes t0
                    end
                 end
              end
           end
        end
     end
  end.

Definition range_string (s : string) : list Z := runes (bytes s).

Definition encode_rune (r : Z) : list Z :=
  if r <? 128 then [r]
  else if r <? 2048 then [192 + r / 64; 128 + r mod 64]
  else if r <? 65536 then [224 + r / 4096; 128 + r / 64 mod 64; 128 + r mod 64]
  else [240 + r / 262144; 128 + r / 4096 mod 64; 128 + r / 64 mod 64; 128 + r mod 64].

(** ** strings.TrimSpace

    The White_Space code points are U+0009-U+000D, U+0020, U+0085, U+00A0,
    U+1680, U+2000-U+200A, U+2028, U+2029, U+202F, U+205F and U+3000. *)

Definition space1 (b : Z) : bool := in_range 9 13 b || (b =? 32).
Definition space2 (b0 b1 : Z) : bool := (b0 =? 194) && ((b1 =? 133) || (b1 =? 160)).
Definition space3 (b0 b1 b2 : Z) : bool :=
  ((b0 =? 225) && (b1 =? 154) && (b2 =? 128)) ||
  ((b0 =? 226) && (b1 =? 128) &&
     (in_range 128 138 b2 || (b2 =? 168) || (b2 =? 169) || (b2 =? 175))) ||
  ((b0 =? 226) && (b1 =? 129) && (b2 =? 159)) ||
  ((b0 =? 227) && (b1 =? 128) && (b2 =? 128)).

Fixpoint trim_space_left (bs : list Z) : list Z :=
  match bs with
  | [] => []
  | b0 :: t0 =>
     if space1 b0 then trim_space_left t0 else
     match t0 with
     | [] => bs
     | b1 :: t1 =>
        if space2 b0 b1 then trim_space_left t1 else
        match t1 with
        | [] => bs
        | b2 :: t2 => if space3 b0 b1 b2 then trim_space_left t2 else bs
        end
     end
  end.

(** The same from the right, on the reversed bytes. *)
Fixpoint trim_space_rev (bs : list Z) : list Z :=
  match bs with
  | [] => []
  | b0 :: t0 =>
     if space1 b0 then trim_space_rev t0 else
     match t0 with
     | [] => bs
     | b1 :: t1 =>
        if space2 b1 b0 then trim_space_rev t1 else
        match t1 with
        | [] => bs
        | b2 :: t2 => if space3 b2 b1 b0 then trim_space_rev t2 else bs
        end
     end
  end.

Definition trim_space (s : string) : string :=
  of_bytes (rev (trim_space_rev (rev (trim_space_left (bytes s))))).

(** ** Case mapping

    ASCII is written out. The Unicode tables beyond it are Go's [unicode]
    package data, given by an instance of [Unicode]: the lower-case mapping
    and a representative of each simple-folding orbit. *)

Class Unicode := {
  to_lower_rune : Z → Z;
  fold_rune : Z → Z;
}.

Definition ascii_lower (r : Z) : Z := if in_range 65 90 r then r + 32 else r.

Section case_mapping.
Context `{Unicode}.

Definition lower_rune (r : Z) : Z := if r <? 128 then ascii_lower r else to_lower_rune r.
Definition fold_key (r : Z) : Z := if r <? 128 then ascii_lower r else fold_rune r.

Definition to_lower (s : string) : string :=
  of_bytes (concat (map (λ r, encode_rune (lower_rune r)) (range_string s))).

Definition equal_fold (s t : string) : bool :=
  bool_decide (map fold_key (range_string s) = map fold_key (range_string t)).
End case_mapping.

(** The tables of a text without letters outside ASCII. *)
Definition ascii_only : Unicode := {| to_lower_rune r := r; fold_rune r := r |}.

(** ** strconv *)

(** strconv.Quote and the verb %q: which runes are printable depends on
    Unicode tables. *)
Class Quote := go_quote : string → string.

Definition utoa (n : N) : string := NilZero.string_of_uint (N.to_uint n).

Definition format_int (z : Z) : string :=
  if z <? 0 then "-" +:+ utoa (Z.to_N (- z)) else utoa (Z.to_N z).

(** A non-empty run of decimal digits. *)
Definition parse_digits (s : string) : option N := N.of_uint <$> NilZero.uint_of_string s.

Definition parse_uint64 (s : string) : result N :=
  match parse_digits s with
  | None => Err (EMsg "invalid syntax")
  | Some n => if (Z.of_N n <=? 2 ^ 64 - 1) then Ok n else Err (EMsg "value out of range")
  end.

(** strconv.ParseInt(s, 10, 64) *)
Definition parse_int64 (s : string) : result Z :=
  let '(neg, digits) :=
    match s with
    | String a s' =>
       if Ascii.eqb a "-" then (true, s') else if Ascii.eqb a "+" then (false, s') else (false, s)
    | EmptyString => (false, s)
    end in
  match parse_uint64 digits with
  | Err e => Err e
  | Ok n =>
     let n := Z.of_N n in
     if neg then if n <=? 2 ^ 63 then Ok (- n) else Err (EMsg "value out of range")
     else if n <? 2 ^ 63 then Ok n else Err (EMsg "value out of range")
  end.

(** ** encoding/hex *)

Definition hex_digit (n : Z) : ascii := ascii_of (if n <? 10 then 48 + n else 87 + n).

Fixpoint hex_encode (bs : list Z) : string :=
  match bs with
  | [] => ""
  | b :: bs' => String (hex_digit (b / 16)) (String (hex_digit (b mod 16)) (hex_encode bs'))
  end.

(** ** encoding/base64: StdEncoding ([pad = true]) and RawStdEncoding *)

Definition b64_char (n : Z) : Z :=
  if n <? 26 then 65 + n else if n <? 52 then 71 + n else if n <? 62 then n - 4
  else if n =? 62 then 43 else 47.

Definition b64_val (c : Z) : option Z :=
  if in_range 65 90 c then Some (c - 65)
  else if in_range 97 122 c then Some (c - 71)
  else if in_range 48 57 c then Some (c + 4)
  else if c =? 43 then Some 62
  else if c =? 47 then Some 63
  else None.

Definition b64_pad : Z := 61.

Fixpoint b64_encode_bytes (pad : bool) (bs : list Z) : list Z :=
  match bs with
  | [] => []
  | [b0] =>
     let v := b0 * 65536 in
     [b64_char (v / 262144); b64_char (v / 4096 mod 64)] ++
     (if pad then [b64_pad; b64_pad] else [])
  | [b0; b1] =>
     let v := b0 * 65536 + b1 * 256 in
     [b64_char (v / 262144); b64_char (v / 4096 mod 64); b64_char (v / 64 mod 64)] ++
     (if pad then [b64_pad] else [])
  | b0 :: b1 :: b2 :: bs' =>
     let v := b0 * 65536 + b1 * 256 + b2 in
     [b64_char (v / 262144); b64_char (v / 4096 mod 64);
      b64_char (v / 64 mod 64); b64_char (v mod 64)] ++ b64_encode_bytes pad bs'
  end.

(** The decoder skips CR and LF everywhere, wants complete quanta when the
    encoding is padded, nothing after the padding, and does not look at the
    unused low bits of the last digit. *)
Fixpoint b64_decode_quanta (pad : bool) (cs : list Z) : option (list Z) :=
  match cs with
  | [] => Some []
  | [_] => None
  | [c0; c1] =>
     if pad then None else
     d0 ← b64_val c0; d1 ← b64_val c1;
     Some [(d0 * 64 + d1) / 16]
  | [c0; c1; c2] =>
     if pad then None else
     d0 ← b64_val c0; d1 ← b64_val c1; d2 ← b64_val c2;
     let v := d0 * 4096 + d1 * 64 + d2 in Some [v / 1024; v / 4 mod 256]
  | c0 :: c1 :: c2 :: c3 :: cs' =>
     d0 ← b64_val c0; d1 ← b64_val c1;
     match b64_val c2 with
     | Some d2 =>
        match b64_val c3 with
        | Some d3 =>
           let v := d0 * 262144 + d1 * 4096 + d2 * 64 + d3 in
           rest ← b64_decode_quanta pad cs';
           Some (v / 65536 :: v / 256 mod 256 :: v mod 256 :: rest)
        | None =>
           if pad && (c3 =? b64_pad) && bool_decide (cs' = [])
           then let v := d0 * 4096 + d1 * 64 + d2 in Some [v / 1024; v / 4 mod 256]
           else None
        end
     | None =>
        if pad && (c2 =? b64_pad) && (c3 =? b64_pad) && bool_decide (cs' = [])
        then Some [(d0 * 64 + d1) / 16] else None
     end
  end.

Definition not_newline (c : Z) : bool := negb ((c =? 10) || (c =? 13)).

Definition b64_decode (pad : bool) (s : string) : option (list Z) :=
  b64_decode_quanta pad (List.filter not_newline (bytes s)).

Definition b64_encode (pad : bool) (bs : list Z) : string :=
  of_bytes (b64_encode_bytes pad bs).

(** ** Lemmas: bytes *)

Lemma byte_of_range a : is_byte (byte_of a).
Proof. unfold is_byte, byte_of. pose proof (N_ascii_bounded a). lia. Qed.

Lemma ascii_of_byte_of a : ascii_of (byte_of a) = a.
Proof. unfold ascii_of, byte_of. rewrite N2Z.id. apply ascii_N_embedding. Qed.

Lemma byte_of_ascii_of b : is_byte b → byte_of (ascii_of b) = b.
Proof.
  unfold is_byte, ascii_of, byte_of. intros H.
  rewrite N_ascii_embedding by lia. lia.
Qed.

Lemma of_bytes_bytes s : of_bytes (bytes s) = s.
Proof. induction s as [|a s IH]; simpl; [done|]. by rewrite ascii_of_byte_of, IH. Qed.

Lemma bytes_of_bytes l : Forall is_byte l → bytes (of_bytes l) = l.
Proof. induction 1; simpl; [done|]. by rewrite byte_of_ascii_of, IHForall by done. Qed.

Lemma bytes_range s : Forall is_byte (bytes s).
Proof. induction s; simpl; constructor; auto using byte_of_range. Qed.

Lemma bytes_inj s t : bytes s = bytes t → s = t.
Proof. intros H. by rewrite <- (of_bytes_bytes s), H, of_bytes_bytes. Qed.

Lemma bytes_app s t : bytes (s +:+ t) = bytes s ++ bytes t.
Proof. induction s as [|a s IH]; simpl; [done|]. by rewrite IH. Qed.

(** ** Lemmas: prefixes, splitting and joining *)

Lemma has_prefix_true s p : has_prefix s p = true ↔ ∃ t, s = p +:+ t.
Proof.
  revert s. induction p as [|a p IH]; intros s; simpl.
  - split; [intros _; by exists s|done].
  - destruct s as [|b s].
    + split; [done|]. intros [t Ht]. done.
    + rewrite andb_true_iff, Ascii.eqb_eq, IH. split.
      * intros [-> [t ->]]. by exists t.
      * intros [t [= -> ->]]. eauto.
Qed.

Lemma has_prefix_app p t : has_prefix (p +:+ t) p = true.
Proof. apply has_prefix_true. by exists t. Qed.

Lemma drop_str_app p t : drop_str (String.length p) (p +:+ t) = t.
Proof. by induction p. Qed.

Lemma trim_prefix_app p t : trim_prefix (p +:+ t) p = t.
Proof. unfold trim_prefix. by rewrite has_prefix_app, drop_str_app. Qed.

Lemma app_str_assoc (a b c : string) : (a +:+ b) +:+ c = a +:+ (b +:+ c).
Proof. induction a as [|x a IH]; simpl; [done|]. by rewrite IH. Qed.

Lemma app_str_inj (p s t : string) : p +:+ s = p +:+ t → s = t.
Proof. induction p; simpl; [done|]. intros [= ?]; auto. Qed.

Lemma app_str_nil_r (s : string) : s +:+ "" = s.
Proof. induction s as [|a s IH]; simpl; [done|]. by rewrite IH. Qed.

Definition char_free (c : ascii) (s : string) : Prop := contains_char c s = false.

#[export] Instance char_free_dec c s : Decision (char_free c s).
Proof. unfold char_free. apply _. Defined.

Lemma char_free_cons c a s : char_free c (String a s) ↔ a ≠ c ∧ char_free c s.
Proof.
  unfold char_free; simpl. rewrite orb_false_iff, Ascii.eqb_neq. done.
Qed.

Lemma char_free_app c s t : char_free c (s +:+ t) ↔ char_free c s ∧ char_free c t.
Proof.
  induction s as [|a s IH]; simpl.
  - unfold char_free at 2. simpl. naive_solver.
  - rewrite !char_free_cons, IH. naive_solver.
Qed.

Lemma split_char_not_nil c s : split_char c s ≠ [].
Proof. destruct s; simpl; [done|]. case_match; [done|]. by case_match. Qed.

Lemma split_char_free c s : char_free c s → split_char c s = [s].
Proof.
  induction s as [|a s IH]; simpl; [done|].
  rewrite char_free_cons. intros [Ha Hs].
  rewrite (proj2 (Ascii.eqb_neq _ _) Ha), IH by done. done.
Qed.

Lemma split_char_app c s t :
  char_free c s → split_char c (s +:+ String c t) = s :: split_char c t.
Proof.
  induction s as [|a s IH]; simpl.
  - by rewrite Ascii.eqb_refl.
  - rewrite char_free_cons. intros [Ha Hs].
    rewrite (proj2 (Ascii.eqb_neq _ _) Ha), IH by done. done.
Qed.

Lemma split_char_pieces c s : Forall (char_free c) (split_char c s).
Proof.
  induction s as [|a s IH]; simpl.
  - constructor; [done|constructor].
  - destruct (Ascii.eqb_spec a c) as [->|Ha]; [by constructor|].
    destruct (split_char c s) as [|h t] eqn:E; [by destruct (split_char_not_nil c s)|].
    inversion_clear IH. constructor; [|done]. by apply char_free_cons.
Qed.

Lemma join_split c s : join_char c (split_char c s) = s.
Proof.
  induction s as [|a s IH]; simpl; [done|].
  destruct (split_char c s) as [|h t] eqn:E; [by destruct (split_char_not_nil c s)|].
  destruct (Ascii.eqb_spec a c) as [->|Ha].
  - simpl in *. by rewrite IH.
  - simpl in *. destruct t; by rewrite <- IH.
Qed.

Lemma split_join c l :
  l ≠ [] → Forall (char_free c) l → split_char c (join_char c l) = l.
Proof.
  intros Hl. induction 1 as [|x l Hx HF IH]; [done|].
  destruct l as [|y l]; [by apply split_char_free|].
  change (join_char c (x :: y :: l)) with (x +:+ String c (join_char c (y :: l))).
  rewrite split_char_app by done. by rewrite IH.
Qed.

(** ** Lemmas: base64 *)

Lemma b64_val_char n : 0 ≤ n < 64 → b64_val (b64_char n) = Some n.
Proof.
  intros H. unfold b64_char, b64_val, in_range.
  repeat case_match; to_prop; try (f_equal; lia); exfalso; to_prop;
    repeat match goal with Hb : _ && _ = false |- _ => apply andb_false_iff in Hb end;
    to_prop; lia.
Qed.

Lemma b64_val_pad : b64_val b64_pad = None.
Proof. done. Qed.

Lemma b64_char_not_newline n : 0 ≤ n < 64 → not_newline (b64_char n) = true.
Proof.
  intros H. unfold b64_char, not_newline. rewrite negb_true_iff, orb_false_iff.
  repeat case_match; to_prop; lia.
Qed.

Lemma b64_char_byte n : 0 ≤ n < 64 → is_byte (b64_char n).
Proof. intros H. unfold is_byte, b64_char. repeat case_match; to_prop; lia. Qed.

(** Induction three bytes at a time, the encoder's own scheme. *)
Lemma bytes3_ind (P : list Z → Prop) :
  P [] → (∀ a, P [a]) → (∀ a b, P [a; b]) →
  (∀ a b c l, P l → P (a :: b :: c :: l)) → ∀ l, P l.
Proof.
  intros H0 H1 H2 H3. fix IH 1. intros [|a [|b [|c l]]]; [done|auto|auto|].
  apply H3, IH.
Qed.

Ltac digit_bounds := unfold is_byte in *; Z.to_euclidean_division_equations; lia.

Lemma b64_encode_forall (P : Z → Prop) pad bs :
  (∀ n, 0 ≤ n < 64 → P (b64_char n)) → P b64_pad → Forall is_byte bs →
  Forall P (b64_encode_bytes pad bs).
Proof.
  intros Hc Hp.
  induction bs as [|a|a b|a b c l IH] using bytes3_ind; simpl; intros HF;
    rewrite ?Forall_cons in HF; [done| | |];
    destruct pad; repeat (apply Forall_cons; split); try done; try (apply Hc; digit_bounds);
    apply IH; tauto.
Qed.

Lemma b64_encode_chars pad bs :
  Forall is_byte bs →
  Forall (λ c, is_byte c ∧ not_newline c = true) (b64_encode_bytes pad bs).
Proof.
  apply b64_encode_forall; [|done].
  intros n Hn. auto using b64_char_byte, b64_char_not_newline.
Qed.

(** The encoder's bytes are visible ASCII other than the comma. *)
Lemma b64_encode_visible pad bs :
  Forall is_byte bs → Forall (λ c, 32 < c < 127 ∧ c ≠ 36 ∧ c ≠ 44) (b64_encode_bytes pad bs).
Proof.
  apply b64_encode_forall; [|by unfold b64_pad].
  intros n Hn. unfold b64_char. repeat case_match; to_prop; lia.
Qed.

Lemma b64_quanta_encode pad bs :
  Forall is_byte bs → b64_decode_quanta pad (b64_encode_bytes pad bs) = Some bs.
Proof.
  induction bs as [|a|a b|a b c l IH] using bytes3_ind; intros HF;
    rewrite ?Forall_cons in HF; [done| | |].
  - destruct pad; cbn -[Z.mul Z.add Z.div Z.modulo b64_val b64_char];
      rewrite ?b64_val_char by digit_bounds; simpl; do 2 f_equal; digit_bounds.
  - destruct pad; cbn -[Z.mul Z.add Z.div Z.modulo b64_val b64_char];
      rewrite ?b64_val_char by digit_bounds; simpl; repeat f_equal; digit_bounds.
  - cbn -[Z.mul Z.add Z.div Z.modulo b64_val b64_char].
    rewrite ?b64_val_char by digit_bounds. cbn -[Z.mul Z.add Z.div Z.modulo].
    rewrite IH by tauto. simpl. repeat f_equal; digit_bounds.
Qed.

Lemma filter_all {A} (f : A → bool) l : Forall (λ x, f x = true) l → List.filter f l = l.
Proof. induction 1 as [|x l Hx _ IH]; simpl; [done|]. by rewrite Hx, IH. Qed.

(** Decoding undoes encoding, in both variants. *)
Lemma b64_decode_encode pad bs :
  Forall is_byte bs → b64_decode pad (b64_encode pad bs) = Some bs.
Proof.
  intros HF. pose proof (b64_encode_chars pad bs HF) as Hc.
  unfold b64_decode, b64_encode. rewrite bytes_of_bytes.
  - rewrite filter_all; [by apply b64_quanta_encode|].
    eapply Forall_impl; [exact Hc|]. naive_solver.
  - eapply Forall_impl; [exact Hc|]. naive_solver.
Qed.

(** A string is free of a character whose byte it does not have. *)
Lemma char_free_bytes c s : Forall (λ b, b ≠ byte_of c) (bytes s) → char_free c s.
Proof.
  induction s as [|a s IH]; simpl; [done|]. intros [Ha HF]%Forall_cons.
  apply char_free_cons. split; [by intros ->|auto].
Qed.

Lemma char_free_no_byte c s : char_free c s → Forall (λ b, b ≠ byte_of c) (bytes s).
Proof.
  induction s as [|a s IH]; simpl; [done|]. intros [Ha HF]%char_free_cons.
  constructor; [|auto]. intros E. apply Ha. by rewrite <- (ascii_of_byte_of a), E, ascii_of_byte_of.
Qed.

Lemma b64_encode_bytes_of pad bs : Forall is_byte bs → bytes (b64_encode pad bs) = b64_encode_bytes pad bs.
Proof.
  intros HF. apply bytes_of_bytes.
  eapply Forall_impl; [by apply b64_encode_chars|]. by intros ? [].
Qed.

Lemma b64_no_dollar bs : Forall is_byte bs → char_free "$" (b64_encode false bs).
Proof.
  intros HF. apply char_free_bytes. rewrite b64_encode_bytes_of by done.
  eapply Forall_impl; [by apply b64_encode_visible|]. simpl. change (byte_of "$") with 36. lia.
Qed.

(** ** Lemmas: cutting and trimming *)

Lemma cut_char_free c s : char_free c s → cut_char c s = (s, None).
Proof.
  induction s as [|a s IH]; simpl; [done|]. intros [Ha Hs]%char_free_cons.
  rewrite (proj2 (Ascii.eqb_neq _ _) Ha), IH by done. done.
Qed.

Lemma cut_char_app c s t : char_free c s → cut_char c (s +:+ String c t) = (s, Some t).
Proof.
  induction s as [|a s IH]; simpl; [by rewrite Ascii.eqb_refl|]. intros [Ha Hs]%char_free_cons.
  rewrite (proj2 (Ascii.eqb_neq _ _) Ha), IH by done. done.
Qed.

(** A byte of visible ASCII stops the trimming from either side. *)
Lemma trim_left_visible b l : 32 < b < 127 → trim_space_left (b :: l) = b :: l.
Proof.
  intros Hb. simpl. unfold space1, space2, space3, in_range.
  repeat (case_match; to_prop; try done; try lia).
Qed.

Lemma trim_rev_visible b l : 32 < b < 127 → trim_space_rev (b :: l) = b :: l.
Proof.
  intros Hb. simpl. unfold space1, space2, space3, in_range.
  repeat (case_match; to_prop; try done; try lia).
Qed.

(** The first and the last byte are visible: nothing is trimmed but the
    spaces that follow. *)
Definition visible_ends (l : list Z) : Prop :=
  (∃ b t, l = b :: t ∧ 32 < b < 127) ∧ (∃ b t, rev l = b :: t ∧ 32 < b < 127).

Lemma visible_ends_all l : l ≠ [] → Forall (λ b, 32 < b < 127) l → visible_ends l.
Proof.
  intros Hl HF. split.
  - destruct HF; [done|]. by eexists _, _.
  - apply Forall_rev in HF. destruct (rev l) as [|b t] eqn:E.
    + by rewrite <- (rev_involutive l), E in Hl.
    + apply Forall_cons in HF as [Hb _]. by eexists _, _.
Qed.

Lemma visible_ends_app l m n :
  visible_ends l → visible_ends n → visible_ends (l ++ m ++ n).
Proof.
  intros [(b & t & -> & Hb) _] [_ (c & u & Hr & Hc)]. split; [by eexists _, _|].
  rewrite !rev_app_distr, Hr. by eexists _, _.
Qed.

Lemma trim_space_visible s : visible_ends (bytes s) → trim_space s = s.
Proof.
  intros [(b & t & E & Hb) (c & u & Er & Hc)]. unfold trim_space.
  rewrite E, trim_left_visible, <- E by done.
  rewrite Er, trim_rev_visible, <- Er by done. by rewrite rev_involutive, of_bytes_bytes.
Qed.

Lemma trim_space_trailing s : visible_ends (bytes s) → trim_space (s +:+ " ") = s.
Proof.
  intros [(b & t & E & Hb) (c & u & Er & Hc)]. unfold trim_space. rewrite bytes_app, E.
  change (trim_space_left ((b :: t) ++ bytes " ")) with (trim_space_left (b :: t ++ bytes " ")).
  rewrite trim_left_visible, app_comm_cons, <- E, rev_app_distr by done.
  change (rev (bytes " ") ++ rev (bytes s)) with (32 :: rev (bytes s)).
  change (trim_space_rev (32 :: rev (bytes s))) with (trim_space_rev (rev (bytes s))).
  rewrite Er, trim_rev_visible, <- Er by done. by rewrite rev_involutive, of_bytes_bytes.
Qed.

(** ** Lemmas: decimal numbers *)

Lemma parse_digits_utoa n : parse_digits (utoa n) = Some n.
Proof.
  unfold parse_digits, utoa. rewrite NilZero.usu; simpl.
  - by rewrite DecimalN.Unsigned.of_to.
  - by destruct n as [|[]]; try apply DecimalPos.Unsigned.to_uint_nonnil.
Qed.

(** The first character of a printed number is a digit, never a sign. *)
Lemma utoa_head n : ∃ a s, utoa n = String a s ∧ Ascii.eqb a "-" = false ∧ Ascii.eqb a "+" = false.
Proof.
  unfold utoa, NilZero.string_of_uint.
  destruct (N.to_uint n) eqn:E; simpl; eauto.
Qed.

Lemma parse_int64_format z : min_int64 ≤ z ≤ max_int64 → parse_int64 (format_int z) = Ok z.
Proof.
  unfold parse_int64, format_int, min_int64, max_int64. intros Hz.
  destruct (Z.ltb_spec z 0).
  - simpl. unfold parse_uint64. rewrite parse_digits_utoa.
    rewrite (proj2 (Z.leb_le _ _)) by lia.
    rewrite (proj2 (Z.leb_le _ _)) by lia. f_equal. lia.
  - destruct (utoa_head (Z.to_N z)) as (a & s & E & Hm & Hp).
    rewrite E, Hm, Hp, <- E. unfold parse_uint64. rewrite parse_digits_utoa.
    rewrite (proj2 (Z.leb_le _ _)) by lia.
    rewrite (proj2 (Z.ltb_lt _ _)) by lia. f_equal. lia.
Qed.
