(* ===== verification/Path.v ===== *)
(** * path and path/filepath on Unix

    Clean, Join, Dir, Base and IsAbs of the Go standard library, as functions
    on strings. A cleaned absolute path is [render l] for a list [l] of plain
    components; the lemmas move between the two. *)

From S2P Require Import Prelude GoStr.
From Stdlib Require Import Ascii.

Definition slash : ascii := "/"%char.

Definition IsAbs (s : string) : bool := has_prefix s "/".

(** The components kept so far, last first, after one more component. *)
Definition clean_step (rooted : bool) (stack : list string) (c : string) : list string :=
  if String.eqb c "" || String.eqb c "." then stack
  else if String.eqb c ".." then
    match stack with
    | [] => if rooted then [] else [".."]
    | top :: rest => if String.eqb top ".." then ".." :: stack else rest
    end
  else c :: stack.

Definition clean_comps (rooted : bool) (s : string) : list string :=
  rev (fold_left (clean_step rooted) (split_char slash s) []).

Definition join_path (l : list string) : string := join_char slash l.
Definition render (l : list string) : string := String slash (join_path l).

Definition Clean (s : string) : string :=
  if IsAbs s then render (clean_comps true s)
  else match clean_comps false s with [] => "." | l => join_path l end.

(** filepath.Join: empty elements are ignored. *)
Definition Join (elems : list string) : string :=
  match List.filter (λ e, negb (String.eqb e "")) elems with
  | [] => ""
  | l => Clean (join_path l)
  end.

Definition Dir (s : string) : string :=
  match cut_last slash s with
  | None => "."
  | Some (before, _) => Clean (before +:+ "/")
  end.

Definition Base (s : string) : string :=
  if String.eqb s "" then "."
  else let t := trim_right [slash] s in
       let b := match cut_last slash t with None => t | Some (_, after) => after end in
       if String.eqb b "" then "/" else b.

(** ** Plain components *)

Definition plain (c : string) : Prop := c ≠ "" ∧ c ≠ "." ∧ c ≠ ".." ∧ char_free slash c.

#[export] Instance plain_dec c : Decision (plain c).
Proof. unfold plain. apply _. Defined.

Lemma plain_free l : Forall plain l → Forall (char_free slash) l.
Proof. intros HF. eapply Forall_impl; [done|]. by intros c (_ & _ & _ & ?). Qed.

Lemma clean_step_plain rooted stack c : plain c → clean_step rooted stack c = c :: stack.
Proof.
  intros (H1 & H2 & H3 & _). unfold clean_step.
  by rewrite (proj2 (String.eqb_neq _ _) H1), (proj2 (String.eqb_neq _ _) H2),
    (proj2 (String.eqb_neq _ _) H3).
Qed.

Lemma clean_loop_plain rooted l stack :
  Forall plain l → fold_left (clean_step rooted) l stack = rev l ++ stack.
Proof.
  intros HF. revert stack. induction HF as [|c l Hc _ IH]; intros stack; simpl; [done|].
  by rewrite clean_step_plain, IH, <- app_assoc.
Qed.

Lemma clean_loop_rooted cs stack :
  Forall (char_free slash) cs → Forall plain stack →
  Forall plain (fold_left (clean_step true) cs stack).
Proof.
  intros HF. revert stack. induction HF as [|c cs Hc _ IH]; intros stack Hs; simpl; [done|].
  apply IH. unfold clean_step.
  destruct (String.eqb_spec c ""); simpl; [done|].
  destruct (String.eqb_spec c "."); simpl; [done|].
  destruct (String.eqb_spec c "..").
  - destruct Hs as [|top rest Ht Hr]; [done|].
    destruct (String.eqb_spec top ".."); [by destruct Ht as (_ & _ & ? & _)|done].
  - by constructor.
Qed.

Lemma clean_comps_plain s : Forall plain (clean_comps true s).
Proof. apply Forall_rev, clean_loop_rooted; [apply split_char_pieces|constructor]. Qed.

Lemma Clean_abs s : IsAbs s = true → Clean s = render (clean_comps true s).
Proof. unfold Clean. by intros ->. Qed.

Lemma render_abs l : IsAbs (render l) = true.
Proof. done. Qed.

Lemma split_render l :
  Forall plain l →
  split_char slash (render l) = "" :: match l with [] => [""] | _ => l end.
Proof.
  intros HF. change (render l) with ("" +:+ String slash (join_path l)).
  rewrite split_char_app by done. f_equal. destruct l as [|c l]; [done|].
  apply split_join; [done|by apply plain_free].
Qed.

Lemma clean_comps_render rooted l : Forall plain l → clean_comps rooted (render l) = l.
Proof.
  intros HF. unfold clean_comps. rewrite split_render by done. simpl.
  destruct l as [|c l]; [done|].
  by rewrite clean_loop_plain, app_nil_r, rev_involutive.
Qed.

Lemma Clean_render l : Forall plain l → Clean (render l) = render l.
Proof. intros HF. by rewrite Clean_abs, clean_comps_render. Qed.

Lemma render_inj l l' : Forall plain l → Forall plain l' → render l = render l' → l = l'.
Proof.
  intros H H' E. rewrite <- (clean_comps_render true l), <- (clean_comps_render true l') by done.
  by rewrite E.
Qed.

Lemma IsAbs_cons a s : IsAbs (String a s) = Ascii.eqb slash a.
Proof. unfold IsAbs. cbn [has_prefix]. by rewrite andb_true_r. Qed.

Lemma join_path_rel l : Forall plain l → IsAbs (join_path l) = false.
Proof.
  intros [|c l' (Hne & _ & _ & Hf) _]; [done|]. destruct c as [|a c]; [done|].
  apply char_free_cons in Hf as [Ha _].
  unfold join_path; cbn [join_char]. destruct l'; cbn [String.append];
    rewrite IsAbs_cons; apply Ascii.eqb_neq; congruence.
Qed.

Lemma Clean_join_path l : Forall plain l → l ≠ [] → Clean (join_path l) = join_path l.
Proof.
  intros Hl Hne. unfold Clean. rewrite join_path_rel by done.
  unfold clean_comps, join_path at 1. rewrite split_join by (done || by apply plain_free).
  rewrite clean_loop_plain, app_nil_r, rev_involutive by done. by destruct l.
Qed.

(** ** Join, Dir and Base of cleaned paths *)

Lemma join_path_app l l' :
  l ≠ [] → l' ≠ [] → join_path (l ++ l') = join_path l +:+ String slash (join_path l').
Proof.
  intros Hl Hl'. unfold join_path. induction l as [|c l IH]; [done|].
  destruct l as [|d l]; simpl.
  - by destruct l'.
  - simpl in IH. rewrite IH by done. by rewrite app_str_assoc.
Qed.

Lemma join_path_not_nil l : Forall plain l → l ≠ [] → join_path l ≠ "".
Proof.
  intros HF Hl. destruct HF as [|c l (Hc & _) _]; [done|].
  unfold join_path; simpl. destruct l; [done|]. by destruct c.
Qed.

(** Appending a relative path of plain components. *)
Lemma Join_render l r :
  Forall plain l → Forall plain r → Join [render l; join_path r] = render (l ++ r).
Proof.
  intros Hl Hr. unfold Join; simpl. destruct r as [|c r].
  - rewrite app_nil_r. change (Clean (render l) = render l). by apply Clean_render.
  - rewrite (proj2 (String.eqb_neq _ _)) by (by apply join_path_not_nil). simpl.
    change (join_path [render l; join_path (c :: r)])
      with (render l +:+ String slash (join_path (c :: r))).
    rewrite Clean_abs by done. f_equal. unfold clean_comps.
    change (render l +:+ String slash (join_path (c :: r)))
      with ("" +:+ String slash (join_path l +:+ String slash (join_path (c :: r)))).
    rewrite split_char_app by done. destruct (decide (l = [])) as [->|Hne].
    + change (join_path [] +:+ String slash (join_path (c :: r)))
        with ("" +:+ String slash (join_path (c :: r))).
      rewrite split_char_app by done. unfold join_path. rewrite split_join by (done || by apply plain_free).
      simpl. rewrite clean_step_plain by (by inversion Hr).
      rewrite clean_loop_plain by (by inversion Hr). rewrite rev_app_distr, rev_involutive. done.
    + rewrite <- join_path_app by done. unfold join_path.
      rewrite split_join; [|by destruct l|apply plain_free, Forall_app; by split].
      cbn [fold_left]. change (clean_step true [] "") with (@nil string).
      rewrite clean_loop_plain by (apply Forall_app; by split).
      by rewrite app_nil_r, rev_involutive.
Qed.

Lemma cut_last_app c s t :
  char_free c t → cut_last c (s +:+ String c t) = Some (s, t).
Proof.
  assert (∀ u, char_free c u → cut_last c u = None) as Hfree.
  { induction u as [|a u IH]; [done|]. intros [Ha Hu]%char_free_cons. simpl. rewrite IH by done.
    by rewrite (proj2 (Ascii.eqb_neq _ _) Ha). }
  intros Ht. induction s as [|a s IH]; simpl.
  - rewrite Hfree by done. by rewrite Ascii.eqb_refl.
  - by rewrite IH.
Qed.

Lemma render_snoc l c :
  render (l ++ [c]) = (match l with [] => "" | _ => render l end) +:+ String slash c.
Proof.
  destruct l as [|d l]; [done|].
  unfold render. rewrite join_path_app by done. done.
Qed.

Lemma Dir_render l c : Forall plain l → plain c → Dir (render (l ++ [c])) = render l.
Proof.
  intros Hl Hc. unfold Dir. rewrite render_snoc, cut_last_app by apply Hc.
  destruct l as [|d l]; [done|].
  rewrite Clean_abs by done. f_equal. unfold clean_comps.
  change (render (d :: l) +:+ "/") with ("" +:+ String slash (join_path (d :: l) +:+ String slash "")).
  rewrite split_char_app by done.
  replace (join_path (d :: l) +:+ String slash "") with (join_path ((d :: l) ++ [""])).
  2:{ rewrite join_path_app by done. done. }
  unfold join_path. rewrite split_join; [|by destruct l|].
  - cbn [fold_left]. change (clean_step true [] "") with (@nil string).
    rewrite fold_left_app, (clean_loop_plain true (d :: l)), app_nil_r by done.
    change (rev (rev (d :: l)) = d :: l). apply rev_involutive.
  - apply Forall_app; split; [by apply plain_free|]. constructor; done.
Qed.

Lemma Dir_root : Dir (render []) = render [].
Proof. done. Qed.

Lemma trim_right_free cut s a :
  existsb (Ascii.eqb a) cut = false →
  trim_right cut (s +:+ String a "") = s +:+ String a "".
Proof.
  intros Ha. induction s as [|b s IH]; simpl; [by rewrite Ha|].
  rewrite IH. by destruct s.
Qed.

Lemma string_snoc s : s ≠ "" → ∃ s' a, s = s' +:+ String a "".
Proof.
  induction s as [|a s IH]; [done|]. intros _. destruct s as [|b s].
  - by exists "", a.
  - destruct IH as (s' & c & E); [done|]. exists (String a s'), c. by rewrite E.
Qed.

Lemma Base_render l c : plain c → Base (render (l ++ [c])) = c.
Proof.
  intros (Hne & _ & _ & Hfree). rewrite render_snoc. unfold Base.
  generalize (match l with [] => "" | _ => render l end). intros p.
  rewrite (proj2 (String.eqb_neq _ _)) by (by destruct p).
  destruct (string_snoc c Hne) as (c' & a & ->).
  apply char_free_app in Hfree as [Hf' [Ha _]%char_free_cons].
  change (p +:+ String slash (c' +:+ String a "")) with (p +:+ ((String slash c') +:+ String a "")).
  rewrite <- app_str_assoc, trim_right_free.
  2:{ simpl. by rewrite (proj2 (Ascii.eqb_neq _ _) Ha). }
  rewrite app_str_assoc. simpl. rewrite cut_last_app.
  - by rewrite (proj2 (String.eqb_neq _ _) Hne).
  - apply char_free_app; split; [done|]. apply char_free_cons. by split.
Qed.

(** ** The boundary test of the file store *)

(** [root + "/"] is a prefix of [p]: [p] lies strictly below [root], except
    that nothing lies below "/". *)
Lemma has_prefix_render l r :
  Forall plain l → Forall plain r →
  has_prefix (render r) (render l +:+ "/") = true ↔ l ≠ [] ∧ ∃ c r', r = l ++ c :: r'.
Proof.
  intros Hl Hr. rewrite has_prefix_true. split.
  - intros [t E]. destruct l as [|d l].
    { exfalso. change ((render [] +:+ "/") +:+ t) with (String slash (String slash t)) in E.
      destruct Hr as [|c r (Hc & _ & _ & Hf) _]; [done|]. injection E as E.
      unfold join_path in E; simpl in E.
      destruct c as [|a c]; [done|]. apply char_free_cons in Hf as [Ha _].
      destruct r; simpl in E; congruence. }
    split; [done|].
    rewrite app_str_assoc in E. change ("/" +:+ t) with (String slash t) in E.
    assert (split_char slash (render r) = split_char slash (render (d :: l) +:+ String slash t)) as Es
      by by rewrite E.
    rewrite split_render in Es by done.
    change (render (d :: l) +:+ String slash t)
      with ("" +:+ String slash (join_path (d :: l) +:+ String slash t)) in Es.
    rewrite split_char_app in Es by done. injection Es as Es.
    assert (∀ k u, k ≠ [] → Forall (char_free slash) k →
      split_char slash (join_path k +:+ String slash u) = k ++ split_char slash u) as Hsplit.
    { intros k u Hk HF. induction HF as [|x k Hx HF IH]; [done|]. destruct k as [|y k].
      - unfold join_path; simpl. by rewrite split_char_app.
      - change (join_path (x :: y :: k) +:+ String slash u)
          with ((x +:+ String slash (join_path (y :: k))) +:+ String slash u).
        rewrite app_str_assoc. simpl. rewrite split_char_app by done. f_equal. by apply IH. }
    rewrite Hsplit in Es by (done || by apply plain_free).
    destruct (split_char slash t) as [|c r'] eqn:Et; [by destruct (split_char_not_nil slash t)|].
    destruct r as [|e r]; [|by exists c, r'].
    by destruct l.
  - intros (Hne & c & r' & ->). exists (join_path (c :: r')).
    unfold render. rewrite join_path_app by done. simpl. by rewrite app_str_assoc.
Qed.
