(* ===== verification/Fs.v ===== *)
(** * The file system under package os

    Files, directories and symbolic links by their location, the list of names
    from the root. [walk] is the kernel's path resolution; [EvalSymlinks] the
    one of path/filepath. [fault] is the error the environment returns for a
    system call on a path, [None] when the call goes ahead; [stamp] the time
    writes leave on files; [device] the file system a directory is on. *)

From S2P Require Import Prelude GoStr Path.
From Stdlib Require Import Ascii.

Inductive node :=
  | File (data : string) (mtime : Z)
  | Directory (size mtime : Z)
  | Symlink (target : string) (mtime : Z).

Inductive sysop :=
  | SStat | SLstat | SOpen | SRead | SWrite | SReadDir | SRemove | SMkdir | SRename.

Abbreviation loc := (list string).

Record FS := MkFS {
  nodes : gmap loc node;
  cwd : loc;
  fault : sysop → string → error;
  short : string → nat;              (* how much of a write that fails goes through *)
  stamp : Z;
  device : loc → Z;
}.

Definition with_nodes (fs : FS) (m : gmap loc node) : FS :=
  MkFS m (cwd fs) (fault fs) (short fs) (stamp fs) (device fs).

Definition is_dir (n : node) : bool := match n with Directory _ _ => true | _ => false end.
Definition is_link (n : node) : bool := match n with Symlink _ _ => true | _ => false end.

Definition node_size (n : node) : Z :=
  match n with File d _ => slen d | Directory s _ => s | Symlink t _ => slen t end.
Definition node_mtime (n : node) : Z :=
  match n with File _ t | Directory _ t | Symlink _ t => t end.

(** ** Path resolution *)

Inductive walk_result :=
  | Found (l : loc)                      (* an existing node *)
  | Missing (dir : loc) (name : string)  (* a free name in an existing directory *)
  | Failed (e : sentinel).

Definition parent (l : loc) : loc := removelast l.

(** Resolution of the components [comps] from [cur], through at most [links]
    symbolic links; [follow] says what to do with a link at the end. *)
Fixpoint walk (links : nat) (m : gmap loc node) (follow : bool) : loc → list string → walk_result :=
  fix go (cur : loc) (comps : list string) {struct comps} : walk_result :=
    match comps with
    | [] => Found cur
    | c :: rest =>
       match m !! cur with
       | None => Failed ErrNotExist
       | Some (Directory _ _) =>
          if String.eqb c "" || String.eqb c "." then go cur rest
          else if String.eqb c ".." then go (parent cur) rest
          else match m !! (cur ++ [c]) with
          | None => if bool_decide (rest = []) then Missing cur c else Failed ErrNotExist
          | Some (Symlink t _) =>
             if bool_decide (rest = []) && negb follow then Found (cur ++ [c])
             else match links with
             | O => Failed ErrLoop
             | S links' =>
                walk links' m follow (if IsAbs t then [] else cur) (split_char slash t ++ rest)
             end
          | Some _ => go (cur ++ [c]) rest
          end
       | Some _ => Failed ErrNotDir
       end
    end.

#[global] Arguments walk : simpl never.

(** The kernel gives up after forty links. *)
Definition resolve_path (fs : FS) (path : string) (follow : bool) : walk_result :=
  if String.eqb path "" then Failed ErrNotExist
  else if contains_char "000"%char path then Failed ErrInvalid
  else walk 40 (nodes fs) follow (if IsAbs path then [] else cwd fs) (split_char slash path).

(** *PathError *)
Definition path_error (op path : string) (e : goerr) : goerr :=
  EWrap (op +:+ " " +:+ path +:+ ": ") e "".

Definition sys {A} (fs : FS) (op : sysop) (name path : string) (k : result A) : result A :=
  match fault fs op path with
  | Some e => Err (path_error name path e)
  | None => k
  end.

(** The node a call by [path] reaches. *)
Definition reach (fs : FS) (name path : string) (follow : bool) : result (loc * node) :=
  match resolve_path fs path follow with
  | Found l =>
     match nodes fs !! l with
     | Some n => Ok (l, n)
     | None => Err (path_error name path (ESent ErrNotExist))
     end
  | Missing _ _ => Err (path_error name path (ESent ErrNotExist))
  | Failed e => Err (path_error name path (ESent e))
  end.

(** filepath.EvalSymlinks of an absolute path. *)
Definition EvalSymlinks (fs : FS) (path : string) : result string :=
  sys fs SLstat "lstat" path
    match walk 255 (nodes fs) true [] (split_char slash path) with
    | Found l => Ok (render l)
    | Missing _ _ => Err (path_error "lstat" path (ESent ErrNotExist))
    | Failed ErrLoop => Err (EMsg "EvalSymlinks: too many links")
    | Failed e => Err (path_error "lstat" path (ESent e))
    end.

(** filepath.Abs *)
Definition Abs (fs : FS) (path : string) : string :=
  if IsAbs path then Clean path else Join [render (cwd fs); path].

(** ** System calls *)

Definition Stat (fs : FS) (path : string) : result node :=
  sys fs SStat "stat" path ('(_, n) ← reach fs "stat" path true; Ok n).

Definition Lstat (fs : FS) (path : string) : result node :=
  sys fs SLstat "lstat" path ('(_, n) ← reach fs "lstat" path false; Ok n).

(** os.Open, for reading. *)
Definition os_Open (fs : FS) (path : string) : result loc :=
  sys fs SOpen "open" path ('(l, _) ← reach fs "open" path true; Ok l).

(** Reading an open file to its end. *)
Definition read_all (fs : FS) (path : string) (l : loc) : result string :=
  sys fs SRead "read" path
    match nodes fs !! l with
    | Some (File d _) => Ok d
    | _ => Err (path_error "read" path (ESent ErrIsDir))
    end.

(** os.OpenFile with O_CREATE|O_EXCL. *)
Definition create_excl (fs : FS) (path : string) : result FS :=
  sys fs SOpen "open" path
    match resolve_path fs path false with
    | Found _ => Err (path_error "open" path (ESent ErrExist))
    | Missing d c => Ok (with_nodes fs (<[d ++ [c] := File "" (stamp fs)]> (nodes fs)))
    | Failed e => Err (path_error "open" path (ESent e))
    end.

(** os.OpenFile with O_WRONLY alone: the location of the file. *)
Definition open_wronly (fs : FS) (path : string) : result loc :=
  sys fs SOpen "open" path
    match reach fs "open" path true with
    | Ok (l, Directory _ _) => Err (path_error "open" path (ESent ErrIsDir))
    | Ok (l, _) => Ok l
    | Err e => Err e
    end.

(** os.OpenFile with O_CREATE|O_TRUNC. A link at the end is followed, also to
    a name that does not exist yet. *)
Definition create_trunc (fs : FS) (path : string) : result (FS * loc) :=
  sys fs SOpen "open" path
    match resolve_path fs path true with
    | Found l =>
       match nodes fs !! l with
       | Some (Directory _ _) => Err (path_error "open" path (ESent ErrIsDir))
       | _ => Ok (with_nodes fs (<[l := File "" (stamp fs)]> (nodes fs)), l)
       end
    | Missing d c =>
       Ok (with_nodes fs (<[d ++ [c] := File "" (stamp fs)]> (nodes fs)), d ++ [c])
    | Failed e => Err (path_error "open" path (ESent e))
    end.

(** os.OpenFile with O_CREATE|O_WRONLY: an existing file is left as it is. *)
Definition open_create (fs : FS) (path : string) : result FS :=
  sys fs SOpen "open" path
    match resolve_path fs path true with
    | Found l =>
       match nodes fs !! l with
       | Some (Directory _ _) => Err (path_error "open" path (ESent ErrIsDir))
       | _ => Ok fs
       end
    | Missing d c => Ok (with_nodes fs (<[d ++ [c] := File "" (stamp fs)]> (nodes fs)))
    | Failed e => Err (path_error "open" path (ESent e))
    end.

(** The first [n] bytes of a string, filled up with zero bytes. *)
Fixpoint take_str (n : nat) (s : string) : string :=
  match n, s with
  | O, _ => ""
  | S n', EmptyString => String "000" (take_str n' "")
  | S n', String a s' => String a (take_str n' s')
  end.

(** Writing [data] at offset [off] of an open file; no data leave it as it is,
    its time included. *)
Definition write_at (fs : FS) (l : loc) (off : Z) (data : string) : FS :=
  if String.eqb data "" then fs else
  match nodes fs !! l with
  | Some (File d _) =>
     with_nodes fs
       (<[l := File (take_str (Z.to_nat off) d +:+ data +:+
                     drop_str (Z.to_nat off + String.length data) d) (stamp fs)]> (nodes fs))
  | _ => fs
  end.

(** Writing [data] to the open file at [l], from [off] on: the bytes written.
    Nothing is asked of the disk for no data. *)
Definition write_all (fs : FS) (path : string) (l : loc) (off : Z) (data : string) : Z * error * FS :=
  if String.eqb data "" then (0, None, fs) else
  match fault fs SWrite path with
  | Some e =>
     let part := String.substring 0 (short fs path) data in
     (slen part, Some (path_error "write" path e), write_at fs l off part)
  | None => (slen data, None, write_at fs l off data)
  end.

(** os.WriteFile *)
Definition WriteFile (fs : FS) (path data : string) : error * FS :=
  match create_trunc fs path with
  | Err e => (Some e, fs)
  | Ok (fs', l) =>
     let '(_, err, fs'') := write_all fs' path l 0 data in (err, fs'')
  end.

(** os.ReadFile *)
Definition ReadFile (fs : FS) (path : string) : result string :=
  l ← os_Open fs path; read_all fs path l.

Definition child_name (d l : loc) : option string :=
  match last l with
  | Some c => if bool_decide (l = d ++ [c]) then Some c else None
  | None => None
  end.

(** The entries of a directory, by name. *)
Definition children (m : gmap loc node) (d : loc) : list (string * node) :=
  merge_sort (λ a b, String.le a.1 b.1)
    (omap (λ p, c ← child_name d p.1; Some (c, p.2)) (map_to_list m)).

Definition ReadDir (fs : FS) (path : string) : result (list (string * node)) :=
  '(l, n) ← sys fs SOpen "open" path (reach fs "open" path true);
  sys fs SReadDir "readdirent" path
    match n with
    | Directory _ _ => Ok (children (nodes fs) l)
    | _ => Err (path_error "readdirent" path (ESent ErrNotDir))
    end.

(** os.Remove: unlink, or rmdir of an empty directory. *)
Definition Remove (fs : FS) (path : string) : error * FS :=
  match sys fs SRemove "remove" path (reach fs "remove" path false) with
  | Err e => (Some e, fs)
  | Ok (l, n) =>
     if is_dir n && negb (bool_decide (children (nodes fs) l = []))
     then (Some (path_error "remove" path (ESent ErrNotEmpty)), fs)
     else (None, with_nodes fs (delete l (nodes fs)))
  end.

Definition Mkdir (fs : FS) (path : string) : error * FS :=
  match sys fs SMkdir "mkdir" path
          match resolve_path fs path false with
          | Found _ => Err (path_error "mkdir" path (ESent ErrExist))
          | Missing d c => Ok (with_nodes fs (<[d ++ [c] := Directory 4096 (stamp fs)]> (nodes fs)))
          | Failed e => Err (path_error "mkdir" path (ESent e))
          end with
  | Err e => (Some e, fs)
  | Ok fs' => (None, fs')
  end.

(** The parent os.MkdirAll recurses on. *)
Definition parent_path (path : string) : string :=
  match cut_last slash (trim_right [slash] path) with
  | Some (before, _) => before
  | None => ""
  end.

(** os.MkdirAll; each call is for a shorter path. *)
Fixpoint MkdirAll_loop (fuel : nat) (fs : FS) (path : string) : error * FS :=
  match Stat fs path with
  | Ok n =>
     if is_dir n then (None, fs) else (Some (path_error "mkdir" path (ESent ErrNotDir)), fs)
  | Err _ =>
     let '(e, fs1) :=
       match fuel with
       | S fuel' => if String.eqb (parent_path path) "" then (None, fs)
                    else MkdirAll_loop fuel' fs (parent_path path)
       | O => (None, fs)
       end in
     match e with
     | Some e => (Some e, fs1)
     | None =>
        match Mkdir fs1 path with
        | (Some e, fs2) =>
           match Lstat fs2 path with
           | Ok n => if is_dir n then (None, fs2) else (Some e, fs2)
           | Err _ => (Some e, fs2)
           end
        | (None, fs2) => (None, fs2)
        end
     end
  end.

Definition MkdirAll (fs : FS) (path : string) : error * FS :=
  MkdirAll_loop (String.length path) fs path.

(** *LinkError *)
Definition link_error (old new : string) (e : goerr) : error :=
  Some (EWrap ("rename " +:+ old +:+ " " +:+ new +:+ ": ") e "").

(** The location a name refers to, whether or not something is there. *)
Definition target_loc (w : walk_result) : result loc :=
  match w with
  | Found l => Ok l
  | Missing d c => Ok (d ++ [c])
  | Failed e => Err (ESent e)
  end.

(** rename(2) of something other than a directory. *)
Definition rename_sys (fs : FS) (old new : string) : result FS :=
  match fault fs SRename old with
  | Some e => Err e
  | None =>
     l ← target_loc (resolve_path fs old false);
     l' ← target_loc (resolve_path fs new false);
     match nodes fs !! l with
     | None => Err (ESent ErrNotExist)
     | Some n =>
        if device fs (parent l) =? device fs (parent l')
        then Ok (with_nodes fs (<[l' := n]> (delete l (nodes fs))))
        else Err (ESent ErrCrossDevice)
     end
  end.

(** os.Rename *)
Definition Rename (fs : FS) (old new : string) : error * FS :=
  let onto_dir := match Lstat fs new with Ok n => is_dir n | Err _ => false end in
  if onto_dir then (link_error old new (ESent ErrExist), fs)
  else match rename_sys fs old new with
  | Err e => (link_error old new e, fs)
  | Ok fs' => (None, fs')
  end.

(** ** Real locations

    A location all of whose ancestors are directories, and that exists and is
    not a link: what a resolved path leads to. *)

Inductive real_dir (m : gmap loc node) : loc → Prop :=
  | real_root s t : m !! [] = Some (Directory s t) → real_dir m []
  | real_child l c s t :
      real_dir m l → plain c → m !! (l ++ [c]) = Some (Directory s t) → real_dir m (l ++ [c]).

Definition real (m : gmap loc node) (l : loc) : Prop :=
  real_dir m l ∨
  ∃ d c data t, l = d ++ [c] ∧ real_dir m d ∧ plain c ∧ m !! l = Some (File data t).

Lemma real_dir_node m l : real_dir m l → ∃ s t, m !! l = Some (Directory s t).
Proof. destruct 1; eauto. Qed.

Lemma real_dir_plain m l : real_dir m l → Forall plain l.
Proof. induction 1; [done|]. apply Forall_app. by split; [|constructor]. Qed.

Lemma real_plain m l : real m l → Forall plain l.
Proof.
  intros [Hd|(d & c & data & t & -> & Hd%real_dir_plain & Hc & _)]; [by eapply real_dir_plain|].
  apply Forall_app. by split; [|constructor].
Qed.

Lemma real_dir_parent m l : real_dir m l → real_dir m (parent l).
Proof.
  unfold parent. destruct 1 as [s t Hr|l c s t Hl Hc Hlk]; [by econstructor|].
  by rewrite removelast_last.
Qed.

Lemma walk_unfold links m follow cur comps :
  walk links m follow cur comps =
  match comps with
  | [] => Found cur
  | c :: rest =>
     match m !! cur with
     | None => Failed ErrNotExist
     | Some (Directory _ _) =>
        if String.eqb c "" || String.eqb c "." then walk links m follow cur rest
        else if String.eqb c ".." then walk links m follow (parent cur) rest
        else match m !! (cur ++ [c]) with
        | None => if bool_decide (rest = []) then Missing cur c else Failed ErrNotExist
        | Some (Symlink t _) =>
           if bool_decide (rest = []) && negb follow then Found (cur ++ [c])
           else match links with
           | O => Failed ErrLoop
           | S links' =>
              walk links' m follow (if IsAbs t then [] else cur) (split_char slash t ++ rest)
           end
        | Some _ => walk links m follow (cur ++ [c]) rest
        end
     | Some _ => Failed ErrNotDir
     end
  end.
Proof. by destruct links, comps. Qed.

Lemma component_plain c :
  char_free slash c → String.eqb c "" || String.eqb c "." = false → String.eqb c ".." = false →
  plain c.
Proof.
  intros Hf [H1 H2]%orb_false_iff H3. unfold plain.
  apply String.eqb_neq in H1, H2, H3. done.
Qed.

(** What resolution can answer: a real node, a link left unfollowed, or a free
    name in a real directory. *)
Definition walk_ok (m : gmap loc node) (follow : bool) (r : walk_result) : Prop :=
  match r with
  | Found l => real m l ∨ (follow = false ∧ ∃ d c t u, l = d ++ [c] ∧ real_dir m d ∧ plain c ∧
      m !! l = Some (Symlink t u))
  | Missing d c => real_dir m d ∧ plain c ∧ m !! (d ++ [c]) = None
  | Failed _ => True
  end.

Lemma walk_sound links m follow cur comps :
  real_dir m [] → (real m cur) → Forall (char_free slash) comps →
  walk_ok m follow (walk links m follow cur comps).
Proof.
  intros Hroot. revert cur comps. induction links as [links IHl] using lt_wf_ind.
  intros cur comps. revert cur. induction comps as [|c rest IH]; intros cur Hcur HF.
  { rewrite walk_unfold. by left. }
  apply Forall_cons in HF as [Hc HF]. rewrite walk_unfold.
  destruct (m !! cur) as [[d u|s u|t u]|] eqn:E; try done.
  assert (real_dir m cur) as Hdir.
  { destruct Hcur as [|(? & ? & ? & ? & _ & _ & _ & Hf)]; [done|congruence]. }
  destruct (_ || _) eqn:E1; [by apply IH|].
  destruct (String.eqb c "..") eqn:E2; [by apply IH; [left; apply real_dir_parent|]|].
  pose proof (component_plain _ Hc E1 E2) as Hp.
  destruct (m !! (cur ++ [c])) as [[d' u'|s' u'|t' u']|] eqn:E'.
  - apply IH; [|done]. right. by exists cur, c, d', u'.
  - apply IH; [|done]. left. by econstructor.
  - case_bool_decide as Hrest; simpl.
    + destruct follow; simpl.
      * destruct links as [|links]; [done|]. apply IHl; [lia| |].
        -- destruct (IsAbs t'); by left.
        -- apply Forall_app. by split; [apply split_char_pieces|].
      * right. split; [done|]. by exists cur, c, t', u'.
    + destruct links as [|links]; [done|]. apply IHl; [lia| |].
      * destruct (IsAbs t'); by left.
      * apply Forall_app. by split; [apply split_char_pieces|].
  - by case_bool_decide.
Qed.

Lemma walk_dir links m follow d rest :
  real_dir m d → walk links m follow [] (d ++ rest) = walk links m follow d rest.
Proof.
  intros Hd. revert rest. induction Hd as [s t Hr|l c s t Hl IH Hc Hlk]; intros rest; [done|].
  rewrite <- app_assoc, IH. simpl. rewrite walk_unfold.
  destruct (real_dir_node _ _ Hl) as (s' & t' & ->). destruct Hc as (H1 & H2 & H3 & _).
  by rewrite (proj2 (String.eqb_neq _ _) H1), (proj2 (String.eqb_neq _ _) H2),
    (proj2 (String.eqb_neq _ _) H3), Hlk.
Qed.

(** One plain name below a real directory. *)
Lemma walk_child links m follow d c rest :
  real_dir m d → plain c →
  walk links m follow d (c :: rest) =
  match m !! (d ++ [c]) with
  | None => if bool_decide (rest = []) then Missing d c else Failed ErrNotExist
  | Some (Symlink t _) =>
     if bool_decide (rest = []) && negb follow then Found (d ++ [c])
     else match links with
     | O => Failed ErrLoop
     | S links' => walk links' m follow (if IsAbs t then [] else d) (split_char slash t ++ rest)
     end
  | Some _ => walk links m follow (d ++ [c]) rest
  end.
Proof.
  intros Hd (H1 & H2 & H3 & _). rewrite walk_unfold.
  destruct (real_dir_node _ _ Hd) as (s' & t' & ->).
  by rewrite (proj2 (String.eqb_neq _ _) H1), (proj2 (String.eqb_neq _ _) H2),
    (proj2 (String.eqb_neq _ _) H3).
Qed.

Lemma walk_real links m follow l : real m l → walk links m follow [] l = Found l.
Proof.
  intros [Hd|(d & c & data & t & -> & Hd & Hc & Hf)].
  - rewrite <- (app_nil_r l) at 1. by rewrite walk_dir, walk_unfold.
  - by rewrite walk_dir, walk_child, Hf, walk_unfold.
Qed.

Lemma walk_split_render links m follow l :
  real_dir m [] → Forall plain l →
  walk links m follow [] (split_char slash (render l)) = walk links m follow [] l.
Proof.
  intros Hroot Hl. destruct (real_dir_node _ _ Hroot) as (s & t & Hr).
  rewrite split_render by done. rewrite walk_unfold, Hr; simpl.
  destruct l as [|c l]; [|done]. by rewrite walk_unfold, Hr.
Qed.

(** What an operating system guarantees: a root directory, names without NUL
    bytes, and no error that claims a name is missing when it is not. *)
Definition fs_wf (fs : FS) : Prop :=
  real_dir (nodes fs) [] ∧ map_Forall (λ l _, Forall (char_free "000") l) (nodes fs) ∧
  ∀ op path e, fault fs op path = Some e → errors_is e ErrNotExist = false.

Lemma render_nul l :
  Forall (char_free "000") l → contains_char "000" (render l) = false.
Proof.
  intros HF. unfold render; simpl. unfold join_path.
  induction HF as [|c l Hc HF IH]; [done|]. destruct l as [|d l]; [done|].
  simpl in *. apply char_free_app. split; [done|]. apply char_free_cons. by split.
Qed.

Lemma resolve_render fs l follow :
  fs_wf fs → Forall plain l → Forall (char_free "000") l →
  resolve_path fs (render l) follow = walk 40 (nodes fs) follow [] l.
Proof.
  intros (Hroot & _ & _) Hl Hn. unfold resolve_path.
  rewrite (proj2 (String.eqb_neq _ _)) by done. rewrite render_nul by done.
  rewrite render_abs. by apply walk_split_render.
Qed.

Lemma real_nul fs l : fs_wf fs → real (nodes fs) l → Forall (char_free "000") l.
Proof.
  intros (_ & Hn & _) [Hd|(d & c & data & t & _ & _ & _ & Hf)].
  - destruct (real_dir_node _ _ Hd) as (s & t & Hl). by apply Hn in Hl.
  - by apply Hn in Hf.
Qed.

Lemma reach_real fs name l n follow :
  fs_wf fs → real (nodes fs) l → nodes fs !! l = Some n →
  reach fs name (render l) follow = Ok (l, n).
Proof.
  intros Hwf Hl Hn. unfold reach.
  rewrite resolve_render, walk_real by (done || by eapply real_plain || by eapply real_nul).
  by rewrite Hn.
Qed.

Lemma resolve_child fs d c follow :
  fs_wf fs → real_dir (nodes fs) d → plain c → char_free "000" c →
  nodes fs !! (d ++ [c]) = None →
  resolve_path fs (render (d ++ [c])) follow = Missing d c.
Proof.
  intros Hwf Hd Hc Hn Hm. rewrite resolve_render; [|done| |].
  - by rewrite walk_dir, walk_child, Hm.
  - apply Forall_app. split; [by eapply real_dir_plain|by constructor].
  - apply Forall_app. split; [eapply real_nul; [done|by left]|by constructor].
Qed.

Lemma real_exists m l : real m l → ∃ n, m !! l = Some n ∧ is_link n = false.
Proof.
  intros [(s & t & ->)%real_dir_node|(d & c & data & t & _ & _ & _ & ->)]; eauto.
Qed.

Lemma EvalSymlinks_cases fs path :
  fs_wf fs →
  match EvalSymlinks fs path with
  | Ok p => ∃ l, p = render l ∧ real (nodes fs) l ∧
      walk 255 (nodes fs) true [] (split_char slash path) = Found l
  | Err e => errors_is e ErrNotExist = true →
      walk 255 (nodes fs) true [] (split_char slash path) = Failed ErrNotExist ∨
      ∃ d c, walk 255 (nodes fs) true [] (split_char slash path) = Missing d c
  end.
Proof.
  intros (Hroot & _ & Hf). unfold EvalSymlinks, sys.
  destruct (fault fs SLstat path) as [e|] eqn:E; [simpl; by rewrite (Hf _ _ _ E)|].
  pose proof (walk_sound 255 (nodes fs) true [] (split_char slash path) Hroot) as Hw.
  destruct (walk _ _ _ _ _) as [l|d c|e].
  - exists l. split_and!; [done| |done].
    destruct Hw as [Hr|[[=] _]]; [by left|by apply split_char_pieces|done].
  - eauto.
  - destruct e; simpl; eauto; done.
Qed.

(** ** Resolution of a path and of its prefixes *)

Lemma walk_app links m cur pre post b :
  walk links m true cur pre = Found b →
  ∃ links', (links' ≤ links)%nat ∧ walk links m true cur (pre ++ post) = walk links' m true b post.
Proof.
  revert cur pre. induction links as [links IHl] using lt_wf_ind.
  intros cur pre. revert cur. induction pre as [|c rest IH]; intros cur.
  { rewrite walk_unfold. intros [= ->]. by exists links. }
  rewrite walk_unfold. intros Hw. simpl. rewrite walk_unfold.
  destruct (m !! cur) as [[d u|s u|t u]|]; try done.
  destruct (_ || _); [by apply IH|]. destruct (String.eqb c ".."); [by apply IH|].
  destruct (m !! (cur ++ [c])) as [[d' u'|s' u'|t' u']|]; [by apply IH|by apply IH| |by case_bool_decide].
  rewrite andb_false_r in Hw |- *. destruct links as [|links]; [done|].
  apply (IHl links) in Hw as (k & Hk & Hw); [|lia].
  exists k. split; [lia|]. by rewrite <- app_assoc in Hw.
Qed.

Lemma walk_prefix links m cur pre post x :
  walk links m true cur (pre ++ post) = Found x → ∃ b, walk links m true cur pre = Found b.
Proof.
  revert cur pre. induction links as [links IHl] using lt_wf_ind.
  intros cur pre. revert cur. induction pre as [|c rest IH]; intros cur.
  { intros _. exists cur. by rewrite walk_unfold. }
  simpl. rewrite (walk_unfold _ _ _ _ (c :: rest)), walk_unfold.
  destruct (m !! cur) as [[d u|s u|t u]|]; try done.
  destruct (_ || _); [by apply IH|]. destruct (String.eqb c ".."); [by apply IH|].
  destruct (m !! (cur ++ [c])) as [[d' u'|s' u'|t' u']|]; [by apply IH|by apply IH| |by case_bool_decide].
  rewrite !andb_false_r. destruct links as [|links]; [done|].
  rewrite app_assoc. apply IHl. lia.
Qed.

(** The number of links allowed only decides between an answer and ErrLoop. *)
Lemma walk_more links m follow cur comps :
  walk links m follow cur comps = Failed ErrLoop ∨
  ∀ links', (links ≤ links')%nat →
    walk links' m follow cur comps = walk links m follow cur comps.
Proof.
  revert cur comps. induction links as [links IHl] using lt_wf_ind.
  intros cur comps. revert cur. induction comps as [|c rest IH]; intros cur.
  { right. intros. by rewrite !(walk_unfold _ _ _ _ []). }
  assert (∀ cur, walk links m follow cur rest = Failed ErrLoop ∨ ∀ links', (links ≤ links')%nat →
    walk links' m follow cur rest = walk links m follow cur rest) as IH' by done.
  rewrite (walk_unfold links). setoid_rewrite (walk_unfold _ _ _ _ (c :: rest)).
  destruct (m !! cur) as [[d u|s u|t u]|]; try (by right).
  destruct (_ || _); [apply IH'|]. destruct (String.eqb c ".."); [apply IH'|].
  destruct (m !! (cur ++ [c])) as [[d' u'|s' u'|t' u']|]; [apply IH'|apply IH'| |by right].
  destruct (_ && _); [by right|]. destruct links as [|links]; [by left|].
  destruct (IHl links (ltac:(lia)) (if IsAbs t' then [] else cur) (split_char slash t' ++ rest))
    as [->|Hw]; [by left|right].
  intros [|links'] Hle; [lia|]. apply Hw. lia.
Qed.

Lemma walk_agree j k m follow cur comps :
  walk j m follow cur comps = walk k m follow cur comps ∨
  walk j m follow cur comps = Failed ErrLoop ∨ walk k m follow cur comps = Failed ErrLoop.
Proof.
  destruct (walk_more j m follow cur comps) as [->|Hj]; [by right; left|].
  destruct (walk_more k m follow cur comps) as [->|Hk]; [by right; right|].
  left. destruct (Nat.le_ge_cases j k) as [H|H]; [symmetry; by apply Hj|by apply Hk].
Qed.

(** An answer that says there is nothing. *)
Definition not_there (w : walk_result) : Prop :=
  match w with Missing _ _ => True | Failed e => e = ErrNotExist | Found _ => False end.

(** When nothing is found at [pre ++ [c]], nothing is found at or below the
    same name of the location [base] that [pre] resolves to. *)
Lemma below_not_there m pre base c rem x :
  walk 255 m true [] pre = Found base → real m base →
  not_there (walk 255 m true [] (pre ++ [c])) →
  walk 40 m true [] (base ++ c :: rem) ≠ Found x.
Proof.
  intros Hpre Hbase Hn Hx.
  change (c :: rem) with ([c] ++ rem) in Hx. rewrite app_assoc in Hx.
  apply walk_prefix in Hx as [b Hx].
  destruct (walk_app 255 m [] pre [c] base Hpre) as (k & _ & Hk). rewrite Hk in Hn.
  destruct (walk_app 40 m [] base [c] base (walk_real _ _ _ _ Hbase)) as (j & _ & Hj).
  rewrite Hj in Hx.
  destruct (walk_agree j k m true base [c]) as [E|[E|E]]; rewrite E in *; try done.
  by rewrite Hx in Hn.
Qed.

(** ** Locations no link leads away from *)

(** Neither [l] nor an ancestor of it is a symbolic link. *)
Definition unlinked (m : gmap loc node) (l : loc) : Prop :=
  ∀ pre t u, pre `prefix_of` l → m !! pre ≠ Some (Symlink t u).

(** Links of [m'] are links of [m], to the same target. *)
Definition no_new_links (m m' : gmap loc node) : Prop :=
  ∀ l t u, m' !! l = Some (Symlink t u) → ∃ u', m !! l = Some (Symlink t u').

(** Whatever exists is in a directory. *)
Definition in_directories (m : gmap loc node) : Prop :=
  ∀ l c, is_Some (m !! (l ++ [c])) → ∃ s t, m !! l = Some (Directory s t).

(** A link whose target is not there. *)
Definition no_dangling (m : gmap loc node) : Prop :=
  ∀ l t u, m !! l = Some (Symlink t u) → ¬ not_there (walk 255 m true [] l).

#[export] Instance no_new_links_preorder : PreOrder no_new_links.
Proof.
  split; [intros m l t u Hl; by exists u|].
  intros m m' m'' H1 H2 l t u Hl. destruct (H2 l t u Hl) as [u' Hl']. by apply (H1 l t u').
Qed.

Lemma unlinked_later m m' l : no_new_links m m' → unlinked m l → unlinked m' l.
Proof. intros Hm Hu pre t u Hp Hl. destruct (Hm pre t u Hl) as [u' Hl']. by eapply Hu. Qed.

(** Resolution ends at an unlinked location or nowhere. *)
Lemma walk_unlinked links m follow cur rest x :
  unlinked m (cur ++ rest) → Forall plain rest →
  walk links m follow cur rest = Found x → x = cur ++ rest.
Proof.
  revert cur. induction rest as [|c rest IH]; intros cur Hu HF; rewrite walk_unfold.
  { intros [= <-]. by rewrite app_nil_r. }
  apply Forall_cons in HF as [(H1 & H2 & H3 & _) HF].
  destruct (m !! cur) as [[]|]; try done.
  rewrite (proj2 (String.eqb_neq _ _) H1), (proj2 (String.eqb_neq _ _) H2), (proj2 (String.eqb_neq _ _) H3).
  rewrite (cons_middle c cur rest), (app_assoc cur [c] rest) in Hu |- *. simpl.
  destruct (m !! (cur ++ [c])) as [[]|] eqn:E; [by apply IH..| |by case_bool_decide].
  by destruct (Hu (cur ++ [c]) _ _ (prefix_app_r _ _ _ (reflexivity _)) E).
Qed.

Lemma resolve_unlinked fs l follow x :
  fs_wf fs → Forall plain l → Forall (char_free "000") l → unlinked (nodes fs) l →
  resolve_path fs (render l) follow = Found x → x = l.
Proof. intros Hwf Hl Hn Hu. rewrite resolve_render by done. by apply (walk_unlinked _ _ _ []). Qed.

(** Below a missing name there is nothing. *)
Lemma missing_below m l rest : in_directories m → m !! l = None → m !! (l ++ rest) = None.
Proof.
  intros Hm Hl. induction rest as [|c rest IH] using rev_ind; [by rewrite app_nil_r|].
  rewrite app_assoc. destruct (m !! ((l ++ rest) ++ [c])) eqn:E; [|done].
  destruct (Hm (l ++ rest) c) as (s & t & Hd); [by eexists|]. by rewrite IH in Hd.
Qed.

Lemma real_unlinked m l : real m l → unlinked m l.
Proof.
  assert (∀ d, real_dir m d → unlinked m d) as Hdir.
  { intros d Hd pre t u [suf ->] Hp. induction suf as [|c suf IH] using rev_ind.
    - rewrite app_nil_r in Hd. destruct (real_dir_node _ _ Hd) as (? & ? & ?). congruence.
    - apply IH. rewrite app_assoc in Hd. apply real_dir_parent in Hd. unfold parent in Hd.
      by rewrite removelast_last in Hd. }
  intros [Hd|(d & c & data & t & -> & Hd & _ & Hf)]; [by apply Hdir|].
  intros pre t' u [suf E] Hp. destruct suf as [|c' suf _] using rev_ind.
  - rewrite app_nil_r in E. congruence.
  - rewrite app_assoc in E. apply app_inj_tail in E as [-> ->]. eapply Hdir; [done|by eexists|done].
Qed.

(** What [pre ++ c :: _] resolves to when [pre] leads to [base] and nothing is
    at [pre ++ [c]]: no link of the tree comes after. *)
Lemma below_unlinked m pre base c rem :
  in_directories m → no_dangling m → walk 255 m true [] pre = Found base → real m base → plain c →
  not_there (walk 255 m true [] (pre ++ [c])) → unlinked m (base ++ c :: rem).
Proof.
  intros Hm Hnd Hpre Hbase Hc Hn.
  destruct (walk_app 255 m [] pre [c] base Hpre) as (k & Hk & E). rewrite E in Hn.
  assert (real_dir m base) as Hdir.
  { destruct Hbase as [|(d & c' & data & t & _ & _ & _ & Hf)]; [done|]. by rewrite walk_unfold, Hf in Hn. }
  assert (m !! (base ++ [c]) = None) as Hnone.
  { pose proof Hn as Hn'. rewrite walk_child in Hn' by done.
    destruct (m !! (base ++ [c])) as [[]|] eqn:Ec; [by rewrite walk_unfold in Hn'..| |done].
    destruct (Hnd _ _ _ Ec). rewrite walk_dir by done.
    destruct (walk_more k m true base [c]) as [El| ->]; [by rewrite El in Hn|done|lia]. }
  intros q t u [suf Eq] Hq. change (c :: rem) with ([c] ++ rem) in Eq. rewrite app_assoc in Eq.
  destruct (prefix_weak_total q (base ++ [c]) (base ++ [c] ++ rem)) as [Hp|Hp].
  - by rewrite app_assoc, Eq; eexists.
  - rewrite app_assoc. by eexists.
  - destruct Hp as [suf' Ep]. destruct suf' as [|c' suf' _] using rev_ind.
    + rewrite app_nil_r in Ep. congruence.
    + rewrite app_assoc in Ep. apply app_inj_tail in Ep as [Ep _].
      eapply (real_unlinked m base Hbase); [by eexists|done].
  - destruct Hp as [suf' ->]. by rewrite missing_below in Hq.
Qed.

(** ** Directory entries *)

Lemma child_name_Some d l c : child_name d l = Some c ↔ l = d ++ [c].
Proof.
  unfold child_name. split.
  - destruct (last l); [|done]. case_bool_decide; [|done]. by intros [= ->].
  - intros ->. rewrite last_snoc. by rewrite bool_decide_eq_true_2.
Qed.

Lemma children_elem m d c n : (c, n) ∈ children m d ↔ m !! (d ++ [c]) = Some n.
Proof.
  unfold children. rewrite merge_sort_Permutation, list_elem_of_omap. split.
  - intros ([l n'] & Hin & Hp). apply elem_of_map_to_list in Hin. simpl in Hp.
    destruct (child_name d l) as [c'|] eqn:E; simpl in Hp; [|done].
    apply child_name_Some in E as ->. by injection Hp as -> ->.
  - intros Hm. exists (d ++ [c], n). split; [by apply elem_of_map_to_list|]. simpl.
    by rewrite (proj2 (child_name_Some _ _ _) eq_refl).
Qed.

Lemma children_NoDup m d : NoDup (map fst (children m d)).
Proof.
  unfold children.
  assert (NoDup (map fst (omap (λ p, c ← child_name d p.1; Some (c, p.2)) (map_to_list m)))) as H.
  { pose proof (NoDup_fst_map_to_list m) as HN. revert HN.
    induction (map_to_list m) as [|[l n] ps IH]; simpl; [constructor|].
    intros [Hni HN]%NoDup_cons. destruct (child_name d l) as [c|] eqn:E; simpl; [|by apply IH].
    apply NoDup_cons. split; [|by apply IH].
    intros ([c' n'] & Hc & Hin)%list_elem_of_fmap. simpl in Hc; subst c'.
    apply list_elem_of_omap in Hin as ([l' n''] & Hin & Hp). simpl in Hp.
    destruct (child_name d l') as [c'|] eqn:E'; simpl in Hp; [|done]. injection Hp as -> ->.
    apply child_name_Some in E as ->. apply child_name_Some in E' as ->.
    apply Hni. apply list_elem_of_fmap. by exists (d ++ [c], n'). }
  eapply NoDup_Permutation_proper; [|exact H].
  apply Permutation_map. apply merge_sort_Permutation.
Qed.

(** ** Changing files keeps the directories *)

Definition not_dir_at (m : gmap loc node) (k : loc) : Prop :=
  ∀ s t, m !! k ≠ Some (Directory s t).

Lemma real_dir_insert m k n l : not_dir_at m k → real_dir m l → real_dir (<[k := n]> m) l.
Proof.
  intros Hk Hd. induction Hd as [s t Hr|l c s t Hl IH Hc Hlk].
  - apply (real_root _ s t). rewrite lookup_insert_ne; [done|]. intros ->. by eapply Hk.
  - apply (real_child _ l c s t); [done|done|].
    rewrite lookup_insert_ne; [done|]. intros ->. by eapply Hk.
Qed.

Lemma real_dir_delete m k l : not_dir_at m k → real_dir m l → real_dir (delete k m) l.
Proof.
  intros Hk Hd. induction Hd as [s t Hr|l c s t Hl IH Hc Hlk].
  - apply (real_root _ s t). rewrite lookup_delete_ne; [done|]. intros ->. by eapply Hk.
  - apply (real_child _ l c s t); [done|done|].
    rewrite lookup_delete_ne; [done|]. intros ->. by eapply Hk.
Qed.

Lemma not_dir_None m k : m !! k = None → not_dir_at m k.
Proof. intros E s t. by rewrite E. Qed.

Lemma not_dir_file m k d t : m !! k = Some (File d t) → not_dir_at m k.
Proof. intros E s t'. by rewrite E. Qed.

Lemma fs_wf_insert fs k n :
  fs_wf fs → not_dir_at (nodes fs) k → Forall (char_free "000") k →
  fs_wf (with_nodes fs (<[k := n]> (nodes fs))).
Proof.
  intros (Hr & Hn & Hf) Hk Hk0. split_and!; simpl; [by apply real_dir_insert| |done].
  by apply map_Forall_insert_2.
Qed.

Lemma fs_wf_delete fs k :
  fs_wf fs → not_dir_at (nodes fs) k → fs_wf (with_nodes fs (delete k (nodes fs))).
Proof.
  intros (Hr & Hn & Hf) Hk. split_and!; simpl; [by apply real_dir_delete| |done].
  by apply map_Forall_delete.
Qed.

(** No system call fails for outside reasons. *)
Definition quiet (fs : FS) : Prop := ∀ op path, fault fs op path = None.

Lemma real_file m d c data t :
  real_dir m d → plain c → m !! (d ++ [c]) = Some (File data t) → real m (d ++ [c]).
Proof. intros. right. by exists d, c, data, t. Qed.

Lemma ReadFile_real fs l data t :
  fs_wf fs → quiet fs → real (nodes fs) l → nodes fs !! l = Some (File data t) →
  ReadFile fs (render l) = Ok data.
Proof.
  intros Hwf Hq Hl Hn. unfold ReadFile, os_Open, read_all, sys. rewrite !Hq.
  rewrite (reach_real fs "open" l (File data t)) by done. simpl. by rewrite Hn.
Qed.

Lemma Stat_real fs l n :
  fs_wf fs → quiet fs → real (nodes fs) l → nodes fs !! l = Some n → Stat fs (render l) = Ok n.
Proof.
  intros Hwf Hq Hl Hn. unfold Stat, sys. rewrite Hq. by rewrite (reach_real fs "stat" l n).
Qed.

Lemma Remove_real fs l data t :
  fs_wf fs → quiet fs → real (nodes fs) l → nodes fs !! l = Some (File data t) →
  Remove fs (render l) = (None, with_nodes fs (delete l (nodes fs))).
Proof.
  intros Hwf Hq Hl Hn. unfold Remove, sys. rewrite Hq.
  by rewrite (reach_real fs "remove" l (File data t)).
Qed.

Lemma WriteFile_new fs d c data :
  fs_wf fs → quiet fs → real_dir (nodes fs) d → plain c → char_free "000" c →
  nodes fs !! (d ++ [c]) = None →
  WriteFile fs (render (d ++ [c])) data =
  (None, with_nodes fs (<[d ++ [c] := File data (stamp fs)]> (nodes fs))).
Proof.
  intros Hwf Hq Hd Hc Hn Hm. unfold WriteFile, create_trunc, sys. rewrite Hq.
  rewrite resolve_child by done. simpl. unfold write_all; simpl. rewrite Hq.
  destruct (String.eqb_spec data "") as [->|Hne]; [done|]. unfold write_at; simpl.
  rewrite (proj2 (String.eqb_neq _ _) Hne), lookup_insert_eq. unfold with_nodes; simpl.
  rewrite insert_insert_eq.
  replace (drop_str (String.length data) "") with "" by (by destruct data).
  by rewrite app_str_nil_r.
Qed.

Lemma take_str_all s : take_str (String.length s) s = s.
Proof. induction s as [|a s IH]; simpl; [done|]. by rewrite IH. Qed.

Lemma drop_str_all n s : (String.length s ≤ n)%nat → drop_str n s = "".
Proof. revert s. induction n; intros [|a s] Hn; simpl in *; try done; [lia|]. apply IHn. lia. Qed.

(** The file at [l], which holds [d], with [more] after it. *)
Definition extended (fs : FS) (l : loc) (d more : string) : FS :=
  if String.eqb more "" then fs else with_nodes fs (<[l := File (d +:+ more) (stamp fs)]> (nodes fs)).

Lemma extended_at fs l d t more :
  nodes fs !! l = Some (File d t) → ∃ t', nodes (extended fs l d more) !! l = Some (File (d +:+ more) t').
Proof.
  intros Hl. unfold extended. destruct (String.eqb_spec more "") as [->|_].
  - rewrite Hl, app_str_nil_r. by eexists.
  - eexists. apply lookup_insert_eq.
Qed.

Lemma extended_ne fs l d more k : k ≠ l → nodes (extended fs l d more) !! k = nodes fs !! k.
Proof. intros Hk. unfold extended. destruct (String.eqb more ""); [done|]. by apply lookup_insert_ne. Qed.

(** Writing at the end of a file appends. *)
Lemma write_at_end fs l d t data :
  nodes fs !! l = Some (File d t) → write_at fs l (slen d) data = extended fs l d data.
Proof.
  intros Hl. unfold write_at, extended, slen. destruct (String.eqb data ""); [done|].
  rewrite Hl, Nat2Z.id, take_str_all, drop_str_all by lia.
  by rewrite app_str_nil_r.
Qed.

Lemma MkdirAll_dir fs d :
  fs_wf fs → quiet fs → real_dir (nodes fs) d → MkdirAll fs (render d) = (None, fs).
Proof.
  intros Hwf Hq Hd. destruct (real_dir_node _ _ Hd) as (s & t & Hn).
  unfold MkdirAll. assert (Stat fs (render d) = Ok (Directory s t)) as HS
    by (apply Stat_real; [done|done|by left|done]).
  destruct (String.length (render d)); simpl; by rewrite HS.
Qed.

(** A name in a real directory that is not itself a directory. *)
Lemma target_loc_child fs d c :
  fs_wf fs → real_dir (nodes fs) d → plain c → char_free "000" c →
  not_dir_at (nodes fs) (d ++ [c]) →
  target_loc (resolve_path fs (render (d ++ [c])) false) = Ok (d ++ [c]).
Proof.
  intros Hwf Hd Hc Hn Hnd. rewrite resolve_render; [|done| |].
  - rewrite walk_dir, walk_child by done.
    destruct (nodes fs !! (d ++ [c])) as [[data t|s t|tg t]|] eqn:E; try done.
  - apply Forall_app. split; [by eapply real_dir_plain|by constructor].
  - apply Forall_app. split; [eapply real_nul; [done|by left]|by constructor].
Qed.

Lemma Lstat_not_dir fs d c :
  fs_wf fs → real_dir (nodes fs) d → plain c → char_free "000" c →
  not_dir_at (nodes fs) (d ++ [c]) →
  match Lstat fs (render (d ++ [c])) with Ok n => is_dir n | Err _ => false end = false.
Proof.
  intros Hwf Hd Hc Hn Hnd. pose proof (target_loc_child fs d c Hwf Hd Hc Hn Hnd) as Ht.
  unfold Lstat, sys, reach. destruct (fault _ _ _); [done|].
  destruct (resolve_path _ _ _) as [l|d' c'|e]; simpl in *; [|done|done].
  injection Ht as ->. destruct (nodes fs !! (d ++ [c])) as [[]|] eqn:E; simpl; try done.
  by destruct (Hnd size mtime).
Qed.

Lemma Rename_file fs d c d' c' data t :
  fs_wf fs → quiet fs → real_dir (nodes fs) d → plain c → char_free "000" c →
  nodes fs !! (d ++ [c]) = Some (File data t) →
  real_dir (nodes fs) d' → plain c' → char_free "000" c' → not_dir_at (nodes fs) (d' ++ [c']) →
  device fs d = device fs d' →
  Rename fs (render (d ++ [c])) (render (d' ++ [c'])) =
  (None, with_nodes fs (<[d' ++ [c'] := File data t]> (delete (d ++ [c]) (nodes fs)))).
Proof.
  intros Hwf Hq Hd Hc Hn Hf Hd' Hc' Hn' Hnd Hdev. unfold Rename.
  rewrite Lstat_not_dir by done. unfold rename_sys. rewrite Hq.
  rewrite (target_loc_child fs d c) by (done || by eapply not_dir_file).
  rewrite (target_loc_child fs d' c') by done. cbn [mbind result_bind]. rewrite Hf.
  unfold parent. rewrite !removelast_last, Hdev, Z.eqb_refl. done.
Qed.

(** ** Making the directories that are missing *)

(** What exists of the way to a location is directories. *)
Inductive makeable (m : gmap loc node) : loc → Prop :=
  | make_real d : real_dir m d → makeable m d
  | make_missing d c :
      makeable m d → plain c → char_free "000" c → m !! (d ++ [c]) = None → makeable m (d ++ [c]).

(** [m'] has at [k] a directory on the way to [l] that was missing in [m]. *)
Definition made_dir (m m' : gmap loc node) (l k : loc) : Prop :=
  k `prefix_of` l ∧ m !! k = None ∧ ∃ s t, m' !! k = Some (Directory s t).

(** [m'] is [m] and the directories on the way to [l]. *)
Definition dirs_made (m m' : gmap loc node) (l : loc) : Prop :=
  ∀ k, m' !! k = m !! k ∨ made_dir m m' l k.

Lemma dirs_made_lookup m m' l k n : dirs_made m m' l → m !! k = Some n → m' !! k = Some n.
Proof. intros Hm Hk. destruct (Hm k) as [->|(_ & E & _)]; [done|congruence]. Qed.

Lemma dirs_made_ne m m' l k : dirs_made m m' l → ¬ k `prefix_of` l → m' !! k = m !! k.
Proof. intros Hm Hk. by destruct (Hm k) as [->|(? & _)]. Qed.

Lemma dirs_made_real m m' l d : dirs_made m m' l → real_dir m d → real_dir m' d.
Proof.
  intros Hm. induction 1 as [s t Hs|d c s t _ IH Hc Hs]; [eapply real_root|eapply real_child];
    by try eapply dirs_made_lookup.
Qed.

Lemma makeable_plain m l : makeable m l → Forall plain l.
Proof.
  induction 1 as [d Hd|d c _ IH Hc _ _]; [by eapply real_dir_plain|].
  apply Forall_app. by split; [|constructor].
Qed.

Lemma makeable_nul fs l : fs_wf fs → makeable (nodes fs) l → Forall (char_free "000") l.
Proof.
  intros Hwf. induction 1 as [d Hd|d c _ IH _ Hc _]; [eapply real_nul; [done|by left]|].
  apply Forall_app. by split; [|constructor].
Qed.

(** A path below something missing is missing. *)
Lemma makeable_missing m l links follow x :
  makeable m l → m !! l = None → walk links m follow [] l ≠ Found x.
Proof.
  intros Hl. assert (real_dir m l ∨ ∃ d c rest, l = d ++ c :: rest ∧ real_dir m d ∧ plain c ∧ m !! (d ++ [c]) = None)
    as [Hd|(d & c & rest & -> & Hd & Hc & Hn)].
  { induction Hl as [d Hd|d c _ [IH|(d' & c' & rest & -> & IH & Hc' & Hn')] Hc _ Hn]; [by left| |]; right.
    - by exists d, c, [].
    - exists d', c', (rest ++ [c]). by rewrite <- app_assoc. }
  - destruct (real_dir_node _ _ Hd) as (s & t & E). congruence.
  - rewrite walk_dir, walk_child, Hn by done. by case_bool_decide.
Qed.

Lemma parent_path_render d c :
  plain c → parent_path (render (d ++ [c])) = (match d with [] => "" | _ => render d end).
Proof.
  intros (Hne & _ & _ & Hfree). unfold parent_path. rewrite render_snoc.
  destruct (string_snoc c Hne) as (c' & a & ->).
  pose proof Hfree as [_ [Ha _]%char_free_cons]%char_free_app.
  set (p := match d with [] => _ | _ => _ end).
  change (p +:+ String slash (c' +:+ String a "")) with (p +:+ (String slash c' +:+ String a "")).
  rewrite <- app_str_assoc, trim_right_free by (simpl; by rewrite (proj2 (Ascii.eqb_neq _ _) Ha)).
  rewrite app_str_assoc. simpl. by rewrite cut_last_app.
Qed.

Lemma render_longer d c : d ≠ [] → (String.length (render d) < String.length (render (d ++ [c])))%nat.
Proof.
  intros Hd. rewrite render_snoc. destruct d as [|e d]; [done|].
  assert (∀ s t : string, String.length (s +:+ t) = (String.length s + String.length t)%nat) as Hlen
    by (induction s; intros; simpl; [|rewrite IHs]; done).
  rewrite Hlen. simpl. lia.
Qed.

Lemma MkdirAll_loop_real fuel fs d :
  fs_wf fs → quiet fs → real_dir (nodes fs) d → MkdirAll_loop fuel fs (render d) = (None, fs).
Proof.
  intros Hwf Hq Hd. destruct (real_dir_node _ _ Hd) as (s & t & Hn).
  assert (Stat fs (render d) = Ok (Directory s t)) as HS by (apply Stat_real; [done|done|by left|done]).
  destruct fuel; simpl; by rewrite HS.
Qed.

Lemma Mkdir_child fs d c :
  fs_wf fs → quiet fs → real_dir (nodes fs) d → plain c → char_free "000" c →
  nodes fs !! (d ++ [c]) = None →
  Mkdir fs (render (d ++ [c])) = (None, with_nodes fs (<[d ++ [c] := Directory 4096 (stamp fs)]> (nodes fs))).
Proof. intros Hwf Hq Hd Hc Hn Hm. unfold Mkdir, sys. by rewrite Hq, resolve_child. Qed.

Lemma MkdirAll_loop_makes fuel fs l :
  fs_wf fs → quiet fs → makeable (nodes fs) l → (String.length (render l) ≤ fuel)%nat →
  ∃ m', MkdirAll_loop fuel fs (render l) = (None, with_nodes fs m') ∧ real_dir m' l ∧
    fs_wf (with_nodes fs m') ∧ dirs_made (nodes fs) m' l.
Proof.
  intros Hwf Hq Hl. revert fuel. induction Hl as [d Hd|d c Hd IH Hc Hn Hm]; intros fuel Hfuel.
  { exists (nodes fs). rewrite MkdirAll_loop_real by done. destruct fs. split_and!; [done..|intros k; by left]. }
  destruct fuel as [|fuel]; [unfold render in Hfuel; simpl in Hfuel; lia|].
  assert (∃ e, Stat fs (render (d ++ [c])) = Err e) as [e He].
  { unfold Stat, sys, reach. rewrite Hq, resolve_render; [|done| |].
    - destruct (walk _ _ _ _ _) eqn:E; [|by eexists..].
      by destruct (makeable_missing (nodes fs) (d ++ [c]) 40 true l); [by constructor|done|].
    - apply Forall_app. split; [by eapply makeable_plain|by constructor].
    - apply Forall_app. split; [by eapply makeable_nul|by constructor]. }
  assert (∃ m1, (if String.eqb (parent_path (render (d ++ [c]))) "" then (None, fs)
      else MkdirAll_loop fuel fs (parent_path (render (d ++ [c])))) = (None, with_nodes fs m1) ∧
    real_dir m1 d ∧ fs_wf (with_nodes fs m1) ∧ dirs_made (nodes fs) m1 d) as (m1 & E & Hr & Hwf1 & Hm1).
  { rewrite parent_path_render by done. destruct d as [|x d].
    - exists (nodes fs). destruct fs. split_and!; [done|apply Hwf|done|intros k; by left].
    - apply IH. pose proof (render_longer (x :: d) c ltac:(done)). lia. }
  cbn [MkdirAll_loop]. rewrite He, E. cbv iota beta.
  assert (m1 !! (d ++ [c]) = None) as Hm1c.
  { rewrite (dirs_made_ne _ _ _ _ Hm1); [done|]. intros Hp%prefix_length. rewrite length_app in Hp. simpl in Hp. lia. }
  rewrite Mkdir_child by done. eexists. split_and!; [done| | |].
  - apply (real_child _ d c 4096 (stamp fs)); [by apply real_dir_insert; [apply not_dir_None|]|done|apply lookup_insert_eq].
  - apply (fs_wf_insert (with_nodes fs m1)); [done|by apply not_dir_None|].
    apply Forall_app. split; [by apply (makeable_nul fs)|by constructor].
  - intros k. simpl. destruct (decide (k = d ++ [c])) as [->|Hk].
    + right. split_and!; [done|done|]. do 2 eexists. apply lookup_insert_eq.
    + rewrite lookup_insert_ne by done. destruct (Hm1 k) as [->|(Hp & Hk0 & Hk1)]; [by left|right].
      split_and!; [by apply prefix_app_r|done|]. by rewrite lookup_insert_ne.
Qed.

(** MkdirAll makes what is missing and nothing else. *)
Lemma MkdirAll_makes fs l :
  fs_wf fs → quiet fs → makeable (nodes fs) l →
  ∃ m', MkdirAll fs (render l) = (None, with_nodes fs m') ∧ real_dir m' l ∧
    fs_wf (with_nodes fs m') ∧ dirs_made (nodes fs) m' l.
Proof. intros Hwf Hq Hl. by apply MkdirAll_loop_makes. Qed.

Lemma Rename_cross fs d c d' c' data t :
  fs_wf fs → quiet fs → real_dir (nodes fs) d → plain c → char_free "000" c →
  nodes fs !! (d ++ [c]) = Some (File data t) →
  real_dir (nodes fs) d' → plain c' → char_free "000" c' → not_dir_at (nodes fs) (d' ++ [c']) →
  device fs d ≠ device fs d' →
  ∃ e, Rename fs (render (d ++ [c])) (render (d' ++ [c'])) = (Some e, fs).
Proof.
  intros Hwf Hq Hd Hc Hn Hf Hd' Hc' Hn' Hnd Hdev. unfold Rename.
  rewrite Lstat_not_dir by done. unfold rename_sys. rewrite Hq.
  rewrite (target_loc_child fs d c) by (done || by eapply not_dir_file).
  rewrite (target_loc_child fs d' c') by done. cbn [mbind result_bind]. rewrite Hf.
  unfold parent. rewrite !removelast_last, (proj2 (Z.eqb_neq _ _) Hdev). by eexists.
Qed.

(** Opening for writing from scratch what is no link and no directory. *)
Lemma create_trunc_child fs d c :
  fs_wf fs → quiet fs → real_dir (nodes fs) d → plain c → char_free "000" c →
  not_dir_at (nodes fs) (d ++ [c]) → (∀ g t, nodes fs !! (d ++ [c]) ≠ Some (Symlink g t)) →
  create_trunc fs (render (d ++ [c])) =
  Ok (with_nodes fs (<[d ++ [c] := File "" (stamp fs)]> (nodes fs)), d ++ [c]).
Proof.
  intros Hwf Hq Hd Hc Hn Hnd Hnl. unfold create_trunc, sys. rewrite Hq, resolve_render; [|done| |].
  - rewrite walk_dir, walk_child by done.
    destruct (nodes fs !! (d ++ [c])) as [[data t|s t|g t]|] eqn:E; [|by destruct (Hnd s t)|by destruct (Hnl g t)|done].
    by rewrite walk_unfold, E.
  - apply Forall_app. split; [by eapply real_dir_plain|by constructor].
  - apply Forall_app. split; [eapply real_nul; [done|by left]|by constructor].
Qed.

(** ** Trees that differ only in the contents of files

    Path resolution sees the shape of a tree: which names exist, which are
    directories and where the links point. *)

Inductive shape := ShFile | ShDirectory | ShSymlink (target : string).

Definition shape_of (n : node) : shape :=
  match n with File _ _ => ShFile | Directory _ _ => ShDirectory | Symlink t _ => ShSymlink t end.

Record same_tree (m m' : gmap loc node) : Prop := {
  same_shape : ∀ l, shape_of <$> m !! l = shape_of <$> m' !! l;
}.

Record same_fs (fs fs' : FS) : Prop := {
  same_nodes : same_tree (nodes fs) (nodes fs');
  same_cwd : cwd fs = cwd fs';
  same_fault : fault fs = fault fs';
  same_device : device fs = device fs';
}.

#[export] Instance same_tree_equivalence : Equivalence same_tree.
Proof.
  split; [by intros m|intros m m' [Hm]; split; intros l; by rewrite Hm|].
  intros m m' m'' [Hm] [Hm']. split. intros l. by rewrite Hm, Hm'.
Qed.

#[export] Instance same_fs_equivalence : Equivalence same_fs.
Proof.
  split.
  - by intros fs.
  - intros fs fs' []. by split.
  - intros fs fs' fs'' [] []. split; etrans; eauto.
Qed.

(** The shapes at one place, case by case. *)
Lemma same_tree_at m m' l :
  same_tree m m' →
  (m !! l = None ∧ m' !! l = None) ∨
  ∃ n n', m !! l = Some n ∧ m' !! l = Some n' ∧ shape_of n = shape_of n'.
Proof.
  intros [Hm]. specialize (Hm l). destruct (m !! l), (m' !! l); simplify_eq/=; eauto 10.
Qed.

#[export] Instance walk_proper : Proper ((=) ==> same_tree ==> (=) ==> (=) ==> (=) ==> (=)) walk.
Proof.
  intros links ? <- m m' Hm follow ? <- cur ? <- comps ? <-.
  revert cur comps. induction links as [|links IHl]; intros cur comps; revert cur;
    induction comps as [|c rest IH]; intros cur; rewrite (walk_unfold _ m), (walk_unfold _ m');
    try done.
  all: destruct (same_tree_at m m' cur Hm) as [[-> ->]|([] & [] & -> & -> & [=])]; try done.
  all: destruct (same_tree_at m m' (cur ++ [c]) Hm) as [[-> ->]|([] & [] & -> & -> & [=])];
    subst; rewrite ?IH, ?IHl; repeat (case_match; try done).
Qed.

#[export] Instance EvalSymlinks_proper : Proper (same_fs ==> (=) ==> (=)) EvalSymlinks.
Proof.
  intros fs fs' [Hm _ Hf _] path ? <-. unfold EvalSymlinks, sys. rewrite Hf.
  assert (walk 255 (nodes fs) true [] (split_char slash path) =
    walk 255 (nodes fs') true [] (split_char slash path)) as -> by (by rewrite Hm). done.
Qed.

(** Other contents at a file leave the tree the same. *)
Lemma same_fs_file fs l d t d' t' :
  nodes fs !! l = Some (File d t) → same_fs (with_nodes fs (<[l := File d' t']> (nodes fs))) fs.
Proof.
  intros Hl. split; [|done..]. split. intros k. simpl.
  destruct (decide (l = k)) as [<-|Hk]; [by rewrite lookup_insert_eq, Hl|by rewrite lookup_insert_ne].
Qed.

#[export] Instance real_dir_proper : Proper (same_tree ==> (=) ==> iff) real_dir.
Proof.
  assert (∀ m m' l, same_tree m m' → real_dir m l → real_dir m' l) as Himp.
  { intros m m' l Hm. induction 1 as [s t Hs|d c s t Hd IH Hc Hs].
    - destruct (same_tree_at m m' [] Hm) as [[E _]|(n & [] & E & E' & Hn)];
        rewrite Hs in E; simplify_eq/=. by eapply real_root.
    - destruct (same_tree_at m m' (d ++ [c]) Hm) as [[E _]|(n & [] & E & E' & Hn)];
        rewrite Hs in E; simplify_eq/=. by eapply real_child. }
  intros m m' Hm l ? <-. split; apply Himp; [done|by symmetry].
Qed.

#[export] Instance makeable_proper : Proper (same_tree ==> (=) ==> iff) makeable.
Proof.
  assert (∀ m m' l, same_tree m m' → makeable m l → makeable m' l) as Himp.
  { intros m m' l Hm. induction 1 as [d Hd|d c _ IH Hc Hn Hs].
    - constructor. by rewrite <- Hm.
    - apply make_missing; [done..|].
      by destruct (same_tree_at m m' (d ++ [c]) Hm) as [[_ E]|(n & n' & E & _)]; [|congruence]. }
  intros m m' Hm l ? <-. split; apply Himp; [done|by symmetry].
Qed.
