(* ===== verification/Sha256.v ===== *)
(** * crypto/sha256

    The hash function of FIPS 180-4 on lists of bytes, executable, with the
    standard's test vectors. *)

From S2P Require Import Prelude GoStr.

Definition mask32 : Z := 4294967295.
Definition add32 (x y : Z) : Z := Z.land (x + y) mask32.
Definition shr32 (x n : Z) : Z := Z.shiftr x n.
Definition rotr32 (x n : Z) : Z :=
  Z.lor (Z.shiftr x n) (Z.land (Z.shiftl x (32 - n)) mask32).
Definition not32 (x : Z) : Z := Z.lxor x mask32.

(** The constants: the fractional parts of the square and cube roots of the
    first primes, 32 bits of them. *)
Definition is_prime (n : nat) : bool :=
  forallb (λ d, negb (n mod d =? 0)%nat) (seq 2 (n - 2)).

Definition primes : list Z := map Z.of_nat (List.filter is_prime (seq 2 310)).

(** The largest [x + d], with [d] below [2 ^ n], whose cube is at most [y]. *)
Fixpoint cube_root (n : nat) (x y : Z) : Z :=
  match n with
  | O => x
  | S n' =>
     let x' := x + 2 ^ Z.of_nat n' in
     cube_root n' (if x' * x' * x' <=? y then x' else x) y
  end.

Definition sha_k : list Z :=
  Eval vm_compute in map (λ p, Z.land (cube_root 36 0 (p * 2 ^ 96)) mask32) primes.

Definition sha_init : list Z :=
  Eval vm_compute in map (λ p, Z.land (Z.sqrt (p * 2 ^ 64)) mask32) (take 8 primes).

(** A message followed by a one bit, zeros, and its length in bits. *)
Definition be_bytes (n : nat) (x : Z) : list Z :=
  map (λ i, Z.land (Z.shiftr x (8 * Z.of_nat (n - 1 - i))) 255) (seq 0 n).

Definition sha_pad (msg : list Z) : list Z :=
  let len := Z.of_nat (length msg) in
  msg ++ 128 :: replicate (Z.to_nat ((55 - len) mod 64)) 0 ++ be_bytes 8 (8 * len).

Fixpoint be_words (bs : list Z) : list Z :=
  match bs with
  | a :: b :: c :: d :: bs' =>
     Z.lor (Z.lor (Z.shiftl a 24) (Z.shiftl b 16)) (Z.lor (Z.shiftl c 8) d) :: be_words bs'
  | _ => []
  end.

(** The message schedule, newest word first. *)
Definition schedule_step (w : list Z) : list Z :=
  let at_ i := nth i w 0 in
  let w15 := at_ 14%nat in let w2 := at_ 1%nat in
  let s0 := Z.lxor (Z.lxor (rotr32 w15 7) (rotr32 w15 18)) (shr32 w15 3) in
  let s1 := Z.lxor (Z.lxor (rotr32 w2 17) (rotr32 w2 19)) (shr32 w2 10) in
  add32 (add32 (at_ 15%nat) s0) (add32 (at_ 6%nat) s1) :: w.

Definition schedule (block : list Z) : list Z :=
  rev (Nat.iter 48 schedule_step (rev (be_words block))).

Definition sha_round (st : list Z) (kw : Z * Z) : list Z :=
  match st with
  | [a; b; c; d; e; f; g; h] =>
     let s1 := Z.lxor (Z.lxor (rotr32 e 6) (rotr32 e 11)) (rotr32 e 25) in
     let ch := Z.lxor (Z.land e f) (Z.land (not32 e) g) in
     let t1 := add32 (add32 (add32 h s1) (add32 ch kw.1)) kw.2 in
     let s0 := Z.lxor (Z.lxor (rotr32 a 2) (rotr32 a 13)) (rotr32 a 22) in
     let maj := Z.lxor (Z.lxor (Z.land a b) (Z.land a c)) (Z.land b c) in
     [add32 t1 (add32 s0 maj); a; b; c; add32 d t1; e; f; g]
  | _ => st
  end.

Definition sha_block (st block : list Z) : list Z :=
  zip_with add32 st (fold_left sha_round (zip sha_k (schedule block)) st).

Fixpoint blocks (n : nat) (bs : list Z) : list (list Z) :=
  match n with
  | O => []
  | S n' => match bs with [] => [] | _ => take 64 bs :: blocks n' (drop 64 bs) end
  end.

Definition sha256 (msg : list Z) : list Z :=
  let padded := sha_pad msg in
  concat (map (be_bytes 4) (fold_left sha_block (blocks (length padded) padded) sha_init)).

(** hex.EncodeToString of the hash of a string. *)
Definition sha256_hex (s : string) : string := hex_encode (sha256 (bytes s)).

Example sha256_empty :
  sha256_hex "" = "e3b0c44298fc1c149afbf4c8996fb92427ae41e4649b934ca495991b7852b855".
Proof. by vm_compute. Qed.

Example sha256_abc :
  sha256_hex "abc" = "ba7816bf8f01cfea414140de5dae2223b00361a396177a9cb410ff61f20015ad".
Proof. by vm_compute. Qed.

Example sha256_two_blocks :
  sha256_hex "abcdbcdecdefdefgefghfghighijhijkijkljklmklmnlmnomnopnopq" =
  "248d6a61d20638b8e5c026930c3e6039a33ce45964ff2167f6ecedd419db06c1".
Proof. by vm_compute. Qed.

Example sha_k_length : length sha_k = 64%nat.
Proof. done. Qed.
