(* ===== verification/Verifier.v ===== *)
(** * The [Verifier] interface of pairing.go

    A Go [Verifier] is an object with one method; objects are shared by
    pointer and may keep state between calls. [S] is the store of the objects
    and [V] the type of pointers to them; [verify] runs the method. A method
    may panic, which a result of [None] records. *)

From S2P Require Import Prelude.

Class Verifier (S V : Type) := verify : V → string → S → option (error * S).

