(* ===== verification/RateLimit.v ===== *)
(** * identity/ratelimit.go: failure counters and lockouts

    [Limiter] is the [RateLimiter] struct less its mutex and clock: every
    method runs with the mutex held, and takes as an argument the reading its
    call of [nowFunc] returned. *)

From S2P Require Import Prelude GoStr Verifier.

Definition FailureThreshold : Z := 5.
Definition baseLockout : Z := 1 * Minute.
Definition maxLockout : Z := 1 * Hour.

Record lockState := LockState {
  failures : Z;
  lockCount : Z;
  lockedUntil : Z;
}.

Record RateLimiter := Limiter {
  byIP : gmap string lockState;
  byAcct : gmap string lockState;
}.

Definition NewRateLimiter : RateLimiter := Limiter ∅ ∅.

(** &lockState{}: the zero Time is 0. *)
Definition zero_lock : lockState := LockState 0 0 0.

(** The loop of [backoff], [n] iterations left, with its early return. *)
Fixpoint backoff_loop (n : nat) (d : Z) : Z + Z :=
  match n with
  | O => inl d
  | S n' => if maxLockout <=? d then inr maxLockout else backoff_loop n' (wrap64 (d * 2))
  end.

Definition backoff (lockCount : Z) : Z :=
  match backoff_loop (Z.to_nat (lockCount - 1)) baseLockout with
  | inr d => d
  | inl d => if maxLockout <? d then maxLockout else d
  end.

Definition locked (m : gmap string lockState) (key : string) (now : Z) : bool :=
  match m !! key with
  | Some s => time_before now (lockedUntil s)
  | None => false
  end.

Definition rate_limited (m : gmap string lockState) (key what : string) : error :=
  Some (EWrap "" (ESent ErrRateLimited)
    (": " +:+ what +:+ " locked until " +:+
     format_int (lockedUntil (default zero_lock (m !! key))))).

Definition Allow (r : RateLimiter) (ip account : string) (now : Z) : error :=
  if locked (byIP r) ip now then rate_limited (byIP r) ip "ip"
  else if locked (byAcct r) account now then rate_limited (byAcct r) account "account"
  else None.

Definition bump (s : lockState) (now : Z) : lockState :=
  let f := wrap64 (failures s + 1) in
  if f <? FailureThreshold then LockState f (lockCount s) (lockedUntil s)
  else let n := wrap64 (lockCount s + 1) in
       LockState 0 n (time_add now (backoff n)).

Definition recordFailure (m : gmap string lockState) (key : string) (now : Z)
    : gmap string lockState :=
  <[key := bump (default zero_lock (m !! key)) now]> m.

Definition RecordFailure (r : RateLimiter) (ip account : string) (now : Z) : RateLimiter :=
  Limiter (recordFailure (byIP r) ip now) (recordFailure (byAcct r) account now).

Definition RecordSuccess (r : RateLimiter) (ip account : string) : RateLimiter :=
  Limiter (delete ip (byIP r)) (delete account (byAcct r)).

(** ** LimitedVerifier *)

Record LimitedVerifier (V : Type) := NewLimitedVerifier {
  inner : V;
  lv_ip : string;
  lv_account : string;
}.
Arguments NewLimitedVerifier {V}.
Arguments inner {V}.
Arguments lv_ip {V}.
Arguments lv_account {V}.

(** [t_allow] and [t_fail] are the clock readings of the two limiter calls. *)
Definition limited_Verify {S V} `{Verifier S V} (l : LimitedVerifier V)
    (t_allow t_fail : Z) (evidence : string) (st : RateLimiter * S)
    : option (error * (RateLimiter * S)) :=
  let '(r, s) := st in
  match Allow r (lv_ip l) (lv_account l) t_allow with
  | Some e => Some (Some e, (r, s))
  | None =>
     '(res, s') ← verify (inner l) evidence s;
     match res with
     | Some e => Some (Some e, (RecordFailure r (lv_ip l) (lv_account l) t_fail, s'))
     | None => Some (None, (RecordSuccess r (lv_ip l) (lv_account l), s'))
     end
  end.

(** ** Invariant *)

(** What every reachable counter satisfies: fewer failures than the threshold. *)
Definition lock_wf (s : lockState) : Prop := 0 ≤ failures s < FailureThreshold.

Definition limiter_wf (r : RateLimiter) : Prop :=
  map_Forall (λ _, lock_wf) (byIP r) ∧ map_Forall (λ _, lock_wf) (byAcct r).

(** Reference value of the n-th lockout's duration. *)
Definition lockout_spec (n : Z) : Z := Z.min maxLockout (baseLockout * 2 ^ (n - 1)).

(** ** Backoff *)

Lemma lockout_consts : baseLockout = 60000000000 ∧ maxLockout = 3600000000000.
Proof. done. Qed.

Lemma backoff_loop_spec n d :
  0 < d ≤ 2 * maxLockout →
  match backoff_loop n d with
  | inl d' => d' = d * 2 ^ Z.of_nat n ∧ d' ≤ 2 * maxLockout
  | inr d' => d' = maxLockout ∧ maxLockout ≤ d * 2 ^ Z.of_nat n
  end.
Proof.
  destruct lockout_consts as [_ Hmax].
  revert d. induction n as [|n IH]; intros d Hd; simpl.
  - rewrite Z.mul_1_r. lia.
  - destruct (Z.leb_spec maxLockout d).
    + split; [done|].
      assert (1 ≤ 2 ^ Z.of_nat (S n)) by (apply Z.lt_pred_le, Z.pow_pos_nonneg; lia). nia.
    + rewrite wrap64_id by (unfold min_int64, max_int64; lia).
      specialize (IH (d * 2)). rewrite Nat2Z.inj_succ, Z.pow_succ_r, Z.mul_assoc by lia.
      apply IH. lia.
Qed.

(** The doubling loop with its two caps computes the reference value. *)
Lemma backoff_spec n : 1 ≤ n → backoff n = lockout_spec n.
Proof.
  intros Hn. unfold backoff, lockout_spec.
  pose proof (backoff_loop_spec (Z.to_nat (n - 1)) baseLockout) as H.
  rewrite Z2Nat.id in H by lia.
  destruct lockout_consts as [Hb Hm].
  destruct (backoff_loop _ _); destruct H as [-> H']; [lia| |lia|lia].
  destruct (Z.ltb_spec maxLockout (baseLockout * 2 ^ (n - 1))); lia.
Qed.

Lemma backoff_bounds n : baseLockout ≤ backoff n ≤ maxLockout.
Proof.
  destruct lockout_consts as [Hb Hm]. destruct (decide (1 ≤ n)) as [Hn|Hn].
  - rewrite backoff_spec by done. unfold lockout_spec.
    assert (1 ≤ 2 ^ (n - 1)) by (apply Z.lt_pred_le, Z.pow_pos_nonneg; lia). nia.
  - unfold backoff. replace (Z.to_nat (n - 1)) with O by lia. simpl.
    destruct (Z.ltb_spec maxLockout baseLockout); lia.
Qed.

(** ** Counters under repeated failures *)

Definition lookup0 (m : gmap string lockState) (k : string) : lockState :=
  default zero_lock (m !! k).

Lemma lookup0_fail m k t : lookup0 (recordFailure m k t) k = bump (lookup0 m k) t.
Proof. unfold lookup0, recordFailure. by rewrite lookup_insert_eq. Qed.

Lemma lookup0_empty k : lookup0 ∅ k = zero_lock.
Proof. unfold lookup0. by rewrite lookup_empty. Qed.

Lemma lookup_fail_ne m k k' t : k ≠ k' → recordFailure m k t !! k' = m !! k'.
Proof. intros. by apply lookup_insert_ne. Qed.

Lemma locked_lookup0 m k t : 0 ≤ t → locked m k t = (t <? lockedUntil (lookup0 m k)).
Proof.
  intros Ht. unfold locked, lookup0, time_before.
  destruct (m !! k); simpl; [done|]. symmetry. apply Z.ltb_ge. done.
Qed.

Lemma bump_wf s t : lock_wf s → lock_wf (bump s t).
Proof.
  unfold lock_wf, bump, FailureThreshold. intros H.
  rewrite wrap64_id by (unfold min_int64, max_int64; lia).
  destruct (Z.ltb_spec (failures s + 1) 5); simpl; lia.
Qed.

Lemma recordFailure_wf m k t :
  map_Forall (λ _, lock_wf) m → map_Forall (λ _, lock_wf) (recordFailure m k t).
Proof.
  intros Hm. apply map_Forall_insert_2; [|done].
  apply bump_wf. destruct (m !! k) eqn:E; simpl; [by eapply Hm|by vm_compute].
Qed.

(** One counter below the threshold only counts. *)
Lemma bump_counts s t :
  0 ≤ failures s < 4 → bump s t = LockState (failures s + 1) (lockCount s) (lockedUntil s).
Proof.
  unfold bump, FailureThreshold. intros H.
  rewrite wrap64_id by (unfold min_int64, max_int64; lia).
  by destruct (Z.ltb_spec (failures s + 1) 5); [|lia].
Qed.

(** The fifth failure locks. *)
Lemma bump_locks s t :
  failures s = 4 → 0 ≤ lockCount s < max_int64 →
  bump s t = LockState 0 (lockCount s + 1) (t + lockout_spec (lockCount s + 1)).
Proof.
  unfold bump, FailureThreshold. intros -> H.
  rewrite (wrap64_id (lockCount s + 1)) by (unfold min_int64 in *; lia).
  cbn [Z.ltb Z.compare]. change (wrap64 (4 + 1) <? 5) with false. cbv iota.
  rewrite backoff_spec by lia. done.
Qed.

Definition fail_all (m : gmap string lockState) (k : string) (ts : list Z) :=
  fold_left (λ m t, recordFailure m k t) ts m.

Lemma fail_all_lookup0 m k ts :
  lookup0 (fail_all m k ts) k = fold_left bump ts (lookup0 m k).
Proof.
  revert m. induction ts as [|t ts IH]; intros m; simpl; [done|].
  by rewrite IH, lookup0_fail.
Qed.

Lemma fail_all_ne m k k' ts : k ≠ k' → fail_all m k ts !! k' = m !! k'.
Proof.
  intros Hk. revert m. induction ts as [|t ts IH]; intros m; simpl; [done|].
  by rewrite IH, lookup_fail_ne.
Qed.

(** Five failures in a row: one more lockout, ending [lockout_spec] later. *)
Lemma bump5 s t1 t2 t3 t4 t5 :
  failures s = 0 → 0 ≤ lockCount s < max_int64 →
  fold_left bump [t1; t2; t3; t4; t5] s =
  LockState 0 (lockCount s + 1) (t5 + lockout_spec (lockCount s + 1)).
Proof.
  intros Hf Hc. simpl.
  rewrite (bump_counts s), (bump_counts (LockState _ _ _)),
    (bump_counts (LockState _ _ _)), (bump_counts (LockState _ _ _)) by (simpl; lia).
  rewrite bump_locks by (simpl; lia). done.
Qed.

Lemma bump_rounds k ts tl :
  Z.of_nat (length (ts ++ [tl])) = 5 * k → 1 ≤ k ≤ max_int64 →
  fold_left bump (ts ++ [tl]) zero_lock = LockState 0 k (tl + lockout_spec k).
Proof.
  revert ts tl. assert (∀ n : nat, ∀ s ts tl, failures s = 0 → 0 ≤ lockCount s →
    lockCount s + Z.of_nat (S n) ≤ max_int64 → length (ts ++ [tl]) = (5 * S n)%nat →
    fold_left bump (ts ++ [tl]) s =
    LockState 0 (lockCount s + Z.of_nat (S n)) (tl + lockout_spec (lockCount s + Z.of_nat (S n))))
    as Hgen.
  { induction n as [|n IH]; intros s ts tl Hf Hc Hm Hl.
    - rewrite length_app in Hl; simpl in Hl.
      destruct ts as [|a [|b [|c [|d [|]]]]]; simpl in Hl; try lia.
      change ([a; b; c; d] ++ [tl]) with [a; b; c; d; tl].
      rewrite (bump5 s a b c d tl) by lia. done.
    - rewrite length_app in Hl; simpl in Hl.
      destruct ts as [|a [|b [|c [|d [|e ts]]]]]; simpl in Hl; try lia.
      change ((a :: b :: c :: d :: e :: ts) ++ [tl])
        with ([a; b; c; d; e] ++ (ts ++ [tl])).
      rewrite fold_left_app, bump5 by lia. rewrite IH; simpl; try lia.
      + f_equal; [lia|]. f_equal. f_equal. lia.
      + rewrite length_app; simpl. lia. }
  intros ts tl Hl Hk. specialize (Hgen (Z.to_nat (k - 1)) zero_lock ts tl).
  simpl in Hgen. rewrite Hgen by lia. f_equal; [lia|]. do 2 f_equal. lia.
Qed.

(** ** The limiter *)

Definition fail_times (r : RateLimiter) (ip account : string) (ts : list Z) : RateLimiter :=
  fold_left (λ r t, RecordFailure r ip account t) ts r.

Lemma fail_times_split r ip account ts :
  fail_times r ip account ts =
  Limiter (fail_all (byIP r) ip ts) (fail_all (byAcct r) account ts).
Proof.
  revert r. induction ts as [|t ts IH]; intros r; simpl; [by destruct r|].
  by rewrite IH.
Qed.

Lemma Allow_refuses r ip account t :
  is_Some (Allow r ip account t) ↔
  locked (byIP r) ip t = true ∨ locked (byAcct r) account t = true.
Proof.
  unfold Allow, rate_limited. destruct (locked (byIP r) ip t), (locked (byAcct r) account t);
    split; intros H; eauto; by destruct H.
Qed.

Lemma locked_empty k t : locked ∅ k t = false.
Proof. unfold locked. by rewrite lookup_empty. Qed.

Lemma rounds_locked key k ts tl t :
  Z.of_nat (length (ts ++ [tl])) = 5 * k → 1 ≤ k ≤ max_int64 → 0 ≤ t →
  locked (fail_all ∅ key (ts ++ [tl])) key t = (t <? tl + lockout_spec k).
Proof. intros. by rewrite locked_lookup0, fail_all_lookup0, lookup0_empty, (bump_rounds k) by done. Qed.

(** From a new limiter, after 5k recorded failures of one address and account the address
    with any account and the account from any address are refused exactly until the last failure
    plus min(1 hour, 1 minute * 2^(k-1)); every other address and account is allowed. *)
Lemma lockout_schedule ip account ts tl k t :
  Z.of_nat (length (ts ++ [tl])) = 5 * k → 1 ≤ k ≤ max_int64 → 0 ≤ t →
  let r := fail_times NewRateLimiter ip account (ts ++ [tl]) in
  (∀ account', is_Some (Allow r ip account' t) ↔ t < tl + lockout_spec k) ∧
  (∀ ip', is_Some (Allow r ip' account t) ↔ t < tl + lockout_spec k) ∧
  (∀ ip' account', ip' ≠ ip → account' ≠ account → Allow r ip' account' t = None).
Proof.
  intros Hl Hk Ht r. subst r. rewrite fail_times_split; simpl.
  assert (∀ key, locked (fail_all ∅ key (ts ++ [tl])) key t = (t <? tl + lockout_spec k)) as Hsame.
  { intros key. by apply rounds_locked. }
  assert (∀ key key', key ≠ key' → locked (fail_all ∅ key (ts ++ [tl])) key' t = false) as Hother.
  { intros key key' Hne. unfold locked. by rewrite fail_all_ne, lookup_empty. }
  split_and!.
  - intros a'. rewrite Allow_refuses; simpl. rewrite Hsame.
    destruct (decide (a' = account)) as [->|Ha].
    + rewrite Hsame, Z.ltb_lt. tauto.
    + rewrite (Hother account a') by done. rewrite Z.ltb_lt. intuition congruence.
  - intros ip'. rewrite Allow_refuses; simpl. rewrite Hsame.
    destruct (decide (ip' = ip)) as [->|Hi].
    + rewrite Hsame, Z.ltb_lt. tauto.
    + rewrite (Hother ip ip') by done. rewrite Z.ltb_lt. intuition congruence.
  - intros ip' a' Hi Ha. unfold Allow; simpl.
    by rewrite (Hother ip ip'), (Hother account a') by done.
Qed.

(** ** Histories of recorded outcomes *)

Inductive event :=
  | EvFail (ip account : string) (t : Z)
  | EvSuccess (ip account : string).

Definition apply_event (r : RateLimiter) (e : event) : RateLimiter :=
  match e with
  | EvFail ip a t => RecordFailure r ip a t
  | EvSuccess ip a => RecordSuccess r ip a
  end.

Definition run_events (r : RateLimiter) (es : list event) : RateLimiter :=
  fold_left apply_event es r.

Definition event_before (T : Z) (e : event) : Prop :=
  match e with EvFail _ _ t => t ≤ T | EvSuccess _ _ => True end.

(** A predicate on counters that failures preserve holds of every counter of
    every history. *)
Lemma run_events_inv (P : lockState → Prop) (Q : event → Prop) es :
  P zero_lock →
  (∀ s ip a t, P s → Q (EvFail ip a t) → P (bump s t)) →
  Forall Q es →
  ∀ r, map_Forall (λ _, P) (byIP r) → map_Forall (λ _, P) (byAcct r) →
  map_Forall (λ _, P) (byIP (run_events r es)) ∧ map_Forall (λ _, P) (byAcct (run_events r es)).
Proof.
  intros H0 Hb. induction 1 as [|e es He _ IH]; intros r Hi Ha; simpl; [done|].
  assert (∀ m k ip a t, e = EvFail ip a t → map_Forall (λ _, P) m →
    map_Forall (λ _, P) (recordFailure m k t)) as Hrec.
  { intros m k ip a t -> Hm. apply map_Forall_insert_2; [|done].
    apply (Hb _ ip a); [|done]. destruct (m !! k) eqn:E; simpl; [by eapply Hm|done]. }
  destruct e as [ip a t|ip a]; simpl.
  - apply IH; by eapply Hrec.
  - apply IH; by apply map_Forall_delete.
Qed.

Lemma limiter_invariant es :
  limiter_wf (run_events NewRateLimiter es).
Proof.
  apply (run_events_inv lock_wf (λ _, True)); simpl;
    [by vm_compute|auto using bump_wf|by apply Forall_true|apply map_Forall_empty|apply map_Forall_empty].
Qed.

Lemma locked_false_le m T t k :
  map_Forall (λ _, λ s, lockedUntil s ≤ T) m → T ≤ t → locked m k t = false.
Proof.
  intros Hm HT. unfold locked, time_before. destruct (m !! k) eqn:E; [|done].
  apply Z.ltb_ge. apply Hm in E. lia.
Qed.

Lemma bump_lockedUntil s t T :
  lockedUntil s ≤ T + maxLockout → t ≤ T → lockedUntil (bump s t) ≤ T + maxLockout.
Proof.
  unfold bump, time_add. intros Hs Ht.
  destruct (_ <? _); simpl; [done|].
  pose proof (backoff_bounds (wrap64 (lockCount s + 1))). lia.
Qed.

(** A counter within its bounds, all failures being over by [T]. *)
Definition bounded (T : Z) (s : lockState) : Prop :=
  0 ≤ failures s < FailureThreshold ∧ lockedUntil s ≤ T + maxLockout.

Lemma bump_bounded T s t : t ≤ T → bounded T s → bounded T (bump s t).
Proof. intros Ht [Hf Hl]. split; [by apply bump_wf|by apply bump_lockedUntil]. Qed.

Lemma counters_bounded es T :
  Forall (event_before T) es → 0 ≤ T →
  let r := run_events NewRateLimiter es in
  map_Forall (λ _, bounded T) (byIP r) ∧ map_Forall (λ _, bounded T) (byAcct r).
Proof.
  intros HF HT. apply (run_events_inv (bounded T) (event_before T)); simpl;
    [|by eauto using bump_bounded|done|apply map_Forall_empty|apply map_Forall_empty].
  destruct lockout_consts. split; [by vm_compute|]. change (0 ≤ T + maxLockout). lia.
Qed.

(** No lockout outlasts an hour. *)
Lemma lockout_ends es T t ip account :
  Forall (event_before T) es → 0 ≤ T → T + maxLockout ≤ t →
  Allow (run_events NewRateLimiter es) ip account t = None.
Proof.
  intros HF HT Ht. destruct (counters_bounded es T HF HT) as [Hi Ha].
  assert (∀ m k, map_Forall (λ _, bounded T) m → locked m k t = false) as Hl.
  { intros m k Hm. apply (locked_false_le _ (T + maxLockout)); [|done].
    by eapply map_Forall_impl; [exact Hm|intros ? ? []]. }
  unfold Allow. by rewrite !Hl.
Qed.

(** C13: The doubling of the lockout never overflows and stays between one minute and one hour
    whatever the count; in every history whose failures were recorded by time T each counter
    holds fewer failures than the threshold and no lockout ends later than T plus an hour, from
    when on everyone is allowed. *)
Theorem limiter_bounds es T n :
  Forall (event_before T) es → 0 ≤ T →
  let r := run_events NewRateLimiter es in
  baseLockout ≤ backoff n ≤ maxLockout ∧
  map_Forall (λ _ s, 0 ≤ failures s < FailureThreshold ∧ lockedUntil s ≤ T + maxLockout) (byIP r) ∧
  map_Forall (λ _ s, 0 ≤ failures s < FailureThreshold ∧ lockedUntil s ≤ T + maxLockout) (byAcct r) ∧
  ∀ ip account t, T + maxLockout ≤ t → Allow r ip account t = None.
Proof.
  intros HF HT r. destruct (counters_bounded es T HF HT) as [Hi Ha].
  split_and!; [apply backoff_bounds|apply backoff_bounds|exact Hi|exact Ha|].
  intros ip account t Ht. by apply (lockout_ends es T).
Qed.

(** ** Resets

    A success anywhere in the chain deletes the counters, so failures only
    count while no success separates them. *)

Definition round (ip account : string) (ts : list Z) : list event :=
  map (EvFail ip account) ts ++ [EvSuccess ip account].

Lemma run_events_app r es es' :
  run_events r (es ++ es') = run_events (run_events r es) es'.
Proof. apply fold_left_app. Qed.

Lemma run_fails r ip account ts :
  run_events r (map (EvFail ip account) ts) = fail_times r ip account ts.
Proof. revert r. induction ts as [|t ts IH]; intros r; simpl; [done|]. apply IH. Qed.

Lemma delete_fail_all m k ts : delete k (fail_all m k ts) = delete k m.
Proof.
  apply map_eq; intros k'. destruct (decide (k = k')) as [->|].
  - by rewrite !lookup_delete_eq.
  - by rewrite !lookup_delete_ne, fail_all_ne by done.
Qed.

Lemma run_round r ip account ts :
  run_events r (round ip account ts) = RecordSuccess r ip account.
Proof.
  unfold round. rewrite run_events_app, run_fails, fail_times_split.
  cbn. unfold RecordSuccess; simpl. by rewrite !delete_fail_all.
Qed.

Lemma fold_bump_unlocked ts s :
  0 ≤ failures s → failures s + Z.of_nat (length ts) < FailureThreshold →
  lockedUntil (fold_left bump ts s) = lockedUntil s.
Proof.
  unfold FailureThreshold. revert s. induction ts as [|t ts IH]; intros s H0 H; simpl in *; [done|].
  rewrite bump_counts by lia. rewrite IH; simpl; [done|lia|lia].
Qed.

Lemma run_rounds ip account rounds :
  run_events NewRateLimiter (concat (map (round ip account) rounds)) = NewRateLimiter.
Proof.
  induction rounds as [|x rs IH]; simpl; [done|].
  rewrite run_events_app, run_round. unfold RecordSuccess; simpl.
  by rewrite !delete_empty.
Qed.

(** Any number of rounds, each of any number of failures followed by one success, and then
    up to four failures, leave the address and the account allowed: an attacker who can produce
    successes is never locked out. *)
Lemma success_resets ip account rounds ts t :
  (length ts < 5)%nat → 0 ≤ t →
  Allow (run_events NewRateLimiter
           (concat (map (round ip account) rounds) ++ map (EvFail ip account) ts))
        ip account t = None.
Proof.
  intros Hts Ht. rewrite run_events_app, run_rounds, run_fails, fail_times_split.
  assert (∀ k, locked (fail_all ∅ k ts) k t = false) as Hl.
  { intros k. rewrite locked_lookup0, fail_all_lookup0, lookup0_empty by done.
    rewrite fold_bump_unlocked; [by apply Z.ltb_ge|done|].
    unfold FailureThreshold; simpl. lia. }
  unfold Allow; simpl. by rewrite !Hl.
Qed.

(** ** LimitedVerifier *)

Section limited.
Context {S V : Type} `{Verifier S V}.

(** LimitedVerifier either refuses a locked-out caller without calling the inner verifier
    or changing anything, or returns the inner verifier's answer and records it as a success or
    a failure. *)
Lemma limited_Verify_spec (l : LimitedVerifier V) ta tf ev r s :
  let ip := lv_ip l in let acct := lv_account l in
  match limited_Verify l ta tf ev (r, s) with
  | None => Allow r ip acct ta = None ∧ verify (inner l) ev s = None
  | Some (None, (r', s')) =>
      Allow r ip acct ta = None ∧ verify (inner l) ev s = Some (None, s') ∧
      r' = RecordSuccess r ip acct
  | Some (Some e, (r', s')) =>
      (is_Some (Allow r ip acct ta) ∧ errors_is e ErrRateLimited = true ∧ r' = r ∧ s' = s) ∨
      (Allow r ip acct ta = None ∧ verify (inner l) ev s = Some (Some e, s') ∧
       r' = RecordFailure r ip acct tf)
  end.
Proof.
  unfold limited_Verify. simpl.
  destruct (Allow r (lv_ip l) (lv_account l) ta) as [e|] eqn:EA.
  - left. split_and!; try done. revert EA. unfold Allow, rate_limited.
    destruct (locked _ _ _); [by intros [= <-]|].
    by destruct (locked _ _ _); intros [= <-].
  - by destruct (verify (inner l) ev s) as [[[e|] s']|] eqn:EV; simpl; [right| |].
Qed.
End limited.

(** ** Concrete schedules *)

Lemma lockout_schedule_witness :
  let r := fail_times NewRateLimiter "10.0.0.1" "me" [1; 2; 3; 4; 5; 6; 7; 8; 9; 10] in
  is_Some (Allow r "10.0.0.1" "you" (2 * Minute + 9)) ∧ ¬ is_Some (Allow r "10.0.0.2" "me" (2 * Minute + 10)).
Proof.
  destruct (lockout_schedule "10.0.0.1" "me" [1; 2; 3; 4; 5; 6; 7; 8; 9] 10 2 (2 * Minute + 9))
    as (Hip & _ & _); [done|done|done|].
  destruct (lockout_schedule "10.0.0.1" "me" [1; 2; 3; 4; 5; 6; 7; 8; 9] 10 2 (2 * Minute + 10))
    as (_ & Hacct & _); [done|done|done|].
  split; [by apply Hip|]. intros Ha%Hacct. by vm_compute in Ha.
Defined.

(** The twelfth lockout would be 2^11 minutes. *)
Definition sixty_failures : list event := replicate 60 (EvFail "10.0.0.1" "me" 7).

Lemma limiter_bounds_witness :
  let r := run_events NewRateLimiter sixty_failures in
  is_Some (Allow r "10.0.0.1" "me" (7 + maxLockout - 1)) ∧
  Allow r "10.0.0.1" "me" (7 + maxLockout) = None ∧ backoff 100 ≤ maxLockout.
Proof.
  destruct (limiter_bounds sixty_failures 7 100) as ([_ Hb] & _ & _ & Hl);
    [by repeat constructor|done|].
  split_and!; [apply Allow_refuses; left; by vm_compute|by apply Hl|exact Hb].
Defined.

Lemma success_resets_witness :
  Allow (run_events NewRateLimiter
           (concat (map (round "10.0.0.1" "me") [[1; 2; 3; 4]; [5; 6; 7; 8]]) ++
            map (EvFail "10.0.0.1" "me") [9; 10; 11; 12])) "10.0.0.1" "me" 12 = None.
Proof. apply success_resets; [simpl; lia|done]. Defined.
