(* ===== verification/StepUp.v ===== *)
(** * identity/stepup.go: narrow, single-use step-up grants

    The methods of a [StepUpGate] run with the mutex held and take the clock
    reading they use as an argument. *)

From S2P Require Import Prelude GoStr.
From Stdlib Require Import Ascii.

(** [SensitiveAction] is a Go string type. *)
Definition ActionRevokeDevice : string := "revoke_device".
Definition ActionPairDevice : string := "pair_device".
Definition ActionDeleteBackup : string := "delete_backup".
Definition ActionChangeSecuritySettings : string := "change_security_settings".

Definition stepUpRegistry : gmap string bool :=
  list_to_map [(ActionRevokeDevice, true); (ActionPairDevice, true);
               (ActionDeleteBackup, true); (ActionChangeSecuritySettings, true)].

Definition RequiresStepUp (action : string) : bool :=
  match stepUpRegistry !! action with
  | None => true
  | Some required => required
  end.

Definition StepUpTTL : Z := 5 * Minute.

Record stepUpGrant := Granted { grant_expiresAt : Z }.

Record StepUpGate := MkStepUpGate { grants : gmap string stepUpGrant }.

Definition NewStepUpGate : StepUpGate := MkStepUpGate ∅.

Definition NUL : ascii := ascii_of 0.

Definition grantKey (deviceID action : string) : string :=
  deviceID +:+ String NUL action.

Definition Grant (g : StepUpGate) (deviceID action : string) (now : Z) : StepUpGate :=
  MkStepUpGate (<[grantKey deviceID action := Granted (time_add now StepUpTTL)]> (grants g)).

Definition Consume (g : StepUpGate) (deviceID action : string) (now : Z) : error * StepUpGate :=
  let key := grantKey deviceID action in
  match grants g !! key with
  | None => (Some (ESent ErrStepUpRequired), g)
  | Some grant =>
     let g' := MkStepUpGate (delete key (grants g)) in
     if time_after now (grant_expiresAt grant) then (Some (ESent ErrStepUpExpired), g') else (None, g')
  end.

(** ** Histories of gate calls *)

Inductive gate_call :=
  | CGrant (deviceID action : string) (now : Z)
  | CConsume (deviceID action : string) (now : Z).

Definition gate_step (g : StepUpGate) (c : gate_call) : StepUpGate :=
  match c with
  | CGrant d a t => Grant g d a t
  | CConsume d a t => (Consume g d a t).2
  end.

Definition gate_run (cs : list gate_call) : StepUpGate := fold_left gate_step cs NewStepUpGate.

(** The expiry of the grant for [(d, a)], if there is one. *)
Definition granted_until (g : StepUpGate) (d a : string) : option Z :=
  grant_expiresAt <$> grants g !! grantKey d a.

(** ** Reference: capabilities indexed by the pair itself *)

Definition call_of (c : gate_call) : string * string :=
  match c with CGrant d a _ | CConsume d a _ => (d, a) end.

(** The expiry of the capability for [(d, a)] after a history, newest call first. *)
Fixpoint capability (d a : string) (cs : list gate_call) : option Z :=
  match cs with
  | [] => None
  | c :: cs' =>
     if bool_decide (call_of c = (d, a)) then
       match c with
       | CGrant _ _ t => Some (t + StepUpTTL)
       | CConsume _ _ _ => None
       end
     else capability d a cs'
  end.

(** Every call names an action without a NUL byte, as the four constants do. *)
Definition plain_action (a : string) : Prop := char_free NUL a.

Definition plain_call (c : gate_call) : Prop := plain_action (call_of c).2.

Lemma registered_plain a : is_Some (stepUpRegistry !! a) → plain_action a.
Proof.
  unfold stepUpRegistry; simpl. intros [b Hb].
  repeat match goal with H : <[?k := _]> _ !! _ = Some _ |- _ =>
    apply lookup_insert_Some in H as [[<- _]|[_ H]]; [by vm_compute|] end.
  by rewrite lookup_empty in Hb.
Qed.

(** ** Keys *)

Lemma app_cons_inj (d d' a a' : string) (c : ascii) :
  char_free c a → char_free c a' → d +:+ String c a = d' +:+ String c a' → d = d' ∧ a = a'.
Proof.
  intros Ha Ha'. revert d'. induction d as [|x d IH]; intros [|y d']; simpl; intros [= ].
  - done.
  - subst. exfalso. apply char_free_app in Ha as [_ Ha].
    by apply char_free_cons in Ha as [? _].
  - subst. exfalso. apply char_free_app in Ha' as [_ Ha'].
    by apply char_free_cons in Ha' as [? _].
  - subst. by destruct (IH d') as [-> ->].
Qed.

Lemma grantKey_inj d a d' a' :
  plain_action a → plain_action a' → grantKey d a = grantKey d' a' → d = d' ∧ a = a'.
Proof. apply app_cons_inj. Qed.

(** The separator does not protect against a NUL inside the action. *)
Lemma grantKey_collides : grantKey "d" (String NUL "a") = grantKey (String "d" (String NUL "")) "a".
Proof. done. Qed.

(** ** Refinement *)

Lemma gate_run_snoc cs c : gate_run (cs ++ [c]) = gate_step (gate_run cs) c.
Proof. unfold gate_run. by rewrite fold_left_app. Qed.

Lemma gate_step_lookup g c d a :
  plain_action a → plain_call c →
  granted_until (gate_step g c) d a =
  if bool_decide (call_of c = (d, a)) then
    match c with CGrant _ _ t => Some (t + StepUpTTL) | CConsume _ _ _ => None end
  else granted_until g d a.
Proof.
  intros Ha Hc. unfold granted_until. case_bool_decide as Heq.
  - destruct c as [d' a' t|d' a' t]; simpl in Heq; injection Heq as -> ->; simpl.
    + by rewrite lookup_insert_eq.
    + unfold Consume. destruct (grants g !! grantKey d a) eqn:E; simpl; [|by rewrite E].
      destruct (time_after _ _); simpl; by rewrite lookup_delete_eq.
  - assert (grantKey (call_of c).1 (call_of c).2 ≠ grantKey d a) as Hk.
    { intros [Hd Ha']%grantKey_inj; [|done|done].
      apply Heq. by destruct (call_of c); simpl in *; subst. }
    destruct c as [d' a' t|d' a' t]; simpl in *.
    + by rewrite lookup_insert_ne.
    + unfold Consume. destruct (grants g !! grantKey d' a'); simpl; [|done].
      destruct (time_after _ _); simpl; by rewrite lookup_delete_ne.
Qed.

(** The string-keyed map implements the table of capabilities. *)
Lemma gate_refines cs d a :
  plain_action a → Forall plain_call cs →
  granted_until (gate_run cs) d a = capability d a (rev cs).
Proof.
  intros Ha. induction cs as [|c cs IH] using rev_ind; intros HF; [done|].
  apply Forall_app in HF as [HF Hc]. inversion_clear Hc.
  rewrite gate_run_snoc, gate_step_lookup, rev_app_distr by done. simpl.
  by case_bool_decide; [|apply IH].
Qed.

(** A capability is live exactly when its last call was a grant. *)
Lemma capability_some cs d a e :
  capability d a (rev cs) = Some e ↔
  ∃ before t after,
    cs = before ++ CGrant d a t :: after ∧
    Forall (λ c, call_of c ≠ (d, a)) after ∧ e = t + StepUpTTL.
Proof.
  induction cs as [|c cs IH] using rev_ind; simpl.
  { split; [done|]. by intros ([] & ? & ? & ? & ?). }
  rewrite rev_app_distr; simpl. case_bool_decide as Hc; [|rewrite IH]; split.
  - destruct c as [d' a' t|]; [|done]. simpl in Hc. injection Hc as -> ->.
    intros [= <-]. exists cs, t, []. by split_and!.
  - intros (b & t & af & E & Haf & ->). destruct af as [|x af _] using rev_ind.
    + by apply app_inj_tail in E as [_ ->].
    + rewrite app_comm_cons, app_assoc in E. apply app_inj_tail in E as [_ ->].
      apply Forall_app in Haf as [_ Hx]. by inversion_clear Hx.
  - intros (b & t & af & -> & Haf & ->). exists b, t, (af ++ [c]).
    split_and!; [by rewrite <- app_assoc|apply Forall_app; auto|done].
  - intros (b & t & af & E & Haf & ->). destruct af as [|x af _] using rev_ind.
    + by apply app_inj_tail in E as [_ ->].
    + rewrite app_comm_cons, app_assoc in E. apply app_inj_tail in E as [-> ->].
      apply Forall_app in Haf as [Haf _]. by exists b, t, af.
Qed.

Lemma Consume_ok g d a now :
  (Consume g d a now).1 = None ↔ ∃ e, granted_until g d a = Some e ∧ now ≤ e.
Proof.
  unfold Consume, time_after, granted_until. destruct (grants g !! grantKey d a) as [[e]|]; simpl.
  - destruct (Z.ltb_spec e now); simpl; split; try done.
    + intros (e' & [= <-] & ?). lia.
    + by exists e.
  - by split; [|intros (? & ? & ?)].
Qed.

(** C32: After any history of grants and consumptions, consuming (device, action) succeeds
    exactly when the latest call for that very pair was a grant at most five minutes old: the
    string-keyed map implements a table of capabilities. *)
Theorem consume_iff_granted cs d a now :
  plain_action a → Forall plain_call cs →
  (Consume (gate_run cs) d a now).1 = None ↔
  ∃ before t after,
    cs = before ++ CGrant d a t :: after ∧
    Forall (λ c, call_of c ≠ (d, a)) after ∧
    now ≤ t + StepUpTTL.
Proof.
  intros Ha HF. rewrite Consume_ok, gate_refines by done.
  setoid_rewrite capability_some. naive_solver.
Qed.

(** A consumption, successful or not, uses up the grant: the next one for the same device
    and action is refused. *)
Lemma consume_single_use g d a now now' :
  (Consume (Consume g d a now).2 d a now').1 = Some (ESent ErrStepUpRequired).
Proof.
  unfold Consume. destruct (grants g !! grantKey d a) eqn:E; simpl.
  - by destruct (time_after _ _); simpl; rewrite lookup_delete_eq.
  - by rewrite E.
Qed.

Lemma RequiresStepUp_default_deny a :
  RequiresStepUp a = true.
Proof.
  unfold RequiresStepUp. destruct (stepUpRegistry !! a) as [b|] eqn:E; [|done].
  unfold stepUpRegistry in E; simpl in E.
  repeat match goal with H : <[_ := _]> _ !! _ = Some _ |- _ =>
    apply lookup_insert_Some in H as [[_ <-]|[_ H]]; [done|] end.
  by rewrite lookup_empty in E.
Qed.

Lemma consume_iff_granted_witness :
  (Consume (gate_run [CGrant "d" ActionRevokeDevice 10; CGrant "e" ActionPairDevice 20])
     "d" ActionRevokeDevice (10 + StepUpTTL)).1 = None.
Proof.
  apply consume_iff_granted; [by vm_compute|repeat constructor; by vm_compute|].
  exists [], 10, [CGrant "e" ActionPairDevice 20]. split_and!; [done|by repeat constructor|done].
Defined.
