(* ===== verification/Database.v ===== *)
(** * db/db.go: the sessions and devices tables

    The two tables of the schema and the effect of each SQL statement on them.
    SQLite itself is not part of the repository. What the statements rely on
    is written out (primary keys, NOT NULL, CHECK, atomic statements); the
    order of rows a query leaves open is the parameter [SqlOrder]; and every
    call takes the error the driver returned for it, [None] when the statement
    ran. A column that may be NULL holds an [option]. *)

From S2P Require Import Prelude.

Definition StatusOpen : string := "open".
Definition StatusClosed : string := "closed".

(** CREATE TABLE sessions *)
Record session_row := SessionRow {
  s_name : option string;
  s_tmux : string;                       (* NOT NULL *)
  s_cwd : option string;
  s_shell : option string;
  s_status : option string;              (* CHECK (status IN ('open','closed')) *)
  s_created : option Z;
  s_active : option Z;
}.

(** CREATE TABLE devices *)
Record device_row := DeviceRow {
  d_name : option string;
  d_platform : option string;
  d_pubkey : string;                     (* NOT NULL *)
  d_paired : option Z;
  d_seen : option Z;
  d_revoked : option Z;
}.

(** The tables by primary key. *)
Record DB := Tables {
  sessions : gmap string session_row;
  devices : gmap string device_row;
}.

Definition empty_db : DB := Tables ∅ ∅.

Definition dsn (path : string) : string :=
  "file:" +:+ path +:+ "?_pragma=busy_timeout(5000)&_pragma=foreign_keys(1)&_pragma=journal_mode(WAL)".

(** Opening the database: the driver's sql.Open, Ping and Exec of the schema.
    The schema creates the tables that are missing and changes nothing else. *)
Definition db_Open (sql_open : string → result DB) (ping apply_schema : error) (path : string) : result DB :=
  match sql_open (dsn path) with
  | Err e => Err (EWrap "open database: " e "")
  | Ok handle =>
     match ping with
     | Some e => Err (EWrap "ping database: " e "")
     | None =>
        match apply_schema with
        | Some e => Err (EWrap "apply schema: " e "")
        | None => Ok handle
        end
     end
  end.

Definition check_status (s : option string) : bool :=
  match s with
  | None => true
  | Some s => bool_decide (s = StatusOpen) || bool_decide (s = StatusClosed)
  end.

(** ** Rows as the API sees them *)

Record Session := MkSession {
  ID : string; Name : string; TmuxSession : string; Cwd : string; Shell : string;
  Status : string; CreatedAt : Z; LastActiveAt : Z;
}.

Record Device := MkDevice {
  DevID : string; DevName : string; Platform : string; PubKey : string;
  PairedAt : Z; LastSeenAt : Z; Revoked : bool;
}.

(** ORDER BY key DESC: which permutation SQLite picks among equal keys is its
    own business. NULL sorts below every number. *)
Definition key_ge (a b : option Z) : Prop :=
  match a, b with
  | _, None => True
  | None, Some _ => False
  | Some x, Some y => y ≤ x
  end.

Class SqlOrder := {
  order_desc : ∀ {A}, (A → option Z) → list A → list A;
  order_desc_perm : ∀ {A} (key : A → option Z) l, Permutation (order_desc key l) l;
  order_desc_sorted : ∀ {A} (key : A → option Z) l,
    StronglySorted (λ a b, key_ge (key a) (key b)) (order_desc key l);
}.

Definition coalesce (s : option string) : string := default "" s.
Definition coalesce0 (z : option Z) : Z := default 0 z.

(** Scan of one sessions row: a NULL status does not scan into a string. *)
Definition scan_session (id : string) (r : session_row) : result Session :=
  match s_status r with
  | None => Err (EMsg "converting NULL to string is unsupported")
  | Some st =>
     Ok (MkSession id (coalesce (s_name r)) (s_tmux r) (coalesce (s_cwd r))
           (coalesce (s_shell r)) st (coalesce0 (s_created r)) (coalesce0 (s_active r)))
  end.

Definition scan_device (id : string) (r : device_row) : result Device :=
  match d_revoked r with
  | None => Err (EMsg "converting NULL to int is unsupported")
  | Some rv =>
     Ok (MkDevice id (coalesce (d_name r)) (coalesce (d_platform r)) (d_pubkey r)
           (coalesce0 (d_paired r)) (coalesce0 (d_seen r)) (negb (rv =? 0)))
  end.

(** for rows.Next() { rows.Scan(...) }: the first row that does not scan ends it. *)
Fixpoint scan_all {A B} (scan : A → result B) (what : string) (rows : list A)
    : result (list B) :=
  match rows with
  | [] => Ok []
  | r :: rows' =>
     match scan r with
     | Err e => Err (EWrap ("scan " +:+ what +:+ ": ") e "")
     | Ok x => rest ← scan_all scan what rows'; Ok (x :: rest)
     end
  end.

Definition wrap_id (what id : string) (e : goerr) : error :=
  Some (EWrap (what +:+ " " +:+ id +:+ ": ") e "").

(** What RowsAffected returns; the SQLite driver has the count at hand and
    answers without an error. *)
Definition requireOneRow (affected : result Z) (id : string) : error :=
  match affected with
  | Err e => wrap_id "rows affected for" id e
  | Ok n => if n =? 0 then Some (ESent ErrNoRows) else None
  end.

(** UPDATE ... WHERE id = key AND cond: the new table and the rows affected. *)
Definition update_where {R} (m : gmap string R) (key : string) (cond : R → bool) (f : R → R)
    : gmap string R * Z :=
  match m !! key with
  | Some r => if cond r then (<[key := f r]> m, 1) else (m, 0)
  | None => (m, 0)
  end.

(** ** Sessions *)

(** The zero values [CreateSession] fills in before the INSERT. *)
Definition fill_session (s : Session) (now : Z) : Session :=
  MkSession (ID s) (Name s) (TmuxSession s) (Cwd s) (Shell s)
    (if String.eqb (Status s) "" then StatusOpen else Status s)
    (if CreatedAt s =? 0 then now else CreatedAt s)
    (if LastActiveAt s =? 0 then now else LastActiveAt s).

Definition session_insert (s : Session) : session_row :=
  SessionRow (Some (Name s)) (TmuxSession s) (Some (Cwd s)) (Some (Shell s))
    (Some (Status s)) (Some (CreatedAt s)) (Some (LastActiveAt s)).

Definition CreateSession (d : DB) (s : Session) (now : Z) (io : error) : error * DB :=
  let s := fill_session s now in
  let fail e := (wrap_id "create session" (ID s) e, d) in
  match io with
  | Some e => fail e
  | None =>
     match sessions d !! ID s with
     | Some _ => fail (ESent ErrConstraint)
     | None =>
        if check_status (Some (Status s))
        then (None, Tables (<[ID s := session_insert s]> (sessions d)) (devices d))
        else fail (ESent ErrConstraint)
     end
  end.

Definition GetSession (d : DB) (id : string) (io : error) : result Session :=
  match io with
  | Some e => Err e
  | None =>
     match sessions d !! id with
     | None => Err (ESent ErrNoRows)
     | Some r => scan_session id r
     end
  end.

Definition status_is (st : string) (r : session_row) : bool :=
  bool_decide (s_status r = Some st).

Definition ListOpenSessions `{SqlOrder} (d : DB) (io : error) : result (list Session) :=
  match io with
  | Some e => Err (EWrap "list sessions: " e "")
  | None =>
     let rows := List.filter (λ p, status_is StatusOpen p.2) (map_to_list (sessions d)) in
     scan_all (λ p, scan_session p.1 p.2) "session" (order_desc (λ p, s_active p.2) rows)
  end.

Definition set_name (name : string) (r : session_row) : session_row :=
  SessionRow (Some name) (s_tmux r) (s_cwd r) (s_shell r) (s_status r) (s_created r) (s_active r).

Definition set_closed (now : Z) (r : session_row) : session_row :=
  SessionRow (s_name r) (s_tmux r) (s_cwd r) (s_shell r) (Some StatusClosed) (s_created r) (Some now).

Definition set_active (now : Z) (r : session_row) : session_row :=
  SessionRow (s_name r) (s_tmux r) (s_cwd r) (s_shell r) (s_status r) (s_created r) (Some now).

Definition RenameSession (d : DB) (id name : string) (io : error) : error * DB :=
  match io with
  | Some e => (wrap_id "rename session" id e, d)
  | None =>
     let '(m, n) := update_where (sessions d) id (λ _, true) (set_name name) in
     (requireOneRow (Ok n) id, Tables m (devices d))
  end.

Definition CloseSession (d : DB) (id : string) (now : Z) (io : error) : error * DB :=
  match io with
  | Some e => (wrap_id "close session" id e, d)
  | None =>
     let '(m, n) := update_where (sessions d) id (status_is StatusOpen) (set_closed now) in
     (requireOneRow (Ok n) id, Tables m (devices d))
  end.

Definition TouchSession (d : DB) (id : string) (now : Z) (io : error) : error * DB :=
  match io with
  | Some e => (wrap_id "touch session" id e, d)
  | None =>
     let '(m, _) := update_where (sessions d) id (λ _, true) (set_active now) in
     (None, Tables m (devices d))
  end.

(** ** Devices *)

Definition PairDevice (d : DB) (dev : Device) (now : Z) (io : error) : error * DB :=
  let paired := if PairedAt dev =? 0 then now else PairedAt dev in
  let fail e := (wrap_id "pair device" (DevID dev) e, d) in
  match io with
  | Some e => fail e
  | None =>
     match devices d !! DevID dev with
     | Some _ => fail (ESent ErrConstraint)
     | None =>
        let row := DeviceRow (Some (DevName dev)) (Some (Platform dev)) (PubKey dev)
                     (Some paired) (Some paired) (Some 0) in
        (None, Tables (sessions d) (<[DevID dev := row]> (devices d)))
     end
  end.

Definition GetDevice (d : DB) (id : string) (io : error) : result Device :=
  match io with
  | Some e => Err e
  | None =>
     match devices d !! id with
     | None => Err (ESent ErrNoRows)
     | Some r => scan_device id r
     end
  end.

Definition ListDevices `{SqlOrder} (d : DB) (io : error) : result (list Device) :=
  match io with
  | Some e => Err (EWrap "list devices: " e "")
  | None =>
     scan_all (λ p, scan_device p.1 p.2) "device"
       (order_desc (λ p, d_paired p.2) (map_to_list (devices d)))
  end.

Definition set_revoked (r : device_row) : device_row :=
  DeviceRow (d_name r) (d_platform r) (d_pubkey r) (d_paired r) (d_seen r) (Some 1).

Definition set_seen (now : Z) (r : device_row) : device_row :=
  DeviceRow (d_name r) (d_platform r) (d_pubkey r) (d_paired r) (Some now) (d_revoked r).

Definition RevokeDevice (d : DB) (id : string) (io : error) : error * DB :=
  match io with
  | Some e => (wrap_id "revoke device" id e, d)
  | None =>
     let '(m, n) := update_where (devices d) id (λ _, true) set_revoked in
     (requireOneRow (Ok n) id, Tables (sessions d) m)
  end.

Definition TouchDevice (d : DB) (id : string) (now : Z) (io : error) : error * DB :=
  match io with
  | Some e => (wrap_id "touch device" id e, d)
  | None =>
     let '(m, _) := update_where (devices d) id (λ _, true) (set_seen now) in
     (None, Tables (sessions d) m)
  end.

(** ** Histories of statements *)

Inductive db_call :=
  | QCreate (s : Session) | QRename (id name : string) | QClose (id : string)
  | QTouch (id : string) | QPair (dev : Device) | QRevoke (id : string)
  | QTouchDevice (id : string).

(** One statement at [now], with the driver's answer. *)
Definition db_step (d : DB) (c : db_call * Z * error) : DB :=
  let '(c, now, io) := c in
  match c with
  | QCreate s => (CreateSession d s now io).2
  | QRename id name => (RenameSession d id name io).2
  | QClose id => (CloseSession d id now io).2
  | QTouch id => (TouchSession d id now io).2
  | QPair dev => (PairDevice d dev now io).2
  | QRevoke id => (RevokeDevice d id io).2
  | QTouchDevice id => (TouchDevice d id now io).2
  end.

Definition db_run (d : DB) (cs : list (db_call * Z * error)) : DB := fold_left db_step cs d.

(** What the statements of this file leave in the tables: one of the two
    statuses, an activity time, and a revoked flag that scans. *)
Definition session_wf (r : session_row) : Prop :=
  (s_status r = Some StatusOpen ∨ s_status r = Some StatusClosed) ∧ is_Some (s_active r).

Definition db_wf (d : DB) : Prop :=
  map_Forall (λ _, session_wf) (sessions d) ∧
  map_Forall (λ _ r, is_Some (d_revoked r)) (devices d).

(** ** Updates *)

Lemma update_where_lookup {R} (m : gmap string R) id cond f k :
  (update_where m id cond f).1 !! k =
  match m !! k with
  | Some r => Some (if bool_decide (k = id) && cond r then f r else r)
  | None => None
  end.
Proof.
  unfold update_where. case_bool_decide as Hk; simpl.
  - subst k. destruct (m !! id) as [r|] eqn:E; simpl; [|by rewrite E].
    destruct (cond r); simpl; [by rewrite lookup_insert_eq|by rewrite E].
  - destruct (m !! id) as [r|]; [destruct (cond r)|]; simpl;
      rewrite ?lookup_insert_ne by done; by destruct (m !! k).
Qed.

Lemma update_where_count {R} (m : gmap string R) id cond f :
  (update_where m id cond f).2 = 0 ↔ ∀ r, m !! id = Some r → cond r = false.
Proof.
  unfold update_where. destruct (m !! id) as [r|]; simpl.
  - destruct (cond r) eqn:E; simpl.
    + split; [done|]. intros H. by rewrite (H r eq_refl) in E.
    + split; [|done]. by intros _ ? [= <-].
  - by split.
Qed.

Lemma update_where_Forall {R} (P : string → R → Prop) m id cond f :
  (∀ k r, P k r → P k (f r)) → map_Forall P m → map_Forall P (update_where m id cond f).1.
Proof.
  intros Hf Hm k r. rewrite update_where_lookup.
  destruct (m !! k) as [r'|] eqn:E; [|done]. intros [= <-].
  case_match; [apply Hf|]; by apply Hm.
Qed.

(** The two tables after one statement, as row-wise changes. *)
Inductive session_change : option session_row → option session_row → Prop :=
  | sc_same r : session_change r r
  | sc_new s : check_status (Some (Status s)) = true → session_change None (Some (session_insert s))
  | sc_name r name : session_change (Some r) (Some (set_name name r))
  | sc_close r now : s_status r = Some StatusOpen → session_change (Some r) (Some (set_closed now r))
  | sc_touch r now : session_change (Some r) (Some (set_active now r)).

Inductive device_change : option device_row → option device_row → Prop :=
  | dc_same r : device_change r r
  | dc_new n p k t : device_change None (Some (DeviceRow n p k (Some t) (Some t) (Some 0)))
  | dc_revoke r : device_change (Some r) (Some (set_revoked r))
  | dc_seen r now : device_change (Some r) (Some (set_seen now r)).

#[export] Hint Constructors session_change device_change : remote.

Lemma update_where_change {R} (m : gmap string R) id cond f k :
  (update_where m id cond f).1 !! k = m !! k ∨
  ∃ r, m !! k = Some r ∧ k = id ∧ cond r = true ∧ (update_where m id cond f).1 !! k = Some (f r).
Proof.
  rewrite update_where_lookup. destruct (m !! k) as [r|] eqn:E; [|by left].
  case_bool_decide; simpl; [|by left]. destruct (cond r) eqn:C; [right; by exists r|by left].
Qed.

(** The cases of an UPDATE seen from row [k]: untouched, or [f] applied. *)
Ltac update_case k :=
  match goal with
  | |- context [update_where ?m ?id ?cond ?f] =>
     let H := fresh in
     pose proof (update_where_change m id cond f k) as H;
     destruct (update_where m id cond f); simpl in *;
     destruct H as [->|(? & -> & _ & ? & ->)]; auto with remote
  end.

Lemma session_step d c k : session_change (sessions d !! k) (sessions (db_step d c) !! k).
Proof.
  destruct c as [[c now] [io|]]; destruct c; simpl; auto with remote;
    try update_case k; try (by destruct (update_where _ _ _ _); simpl; auto with remote).
  - unfold CreateSession. destruct (sessions d !! ID s) eqn:E; simpl; [auto with remote|].
    destruct (_ || _) eqn:C; simpl; [|auto with remote].
    destruct (decide (ID s = k)) as [<-|]; [|rewrite lookup_insert_ne by done; auto with remote].
    rewrite lookup_insert_eq, E. by apply (sc_new (fill_session s now)).
  - constructor. by eapply bool_decide_eq_true.
  - unfold PairDevice. destruct (devices d !! DevID dev); auto with remote.
Qed.

Lemma device_step d c k : device_change (devices d !! k) (devices (db_step d c) !! k).
Proof.
  destruct c as [[c now] [io|]]; destruct c; simpl; auto with remote;
    try update_case k; try (by destruct (update_where _ _ _ _); simpl; auto with remote).
  - unfold CreateSession. destruct (sessions d !! ID s); simpl; [auto with remote|].
    destruct (_ || _); auto with remote.
  - unfold PairDevice. destruct (devices d !! DevID dev) eqn:E; simpl; [auto with remote|].
    destruct (decide (DevID dev = k)) as [<-|]; [|rewrite lookup_insert_ne by done; auto with remote].
    rewrite lookup_insert_eq, E. auto with remote.
Qed.

(** A property of rows that every change preserves holds along a history. *)
Lemma db_run_session_inv (P : session_row → Prop) cs d id r :
  (∀ r r', P r → session_change (Some r) (Some r') → P r') →
  sessions d !! id = Some r → P r →
  ∃ r', sessions (db_run d cs) !! id = Some r' ∧ P r'.
Proof.
  intros HP. revert d r. induction cs as [|c cs IH]; intros d r Hr Pr; simpl; [eauto|].
  pose proof (session_step d c id) as Hc. rewrite Hr in Hc.
  destruct (sessions (db_step d c) !! id) as [r'|] eqn:E; [|inversion Hc].
  by eapply IH; [|eapply HP].
Qed.

Lemma db_run_device_inv (P : device_row → Prop) cs d id r :
  (∀ r r', P r → device_change (Some r) (Some r') → P r') →
  devices d !! id = Some r → P r →
  ∃ r', devices (db_run d cs) !! id = Some r' ∧ P r'.
Proof.
  intros HP. revert d r. induction cs as [|c cs IH]; intros d r Hr Pr; simpl; [eauto|].
  pose proof (device_step d c id) as Hc. rewrite Hr in Hc.
  destruct (devices (db_step d c) !! id) as [r'|] eqn:E; [|inversion Hc].
  by eapply IH; [|eapply HP].
Qed.

Lemma check_status_cases s :
  check_status (Some s) = true → s = StatusOpen ∨ s = StatusClosed.
Proof. simpl. rewrite orb_true_iff, !bool_decide_eq_true. done. Qed.

Lemma session_change_wf o r :
  session_change o (Some r) → match o with Some r0 => session_wf r0 | None => True end →
  session_wf r.
Proof.
  inversion 1; subst; unfold session_wf; simpl; try naive_solver.
  intros _. split; [|by eexists].
  by destruct (check_status_cases (Status s)) as [->| ->]; auto.
Qed.

Lemma db_wf_invariant cs : db_wf (db_run empty_db cs).
Proof.
  assert (∀ d, db_wf d → db_wf (db_run d cs)) as H.
  { induction cs as [|c cs IH]; intros d [Hs Hd]; simpl; [done|]. apply IH. split.
    - intros id r Hr. pose proof (session_step d c id) as Hc. rewrite Hr in Hc.
      apply (session_change_wf _ _ Hc). destruct (sessions d !! id) eqn:E; [by eapply Hs|done].
    - intros id r Hr. pose proof (device_step d c id) as Hc. rewrite Hr in Hc.
      destruct (devices d !! id) as [r0|] eqn:E; inversion Hc; subst; simpl;
        first [by eexists|by eapply (Hd id)]. }
  apply H. split; apply map_Forall_empty.
Qed.

(** Once a session is closed, no sequence of statements reopens it or changes its tmux
    name, and closing it again is ErrNoRows with the tables unchanged. *)
Lemma closed_is_final cs d id r :
  sessions d !! id = Some r → s_status r = Some StatusClosed →
  ∃ r', sessions (db_run d cs) !! id = Some r' ∧
    s_status r' = Some StatusClosed ∧ s_tmux r' = s_tmux r ∧
    ∀ now, CloseSession (db_run d cs) id now None = (Some (ESent ErrNoRows), db_run d cs).
Proof.
  intros Hr Hst.
  destruct (db_run_session_inv
    (λ r', s_status r' = Some StatusClosed ∧ s_tmux r' = s_tmux r) cs d id r)
    as (r' & Hr' & Hst' & Ht); [|done|done|].
  { intros r1 r2 [H1 H2] Hc. inversion Hc; subst; simpl; naive_solver. }
  exists r'. split_and!; [done..|]. intros now.
  unfold CloseSession, update_where, status_is. rewrite Hr', Hst'; simpl.
  by destruct (db_run d cs).
Qed.

(** Once a device is revoked, no sequence of statements un-revokes it, changes its key or
    lets its id be paired again. *)
Lemma revoked_is_final cs d id r :
  devices d !! id = Some r → d_revoked r = Some 1 →
  ∃ r', devices (db_run d cs) !! id = Some r' ∧ d_revoked r' = Some 1 ∧
    d_pubkey r' = d_pubkey r ∧
    (∃ dev, GetDevice (db_run d cs) id None = Ok dev ∧ Revoked dev = true) ∧
    ∀ dev now io, DevID dev = id →
      is_Some (PairDevice (db_run d cs) dev now io).1 ∧
      (PairDevice (db_run d cs) dev now io).2 = db_run d cs.
Proof.
  intros Hr Hrv.
  destruct (db_run_device_inv
    (λ r', d_revoked r' = Some 1 ∧ d_pubkey r' = d_pubkey r) cs d id r)
    as (r' & Hr' & Hrv' & Hk); [|done|done|].
  { intros r1 r2 [H1 H2] Hc. inversion Hc; subst; simpl; naive_solver. }
  exists r'. split_and!; [done..| |].
  - unfold GetDevice. rewrite Hr'. unfold scan_device. rewrite Hrv'. by eexists.
  - intros dev now io <-. unfold PairDevice.
    destruct io; simpl; [by split|]. rewrite Hr'; simpl. by split.
Qed.

Lemma create_then_get d s now :
  (CreateSession d s now None).1 = None →
  GetSession (CreateSession d s now None).2 (ID s) None = Ok (fill_session s now) ∧
  (∀ id, id ≠ ID s →
     sessions (CreateSession d s now None).2 !! id = sessions d !! id).
Proof.
  unfold CreateSession. simpl.
  destruct (sessions d !! ID s) eqn:E; simpl; [done|].
  destruct (_ || _) eqn:C; simpl; [intros _|done]. split.
  - unfold GetSession; simpl. by rewrite lookup_insert_eq.
  - intros id Hid. by apply lookup_insert_ne.
Qed.

(** ** CloseSession and RenameSession on every branch *)

Lemma update_where_eq {R} (m : gmap string R) id cond f r :
  m !! id = Some r → cond r = true → update_where m id cond f = (<[id := f r]> m, 1).
Proof. unfold update_where. by intros -> ->. Qed.

Lemma CloseSession_cases d id now :
  (∃ r, sessions d !! id = Some r ∧ s_status r = Some StatusOpen ∧
     CloseSession d id now None =
     (None, Tables (<[id := set_closed now r]> (sessions d)) (devices d))) ∨
  ((∀ r, sessions d !! id = Some r → s_status r ≠ Some StatusOpen) ∧
   CloseSession d id now None = (Some (ESent ErrNoRows), d)).
Proof.
  unfold CloseSession, update_where. destruct (sessions d !! id) as [r|] eqn:E.
  - unfold status_is. case_bool_decide as Hst.
    + left. by exists r.
    + right. split; [by intros ? [= <-]|]. by destruct d.
  - right. split; [done|]. by destruct d.
Qed.

Lemma RenameSession_cases d id name :
  (∃ r, sessions d !! id = Some r ∧
     RenameSession d id name None =
     (None, Tables (<[id := set_name name r]> (sessions d)) (devices d))) ∨
  (sessions d !! id = None ∧ RenameSession d id name None = (Some (ESent ErrNoRows), d)).
Proof.
  unfold RenameSession, update_where. destruct (sessions d !! id) as [r|] eqn:E.
  - left. by exists r.
  - right. split; [done|]. by destruct d.
Qed.

(** ** Listing *)

Lemma scan_all_ok {A B} (scan : A → result B) (f : A → B) what rows :
  Forall (λ r, scan r = Ok (f r)) rows → scan_all scan what rows = Ok (map f rows).
Proof. induction 1 as [|r rows Hr _ IH]; simpl; [done|]. by rewrite Hr, IH. Qed.

(** The session a well-formed row scans to. *)
Definition session_of (p : string * session_row) : Session :=
  MkSession p.1 (coalesce (s_name p.2)) (s_tmux p.2) (coalesce (s_cwd p.2))
    (coalesce (s_shell p.2)) (coalesce (s_status p.2)) (coalesce0 (s_created p.2))
    (coalesce0 (s_active p.2)).

Lemma scan_session_of p : session_wf p.2 → scan_session p.1 p.2 = Ok (session_of p).
Proof. intros [[H|H] _]; unfold scan_session, session_of; by rewrite H. Qed.

Lemma StronglySorted_map_impl {A B} (R : A → A → Prop) (Q : B → B → Prop) (f : A → B) l :
  (∀ x y, x ∈ l → y ∈ l → R x y → Q (f x) (f y)) →
  StronglySorted R l → StronglySorted Q (map f l).
Proof.
  intros HRQ Hl. induction Hl as [|x l Hl IH Hx]; simpl; [constructor|].
  constructor.
  - apply IH. intros. apply HRQ; [by right|by right|done].
  - apply Forall_forall. intros y (z & -> & Hz)%list_elem_of_fmap.
    apply HRQ; [by left|by right|]. by eapply Forall_forall in Hx.
Qed.

Lemma elem_of_filter_bool {A} (f : A → bool) x l :
  x ∈ List.filter f l ↔ x ∈ l ∧ f x = true.
Proof. rewrite !list_elem_of_In. apply filter_In. Qed.

Section listing.
Context `{SqlOrder}.

(** The rows of the query, in the order the engine returns them. *)
Definition open_rows (d : DB) : list (string * session_row) :=
  order_desc (λ p, s_active p.2)
    (List.filter (λ p, status_is StatusOpen p.2) (map_to_list (sessions d))).

Lemma open_rows_elem d p :
  p ∈ open_rows d ↔ sessions d !! p.1 = Some p.2 ∧ s_status p.2 = Some StatusOpen.
Proof.
  unfold open_rows. rewrite order_desc_perm, elem_of_filter_bool.
  destruct p as [id r]. rewrite elem_of_map_to_list. unfold status_is; simpl.
  by rewrite bool_decide_eq_true.
Qed.

Lemma open_rows_NoDup d : NoDup (map fst (open_rows d)).
Proof.
  unfold open_rows. rewrite order_desc_perm.
  pose proof (NoDup_fst_map_to_list (sessions d)) as Hnd.
  induction (map_to_list (sessions d)) as [|p l IH]; simpl in *; [done|].
  apply NoDup_cons in Hnd as [Hp Hl]. destruct (status_is _ _); simpl; [|by apply IH].
  apply NoDup_cons. split; [|by apply IH].
  intros (q & Hq & [Hin _]%elem_of_filter_bool)%list_elem_of_fmap. apply Hp.
  apply list_elem_of_fmap. by exists q.
Qed.

(** On well-formed tables ListOpenSessions returns, without repetition and newest activity
    first, exactly the sessions GetSession finds with status open. *)
Lemma ListOpenSessions_spec d :
  db_wf d →
  ∃ l, ListOpenSessions d None = Ok l ∧
    (∀ s, s ∈ l ↔ GetSession d (ID s) None = Ok s ∧ Status s = StatusOpen) ∧
    NoDup (map ID l) ∧
    StronglySorted (λ a b, LastActiveAt b ≤ LastActiveAt a) l.
Proof.
  intros [Hwf _]. exists (map session_of (open_rows d)).
  assert (∀ p, p ∈ open_rows d → session_wf p.2) as Hrows.
  { intros p [Hp _]%open_rows_elem. by eapply Hwf. }
  split_and!.
  - unfold ListOpenSessions. apply scan_all_ok, Forall_forall.
    intros p Hp. apply scan_session_of, Hrows, Hp.
  - intros s. unfold GetSession. rewrite list_elem_of_fmap. split.
    + intros (p & -> & Hp). pose proof (Hrows _ Hp) as Hw.
      apply open_rows_elem in Hp as [Hp Hst]. unfold session_of at 1; simpl. rewrite Hp.
      split; [by rewrite scan_session_of|]. by rewrite Hst.
    + intros [Hs Hst]. destruct (sessions d !! ID s) as [r|] eqn:E; [|done].
      pose proof (scan_session_of (ID s, r) (Hwf _ _ E)) as Hsc; simpl in Hsc.
      rewrite Hsc in Hs. injection Hs as Hs. exists (ID s, r).
      split; [done|]. apply open_rows_elem; split; [done|]. simpl.
      rewrite <- Hs in Hst. unfold session_of in Hst; simpl in Hst.
      destruct (Hwf _ _ E) as [[Ho|Hc] _]; [done|]. by rewrite Hc in Hst.
  - rewrite map_map. apply open_rows_NoDup.
  - eapply StronglySorted_map_impl; [|apply order_desc_sorted]. simpl.
    intros p q Hp Hq. apply Hrows in Hp as [_ [x Hx]]. apply Hrows in Hq as [_ [y Hy]].
    unfold session_of; simpl. by rewrite Hx, Hy.
Qed.
End listing.

(** ** An engine: merge sort *)

Definition key_geb (a b : option Z) : bool :=
  match a, b with _, None => true | None, Some _ => false | Some x, Some y => y <=? x end.

Lemma key_geb_true a b : key_geb a b = true ↔ key_ge a b.
Proof. destruct a, b; simpl; rewrite ?Z.leb_le; done. Qed.

Definition by_key {A} (key : A → option Z) (a b : A) : Prop := key_geb (key a) (key b) = true.

#[export] Instance by_key_dec {A} (key : A → option Z) a b : Decision (by_key key a b).
Proof. unfold by_key. apply _. Defined.

#[export] Instance by_key_total {A} (key : A → option Z) : Total (by_key key).
Proof.
  intros a b. unfold by_key. rewrite !key_geb_true.
  destruct (key a), (key b); simpl; try tauto. lia.
Qed.

#[export] Instance by_key_trans {A} (key : A → option Z) : Transitive (by_key key).
Proof.
  intros a b c. unfold by_key. rewrite !key_geb_true.
  destruct (key a), (key b), (key c); simpl; try tauto. lia.
Qed.

Definition merge_order : SqlOrder.
Proof.
  refine {| order_desc A key := merge_sort (by_key key) |}.
  - intros. apply merge_sort_Permutation.
  - intros A key l. rewrite <- (map_id (merge_sort _ l)).
    eapply StronglySorted_map_impl; [|apply (StronglySorted_merge_sort (by_key key)); apply _].
    intros a b _ _. apply key_geb_true.
Defined.

(** ** Concrete tables *)

Definition sample_db : DB :=
  db_run empty_db
    [(QCreate (MkSession "s1" "one" "ccr-s1" "/" "sh" "" 0 0), 10, None);
     (QCreate (MkSession "s2" "two" "ccr-s2" "/" "sh" "" 0 0), 20, None);
     (QClose "s1", 30, None);
     (QPair (MkDevice "d1" "phone" "ios" "KEY" 0 0 false), 40, None);
     (QRevoke "d1", 50, None)].

Lemma closed_is_final_witness :
  CloseSession (db_run sample_db [(QRename "s1" "uno", 60, None)]) "s1" 70 None =
  (Some (ESent ErrNoRows), db_run sample_db [(QRename "s1" "uno", 60, None)]).
Proof.
  destruct (closed_is_final [(QRename "s1" "uno", 60, None)] sample_db "s1"
    (SessionRow (Some "one") "ccr-s1" (Some "/") (Some "sh") (Some "closed") (Some 10) (Some 30)))
    as (r' & _ & _ & _ & Hc); [by vm_compute|done|apply Hc].
Defined.

Lemma revoked_is_final_witness :
  ∃ dev, GetDevice (db_run sample_db [(QTouchDevice "d1", 60, None)]) "d1" None = Ok dev ∧
    Revoked dev = true.
Proof.
  destruct (revoked_is_final [(QTouchDevice "d1", 60, None)] sample_db "d1"
    (DeviceRow (Some "phone") (Some "ios") "KEY" (Some 40) (Some 40) (Some 1)))
    as (r' & _ & _ & _ & Hget & _); [by vm_compute|done|apply Hget].
Defined.

Lemma ListOpenSessions_spec_witness :
  ∃ l, @ListOpenSessions merge_order sample_db None = Ok l ∧
    (∀ s, s ∈ l ↔ GetSession sample_db (ID s) None = Ok s ∧ Status s = StatusOpen) ∧
    NoDup (map ID l) ∧ StronglySorted (λ a b, LastActiveAt b ≤ LastActiveAt a) l.
Proof.
  apply (@ListOpenSessions_spec merge_order). split.
  - intros id r Hr. apply elem_of_map_to_list in Hr.
    assert (Forall (λ p, session_wf p.2) (map_to_list (sessions sample_db))) as HF.
    { vm_compute. repeat constructor; (by left) || (by right) || by eexists. }
    by apply (proj1 (Forall_forall _ _) HF) in Hr.
  - intros id r Hr. apply elem_of_map_to_list in Hr.
    assert (Forall (λ p, is_Some (d_revoked p.2)) (map_to_list (devices sample_db))) as HF.
    { vm_compute. repeat constructor. by eexists. }
    by apply (proj1 (Forall_forall _ _) HF) in Hr.
Defined.
