(* ===== verification/DeviceAuth.v ===== *)
(** * identity/device.go: the Ed25519 challenge-response

    [pending] is the [pending] map of a [DeviceAuthenticator]. The clock
    readings, the bytes read from crypto/rand and the device store are
    arguments. Ed25519 verification is the parameter [Ed25519]; like Go's it
    panics on a key of the wrong length, which a result of [None] records. *)

From S2P Require Import Prelude GoStr.

Definition ChallengeSize : Z := 32.
Definition ChallengeTTL : Z := 2 * Minute.
Definition PublicKeySize : Z := 32.

(** ** Interfaces *)

(** [DeviceLookup]: public key, revoked flag, and whether the device is known,
    in the store [D] as the call finds it. *)
Class DeviceLookup (D : Type) := lookup_device : D → string → list Z * bool * bool.

(** What the authenticator relies on: a known device's key has the right length. *)
Class DeviceLookupSpec (D : Type) `{DeviceLookup D} :=
  lookup_key_length : ∀ d id pk revoked,
    lookup_device d id = (pk, revoked, true) → Z.of_nat (length pk) = PublicKeySize.

Class Ed25519 := {
  signature_valid : list Z → list Z → list Z → bool;  (* key, message, signature *)
  dummyKey : list Z;
  dummyKey_length : Z.of_nat (length dummyKey) = PublicKeySize;
}.

(** ed25519.Verify *)
Definition ed25519_Verify `{Ed25519} (pk msg sig : list Z) : option bool :=
  if Z.of_nat (length pk) =? PublicKeySize then Some (signature_valid pk msg sig) else None.

(** ** State *)

Record pendingChallenge := Challenge {
  nonce : list Z;
  expiresAt : Z;
}.

Abbreviation Pending := (gmap string pendingChallenge).

Definition NewDeviceAuthenticator : Pending := ∅.

Definition sweepLocked (p : Pending) (now : Z) : Pending :=
  filter (λ kv, time_after now (expiresAt kv.2) = false) p.

(** [t_sweep] and [t_issue] are the two clock readings made under the lock. *)
Definition IssueChallenge {D} `{DeviceLookup D} (p : Pending) (store : D) (deviceID : string)
    (rand : result (list Z)) (t_sweep t_issue : Z) : result (list Z) * Pending :=
  match rand with
  | Err e => (Err (EWrap ("generate challenge for device " +:+ deviceID +:+ ": ") e ""), p)
  | Ok n =>
     let '(_, revoked, known) := lookup_device store deviceID in
     if negb known || revoked then (Ok n, p)
     else (Ok n, <[deviceID := Challenge n (time_add t_issue ChallengeTTL)]> (sweepLocked p t_sweep))
  end.

Definition no_challenge_msg : list Z := bytes "no outstanding challenge".

(** [None]: the call panicked. *)
Definition Verify {D} `{DeviceLookup D} `{Ed25519} (p : Pending) (store : D) (deviceID : string)
    (signature : list Z) (now : Z) : option (error * Pending) :=
  let failed := Some (ESent ErrDeviceAuthFailed) in
  match p !! deviceID with
  | None =>
     _ ← ed25519_Verify dummyKey no_challenge_msg signature;
     Some (failed, p)
  | Some pc =>
     let p' := delete deviceID p in
     if time_after now (expiresAt pc) then Some (Some (ESent ErrChallengeExpired), p')
     else
       let '(pubKey, revoked, ok) := lookup_device store deviceID in
       if negb ok then _ ← ed25519_Verify dummyKey (nonce pc) signature; Some (failed, p')
       else if revoked then _ ← ed25519_Verify pubKey (nonce pc) signature; Some (failed, p')
       else
         valid ← ed25519_Verify pubKey (nonce pc) signature;
         Some (if negb valid then failed else None, p')
  end.

(** ** Histories *)

Section histories.
Context {D : Type} `{DeviceLookup D} `{Ed25519}.

Inductive auth_call :=
  | AIssue (store : D) (id : string) (rand : result (list Z)) (t_sweep t_issue : Z)
  | AVerify (store : D) (id : string) (signature : list Z) (now : Z).

Definition auth_step (p : Pending) (c : auth_call) : option Pending :=
  match c with
  | AIssue store id rand ts ti => Some (IssueChallenge p store id rand ts ti).2
  | AVerify store id sig now => snd <$> Verify p store id sig now
  end.

Fixpoint auth_run (p : Pending) (cs : list auth_call) : option Pending :=
  match cs with
  | [] => Some p
  | c :: cs' => p' ← auth_step p c; auth_run p' cs'
  end.

(** A call that stored challenge [n] for [id], expiring at [e]. *)
Definition issued (c : auth_call) (id : string) (n : list Z) (e : Z) : Prop :=
  ∃ store ts ti pk, c = AIssue store id (Ok n) ts ti ∧
    lookup_device store id = (pk, false, true) ∧ e = ti + ChallengeTTL.

(** A call that removes or replaces the challenge of [id] whatever it held. *)
Definition displaces (c : auth_call) (id : string) : Prop :=
  (∃ n e, issued c id n e) ∨ ∃ store sig now, c = AVerify store id sig now.
End histories.
Arguments auth_call D : clear implicits.

(** ** The branches of Verify *)

Section verify.
Context {D : Type} `{DeviceLookup D} `{!DeviceLookupSpec D} `{Ed25519}.

Lemma dummy_verifies msg sig : ed25519_Verify dummyKey msg sig = Some (signature_valid dummyKey msg sig).
Proof. unfold ed25519_Verify. by rewrite dummyKey_length. Qed.

(** No panic, the challenge of [id] is gone, nothing else moved. *)
Lemma Verify_total p store id sig now :
  ∃ r, Verify p store id sig now = Some (r, delete id p).
Proof.
  unfold Verify. destruct (p !! id) as [pc|] eqn:E.
  - destruct (time_after _ _); [eauto|].
    destruct (lookup_device store id) as [[pk rv] [|]] eqn:L; simpl.
    + assert (ed25519_Verify pk (nonce pc) sig = Some (signature_valid pk (nonce pc) sig)) as ->.
      { unfold ed25519_Verify. by rewrite (lookup_key_length _ _ _ _ L). }
      simpl. destruct rv; eauto.
    + rewrite dummy_verifies; simpl. eauto.
  - rewrite dummy_verifies; simpl. rewrite delete_id by done. eauto.
Qed.

Lemma Verify_accepts p store id sig now :
  (∃ p', Verify p store id sig now = Some (None, p')) ↔
  ∃ pc pk, p !! id = Some pc ∧ now ≤ expiresAt pc ∧
    lookup_device store id = (pk, false, true) ∧
    signature_valid pk (nonce pc) sig = true.
Proof.
  unfold Verify, time_after. destruct (p !! id) as [pc|]; cycle 1.
  { rewrite dummy_verifies; simpl. split; [by intros [? [=]]|by intros (? & ? & ? & ?)]. }
  destruct (Z.ltb_spec (expiresAt pc) now).
  { split; [by intros [? [=]]|]. intros (? & ? & [= <-] & ? & ?). lia. }
  destruct (lookup_device store id) as [[pk rv] [|]] eqn:L; simpl; cycle 1.
  { rewrite dummy_verifies; simpl.
    split; [by intros [? [=]]|by intros (? & ? & ? & ? & [=] & ?)]. }
  assert (ed25519_Verify pk (nonce pc) sig = Some (signature_valid pk (nonce pc) sig)) as ->.
  { unfold ed25519_Verify. by rewrite (lookup_key_length _ _ _ _ L). }
  simpl. destruct rv; simpl.
  - split; [by intros [? [=]]|by intros (? & ? & ? & ? & [=] & ?)].
  - destruct (signature_valid pk (nonce pc) sig) eqn:S; simpl.
    + split; [|eauto]. intros _. by exists pc, pk.
    + split; [by intros [? [=]]|]. intros (? & ? & [= <-] & ? & [= <-] & ?). congruence.
Qed.

Lemma Verify_uniform_refusal p store id sig now e p' :
  Verify p store id sig now = Some (Some e, p') →
  (∃ pc, p !! id = Some pc ∧ expiresAt pc < now ∧ e = ESent ErrChallengeExpired) ∨
  (e = ESent ErrDeviceAuthFailed ∧
   ∀ pc, p !! id = Some pc → now ≤ expiresAt pc).
Proof.
  unfold Verify, time_after. destruct (p !! id) as [pc|]; cycle 1.
  { rewrite dummy_verifies; simpl. intros [= <- <-]. by right. }
  destruct (Z.ltb_spec (expiresAt pc) now).
  { intros [= <- <-]. left. by exists pc. }
  intros HV. right. split; [|by intros ? [= <-]]. revert HV.
  destruct (lookup_device store id) as [[pk rv] ok]; simpl.
  destruct (negb ok), rv; simpl; try (destruct (ed25519_Verify _ _ _) as [[]|]);
    simpl; by intros [= <- <-].
Qed.

Lemma auth_run_total p cs : is_Some (auth_run p cs).
Proof.
  revert p. induction cs as [|c cs IH]; intros p; simpl; [by eexists|].
  destruct c as [store id rand ts ti|store id sig now]; simpl; [apply IH|].
  destruct (Verify_total p store id sig now) as [r ->]. simpl. apply IH.
Qed.

Lemma auth_run_snoc p cs c :
  auth_run p (cs ++ [c]) = (p' ← auth_run p cs; auth_step p' c).
Proof.
  revert p. induction cs as [|c' cs IH]; intros p; simpl.
  - by destruct (auth_step p c).
  - destruct (auth_step p c'); simpl; [apply IH|done].
Qed.

(** One step, seen from a stored challenge: it was issued by this step, or it
    was there before and the step did not concern its device. *)
Lemma auth_step_pending p c p' id pc :
  auth_step p c = Some p' → p' !! id = Some pc →
  issued c id (nonce pc) (expiresAt pc) ∨ (p !! id = Some pc ∧ ¬ displaces c id).
Proof.
  destruct c as [store d rand ts ti|store d sig now]; simpl.
  - intros [= <-]. unfold IssueChallenge. destruct rand as [n|e]; simpl; cycle 1.
    { intros Hp. right. split; [done|]. intros [(n & e' & ? & ? & ? & ? & ? & _)|(? & ? & ? & ?)]; done. }
    destruct (lookup_device store d) as [[pk rv] known] eqn:L.
    destruct (negb known || rv) eqn:C; simpl.
    { intros Hp. right. split; [done|].
      intros [(n' & e & s & ? & ? & pk' & [= <- -> <- <- <-] & L' & _)|(? & ? & ? & ?)]; [|done].
      rewrite L in L'. injection L' as -> -> ->. done. }
    apply orb_false_iff in C as [Hk ->]. apply negb_false_iff in Hk as ->.
    intros [[-> <-]|[Hne Hp]]%lookup_insert_Some.
    + left. by exists store, ts, ti, pk.
    + apply map_lookup_filter_Some in Hp as [Hp _]. right. split; [done|].
      intros [(n' & e & s & ? & ? & ? & [=] & _)|(? & ? & ? & ?)]; done.
  - destruct (Verify_total p store d sig now) as [r ->]; simpl. intros [= <-].
    intros [Hne Hp]%lookup_delete_Some. right. split; [done|].
    intros [(n & e & ? & ? & ? & ? & ? & _)|(? & ? & ? & [= -> -> -> ->])]; done.
Qed.

Lemma pending_origin cs p id pc :
  auth_run NewDeviceAuthenticator cs = Some p → p !! id = Some pc →
  ∃ before c after, cs = before ++ c :: after ∧
    issued c id (nonce pc) (expiresAt pc) ∧ Forall (λ c', ¬ displaces c' id) after.
Proof.
  revert p. induction cs as [|c cs IH] using rev_ind; intros p.
  { simpl. intros [= <-] Hp. unfold NewDeviceAuthenticator in Hp. by rewrite lookup_empty in Hp. }
  rewrite auth_run_snoc. destruct (auth_run _ cs) as [q|] eqn:Hq; simpl; [|done].
  intros Hc Hp. destruct (auth_step_pending _ _ _ _ _ Hc Hp) as [Hi|[Hq' Hd]].
  - exists cs, c, []. by split_and!.
  - destruct (IH _ eq_refl Hq') as (b & c0 & af & -> & Hi & HF).
    exists b, c0, (af ++ [c]).
    split_and!; [by rewrite <- app_assoc|done|]. apply Forall_app. by split; [|constructor].
Qed.

(** A signature Verify accepts was made, with the key of a known and unrevoked device, over
    a nonce that an earlier IssueChallenge stored for that device, that has not expired and that
    no later call for the device has replaced or consumed. *)
Lemma accepted_signature_is_fresh cs store id sig now p p' :
  auth_run NewDeviceAuthenticator cs = Some p →
  Verify p store id sig now = Some (None, p') →
  ∃ before c after n e pk,
    cs = before ++ c :: after ∧ issued c id n e ∧ now ≤ e ∧
    Forall (λ c', ¬ displaces c' id) after ∧
    lookup_device store id = (pk, false, true) ∧
    signature_valid pk n sig = true.
Proof.
  intros Hp HV.
  destruct (proj1 (Verify_accepts p store id sig now)) as (pc & pk & Hpc & Hn & HL & Hs); [eauto|].
  destruct (pending_origin cs p id pc) as (b & c & af & -> & Hi & HF); [done|done|].
  by exists b, c, af, (nonce pc), (expiresAt pc), pk.
Qed.

(** Verify never panics, always removes the device's outstanding challenge and nothing
    else, and a second Verify right after it fails with ErrDeviceAuthFailed whatever it
    presents. *)
Lemma Verify_consumes p store id sig now store' sig' now' :
  ∃ r, Verify p store id sig now = Some (r, delete id p) ∧
    Verify (delete id p) store' id sig' now' =
      Some (Some (ESent ErrDeviceAuthFailed), delete id p).
Proof.
  destruct (Verify_total p store id sig now) as [r Hr]. exists r. split; [done|].
  unfold Verify. by rewrite lookup_delete_eq, dummy_verifies.
Qed.

(** A known, unrevoked device that signs the challenge it was issued is accepted within two
    minutes. *)
Lemma issue_then_verify p store id n ts ti now pk sig p1 :
  IssueChallenge p store id (Ok n) ts ti = (Ok n, p1) →
  lookup_device store id = (pk, false, true) →
  signature_valid pk n sig = true →
  ti ≤ now ≤ ti + ChallengeTTL →
  Verify p1 store id sig now = Some (None, delete id p1).
Proof.
  unfold IssueChallenge. intros HI HL Hs Hn. rewrite HL in HI. simpl in HI.
  injection HI as <-.
  destruct (proj2 (Verify_accepts
    (<[id:=Challenge n (time_add ti ChallengeTTL)]> (sweepLocked p ts)) store id sig now))
    as [p' Hp'].
  - exists (Challenge n (time_add ti ChallengeTTL)), pk.
    rewrite lookup_insert_eq. by split_and!; [|simpl; unfold time_add; lia| |].
  - destruct (Verify_total
      (<[id:=Challenge n (time_add ti ChallengeTTL)]> (sweepLocked p ts)) store id sig now)
      as [r Hr].
    rewrite Hr in Hp'. injection Hp' as -> <-. done.
Qed.

(** The map of outstanding challenges only ever holds ids of known, unrevoked devices, so
    its size is at most the number of devices whatever ids are asked for. *)
Lemma pending_bounded (K : gset string) cs p :
  (∀ store id rand ts ti pk, AIssue store id rand ts ti ∈ cs →
     lookup_device store id = (pk, false, true) → id ∈ K) →
  auth_run NewDeviceAuthenticator cs = Some p →
  dom p ⊆ K ∧ (size p ≤ size K)%nat.
Proof.
  intros HK Hp. assert (dom p ⊆ K) as Hd.
  { intros id [pc Hpc]%elem_of_dom.
    destruct (pending_origin cs p id pc) as (b & c & af & -> & (s & ts & ti & pk & -> & HL & _) & _);
      [done|done|].
    apply (HK s id (Ok (nonce pc)) ts ti pk); [|done].
    apply elem_of_app; right; by left. }
  split; [done|]. rewrite <- size_dom. by apply subseteq_size.
Qed.
End verify.

(** The challenge returned does not depend on whether the device is known, revoked or
    unknown. *)
Lemma IssueChallenge_oblivious {D} `{DeviceLookup D} p p' (store store' : D) id n ts ti ts' ti' :
  (IssueChallenge p store id (Ok n) ts ti).1 = Ok n ∧
  (IssueChallenge p store id (Ok n) ts ti).1 = (IssueChallenge p' store' id (Ok n) ts' ti').1.
Proof.
  unfold IssueChallenge.
  destruct (lookup_device store id) as [[? rv] k], (lookup_device store' id) as [[? rv'] k'].
  destruct (negb k || rv), (negb k' || rv'); by split.
Qed.

(** ** A store and a signature scheme for witnesses

    One device; a signature is the key followed by the message. *)

Definition sample_key : list Z := replicate 32 7.

Definition sample_store : DeviceLookup unit := λ _ id,
  if String.eqb id "d1" then (sample_key, false, true) else ([], false, false).

Definition sample_store_spec : @DeviceLookupSpec unit sample_store.
Proof.
  intros d id pk rv. unfold lookup_device, sample_store.
  destruct (String.eqb id "d1"); [|done]. by intros [= <- _].
Defined.

Definition echo_scheme : Ed25519.
Proof.
  refine {| signature_valid pk msg sig := bool_decide (sig = pk ++ msg);
            dummyKey := replicate 32 0 |}. done.
Defined.

Section witnesses.
#[local] Existing Instances sample_store sample_store_spec echo_scheme.

Definition sample_calls : list (auth_call unit) :=
  [AIssue tt "x" (Ok [1]) 5 5; AIssue tt "d1" (Ok [1; 2]) 10 10; AVerify tt "x" [] 11;
   AIssue tt "d1" (Ok [3; 4]) 20 20].

Definition sample_pending : Pending := default ∅ (auth_run NewDeviceAuthenticator sample_calls).

Lemma sample_runs : auth_run NewDeviceAuthenticator sample_calls = Some sample_pending.
Proof. by vm_compute. Qed.

Lemma accepted_signature_is_fresh_witness :
  ∃ before c after n e,
    sample_calls = before ++ c :: after ∧ issued c "d1" n e ∧ 25 ≤ e ∧
    signature_valid sample_key n (sample_key ++ [3; 4]) = true.
Proof.
  destruct (accepted_signature_is_fresh sample_calls tt "d1" (sample_key ++ [3; 4]) 25
    sample_pending (delete "d1" sample_pending))
    as (b & c & a & n & e & pk & Hc & Hi & He & _ & Hl & Hs); [apply sample_runs|by vm_compute|].
  injection Hl as <-. by exists b, c, a, n, e.
Defined.

Lemma Verify_consumes_witness :
  ∃ r, Verify sample_pending tt "d1" (sample_key ++ [3; 4]) 25 = Some (r, delete "d1" sample_pending) ∧
    Verify (delete "d1" sample_pending) tt "d1" (sample_key ++ [3; 4]) 26 =
      Some (Some (ESent ErrDeviceAuthFailed), delete "d1" sample_pending).
Proof. apply (Verify_consumes sample_pending tt "d1" (sample_key ++ [3; 4]) 25 tt). Defined.

Lemma issue_then_verify_witness :
  let p1 := (IssueChallenge sample_pending tt "d1" (Ok [9]) 30 31).2 in
  Verify p1 tt "d1" (sample_key ++ [9]) (31 + ChallengeTTL) = Some (None, delete "d1" p1).
Proof.
  apply (issue_then_verify sample_pending tt "d1" [9] 30 31 (31 + ChallengeTTL) sample_key);
    by vm_compute.
Defined.

Lemma pending_bounded_witness : dom sample_pending ⊆ {["d1"]} ∧ (size sample_pending ≤ 1)%nat.
Proof.
  rewrite <- (size_singleton (C := gset string) "d1").
  apply (pending_bounded {["d1"]} sample_calls); [|apply sample_runs].
  intros s id rand ts ti pk _ Hl. apply elem_of_singleton. revert Hl.
  unfold lookup_device, sample_store. by destruct (String.eqb_spec id "d1").
Defined.
End witnesses.
