(* ===== verification/IdStore.v ===== *)
(** * identity/store.go: the adapter between the identity package and the tables

    [Store_Device] implements the [DeviceLookup] interface of DeviceAuth over
    the devices table. The [error] argument of each method is the driver's. *)

From S2P Require Import Prelude GoStr Database DeviceAuth.

(** A [Store] is a [*db.DB]; a lookup sees the tables and the driver's answer. *)
Definition Store_Device (s : DB * error) (id : string) : list Z * bool * bool :=
  match GetDevice s.1 id s.2 with
  | Err _ => ([], false, false)
  | Ok dev =>
     match b64_decode true (PubKey dev) with
     | None => ([], false, false)
     | Some raw =>
        if Z.of_nat (length raw) =? PublicKeySize then (raw, Revoked dev, true)
        else ([], false, false)
     end
  end.

Record DeviceInfo := MkDeviceInfo {
  InfoID : string; InfoName : string; InfoPlatform : string; InfoPubKey : string;
  InfoPairedAt : Z; InfoLastSeenAt : Z; InfoRevoked : bool;
}.

Definition info_of (d : Device) : DeviceInfo :=
  MkDeviceInfo (DevID d) (DevName d) (Platform d) (PubKey d) (PairedAt d) (LastSeenAt d) (Revoked d).

(** db.Device{ID, Name, Platform, PubKey}: the other fields are zero. *)
Definition Store_PairDevice (d : DB) (id name platform pubKeyB64 : string) (now : Z) (io : error)
    : error * DB :=
  PairDevice d (MkDevice id name platform pubKeyB64 0 0 false) now io.

Definition Store_ListDevices `{SqlOrder} (d : DB) (io : error) : result (list DeviceInfo) :=
  match ListDevices d io with
  | Err e => Err (EWrap "list devices: " e "")
  | Ok devices => Ok (map info_of devices)
  end.

Definition Store_RevokeDevice (d : DB) (id : string) (io : error) : error * DB :=
  RevokeDevice d id io.

#[export] Instance store_lookup : DeviceLookup (DB * error) := Store_Device.

#[export] Instance store_lookup_spec : DeviceLookupSpec (DB * error).
Proof.
  intros [d io] id pk rv. unfold lookup_device, store_lookup, Store_Device; simpl.
  destruct (GetDevice d id io) as [dev|]; [|done].
  destruct (b64_decode true (PubKey dev)) as [raw|]; [|done].
  destruct (Z.eqb_spec (Z.of_nat (length raw)) PublicKeySize); [|done].
  by intros [= <- _].
Qed.

Lemma Store_Device_spec d io id pk rv :
  Store_Device (d, io) id = (pk, rv, true) ↔
  ∃ dev, GetDevice d id io = Ok dev ∧ b64_decode true (PubKey dev) = Some pk ∧
    Z.of_nat (length pk) = PublicKeySize ∧ Revoked dev = rv.
Proof.
  unfold Store_Device; simpl. split.
  - destruct (GetDevice d id io) as [dev|]; [|done].
    destruct (b64_decode true (PubKey dev)) as [raw|] eqn:E; [|done].
    destruct (Z.eqb_spec (Z.of_nat (length raw)) PublicKeySize); [|done].
    intros [= <- <-]. by exists dev.
  - intros (dev & -> & -> & Hl & <-). by rewrite (proj2 (Z.eqb_eq _ _) Hl).
Qed.

Lemma GetDevice_after_pair d id name platform key now :
  (Store_PairDevice d id name platform key now None).1 = None →
  GetDevice (Store_PairDevice d id name platform key now None).2 id None =
  Ok (MkDevice id name platform key now now false).
Proof.
  unfold Store_PairDevice, PairDevice; simpl.
  destruct (devices d !! id); simpl; [done|]. intros _.
  unfold GetDevice; simpl. by rewrite lookup_insert_eq.
Qed.

(** A device stored under the base64 form of a 32-byte key is found by Store.Device with
    exactly those bytes and unrevoked. *)
Lemma paired_device_is_found d id name platform key now :
  Forall is_byte key → Z.of_nat (length key) = PublicKeySize →
  (Store_PairDevice d id name platform (b64_encode true key) now None).1 = None →
  Store_Device ((Store_PairDevice d id name platform (b64_encode true key) now None).2, None) id
    = (key, false, true).
Proof.
  intros Hb Hl Hok. apply Store_Device_spec. rewrite GetDevice_after_pair by done.
  eexists. split_and!; [done|by apply b64_decode_encode|done|done].
Qed.

Lemma GetDevice_revoked d id r :
  devices d !! id = Some r →
  GetDevice (Store_RevokeDevice d id None).2 id None =
  Ok (MkDevice id (coalesce (d_name r)) (coalesce (d_platform r)) (d_pubkey r)
        (coalesce0 (d_paired r)) (coalesce0 (d_seen r)) true).
Proof.
  intros Hr. unfold Store_RevokeDevice, RevokeDevice, update_where. rewrite Hr; simpl.
  unfold GetDevice; simpl. by rewrite lookup_insert_eq.
Qed.

(** After RevokeDevice no challenge, signature or time makes Verify accept that device, not
    even a challenge issued before. *)
Lemma revoked_device_never_verifies `{Ed25519} d id r p sig now :
  devices d !! id = Some r →
  let d' := (Store_RevokeDevice d id None).2 in
  ∃ e p', Verify p (d', None) id sig now = Some (Some e, p').
Proof.
  intros Hr d'. destruct (Verify_total p (d', None : error) id sig now) as [[e|] HV]; [eauto|].
  destruct (proj1 (Verify_accepts p (d', None : error) id sig now)) as (pc & pk & _ & _ & HL & _);
    [eauto|].
  apply Store_Device_spec in HL as (dev & HG & _ & _ & HR).
  unfold d' in HG. rewrite (GetDevice_revoked d id r) in HG by done.
  injection HG as <-. done.
Qed.

Lemma paired_device_is_found_witness :
  Store_Device ((Store_PairDevice empty_db "d1" "phone" "ios" (b64_encode true sample_key) 5 None).2, None)
    "d1" = (sample_key, false, true).
Proof.
  apply paired_device_is_found; [|done|by vm_compute].
  apply Forall_forall. by intros x [-> _]%elem_of_replicate.
Defined.

Lemma revoked_device_never_verifies_witness :
  let d := (Store_PairDevice empty_db "d1" "phone" "ios" (b64_encode true sample_key) 5 None).2 in
  let p := {["d1" := Challenge [9] 100]} in
  ∃ e p', @Verify _ store_lookup echo_scheme p ((Store_RevokeDevice d "d1" None).2, None) "d1"
    (sample_key ++ [9]) 50 = Some (Some e, p').
Proof.
  intros d p. apply (@revoked_device_never_verifies echo_scheme d "d1"
    (DeviceRow (Some "phone") (Some "ios") (b64_encode true sample_key) (Some 5) (Some 5) (Some 0))).
  by vm_compute.
Defined.
