(* ===== verification/Threads.v ===== *)
(** * Requests that overlap

    A request that takes several locks one after the other is a thread: a value
    that says where it stands, and a step for each of its sections. Threads take
    turns in any order; calls that hold their lock throughout are steps of their
    own. [Threads] is what a component supplies, the rest is shared: the
    interleavings as a relation, the same with the scheduler's choices given,
    and what holds of all of them. *)

From S2P Require Import Prelude.
From stdpp Require Import list_numbers.

(** [section_of]: the call whose critical section a turn is, if it is one. A
    step that is [None] although the thread is not finished is a panic. *)
Class Threads (St T X C : Type) := {
  arriving : T → bool;
  finished : T → bool;
  thread_step : St → T → X → option (T * St);
  section_of : St → T → X → option C;
  other_step : St → C → option St;
}.

Record conf {St T : Type} := Conf {
  cf_state : St;
  cf_threads : list T;
}.
Arguments conf : clear implicits.
Arguments Conf {St T}.

Section threads.
Context {St T X C : Type} `{Threads St T X C}.
Implicit Types (st : St) (ts : list T) (x : X).

(** A critical section, with the state it meets. *)
Definition label : Type := St * C.

Definition label_of st (t : T) x : option label := pair st <$> section_of st t x.

Inductive conc_step : conf St T → option label → conf St T → Prop :=
  | cs_arrive st ts t :
      arriving t = true → conc_step (Conf st ts) None (Conf st (ts ++ [t]))
  | cs_thread st ts k t t' st' x :
      ts !! k = Some t → thread_step st t x = Some (t', st') →
      conc_step (Conf st ts) (label_of st t x) (Conf st' (<[k := t']> ts))
  | cs_other st ts c st' :
      other_step st c = Some st' → conc_step (Conf st ts) (Some (st, c)) (Conf st' ts).

(** The configurations reached, with the critical sections run on the way. *)
Inductive conc_run (cf0 : conf St T) : list label → conf St T → Prop :=
  | cr_start : conc_run cf0 [] cf0
  | cr_step ls cf l cf' :
      conc_run cf0 ls cf → conc_step cf l cf' → conc_run cf0 (ls ++ option_list l) cf'.

Lemma conc_run_trans cf0 ls cf ls' cf' :
  conc_run cf0 ls cf → conc_run cf ls' cf' → conc_run cf0 (ls ++ ls') cf'.
Proof.
  intros Hr. induction 1 as [|ls' cf1 l cf2 _ IH Hs]; [by rewrite app_nil_r|].
  rewrite app_assoc. by eapply cr_step.
Qed.

(** ** A request nothing comes between *)

Fixpoint alone (n : nat) st (t : T) x : option (T * St) :=
  match n with
  | O => Some (t, st)
  | S n' => if finished t then Some (t, st) else '(t', st') ← thread_step st t x; alone n' st' t' x
  end.

(** ** The scheduler's choices *)

Inductive move := Arrive (t : T) | Turn (k : nat) (x : X) | Other (c : C).

Definition do_move (cf : conf St T) (mv : move) : option (option label * conf St T) :=
  let '(Conf st ts) := cf in
  match mv with
  | Arrive t => if arriving t then Some (None, Conf st (ts ++ [t])) else None
  | Turn k x =>
     t ← ts !! k; '(t', st') ← thread_step st t x; Some (label_of st t x, Conf st' (<[k := t']> ts))
  | Other c => st' ← other_step st c; Some (Some (st, c), Conf st' ts)
  end.

Fixpoint do_moves (ls : list label) (cf : conf St T) (mvs : list move) : option (list label * conf St T) :=
  match mvs with
  | [] => Some (ls, cf)
  | mv :: mvs' => '(l, cf') ← do_move cf mv; do_moves (ls ++ option_list l) cf' mvs'
  end.

Lemma do_move_step cf mv l cf' : do_move cf mv = Some (l, cf') → conc_step cf l cf'.
Proof.
  destruct cf as [st ts], mv as [t|k x|c]; simpl.
  - destruct (arriving t) eqn:Ha; [|done]. intros [= <- <-]. by constructor.
  - destruct (ts !! k) as [t|] eqn:Hk; simpl; [|done].
    destruct (thread_step st t x) as [[t' st']|] eqn:Ht; simpl; [|done].
    intros [= <- <-]. by constructor.
  - destruct (other_step st c) as [st'|] eqn:Hs; simpl; [|done].
    intros [= <- <-]. by constructor.
Qed.

Lemma do_moves_run cf0 ls cf mvs ls' cf' :
  conc_run cf0 ls cf → do_moves ls cf mvs = Some (ls', cf') → conc_run cf0 ls' cf'.
Proof.
  revert ls cf. induction mvs as [|mv mvs IH]; intros ls cf Hr; simpl; [by intros [= <- <-]|].
  destruct (do_move cf mv) as [[l cf1]|] eqn:Hm; simpl; [|done].
  apply IH. eapply cr_step; [done|by eapply do_move_step].
Qed.

(** Every order of turns of one thread alone is an interleaving. *)
Lemma alone_run n st ts k t x t' st' :
  ts !! k = Some t → alone n st t x = Some (t', st') →
  ∃ ls, conc_run (Conf st ts) ls (Conf st' (<[k := t']> ts)).
Proof.
  revert st ts t. induction n as [|n IH]; intros st ts t Hk; simpl.
  { intros [= <- <-]. rewrite list_insert_id by done. exists []. constructor. }
  destruct (finished t).
  { intros [= <- <-]. rewrite list_insert_id by done. exists []. constructor. }
  destruct (thread_step st t x) as [[t1 st1]|] eqn:Ht; simpl; [|done].
  intros Ha. destruct (IH st1 (<[k := t1]> ts) t1) as [ls Hr]; [|done|].
  { apply list_lookup_insert_eq. by eapply lookup_lt_Some. }
  rewrite list_insert_insert_eq in Hr.
  exists ((([] : list label) ++ option_list (label_of st t x)) ++ ls).
  eapply conc_run_trans; [|exact Hr]. eapply cr_step; [constructor|]. by constructor.
Qed.

(** ** What holds of all interleavings *)

(** Of every thread, by its own steps. *)
Lemma conc_run_threads (P : T → Prop) cf0 ls cf :
  (∀ t, arriving t = true → P t) →
  (∀ st t x t' st', P t → thread_step st t x = Some (t', st') → P t') →
  Forall P (cf_threads cf0) → conc_run cf0 ls cf → Forall P (cf_threads cf).
Proof.
  intros Ha Ht H0. induction 1 as [|ls cf l cf' _ IH Hs]; [done|].
  destruct Hs as [st ts t Hat|st ts k t t' st' x Hk Hst|]; simpl in *; [| |done].
  - apply Forall_app_2; [done|]. repeat constructor. by apply Ha.
  - apply Forall_insert; [done|]. eapply Ht; [|done]. by eapply Forall_lookup_1.
Qed.

(** Of the state and the threads together. *)
Lemma conc_run_invariant (I : St → list T → Prop) cf0 ls cf :
  (∀ st ts t, I st ts → arriving t = true → I st (ts ++ [t])) →
  (∀ st ts k t x t' st', I st ts → ts !! k = Some t → thread_step st t x = Some (t', st') →
     I st' (<[k := t']> ts)) →
  (∀ st ts c st', I st ts → other_step st c = Some st' → I st' ts) →
  I (cf_state cf0) (cf_threads cf0) → conc_run cf0 ls cf → I (cf_state cf) (cf_threads cf).
Proof.
  intros Ha Ht Ho H0. induction 1 as [|ls cf l cf' _ IH Hs]; [done|].
  destruct Hs; simpl in *; eauto.
Qed.

(** Of the state, the threads and the sections so far, on the runs whose
    sections are [ok]. *)
Lemma conc_run_history (I : list label → St → list T → Prop) (ok : label → Prop) cf0 ls cf :
  (∀ ls st ts t, I ls st ts → arriving t = true → I ls st (ts ++ [t])) →
  (∀ ls st ts k t x t' st', I ls st ts → ts !! k = Some t → thread_step st t x = Some (t', st') →
     Forall ok (option_list (label_of st t x)) →
     I (ls ++ option_list (label_of st t x)) st' (<[k := t']> ts)) →
  (∀ ls st ts c st', I ls st ts → other_step st c = Some st' → ok (st, c) → I (ls ++ [(st, c)]) st' ts) →
  I [] (cf_state cf0) (cf_threads cf0) → conc_run cf0 ls cf → Forall ok ls →
  I ls (cf_state cf) (cf_threads cf).
Proof.
  intros Ha Ht Ho H0. induction 1 as [|ls cf l cf' _ IH Hs]; [done|].
  intros [Hls Hl]%Forall_app. specialize (IH Hls).
  destruct Hs as [st ts t Hat|st ts k t t' st' x Hk Hst|st ts c st' Hst]; simpl in *.
  - rewrite app_nil_r. by apply Ha.
  - by eapply Ht.
  - apply Forall_cons in Hl as [Hl _]. by apply Ho.
Qed.

(** [n] threads that can each take the same step take it one after the other. *)
Lemma all_step (P : St → Prop) cf0 ls n st t t' x :
  (∀ s, P s → ∃ s', thread_step s t x = Some (t', s') ∧ P s') →
  conc_run cf0 ls (Conf st (replicate n t)) → P st →
  ∃ ls' st', conc_run cf0 ls' (Conf st' (replicate n t')) ∧ P st'.
Proof.
  intros Hstep Hrun HP.
  cut (∀ i, (i ≤ n)%nat → ∃ ls' st', conc_run cf0 ls' (Conf st' (replicate i t' ++ replicate (n - i) t)) ∧ P st').
  { intros Hc. destruct (Hc n) as (ls' & st' & Hr & HP'); [lia|].
    rewrite Nat.sub_diag, app_nil_r in Hr. by exists ls', st'. }
  induction i as [|i IH]; intros Hi.
  { rewrite Nat.sub_0_r. by exists ls, st. }
  destruct IH as (ls1 & st1 & Hr & HP1); [lia|]. destruct (Hstep st1 HP1) as (st2 & Ht & HP2).
  replace (n - i)%nat with (S (n - S i)) in Hr by lia. simpl in Hr.
  do 2 eexists. split; [|exact HP2]. rewrite replicate_S_end, <- app_assoc. simpl.
  eapply cr_step; [exact Hr|].
  replace (replicate i t' ++ t' :: replicate (n - S i) t)
    with (<[i := t']> (replicate i t' ++ t :: replicate (n - S i) t)).
  - eapply cs_thread; [|done]. by rewrite lookup_app_r, length_replicate, Nat.sub_diag by (by rewrite length_replicate).
  - rewrite insert_app_r_alt, length_replicate, Nat.sub_diag by (by rewrite length_replicate). done.
Qed.

Lemma all_arrive st n t :
  arriving t = true → ∃ ls, conc_run (Conf st []) ls (Conf st (replicate n t)).
Proof.
  intros Ha. induction n as [|n [ls IH]]; [exists []; constructor|].
  eexists. rewrite replicate_S_end. eapply cr_step; [exact IH|by constructor].
Qed.
End threads.
Arguments label : clear implicits.
Arguments move : clear implicits.

(** An element of an updated list. *)
Lemma elem_of_update {A} (l : list A) k x t : t ∈ <[k := x]> l → t = x ∨ t ∈ l.
Proof.
  intros [j Hj]%list_elem_of_lookup_1. apply list_lookup_insert_Some in Hj as [(_ & -> & _)|[_ Hj]]; [by left|].
  right. by eapply list_elem_of_lookup_2.
Qed.

(** What an update keeps or puts in place of [t]. *)
Lemma elem_of_update_other {A} (l : list A) k x t t' :
  l !! k = Some t → t' ∈ l → t' = t ∨ t' ∈ <[k := x]> l.
Proof.
  intros Hk [j Hj]%list_elem_of_lookup_1. destruct (decide (k = j)) as [->|Hne]; [left; congruence|].
  right. apply list_elem_of_lookup. exists j. by rewrite list_lookup_insert_ne.
Qed.

Lemma elem_of_update_new {A} (l : list A) k x t : l !! k = Some t → x ∈ <[k := x]> l.
Proof. intros Hk. apply list_elem_of_insert. by eapply lookup_lt_Some. Qed.

(** What a list of threads holds together, across one turn. *)
Definition total {A} (f : A → nat) (l : list A) : nat := sum_list_with f l.

Lemma total_app {A} (f : A → nat) l l' : total f (l ++ l') = (total f l + total f l')%nat.
Proof. apply sum_list_with_app. Qed.

Lemma total_update {A} (f : A → nat) l k x t :
  l !! k = Some t → (total f (<[k := x]> l) + f t = total f l + f x)%nat.
Proof.
  revert k. induction l as [|a l IH]; intros [|k] Hk; simpl in *; simplify_eq; unfold total in *; simpl; [lia|].
  specialize (IH _ Hk). lia.
Qed.
