(* ===== verification/AuthRace.v ===== *)
(** * Device authentication when requests overlap

    [IssueChallenge] looks the device up before it takes the mutex of the
    [DeviceAuthenticator], [Verify] after it has released it, so that anything
    may happen in between: other challenges, other signatures, a revocation.
    Here each of the two is a thread with two sections over the outstanding
    challenges and the device table; statements on the table are steps of their
    own. *)

From S2P Require Import Prelude GoStr Database DeviceAuth IdStore Threads.

Record auth_world := World {
  challenges : Pending;
  table : DB;
}.

Inductive auth_thread :=
  | Asked (id : string)
  | Usable (id : string) (n : list Z)             (* known and not revoked; the nonce is not kept yet *)
  | Given (r : result (list Z))
  | Signed (id : string) (sig : list Z)
  | Consumed (id : string) (sig n : list Z)       (* its challenge is gone, the device not looked up *)
  | Judged (id : string) (r : error).

(** The random bytes, the driver's answer to the SELECT, and the readings of
    the clock: in sweepLocked, and the one after it or that of Verify. *)
Record auth_env := AuthEnv {
  ae_rand : result (list Z);
  ae_select : error;
  ae_sweep : Z;
  ae_now : Z;
}.

(** The sections, and the statements of others. *)
Inductive auth_section :=
  | Keep (id : string) (n : list Z) (t_sweep t_issue : Z)
  | Take (id : string) (now : Z)
  | Judge (id : string) (sig n : list Z) (io : error)
  | Table (c : db_call * Z * error).

Section auth_race.
Context `{Ed25519}.
Implicit Types st : auth_world.

(** IssueChallenge up to the mutex. *)
Definition mint st (id : string) (x : auth_env) : auth_thread :=
  match ae_rand x with
  | Err e => Given (Err (EWrap ("generate challenge for device " +:+ id +:+ ": ") e ""))
  | Ok n =>
     let '(_, revoked, known) := lookup_device (table st, ae_select x) id in
     if negb known || revoked then Given (Ok n) else Usable id n
  end.

Definition keep_challenge (p : Pending) (id : string) (n : list Z) (t_sweep t_issue : Z) : Pending :=
  <[id := Challenge n (time_add t_issue ChallengeTTL)]> (sweepLocked p t_sweep).

(** Verify up to the test of the expiry; what it returns without a lookup. *)
Definition take_challenge st (id : string) (sig : list Z) (now : Z) : option (auth_thread * auth_world) :=
  match challenges st !! id with
  | None =>
     _ ← ed25519_Verify dummyKey no_challenge_msg sig;
     Some (Judged id (Some (ESent ErrDeviceAuthFailed)), st)
  | Some pc =>
     let st' := World (delete id (challenges st)) (table st) in
     if time_after now (expiresAt pc) then Some (Judged id (Some (ESent ErrChallengeExpired)), st')
     else Some (Consumed id sig (nonce pc), st')
  end.

(** The rest of Verify. *)
Definition judge (d : DB) (id : string) (sig n : list Z) (io : error) : option error :=
  let failed := Some (ESent ErrDeviceAuthFailed) in
  let '(pubKey, revoked, ok) := lookup_device (d, io) id in
  if negb ok then _ ← ed25519_Verify dummyKey n sig; Some failed
  else if revoked then _ ← ed25519_Verify pubKey n sig; Some failed
  else valid ← ed25519_Verify pubKey n sig; Some (if negb valid then failed else None).

Definition auth_turn st (t : auth_thread) (x : auth_env) : option (auth_thread * auth_world) :=
  match t with
  | Asked id => Some (mint st id x, st)
  | Usable id n =>
     Some (Given (Ok n), World (keep_challenge (challenges st) id n (ae_sweep x) (ae_now x)) (table st))
  | Signed id sig => take_challenge st id sig (ae_now x)
  | Consumed id sig n => r ← judge (table st) id sig n (ae_select x); Some (Judged id r, st)
  | Given _ | Judged _ _ => None
  end.

Definition auth_section_of (t : auth_thread) (x : auth_env) : option auth_section :=
  match t with
  | Usable id n => Some (Keep id n (ae_sweep x) (ae_now x))
  | Signed id _ => Some (Take id (ae_now x))
  | Consumed id sig n => Some (Judge id sig n (ae_select x))
  | _ => None
  end.

#[export] Instance auth_threads : Threads auth_world auth_thread auth_env auth_section := {
  arriving t := match t with Asked _ | Signed _ _ => true | _ => false end;
  finished t := match t with Given _ | Judged _ _ => true | _ => false end;
  thread_step := auth_turn;
  section_of _ := auth_section_of;
  other_step st c := match c with Table q => Some (World (challenges st) (db_step (table st) q)) | _ => None end;
}.

(** ** A request nothing comes between *)

Lemma alone_issue st id x :
  alone 2 st (Asked id) x =
    let '(r, p) := IssueChallenge (challenges st) (table st, ae_select x) id (ae_rand x) (ae_sweep x) (ae_now x) in
    Some (Given r, World p (table st)).
Proof.
  unfold IssueChallenge. destruct st as [p d]. simpl. unfold mint; simpl.
  destruct (ae_rand x) as [n|e]; [|done].
  destruct (lookup_device (d, ae_select x) id) as [[pk rv] k]. by destruct (negb k || rv).
Qed.

Lemma alone_verify st id sig x :
  alone 2 st (Signed id sig) x =
    '(r, p) ← Verify (challenges st) (table st, ae_select x) id sig (ae_now x);
    Some (Judged id r, World p (table st)).
Proof.
  destruct st as [p d]. unfold Verify; simpl. unfold take_challenge; simpl.
  destruct (p !! id) as [pc|]; [|by destruct (ed25519_Verify _ _ _)].
  destruct (time_after _ _); [done|]. simpl. unfold judge.
  destruct (lookup_device (d, ae_select x) id) as [[pk rv] k].
  by destruct (negb k), rv; simpl; destruct (ed25519_Verify _ _ _).
Qed.

Lemma uninterrupted_authentication st id sig x :
  alone 2 st (Asked id) x =
    (let '(r, p) := IssueChallenge (challenges st) (table st, ae_select x) id (ae_rand x) (ae_sweep x) (ae_now x) in
     Some (Given r, World p (table st))) ∧
  alone 2 st (Signed id sig) x =
    ('(r, p) ← Verify (challenges st) (table st, ae_select x) id sig (ae_now x);
     Some (Judged id r, World p (table st))).
Proof. split; [apply alone_issue|apply alone_verify]. Qed.

(** ** What vouches for an acceptance *)

Definition auth_label : Type := label auth_world auth_section.

Definition keeps (id : string) (l : auth_label) : bool :=
  match l.2 with Keep id' _ _ _ => String.eqb id' id | _ => false end.

Definition touches (id : string) (l : auth_label) : Prop :=
  match l.2 with Keep id' _ _ _ | Take id' _ => id' = id | _ => False end.

(** Challenge [n] was kept for [id] until [e], and nothing touched it since. *)
Definition kept (ls : list auth_label) (id : string) (n : list Z) (e : Z) : Prop :=
  ∃ l1 st t_sweep t_issue l2, ls = l1 ++ (st, Keep id n t_sweep t_issue) :: l2 ∧
    e = t_issue + ChallengeTTL ∧ Forall (λ l, ¬ touches id l) l2.

(** It was taken in time. *)
Definition used (ls : list auth_label) (id : string) (n : list Z) : Prop :=
  ∃ l1 st now l2 e, ls = l1 ++ (st, Take id now) :: l2 ∧ kept l1 id n e ∧ now ≤ e.

(** And then a signature over it was found good, with the key the table held
    for [id] at that moment, unrevoked. *)
Definition vouched (ls : list auth_label) (id : string) : Prop :=
  ∃ l1 st sig n io l2 pk, ls = l1 ++ (st, Judge id sig n io) :: l2 ∧ used l1 id n ∧
    lookup_device (table st, io) id = (pk, false, true) ∧ signature_valid pk n sig = true.

Lemma kept_app ls ls' id n e : kept ls id n e → Forall (λ l, ¬ touches id l) ls' → kept (ls ++ ls') id n e.
Proof.
  intros (l1 & st & ts & ti & l2 & -> & He & Hl) Hls. exists l1, st, ts, ti, (l2 ++ ls').
  split_and!; [by rewrite <- app_assoc|done|by apply Forall_app_2].
Qed.

Lemma used_app ls ls' id n : used ls id n → used (ls ++ ls') id n.
Proof.
  intros (l1 & st & now & l2 & e & -> & ?). exists l1, st, now, (l2 ++ ls'), e. by rewrite <- app_assoc.
Qed.

Lemma vouched_app ls ls' id : vouched ls id → vouched (ls ++ ls') id.
Proof.
  intros (l1 & st & sig & n & io & l2 & pk & -> & ?). exists l1, st, sig, n, io, (l2 ++ ls'), pk.
  by rewrite <- app_assoc.
Qed.

(** ** What every interleaving preserves *)

Definition backed (ls : list auth_label) (t : auth_thread) : Prop :=
  match t with
  | Consumed id _ n => used ls id n
  | Judged id None => vouched ls id
  | _ => True
  end.

Record auth_inv (ls : list auth_label) (cf : conf auth_world auth_thread) : Prop := {
  ai_kept id pc : challenges (cf_state cf) !! id = Some pc → kept ls id (nonce pc) (expiresAt pc);
  ai_backed t : t ∈ cf_threads cf → backed ls t;
}.

Lemma backed_app ls ls' t : backed ls t → backed (ls ++ ls') t.
Proof. destruct t as [| | | | |id [e|]]; simpl; auto using used_app, vouched_app. Qed.

Lemma backed_update ls ls' (ts : list auth_thread) k t' :
  (∀ t, t ∈ ts → backed ls t) → backed (ls ++ ls') t' → ∀ t, t ∈ <[k := t']> ts → backed (ls ++ ls') t.
Proof. intros Hts Ht' t [->|Hin]%elem_of_update; [done|by apply backed_app, Hts]. Qed.

Lemma judge_accepts d id sig n io :
  judge d id sig n io = Some None →
  ∃ pk, lookup_device (d, io) id = (pk, false, true) ∧ signature_valid pk n sig = true.
Proof.
  unfold judge. destruct (lookup_device (d, io) id) as [[pk rv] k].
  destruct k; simpl; [|by destruct (ed25519_Verify _ _ _)].
  destruct rv; simpl; [by destruct (ed25519_Verify _ _ _)|].
  unfold ed25519_Verify. destruct (_ =? _); simpl; [|done].
  destruct (signature_valid pk n sig) eqn:E; [|done]. by exists pk.
Qed.

Lemma inv_auth_turn ls st ts k t x t' st' :
  auth_inv ls (Conf st ts) → ts !! k = Some t → auth_turn st t x = Some (t', st') →
  auth_inv (ls ++ option_list (label_of st t x)) (Conf st' (<[k := t']> ts)).
Proof.
  intros [Hk Hb] Hl. simpl in *.
  assert (backed ls t) as Ht by (apply Hb; by eapply list_elem_of_lookup_2).
  destruct t as [id|id n|r|id sig|id sig n|id r]; unfold label_of; simpl; try done.
  - intros [= <- <-]. rewrite app_nil_r. split; simpl; [done|].
    intros t [->|Hin]%elem_of_update; [|by apply Hb]. unfold mint. destruct (ae_rand x); [|done].
    by destruct (lookup_device _ _) as [[? []] []].
  - intros [= <- <-]. split; simpl; [|by apply (backed_update ls)]. unfold keep_challenge.
    intros id' pc [[<- <-]|[Hne [Hp _]%map_lookup_filter_Some]]%lookup_insert_Some.
    + exists ls, st, (ae_sweep x), (ae_now x), []. by split_and!.
    + apply kept_app; [by apply Hk|]. by repeat constructor.
  - unfold take_challenge. destruct (challenges st !! id) as [pc|] eqn:Hp; cycle 1.
    { rewrite dummy_verifies; simpl. intros [= <- <-]. split; simpl; [|by apply (backed_update ls)].
      intros id' pc' Hp'. apply kept_app; [by apply Hk|]. repeat constructor. unfold touches; simpl. congruence. }
    assert (∀ id' pc', delete id (challenges st) !! id' = Some pc' →
      kept (ls ++ [(st, Take id (ae_now x))]) id' (nonce pc') (expiresAt pc')) as Hd.
    { intros id' pc' [Hne Hp']%lookup_delete_Some. apply kept_app; [by apply Hk|]. by repeat constructor. }
    unfold time_after. destruct (Z.ltb_spec (expiresAt pc) (ae_now x)); intros [= <- <-];
      (split; simpl; [exact Hd|]); (apply (backed_update ls); [done|]); [done|].
    exists ls, st, (ae_now x), [], (expiresAt pc). split_and!; [done|by apply Hk|lia].
  - destruct (judge _ _ _ _ _) as [r|] eqn:HJ; simpl; [|done]. intros [= <- <-]. split; simpl.
    + intros id' pc' Hp'. apply kept_app; [by apply Hk|]. repeat constructor. by intros [].
    + apply (backed_update ls); [done|]. destruct r as [e|]; [done|]. apply judge_accepts in HJ as (pk & HL & Hs).
      exists ls, st, sig, n, (ae_select x), [], pk. by split_and!.
Qed.

Lemma inv_auth_run d ls cf :
  conc_run (Conf (World NewDeviceAuthenticator d) []) ls cf → auth_inv ls cf.
Proof.
  induction 1 as [|ls cf l cf' _ [Hk Hb] Hs].
  { split; simpl; [|by intros t ?%elem_of_nil]. unfold NewDeviceAuthenticator. intros id pc. by rewrite lookup_empty. }
  destruct Hs as [st ts t Ha|st ts k t t' st' x Hl Ht|st ts c st' Ho]; [|by eapply inv_auth_turn|]; simpl in *.
  - rewrite app_nil_r. split; simpl; [done|].
    intros t0 [Hin| ->%list_elem_of_singleton]%elem_of_app; [by apply Hb|by destruct t].
  - destruct c as [| | |q]; try done. injection Ho as <-. split; simpl.
    + intros id pc Hp. apply kept_app; [by apply Hk|]. repeat constructor. by intros [].
    + intros t Hin. by apply backed_app, Hb.
Qed.

(** ** One acceptance per challenge *)

(** Requests of [id] that were let through, or that may still be. *)
Definition admitted (id : string) (t : auth_thread) : nat :=
  match t with Judged id' None => if String.eqb id' id then 1 else 0 | _ => 0 end.

Definition in_flight (id : string) (t : auth_thread) : nat :=
  match t with Consumed id' _ _ => if String.eqb id' id then 1 else 0 | _ => admitted id t end.

Definition outstanding (id : string) (p : Pending) : nat := if p !! id is Some _ then 1 else 0.

Definition kept_for (id : string) (ls : list auth_label) : nat :=
  total (λ l, if keeps id l then 1%nat else 0%nat) ls.

Lemma outstanding_delete id id' p :
  (outstanding id (delete id' p) + (if String.eqb id' id then outstanding id p else 0) = outstanding id p)%nat.
Proof.
  unfold outstanding. destruct (String.eqb_spec id' id) as [->|Hne].
  - rewrite lookup_delete_eq. lia.
  - rewrite lookup_delete_ne by done. lia.
Qed.

Lemma outstanding_keep id id' p n ts ti :
  (outstanding id (keep_challenge p id' n ts ti) ≤ outstanding id p + (if String.eqb id' id then 1 else 0))%nat.
Proof.
  unfold outstanding, keep_challenge. destruct (String.eqb_spec id' id) as [->|Hne].
  - rewrite lookup_insert_eq. lia.
  - rewrite lookup_insert_ne by done. destruct (sweepLocked p ts !! id) eqn:E; [|lia].
    apply map_lookup_filter_Some in E as [-> _]. lia.
Qed.

(** What a turn adds to the outstanding and the admitted is paid by a challenge it keeps. *)
Lemma auth_turn_credit id st t x t' st' :
  auth_turn st t x = Some (t', st') →
  (outstanding id (challenges st') + in_flight id t' ≤
   outstanding id (challenges st) + in_flight id t + kept_for id (option_list (label_of st t x)))%nat.
Proof.
  destruct t as [id'|id' n|r|id' sig|id' sig n|id' r]; unfold label_of; simpl; try done.
  - intros [= <- <-]. unfold mint. destruct (ae_rand x); simpl; [|lia].
    destruct (lookup_device _ _) as [[? []] []]; simpl; lia.
  - intros [= <- <-]. pose proof (outstanding_keep id id' (challenges st) n (ae_sweep x) (ae_now x)).
    unfold kept_for, total, keeps; simpl. destruct (String.eqb id' id); lia.
  - unfold take_challenge. pose proof (outstanding_delete id id' (challenges st)) as Hd.
    destruct (challenges st !! id') as [pc|] eqn:Hp; cycle 1.
    { rewrite dummy_verifies; simpl. intros [= <- <-]. simpl. lia. }
    assert (String.eqb id' id = true → outstanding id (challenges st) = 1%nat) as Ho.
    { intros ->%String.eqb_eq. unfold outstanding. by rewrite Hp. }
    destruct (time_after _ _); intros [= <- <-]; simpl; destruct (String.eqb id' id); lia.
  - destruct (judge _ _ _ _ _) as [[e|]|]; simpl; [| |done]; intros [= <- <-]; simpl; destruct (String.eqb id' id); lia.
Qed.

Definition auth_credit (id : string) (cf : conf auth_world auth_thread) : nat :=
  outstanding id (challenges (cf_state cf)) + total (in_flight id) (cf_threads cf).

Lemma auth_credit_run d id ls cf :
  conc_run (Conf (World NewDeviceAuthenticator d) []) ls cf → (auth_credit id cf ≤ kept_for id ls)%nat.
Proof.
  unfold auth_credit.
  induction 1 as [|ls cf l cf' _ IH Hs].
  { unfold outstanding, NewDeviceAuthenticator. simpl. by rewrite lookup_empty. }
  unfold kept_for in *. rewrite total_app.
  destruct Hs as [st ts t Ha|st ts k t t' st' x Hl Ht|st ts c st' Ho]; simpl in *.
  - rewrite total_app. unfold total in *. destruct t; simpl in *; try done; lia.
  - pose proof (total_update (in_flight id) ts k t' t Hl).
    pose proof (auth_turn_credit id st t x t' st' Ht) as Hc. unfold kept_for in Hc. lia.
  - destruct c as [| | |q]; try done. injection Ho as <-. simpl. lia.
Qed.

(** C7: However challenges, signatures and statements on the tables interleave, between the
    sections of IssueChallenge and Verify too: no more requests of a device are let through than
    challenges were kept for it, and each of them because a challenge was kept, taken within two
    minutes with nothing about the device in between, and then a signature over it was valid for
    the key of the device, unrevoked at that moment. *)
Theorem each_challenge_admits_once d id ls cf :
  conc_run (Conf (World NewDeviceAuthenticator d) []) ls cf →
  (total (admitted id) (cf_threads cf) ≤ kept_for id ls)%nat ∧
  (Judged id None ∈ cf_threads cf → vouched ls id).
Proof.
  intros Hr. split.
  - pose proof (auth_credit_run d id ls cf Hr) as Hc. unfold auth_credit in Hc.
    assert (total (admitted id) (cf_threads cf) ≤ total (in_flight id) (cf_threads cf))%nat; [|lia].
    clear Hc Hr. unfold total. induction (cf_threads cf) as [|t ts IH]; simpl; [done|].
    assert (admitted id t ≤ in_flight id t)%nat by (destruct t as [| | | | |? [?|]]; simpl; lia). lia.
  - intros Hin. by apply (ai_backed _ _ (inv_auth_run d ls cf Hr)) in Hin.
Qed.

(** ** Revocation *)

Definition revoked_row (d : DB) (id : string) : Prop :=
  ∃ r, devices d !! id = Some r ∧ d_revoked r = Some 1.

Lemma revoked_step d q id : revoked_row d id → revoked_row (db_step d q) id.
Proof.
  intros (r & Hr & Hv). pose proof (device_step d q id) as Hc. rewrite Hr in Hc. unfold revoked_row.
  inversion Hc; subst; by eexists.
Qed.

Lemma judge_revoked d id sig n io : revoked_row d id → judge d id sig n io ≠ Some None.
Proof.
  intros (r & Hr & Hv) (pk & HL & _)%judge_accepts. unfold lookup_device, store_lookup in HL.
  apply Store_Device_spec in HL as (dev & HG & _ & _ & Hrev). unfold GetDevice in HG.
  destruct io; [done|]. rewrite Hr in HG. unfold scan_device in HG. rewrite Hv in HG.
  injection HG as <-. done.
Qed.

(** C8: Once the UPDATE that revokes a device has run, no Verify that has not yet returned
    success succeeds for it any more, in any interleaving, whichever challenge it had taken
    before. *)
Theorem revocation_is_immediate id cf ls cf' k :
  revoked_row (table (cf_state cf)) id → conc_run cf ls cf' →
  cf_threads cf' !! k = Some (Judged id None) → cf_threads cf !! k = Some (Judged id None).
Proof.
  intros Hrv Hr. revert k.
  cut (revoked_row (table (cf_state cf')) id ∧
    ∀ k, cf_threads cf' !! k = Some (Judged id None) → cf_threads cf !! k = Some (Judged id None)); [by intros []|].
  revert Hr. apply (conc_run_invariant (λ st ts, revoked_row (table st) id ∧
    ∀ k, ts !! k = Some (Judged id None) → cf_threads cf !! k = Some (Judged id None))); [| | |by split].
  - intros st ts t [Hv Hk] Ha. split; [done|]. intros k [Hin|[_ Hin]]%lookup_app_Some; [by apply Hk|].
    apply list_lookup_singleton_Some in Hin as [_ ->]. done.
  - intros st ts k t x t' st' [Hv Hk] Hl Ht.
    assert (table st' = table st ∧ t' ≠ Judged id None) as [-> Hne].
    { destruct t as [id'|id' n|r|id' sig|id' sig n|id' r]; simpl in Ht; try done.
      - injection Ht as <- <-. split; [done|]. unfold mint. destruct (ae_rand x); [|done].
        by destruct (lookup_device _ _) as [[? []] []].
      - by injection Ht as <- <-.
      - unfold take_challenge in Ht. destruct (challenges st !! id') as [pc|].
        + by destruct (time_after _ _); injection Ht as <- <-.
        + destruct (ed25519_Verify _ _ _); [|done]. by injection Ht as <- <-.
      - destruct (judge _ _ _ _ _) as [r|] eqn:HJ; [|done]. injection Ht as <- <-. split; [done|].
        intros [= -> ->]. by apply (judge_revoked _ _ _ _ _ Hv) in HJ. }
    split; [done|]. intros j [(_ & E & _)|[_ Hj]]%list_lookup_insert_Some; [done|by apply Hk].
  - intros st ts c st' [Hv Hk]. destruct c as [| | |q]; try done. intros [= <-]. split; [|done].
    by apply revoked_step.
Qed.

(** ** The map stays as small as the table *)

Definition enrolled (d : DB) (id : string) : Prop := is_Some (devices d !! id).

Lemma enrolled_step d q id : enrolled d id → enrolled (db_step d q) id.
Proof.
  intros [r Hr]. pose proof (device_step d q id) as Hc. rewrite Hr in Hc. unfold enrolled.
  by inversion Hc.
Qed.

Lemma lookup_enrolled d io id pk rv : lookup_device (d, io) id = (pk, rv, true) → enrolled d id.
Proof.
  intros (dev & HG & _)%Store_Device_spec. unfold GetDevice in HG. destruct io; [done|].
  unfold enrolled. by destruct (devices d !! id).
Qed.

Definition named_inv st (ts : list auth_thread) : Prop :=
  (∀ id, is_Some (challenges st !! id) → enrolled (table st) id) ∧
  ∀ t, t ∈ ts → match t with Usable id _ => enrolled (table st) id | _ => True end.

Lemma named_turn st ts k t x t' st' :
  named_inv st ts → ts !! k = Some t → auth_turn st t x = Some (t', st') → named_inv st' (<[k := t']> ts).
Proof.
  intros [Hp Hu] Hl Ht.
  assert (match t with Usable id _ => enrolled (table st) id | _ => True end) as Ht0
    by (apply Hu; by eapply list_elem_of_lookup_2).
  assert (table st' = table st ∧ match t' with Usable id _ => enrolled (table st) id | _ => True end ∧
    ∀ id, is_Some (challenges st' !! id) → enrolled (table st) id) as (HT & Ht' & Hp').
  { destruct t as [id|id n|r|id sig|id sig n|id r]; simpl in Ht; try done.
    - injection Ht as <- <-. split_and!; [done| |done]. unfold mint. destruct (ae_rand x); [|done].
      destruct (lookup_device _ _) as [[pk []] []] eqn:HL; simpl; try done. by eapply lookup_enrolled.
    - injection Ht as <- <-. split_and!; [done..|]. simpl. unfold keep_challenge.
      intros id'. destruct (decide (id = id')) as [<-|Hne]; [done|].
      rewrite lookup_insert_ne by done. intros [pc [Hpc _]%map_lookup_filter_Some]. apply Hp. by exists pc.
    - unfold take_challenge in Ht. destruct (challenges st !! id) as [pc|].
      + assert (∀ id', is_Some (delete id (challenges st) !! id') → enrolled (table st) id') as Hd.
        { intros id' [pc' [_ Hpc]%lookup_delete_Some]. apply Hp. by exists pc'. }
        by destruct (time_after _ _); injection Ht as <- <-.
      + destruct (ed25519_Verify _ _ _); [|done]. by injection Ht as <- <-.
    - destruct (judge _ _ _ _ _) as [r|]; [|done]. by injection Ht as <- <-. }
  split; rewrite HT; [done|]. intros t0 [->|Hin]%elem_of_update; [done|by apply Hu].
Qed.

(** C33: In every interleaving the outstanding challenges belong to rows of the devices table,
    so that their number is bounded by the number of devices whatever ids are asked for. *)
Theorem challenges_name_enrolled_devices d ls cf :
  conc_run (Conf (World NewDeviceAuthenticator d) []) ls cf →
  dom (challenges (cf_state cf)) ⊆ dom (devices (table (cf_state cf))) ∧
  (size (challenges (cf_state cf)) ≤ size (devices (table (cf_state cf))))%nat.
Proof.
  intros Hr. cut (named_inv (cf_state cf) (cf_threads cf)).
  { intros [Hp _]. assert (dom (challenges (cf_state cf)) ⊆ dom (devices (table (cf_state cf)))) as Hd.
    { intros id Hid%elem_of_dom. by apply elem_of_dom, Hp. }
    split; [done|]. rewrite <- !size_dom. by apply subseteq_size. }
  revert Hr. apply (conc_run_invariant named_inv).
  - intros st ts t [Hp Hu] Ha. split; [done|].
    intros t0 [Hin| ->%list_elem_of_singleton]%elem_of_app; [by apply Hu|by destruct t].
  - apply named_turn.
  - intros st ts c st' [Hp Hu]. destruct c as [| | |q]; try done. intros [= <-]. split; simpl.
    + intros id Hid. by apply enrolled_step, Hp.
    + intros t Hin. specialize (Hu t Hin). destruct t; try done. by apply enrolled_step.
  - split; simpl; [|by intros t ?%elem_of_nil]. unfold NewDeviceAuthenticator.
    intros id [? Hx]. by rewrite lookup_empty in Hx.
Qed.
End auth_race.

(** ** Concrete races *)

Section examples.
#[local] Existing Instance echo_scheme.

Definition paired : DB :=
  (Store_PairDevice empty_db "d1" "phone" "ios" (b64_encode true sample_key) 5 None).2.

Definition auth_at (now : Z) (n : list Z) : auth_env := AuthEnv (Ok n) None now now.

(** One signature presented twice at once. *)
Definition replay : list (move auth_thread auth_env auth_section) :=
  [Arrive (Asked "d1"); Turn 0 (auth_at 10 [3; 4]); Turn 0 (auth_at 11 []);
   Arrive (Signed "d1" (sample_key ++ [3; 4])); Arrive (Signed "d1" (sample_key ++ [3; 4]));
   Turn 2 (auth_at 12 []); Turn 1 (auth_at 13 []); Turn 2 (auth_at 14 [])].

Definition auth_start : conf auth_world auth_thread := Conf (World NewDeviceAuthenticator paired) [].

Definition auth_after (mvs : list (move auth_thread auth_env auth_section))
    : list auth_label * conf auth_world auth_thread :=
  default ([], auth_start) (do_moves [] auth_start mvs).

Lemma auth_after_run mvs : conc_run auth_start (auth_after mvs).1 (auth_after mvs).2.
Proof.
  unfold auth_after. destruct (do_moves [] auth_start mvs) as [[ls cf]|] eqn:E; [|constructor].
  by apply (do_moves_run auth_start [] auth_start mvs); [constructor|].
Qed.

Lemma each_challenge_admits_once_witness :
  cf_threads (auth_after replay).2 =
    [Given (Ok [3; 4]); Judged "d1" (Some (ESent ErrDeviceAuthFailed)); Judged "d1" None] ∧
  kept_for "d1" (auth_after replay).1 = 1%nat ∧ vouched (auth_after replay).1 "d1".
Proof.
  assert (cf_threads (auth_after replay).2 =
    [Given (Ok [3; 4]); Judged "d1" (Some (ESent ErrDeviceAuthFailed)); Judged "d1" None]) as Hts by by vm_compute.
  split_and!; [exact Hts|by vm_compute|].
  apply (each_challenge_admits_once paired "d1" _ _ (auth_after_run replay)). rewrite Hts.
  apply list_elem_of_lookup. by exists 2%nat.
Defined.

(** The device is revoked after one of them was let through. *)
Definition revoked_after : list (move auth_thread auth_env auth_section) :=
  replay ++ [Other (Table (QRevoke "d1", 15, None))].

Definition asks_again : list (move auth_thread auth_env auth_section) :=
  [Arrive (Asked "d1"); Turn 3 (auth_at 16 [5]); Arrive (Signed "d1" (sample_key ++ [5])); Turn 4 (auth_at 17 [])].

Lemma revocation_is_immediate_witness :
  cf_threads (auth_after (revoked_after ++ asks_again)).2 !! 4%nat =
    Some (Judged "d1" (Some (ESent ErrDeviceAuthFailed))) ∧
  cf_threads (auth_after revoked_after).2 !! 2%nat = Some (Judged "d1" None).
Proof.
  split; [by vm_compute|].
  assert (∃ ls, conc_run (auth_after revoked_after).2 ls (auth_after (revoked_after ++ asks_again)).2) as [ls Hr].
  { eexists. apply (do_moves_run _ [] (auth_after revoked_after).2 asks_again); [constructor|by vm_compute]. }
  apply (revocation_is_immediate "d1" _ ls (auth_after (revoked_after ++ asks_again)).2); [|exact Hr|by vm_compute].
  eexists. by split; [vm_compute|].
Defined.

(** Revoked between the challenge taken and the look at the table. *)
Example revoked_between :
  cf_threads (auth_after (firstn 7 replay ++ [Other (Table (QRevoke "d1", 14, None)); Turn 2 (auth_at 15 [])])).2 !! 2%nat =
    Some (Judged "d1" (Some (ESent ErrDeviceAuthFailed))).
Proof. by vm_compute. Qed.

Lemma challenges_name_enrolled_devices_witness :
  (size (challenges (cf_state (auth_after (firstn 3 replay)).2)) ≤ 1)%nat.
Proof.
  destruct (challenges_name_enrolled_devices paired _ _ (auth_after_run (firstn 3 replay))) as [_ Hs].
  by vm_compute in Hs |- *.
Defined.
End examples.
