(* ===== verification/Pairing.v ===== *)
(** * identity/pairing.go: the three-factor pairing attempt

    [Attempt] is the Go struct less its clock: each method takes the reading
    its call of [now] returned. The verifiers are reached through the
    [Verifier] interface; the objects behind it live in the store [S], which
    other attempts share. *)

From S2P Require Import Prelude GoStr Verifier.
From Stdlib Require Import Ascii.

(** [Factor] is a Go string type. *)
Definition FactorPassword : string := "password".
Definition FactorTOTP : string := "totp".
Definition FactorPasskey : string := "passkey".

Definition RequiredFactors : list string := [FactorPassword; FactorTOTP; FactorPasskey].

Definition PairingTTL : Z := 10 * Minute.

(** An entry of the attempt's verifier map: a supplied verifier, or the
    [notImplemented] value that stands in for a missing one. *)
Inductive slot (V : Type) : Type :=
  | Supplied (v : V)
  | NotImplemented (factor : string).
Arguments Supplied {V} v.
Arguments NotImplemented {V} factor.

Record Attempt (V : Type) := MkAttempt {
  Code : string;
  DevicePub : string;
  StartedAt : Z;
  satisfied : gmap string bool;
  consumed : bool;
  verifiers : gmap string (slot V);
  completedA : bool;
}.
Arguments MkAttempt {V}.
Arguments Code {V}.
Arguments DevicePub {V}.
Arguments StartedAt {V}.
Arguments satisfied {V}.
Arguments consumed {V}.
Arguments verifiers {V}.
Arguments completedA {V}.

Section pairing.
Context {S V : Type} `{Verifier S V}.
Implicit Types (a : Attempt V) (s : S) (f ev : string).

Definition slot_verify (v : slot V) (ev : string) (s : S) : option (error * S) :=
  match v with
  | Supplied v => verify v ev s
  | NotImplemented f => Some (Some (EWrap "" (ESent ErrFactorNotImplemented) (": " +:+ f)), s)
  end.

(** The argument map may lack a factor or hold a nil verifier. *)
Definition pick (vs : gmap string (option V)) (f : string) : slot V :=
  match vs !! f with
  | Some (Some v) => Supplied v
  | _ => NotImplemented f
  end.

Definition NewAttempt (code devicePub : string) (vs : gmap string (option V)) (now : Z)
    : Attempt V :=
  let full := fold_left (λ m f, <[f := pick vs f]> m) RequiredFactors ∅ in
  MkAttempt code devicePub now ∅ false full false.

Definition Expired (a : Attempt V) (now : Z) : bool := PairingTTL <? time_sub now (StartedAt a).

Definition mark (a : Attempt V) (f : string) : Attempt V :=
  MkAttempt (Code a) (DevicePub a) (StartedAt a) (<[f := true]> (satisfied a))
    (consumed a) (verifiers a) (completedA a).

Definition Satisfy (a : Attempt V) (f ev : string) (now : Z) (s : S)
    : option (error * Attempt V * S) :=
  if consumed a then Some (Some (ESent ErrPairingConsumed), a, s)
  else if Expired a now then Some (Some (ESent ErrPairingExpired), a, s)
  else match verifiers a !! f with
  | None => Some (Some (EWrap "" (ESent ErrUnknownFactor) (": " +:+ f)), a, s)
  | Some v =>
     '(res, s') ← slot_verify v ev s;
     match res with
     | Some e => Some (Some e, a, s')
     | None => Some (None, mark a f, s')
     end
  end.

Definition is_satisfied (a : Attempt V) (f : string) : bool := default false (satisfied a !! f).

Definition Outstanding (a : Attempt V) : list string :=
  List.filter (λ f, negb (is_satisfied a f)) RequiredFactors.

Definition Complete (a : Attempt V) (now : Z) : error * Attempt V :=
  if consumed a then (Some (ESent ErrPairingConsumed), a)
  else if Expired a now then (Some (ESent ErrPairingExpired), a)
  else match Outstanding a with
  | [] => (None, MkAttempt (Code a) (DevicePub a) (StartedAt a) (satisfied a) true
                   (verifiers a) true)
  | fs => (Some (EWrap "" (ESent ErrPairingIncomplete) (": [" +:+ join_char " " fs +:+ "]")), a)
  end.

Definition Completed (a : Attempt V) : bool := completedA a.

(** ** Histories of one attempt

    Between two calls of the attempt the store may change in any way: other
    attempts use the same verifiers. *)

Inductive pair_call :=
  | PSatisfy (f ev : string) (now : Z)
  | PComplete (now : Z)
  | PStore (s : S).

Definition pair_step (st : Attempt V * S) (c : pair_call) : option (Attempt V * S) :=
  let '(a, s) := st in
  match c with
  | PSatisfy f ev now => '(_, a', s') ← Satisfy a f ev now s; Some (a', s')
  | PComplete now => Some ((Complete a now).2, s)
  | PStore s' => Some (a, s')
  end.

Fixpoint pair_run (st : Attempt V * S) (cs : list pair_call) : option (Attempt V * S) :=
  match cs with
  | [] => Some st
  | c :: cs' => st' ← pair_step st c; pair_run st' cs'
  end.

(** Factor [f] was verified during [cs]: some call presented evidence that the
    verifier the caller supplied for [f] accepted, within the TTL. *)
Definition factor_verified (vs : gmap string (option V)) (a0 : Attempt V) (s0 : S)
    (cs : list pair_call) (f : string) : Prop :=
  ∃ before ev now after a s s' v,
    cs = before ++ PSatisfy f ev now :: after ∧
    pair_run (a0, s0) before = Some (a, s) ∧
    vs !! f = Some (Some v) ∧
    verify v ev s = Some (None, s') ∧
    now ≤ StartedAt a0 + PairingTTL.

(** ** Lemmas *)

Lemma NewAttempt_verifiers code pub vs now f v :
  verifiers (NewAttempt code pub vs now) !! f = Some v →
  f ∈ RequiredFactors ∧ v = pick vs f.
Proof.
  unfold NewAttempt; simpl. intros Hv.
  repeat (apply lookup_insert_Some in Hv as [[<- <-]|[_ Hv]];
    [split; [set_solver|done]|]).
  by rewrite lookup_empty in Hv.
Qed.

Lemma NewAttempt_required code pub vs now f :
  f ∈ RequiredFactors → verifiers (NewAttempt code pub vs now) !! f = Some (pick vs f).
Proof.
  unfold NewAttempt, RequiredFactors; simpl. rewrite !elem_of_cons, elem_of_nil.
  intros [->|[->|[->|[]]]]; by simplify_map_eq.
Qed.

Lemma Expired_spec a now : Expired a now = (StartedAt a + PairingTTL <? now).
Proof. apply time_sub_gt. by vm_compute. Qed.

Lemma Outstanding_elem a f :
  f ∈ Outstanding a ↔ f ∈ RequiredFactors ∧ is_satisfied a f = false.
Proof.
  unfold Outstanding. rewrite !list_elem_of_In, filter_In, negb_true_iff. done.
Qed.

Lemma Outstanding_nil a :
  Outstanding a = [] ↔ ∀ f, f ∈ RequiredFactors → is_satisfied a f = true.
Proof.
  split.
  - intros Ho f Hf. apply not_false_is_true. intros Hs.
    assert (f ∈ Outstanding a) as Hin by by apply Outstanding_elem.
    rewrite Ho in Hin. by apply elem_of_nil in Hin.
  - intros Hs. destruct (Outstanding a) as [|f l] eqn:E; [done|].
    assert (f ∈ Outstanding a) as [Hf Hn]%Outstanding_elem by (rewrite E; by left).
    by rewrite Hs in Hn.
Qed.

Lemma is_satisfied_mark a f f' :
  is_satisfied (mark a f) f' = bool_decide (f = f') || is_satisfied a f'.
Proof.
  unfold is_satisfied, mark; simpl. case_bool_decide as Hf.
  - subst. by rewrite lookup_insert_eq.
  - by rewrite lookup_insert_ne.
Qed.

Lemma Complete_spec a now :
  (Complete a now).1 = None ↔
  consumed a = false ∧ now ≤ StartedAt a + PairingTTL ∧
  ∀ f, f ∈ RequiredFactors → is_satisfied a f = true.
Proof.
  unfold Complete. rewrite Expired_spec, <- Outstanding_nil.
  destruct (consumed a); [split; [done|by intros [[=] _]]|].
  destruct (Z.ltb_spec (StartedAt a + PairingTTL) now).
  { split; [done|]. intros (_ & ? & _). lia. }
  destruct (Outstanding a); simpl; split; try done. by intros (_ & _ & [=]).
Qed.

Lemma completed_attempt_is_spent a now f ev now' s :
  (Complete a now).1 = None →
  let a' := (Complete a now).2 in
  Completed a' = true ∧
  (Complete a' now').1 = Some (ESent ErrPairingConsumed) ∧
  Satisfy a' f ev now' s = Some (Some (ESent ErrPairingConsumed), a', s).
Proof.
  unfold Complete. destruct (consumed a) eqn:C; [done|].
  destruct (Expired a now); [done|]. by destruct (Outstanding a).
Qed.

Lemma pair_run_snoc st cs c :
  pair_run st (cs ++ [c]) = (st' ← pair_run st cs; pair_step st' c).
Proof.
  revert st. induction cs as [|c' cs IH]; intros st; simpl.
  - by destruct (pair_step st c).
  - destruct (pair_step st c'); simpl; [apply IH|done].
Qed.

Lemma factor_verified_app vs a0 s0 cs cs' f :
  factor_verified vs a0 s0 cs f → factor_verified vs a0 s0 (cs ++ cs') f.
Proof.
  intros (b & ev & t & af & a & s & s' & v & -> & HR & Hv & Hs & Ht).
  exists b, ev, t, (af ++ cs'), a, s, s', v. by rewrite <- app_assoc.
Qed.

(** What a call can change: only [Satisfy] marks a factor, and only after the
    verifier accepted; the identity of the attempt and its verifiers stay. *)
Lemma pair_step_frame a s c a' s' :
  pair_step (a, s) c = Some (a', s') →
  StartedAt a' = StartedAt a ∧ DevicePub a' = DevicePub a ∧ verifiers a' = verifiers a ∧
  (consumed a = true → consumed a' = true) ∧
  ∀ f, is_satisfied a' f = true → is_satisfied a f = true ∨
    ∃ ev now v, c = PSatisfy f ev now ∧ verifiers a !! f = Some v ∧
      slot_verify v ev s = Some (None, s') ∧ now ≤ StartedAt a + PairingTTL.
Proof.
  destruct c as [f ev now|now|s1]; simpl.
  - unfold Satisfy. rewrite Expired_spec.
    destruct (consumed a) eqn:C; simpl; [intros [= <- <-]; by split_and!; auto|].
    destruct (Z.ltb_spec (StartedAt a + PairingTTL) now); simpl;
      [intros [= <- <-]; by split_and!; auto|].
    destruct (verifiers a !! f) as [v|] eqn:Hv; simpl;
      [|intros [= <- <-]; by split_and!; auto].
    destruct (slot_verify v ev s) as [[[e|] s2]|] eqn:Hs; simpl; [| |done];
      intros [= <- <-]; split_and!; auto; try done.
    intros f'. rewrite is_satisfied_mark, orb_true_iff, bool_decide_eq_true.
    intros [->|Hf]; [right|by left]. by exists ev, now, v.
  - unfold Complete. intros [= <- <-].
    destruct (consumed a) eqn:C, (Expired a now), (Outstanding a); simpl; split_and!; auto; done.
  - intros [= <- <-]. split_and!; auto.
Qed.

Lemma pair_run_inv code pub vs now0 s0 cs a s :
  let a0 := NewAttempt code pub vs now0 in
  pair_run (a0, s0) cs = Some (a, s) →
  StartedAt a = now0 ∧ DevicePub a = pub ∧ verifiers a = verifiers a0 ∧
  ∀ f, is_satisfied a f = true → factor_verified vs a0 s0 cs f.
Proof.
  intros a0. revert a s. induction cs as [|c cs IH] using rev_ind; intros a s.
  { intros [= <- <-]. by split_and!. }
  rewrite pair_run_snoc. destruct (pair_run (a0, s0) cs) as [[a1 s1]|] eqn:HR; [|done].
  simpl. intros Hstep. destruct (IH _ _ eq_refl) as (Ht & Hp & Hv & Hf).
  destruct (pair_step_frame _ _ _ _ _ Hstep) as (Ht' & Hp' & Hv' & _ & Hf').
  split_and!; [congruence|congruence|by rewrite Hv', Hv|]. intros f Hs.
  destruct (Hf' f Hs) as [Hold|(ev & now & v & -> & Hvf & Hsl & Hle)].
  { by apply factor_verified_app, Hf. }
  rewrite Hv in Hvf. apply NewAttempt_verifiers in Hvf as [_ ->].
  unfold pick in Hsl. destruct (vs !! f) as [[v|]|] eqn:Evs; simpl in Hsl; try done.
  exists cs, ev, now, [], a1, s1, s, v. split_and!; try done. simpl. lia.
Qed.

(** If a history of calls of one attempt ends with Complete succeeding, then it does so
    within the ten minutes and each required factor was verified by the verifier supplied for
    it, in a call within them, however the shared verifier objects changed in between. *)
Lemma pairing_needs_every_factor code pub vs now0 s0 cs a s now :
  let a0 := NewAttempt code pub vs now0 in
  pair_run (a0, s0) cs = Some (a, s) →
  (Complete a now).1 = None →
  now ≤ now0 + PairingTTL ∧ DevicePub (Complete a now).2 = pub ∧
  ∀ f, f ∈ RequiredFactors → factor_verified vs a0 s0 cs f.
Proof.
  intros a0 HR HC. destruct (pair_run_inv _ _ _ _ _ _ _ _ HR) as (Ht & Hp & _ & Hf).
  assert (DevicePub (Complete a now).2 = DevicePub a) as Hpub.
  { unfold Complete. by destruct (consumed a), (Expired a now), (Outstanding a). }
  apply Complete_spec in HC as (_ & Hle & Hall).
  rewrite Ht in Hle. split_and!; [done|congruence|]. auto.
Qed.

(** If the map given to NewAttempt lacks a required factor or holds nil for it, then after
    any history that factor is outstanding and Complete returns an error. *)
Lemma missing_factor_fails_closed code pub vs now0 s0 cs a s now f :
  f ∈ RequiredFactors →
  (vs !! f = None ∨ vs !! f = Some None) →
  pair_run (NewAttempt code pub vs now0, s0) cs = Some (a, s) →
  f ∈ Outstanding a ∧ is_Some (Complete a now).1.
Proof.
  intros Hf Hmiss HR.
  destruct (pair_run_inv _ _ _ _ _ _ _ _ HR) as (_ & _ & _ & Hs).
  assert (is_satisfied a f = false) as Hn.
  { apply not_true_is_false. intros Ht.
    destruct (Hs f Ht) as (? & ? & ? & ? & ? & ? & ? & v & _ & _ & Hv & _).
    destruct Hmiss; congruence. }
  split; [by apply Outstanding_elem|].
  destruct (Complete a now).1 eqn:HC; [by eexists|].
  apply Complete_spec in HC as (_ & _ & Hall). by rewrite Hall in Hn.
Qed.

Lemma Complete_pub a now : DevicePub (Complete a now).2 = DevicePub a.
Proof. unfold Complete. by repeat case_match. Qed.

Lemma consumed_stays cs a s a' s' :
  consumed a = true → pair_run (a, s) cs = Some (a', s') → consumed a' = true.
Proof.
  revert a s. induction cs as [|c cs IH]; intros a s Ha; [by intros [= <- <-]|].
  cbn [pair_run]. destruct (pair_step (a, s) c) as [[a1 s1]|] eqn:E; [|done].
  apply IH. by apply (pair_step_frame _ _ _ _ _ E).
Qed.

(** Once Complete has succeeded, it returns ErrPairingConsumed after every further history
    of calls. *)
Lemma pairing_completes_once a1 now1 s1 cs a2 s2 now2 :
  (Complete a1 now1).1 = None →
  pair_run ((Complete a1 now1).2, s1) cs = Some (a2, s2) →
  (Complete a2 now2).1 = Some (ESent ErrPairingConsumed).
Proof.
  intros HC HR.
  assert (consumed (Complete a1 now1).2 = true) as Hc.
  { revert HC. unfold Complete.
    destruct (consumed a1) eqn:C; [done|]. destruct (Expired a1 now1); [done|].
    by destruct (Outstanding a1). }
  unfold Complete. by rewrite (consumed_stays _ _ _ _ _ Hc HR).
Qed.
End pairing.

(** ** A verifier for witnesses: it accepts one evidence, once

    The store holds the evidence still good. *)

Definition once_verifier : Verifier (list string) string := λ v ev s,
  Some (if String.eqb v ev && bool_decide (ev ∈ s)
        then (None, List.filter (λ e, negb (String.eqb e ev)) s)
        else (Some (EMsg "refused"), s)).

Section witnesses.
#[local] Existing Instance once_verifier.

Definition three : gmap string (option string) :=
  {[FactorPassword := Some "pw"; FactorTOTP := Some "123"; FactorPasskey := Some "key"]}.
Definition good_calls : list (pair_call (S := list string)) :=
  [PSatisfy FactorPassword "no" 2; PSatisfy FactorPassword "pw" 3; PSatisfy FactorPasskey "key" 4;
   PStore ["123"]; PSatisfy FactorTOTP "123" 5].
Definition new_attempt (vs : gmap string (option string)) : Attempt string := NewAttempt "c" "PUB" vs 1.
Definition good_end : Attempt string * list string :=
  default (new_attempt three, []) (pair_run (new_attempt three, ["pw"; "key"]) good_calls).

Lemma pairing_needs_every_factor_witness :
  6 ≤ 1 + PairingTTL ∧ DevicePub (Complete good_end.1 6).2 = "PUB" ∧
  ∀ f, f ∈ RequiredFactors →
    factor_verified three (new_attempt three) ["pw"; "key"] good_calls f.
Proof.
  apply (pairing_needs_every_factor "c" "PUB" three 1 ["pw"; "key"] good_calls good_end.1 good_end.2 6);
    by vm_compute.
Defined.

Lemma missing_factor_fails_closed_witness :
  let vs := <[FactorTOTP := None]> three in
  FactorTOTP ∈ Outstanding (default good_end
    (pair_run (new_attempt vs, ["pw"; "key"; "123"]) good_calls)).1.
Proof.
  intros vs.
  apply (missing_factor_fails_closed "c" "PUB" vs 1 ["pw"; "key"; "123"] good_calls _
    (default good_end (pair_run (new_attempt vs, ["pw"; "key"; "123"]) good_calls)).2 0);
    [by right; left|right; by vm_compute|by vm_compute].
Defined.

Lemma pairing_completes_once_witness :
  (Complete (Complete good_end.1 6).2 7).1 = Some (ESent ErrPairingConsumed).
Proof. apply (pairing_completes_once good_end.1 6 ["x"] [] _ ["x"]); by vm_compute. Defined.
End witnesses.
