(* ===== verification/Totp.v ===== *)
(** * identity/totp.go: the one-time-code factor

    The RFC 6238 check is the library github.com/pquerna/otp, the parameter
    [TotpLib]. [lastAccepted] is the only state of a [TOTPVerifier]. *)

From S2P Require Import Prelude GoStr.

Definition totpPeriod : Z := 30 * Second.
Definition totpSkew : Z := 1.

(** totp.ValidateOpts as [Verify] fills it. *)
Record ValidateOpts := Opts { Period : Z; Skew : Z; Digits : Z }.

Class TotpLib := {
  (** code, secret, time, options *)
  ValidateCustom : string → string → Z → ValidateOpts → result bool;
  (** issuer, account: the key's secret and its URL *)
  Generate : string → string → result (string * string);
}.

Section totp.
Context `{TotpLib}.

Definition GenerateTOTPSecret (issuer accountName : string) : result (string * string) :=
  match Generate issuer accountName with
  | Err e => Err (EWrap "generate totp secret: " e "")
  | Ok key => Ok key
  end.

Definition verify_opts : ValidateOpts := Opts (totpPeriod / Second) totpSkew 6.

(** Verify against [secret]; the last argument is [lastAccepted]. *)
Definition totp_Verify (secret code : string) (now : Z) (lastAccepted : string)
    : error * string :=
  if String.eqb code "" then
    (Some (EWrap "" (ESent ErrTOTPCodeInvalid) ": empty code"), lastAccepted)
  else if negb (String.eqb lastAccepted "") && String.eqb code lastAccepted then
    (Some (ESent ErrTOTPCodeReused), lastAccepted)
  else match ValidateCustom code secret now verify_opts with
  | Err e => (Some (EWrap2 (ESent ErrTOTPCodeInvalid) ": " e), lastAccepted)
  | Ok false => (Some (ESent ErrTOTPCodeInvalid), lastAccepted)
  | Ok true => (None, code)
  end.

(** A sequence of calls, oldest first, with each call's result. *)
Fixpoint totp_run (secret : string) (last : string) (calls : list (string * Z)) : list error :=
  match calls with
  | [] => []
  | (code, now) :: calls' =>
     let '(r, last') := totp_Verify secret code now last in r :: totp_run secret last' calls'
  end.

Lemma totp_Verify_accepts secret code now last :
  (totp_Verify secret code now last).1 = None ↔
  code ≠ "" ∧ code ≠ last ∧ ValidateCustom code secret now verify_opts = Ok true.
Proof.
  unfold totp_Verify.
  destruct (String.eqb_spec code "") as [->|Hne]; simpl; [by split; [|intros [? _]]|].
  destruct (String.eqb_spec code last) as [->|Hl].
  - rewrite (proj2 (String.eqb_neq last "")) by done; simpl.
    split; [done|by intros (_ & ? & _)].
  - rewrite andb_false_r.
    destruct (ValidateCustom code secret now verify_opts) as [[|]|]; simpl; split;
      try done; by intros (_ & _ & [=]).
Qed.

Lemma totp_Verify_last secret code now last :
  (totp_Verify secret code now last).2 =
  if bool_decide ((totp_Verify secret code now last).1 = None) then code else last.
Proof.
  unfold totp_Verify. destruct (String.eqb code ""); [done|].
  destruct (negb _ && _); [done|].
  by destruct (ValidateCustom code secret now verify_opts) as [[|]|].
Qed.

Lemma accepted_code_not_replayed secret code now last now' :
  (totp_Verify secret code now last).1 = None →
  (totp_Verify secret code now' (totp_Verify secret code now last).2).1
    = Some (ESent ErrTOTPCodeReused).
Proof.
  intros Ha. rewrite totp_Verify_last, bool_decide_eq_true_2 by done.
  apply totp_Verify_accepts in Ha as (Hne & _ & _).
  unfold totp_Verify. rewrite (proj2 (String.eqb_neq code "")) by done.
  by rewrite String.eqb_refl.
Qed.

(** TOTPVerifier remembers only the last accepted code: a code accepted once is accepted
    again, while still valid, after another valid code was accepted. *)
Lemma replay_after_another_code secret a b t1 t2 t3 :
  a ≠ b → a ≠ "" → b ≠ "" →
  ValidateCustom a secret t1 verify_opts = Ok true →
  ValidateCustom b secret t2 verify_opts = Ok true →
  ValidateCustom a secret t3 verify_opts = Ok true →
  totp_run secret "" [(a, t1); (b, t2); (a, t3)] = [None; None; None].
Proof.
  intros Hab Ha Hb H1 H2 H3. unfold totp_run.
  unfold totp_Verify at 1. rewrite (proj2 (String.eqb_neq a "")) by done; simpl. rewrite H1.
  unfold totp_Verify at 1. rewrite (proj2 (String.eqb_neq b "")) by done.
  rewrite (proj2 (String.eqb_neq b a)), andb_false_r by done. rewrite H2.
  unfold totp_Verify. rewrite (proj2 (String.eqb_neq a "")) by done.
  rewrite (proj2 (String.eqb_neq a b)), andb_false_r by done. by rewrite H3.
Qed.
End totp.

(** ** A validator with the window RFC 6238 describes

    The code of period [n] is the decimal print of [n]; a code is valid at
    [now] when it belongs to a period within [Skew] of the current one. *)

Definition window_lib : TotpLib := {|
  ValidateCustom code secret now opts :=
    let p := now / Second / Period opts in
    Ok (existsb (λ d, String.eqb code (format_int (p + d))) [-1; 0; 1]);
  Generate issuer account := Ok ("SECRET", "otpauth://totp/" +:+ issuer +:+ ":" +:+ account);
|}.

(** One code accepted at second 30, its successor at 60, and the first again
    at 61: it is still inside its window. *)
Lemma replay_after_another_code_witness :
  let _ := window_lib in
  totp_run "S" "" [("1", 30 * Second); ("2", 60 * Second); ("1", 61 * Second)] = [None; None; None].
Proof.
  intros lib. apply (@replay_after_another_code lib); try done; by vm_compute.
Defined.

Lemma accepted_code_not_replayed_witness :
  (@totp_Verify window_lib "S" "1" (31 * Second)
     (@totp_Verify window_lib "S" "1" (30 * Second) "").2).1 = Some (ESent ErrTOTPCodeReused).
Proof. apply (@accepted_code_not_replayed window_lib). by vm_compute. Defined.
