(* ===== verification/Password.v ===== *)
(** * identity/password.go: Argon2id hashes

    The key derivation golang.org/x/crypto/argon2 is the parameter [Argon2];
    [IDKey] panics, [None], when the number of passes or of threads is zero.
    fmt.Sscanf is modelled for the two formats the decoder uses. *)

From S2P Require Import Prelude GoStr Verifier.
From Stdlib Require Import Ascii.

Definition argonMemoryKiB : Z := 19 * 1024.
Definition argonIterations : Z := 2.
Definition argonParallelism : Z := 1.
Definition argonSaltLen : Z := 16.
Definition argonKeyLen : Z := 32.
Definition argon2idVersion : Z := 19.

Class Argon2 := {
  (** password, salt, passes, memory in KiB, threads, key length *)
  IDKey : string → list Z → Z → Z → Z → Z → option (list Z);
  IDKey_ok : ∀ pw salt t m p len, 1 ≤ t → 1 ≤ p → 0 ≤ len →
    ∃ key, IDKey pw salt t m p len = Some key ∧ Forall is_byte key ∧
      Z.of_nat (length key) = len;
}.

Record argon2Params := Params {
  memoryKiB : Z;      (* uint32 *)
  iterations : Z;     (* uint32 *)
  parallelism : Z;    (* uint8 *)
}.

(** ** fmt.Sscanf *)

(** ss.SkipSpace: a newline in the input is an error. *)
Fixpoint skip_space (bs : list Z) : option (list Z) :=
  match bs with
  | [] => Some []
  | b0 :: t0 =>
     if b0 =? 10 then None
     else if space1 b0 then skip_space t0 else
     match t0 with
     | [] => Some bs
     | b1 :: t1 =>
        if space2 b0 b1 then skip_space t1 else
        match t1 with
        | [] => Some bs
        | b2 :: t2 => if space3 b0 b1 b2 then skip_space t2 else Some bs
        end
     end
  end.

Definition is_digit (b : Z) : bool := in_range 48 57 b.

(** The longest run of digits, and what follows it. *)
Fixpoint take_digits (bs : list Z) : list Z * list Z :=
  match bs with
  | b :: bs' => if is_digit b then let '(d, r) := take_digits bs' in (b :: d, r) else ([], bs)
  | [] => ([], [])
  end.

(** scanInt with verb %d: spaces, an optional sign, digits, ParseInt. *)
Definition scan_int (bs : list Z) : option (Z * list Z) :=
  bs ← skip_space bs;
  let '(sign, bs) :=
    match bs with
    | b :: bs' => if (b =? 43) || (b =? 45) then ([b], bs') else ([], bs)
    | [] => ([], [])
    end in
  let '(d, rest) := take_digits bs in
  if bool_decide (d = []) then None else
  match parse_int64 (of_bytes (sign ++ d)) with
  | Ok n => Some (n, rest)
  | Err _ => None
  end.

(** scanUint with verb %d into a uint32: no sign, and the value must fit. *)
Definition scan_uint32 (bs : list Z) : option (Z * list Z) :=
  bs ← skip_space bs;
  let '(d, rest) := take_digits bs in
  if bool_decide (d = []) then None else
  match parse_uint64 (of_bytes d) with
  | Ok n => if Z.of_N n <? 2 ^ 32 then Some (Z.of_N n, rest) else None
  | Err _ => None
  end.

(** Literal text of the format. *)
Fixpoint scan_lit (lit bs : list Z) : option (list Z) :=
  match lit, bs with
  | [], _ => Some bs
  | l :: lit', b :: bs' => if l =? b then scan_lit lit' bs' else None
  | _ :: _, [] => None
  end.

(** fmt.Sscanf(s, "v=%d", &version) *)
Definition sscanf_version (s : string) : option Z :=
  bs ← scan_lit (bytes "v=") (bytes s); '(v, _) ← scan_int bs; Some v.

(** fmt.Sscanf(s, "m=%d,t=%d,p=%d", &memoryKiB, &iterations, &parallelism) *)
Definition sscanf_params (s : string) : option (Z * Z * Z) :=
  bs ← scan_lit (bytes "m=") (bytes s); '(m, bs) ← scan_uint32 bs;
  bs ← scan_lit (bytes ",t=") bs; '(t, bs) ← scan_uint32 bs;
  bs ← scan_lit (bytes ",p=") bs; '(p, _) ← scan_int bs;
  Some (m, t, p).

(** ** The decoder *)

(** fmt.Errorf("%w: ...", ErrMalformedHash). The text of the parse error some
    branches append is left out. *)
Definition malformed {A} (what : string) : result A :=
  Err (EWrap "" (ESent ErrMalformedHash) (": " +:+ what)).

Definition decodeArgon2id (encoded : string) : result (argon2Params * list Z * list Z) :=
  match split_char "$" encoded with
  | [_; alg; ver; par; salt; hash] =>
     if negb (String.eqb alg "argon2id") then malformed "unexpected format" else
     match sscanf_version ver with
     | None => malformed "version"
     | Some version =>
        if negb (version =? argon2idVersion)
        then malformed ("unsupported version " +:+ format_int version) else
        match sscanf_params par with
        | None => malformed "params"
        | Some (m, t, p) =>
           match b64_decode false salt with
           | None => malformed "salt"
           | Some salt =>
              match b64_decode false hash with
              | None => malformed "hash"
              | Some hash =>
                 if bool_decide (salt = []) || bool_decide (hash = [])
                 then malformed "empty salt or hash"
                 else Ok (Params m t (p mod 256), salt, hash)
              end
           end
        end
     end
  | _ => malformed "unexpected format"
  end.

Section password.
Context `{Argon2}.

(** The format string of [HashPassword] applied to its parameters. *)
Definition encode_hash (salt key : list Z) : string :=
  "$argon2id$v=" +:+ format_int argon2idVersion +:+ "$m=" +:+ format_int argonMemoryKiB +:+
  ",t=" +:+ format_int argonIterations +:+ ",p=" +:+ format_int argonParallelism +:+
  "$" +:+ b64_encode false salt +:+ "$" +:+ b64_encode false key.

(** [rand] is what crypto/rand returned for the salt; [None] is a panic. *)
Definition HashPassword (password : string) (rand : result (list Z)) : option (result string) :=
  if String.eqb password "" then Some (Err (ESent ErrEmptyPassword))
  else match rand with
  | Err e => Some (Err (EWrap "generate salt: " e ""))
  | Ok salt =>
     key ← IDKey password salt argonIterations argonMemoryKiB argonParallelism argonKeyLen;
     Some (Ok (encode_hash salt key))
  end.

Definition ComparePassword (password encoded : string) : option error :=
  match decodeArgon2id encoded with
  | Err e => Some (Some e)
  | Ok (params, salt, hash) =>
     candidate ← IDKey password salt (iterations params) (memoryKiB params)
                   (parallelism params) (Z.of_nat (length hash) mod 2 ^ 32);
     Some (if bool_decide (candidate = hash) then None else Some (ESent ErrPasswordMismatch))
  end.

(** [PasswordVerifier]: no state but the stored hash. *)
Definition password_Verify (encoded evidence : string) : option error :=
  ComparePassword evidence encoded.

(** ** Lemmas *)

Lemma encode_hash_split salt key :
  Forall is_byte salt → Forall is_byte key →
  split_char "$" (encode_hash salt key) =
  [""; "argon2id"; "v=19"; "m=19456,t=2,p=1"; b64_encode false salt; b64_encode false key].
Proof.
  intros Hs%b64_no_dollar Hk%b64_no_dollar. unfold encode_hash.
  revert Hs Hk. generalize (b64_encode false salt) (b64_encode false key).
  intros s k Hs Hk.
  change (split_char "$" ("" +:+ String "$" ("argon2id" +:+ String "$" ("v=19" +:+ String "$"
    ("m=19456,t=2,p=1" +:+ String "$" (s +:+ String "$" k))))) =
    [""; "argon2id"; "v=19"; "m=19456,t=2,p=1"; s; k]).
  rewrite !split_char_app by (done || by vm_compute). by rewrite split_char_free.
Qed.

Lemma decode_encode_hash salt key :
  Forall is_byte salt → Forall is_byte key → salt ≠ [] → key ≠ [] →
  decodeArgon2id (encode_hash salt key) =
  Ok (Params argonMemoryKiB argonIterations argonParallelism, salt, key).
Proof.
  intros Hs Hk Hs0 Hk0. unfold decodeArgon2id. rewrite encode_hash_split by done.
  rewrite !b64_decode_encode by done.
  rewrite !bool_decide_eq_false_2 by done. done.
Qed.

Lemma hash_then_compare pw salt :
  pw ≠ "" → Forall is_byte salt → Z.of_nat (length salt) = argonSaltLen →
  ∃ encoded, HashPassword pw (Ok salt) = Some (Ok encoded) ∧
    ComparePassword pw encoded = Some None ∧
    ∀ pw', ComparePassword pw' encoded =
      Some (if bool_decide
               (IDKey pw' salt argonIterations argonMemoryKiB argonParallelism argonKeyLen =
                IDKey pw salt argonIterations argonMemoryKiB argonParallelism argonKeyLen)
            then None else Some (ESent ErrPasswordMismatch)).
Proof.
  intros Hne Hb Hl.
  assert (∀ p, ∃ k, IDKey p salt argonIterations argonMemoryKiB argonParallelism argonKeyLen = Some k
    ∧ Forall is_byte k ∧ Z.of_nat (length k) = argonKeyLen) as Hidk by (intros; by apply IDKey_ok).
  destruct (Hidk pw) as (key & Hkey & Hkb & Hkl).
  exists (encode_hash salt key). unfold HashPassword.
  rewrite (proj2 (String.eqb_neq _ _) Hne), Hkey. split; [done|].
  assert (decodeArgon2id (encode_hash salt key) =
    Ok (Params argonMemoryKiB argonIterations argonParallelism, salt, key)) as Hdec.
  { apply decode_encode_hash; [done|done| |]; intros ->; done. }
  assert (∀ pw', ComparePassword pw' (encode_hash salt key) =
      Some (if bool_decide
               (IDKey pw' salt argonIterations argonMemoryKiB argonParallelism argonKeyLen = Some key)
            then None else Some (ESent ErrPasswordMismatch))) as Hcmp.
  { intros pw'. unfold ComparePassword. rewrite Hdec; simpl. rewrite Hkl.
    change (argonKeyLen mod 2 ^ 32) with argonKeyLen.
    destruct (Hidk pw') as (k & -> & _ & _); simpl. f_equal.
    apply (f_equal (λ b : bool, if b then None else Some (ESent ErrPasswordMismatch))).
    apply bool_decide_ext. naive_solver. }
  split; [|done]. rewrite Hcmp, bool_decide_eq_true_2 by done. done.
Qed.

(** HashPassword of a non-empty password and a salt of bytes gives a string ComparePassword
    accepts for that password, and for another password exactly when the key derivation
    collides. *)
Lemma password_roundtrip pw salt :
  pw ≠ "" → Forall is_byte salt → Z.of_nat (length salt) = argonSaltLen →
  ∃ encoded, HashPassword pw (Ok salt) = Some (Ok encoded) ∧
    ComparePassword pw encoded = Some None ∧
    ∀ pw', ComparePassword pw' encoded =
      Some (if bool_decide
               (IDKey pw' salt argonIterations argonMemoryKiB argonParallelism argonKeyLen =
                IDKey pw salt argonIterations argonMemoryKiB argonParallelism argonKeyLen)
            then None else Some (ESent ErrPasswordMismatch)).
Proof. apply hash_then_compare. Qed.

Lemma ComparePassword_accepts pw encoded :
  ComparePassword pw encoded = Some None ↔
  ∃ params salt hash, decodeArgon2id encoded = Ok (params, salt, hash) ∧
    IDKey pw salt (iterations params) (memoryKiB params) (parallelism params)
      (Z.of_nat (length hash) mod 2 ^ 32) = Some hash.
Proof.
  unfold ComparePassword. destruct (decodeArgon2id encoded) as [[[params salt] hash]|e].
  - destruct (IDKey _ _ _ _ _ _) as [c|] eqn:E; simpl.
    + case_bool_decide; split; naive_solver.
    + split; [done|]. naive_solver.
  - split; [done|]. by intros (? & ? & ? & ? & _).
Qed.

Lemma malformed_hash_never_matches pw encoded e :
  decodeArgon2id encoded = Err e →
  ComparePassword pw encoded = Some (Some e) ∧ errors_is e ErrMalformedHash = true.
Proof.
  intros HE. unfold ComparePassword. rewrite HE. split; [done|].
  revert HE. unfold decodeArgon2id, malformed.
  repeat (case_match; try done); by intros [= <-].
Qed.
End password.

(** decodeArgon2id accepts a hash with zero passes and 256 threads, which become zero,
    parameters on which the key derivation panics. *)
Lemma decode_accepts_zero_cost :
  decodeArgon2id "$argon2id$v=19$m=65536,t=0,p=256$c2FsdA$aGFzaA" =
  Ok (Params 65536 0 0, bytes "salt", bytes "hash").
Proof. by vm_compute. Qed.

(** ** A key derivation for witnesses: the password itself, padded *)

Lemma padded_key pw len :
  0 ≤ len →
  Forall is_byte (take (Z.to_nat len) (bytes pw ++ replicate (Z.to_nat len) 0)) ∧
  Z.of_nat (length (take (Z.to_nat len) (bytes pw ++ replicate (Z.to_nat len) 0))) = len.
Proof.
  intros Hlen. split.
  - apply Forall_take, Forall_app. split; [apply bytes_range|].
    apply Forall_forall. intros x [-> _]%elem_of_replicate. done.
  - rewrite length_take, length_app, length_replicate. lia.
Qed.

Definition padding_kdf : Argon2.
Proof.
  refine {| IDKey pw salt t m p len :=
    if (1 <=? t) && (1 <=? p)
    then Some (take (Z.to_nat len) (bytes pw ++ replicate (Z.to_nat len) 0)) else None |}.
  intros pw salt t m p len Ht Hp Hlen.
  rewrite (proj2 (Z.leb_le 1 t)), (proj2 (Z.leb_le 1 p)) by done; simpl.
  eexists. split; [done|]. by apply padded_key.
Defined.

Lemma password_roundtrip_witness :
  ∃ encoded, @HashPassword padding_kdf "secret" (Ok (replicate 16 3)) = Some (Ok encoded) ∧
    @ComparePassword padding_kdf "secret" encoded = Some None ∧
    @ComparePassword padding_kdf "wrong" encoded = Some (Some (ESent ErrPasswordMismatch)).
Proof.
  destruct (@password_roundtrip padding_kdf "secret" (replicate 16 3)) as (enc & H1 & H2 & H3);
    [done| |done|].
  - apply Forall_forall. by intros x [-> _]%elem_of_replicate.
  - exists enc. split_and!; [done|done|]. by rewrite H3.
Defined.
