(* ===== verification/WebAuthn.v ===== *)
(** * identity/webauthn.go: the passkey factor

    The ceremony itself is the library github.com/go-webauthn/webauthn, the
    parameter [WebAuthnLib]: a configured relying party, users, sessions, and
    the calls the daemon makes. *)

From S2P Require Import Prelude GoStr Verifier.

Class WebAuthnLib := {
  RelyingParty : Type;
  User : Type;
  SessionData : Type;
  Parsed : Type;
  Creation : Type;
  Assertion : Type;
  (** webauthn.New: RP id, display name, origins *)
  webauthn_New : string → string → list string → result RelyingParty;
  lib_BeginRegistration : RelyingParty → User → result (Creation * SessionData);
  lib_BeginLogin : RelyingParty → User → result (Assertion * SessionData);
  ParseCredentialRequestResponseBody : string → result Parsed;
  ValidateLogin : RelyingParty → User → SessionData → Parsed → error;
}.

Section webauthn.
Context `{WebAuthnLib}.

Record WebAuthnVerifier := MkWebAuthn {
  wa : option RelyingParty;
  user : option User;
  session : option SessionData;
}.

Definition NewWebAuthnVerifier (rpID rpDisplayName : string) (origins : list string)
    : WebAuthnVerifier :=
  if String.eqb rpID "" then MkWebAuthn None None None
  else match webauthn_New rpID rpDisplayName origins with
  | Err _ => MkWebAuthn None None None
  | Ok w => MkWebAuthn (Some w) None None
  end.

Definition Configured (v : WebAuthnVerifier) : bool := match wa v with Some _ => true | None => false end.

Definition notConfiguredErr : goerr :=
  EWrap2 (ESent ErrFactorNotImplemented) ": " (ESent ErrRelyingPartyNotConfigured).

Definition BeginRegistration (v : WebAuthnVerifier) (u : User) : result (Creation * SessionData) :=
  match wa v with
  | None => Err notConfiguredErr
  | Some w => lib_BeginRegistration w u
  end.

Definition BeginLogin (v : WebAuthnVerifier) (u : User) : result (Assertion * SessionData) :=
  match wa v with
  | None => Err notConfiguredErr
  | Some w => lib_BeginLogin w u
  end.

Definition BindSession (v : WebAuthnVerifier) (u : User) (s : SessionData) : WebAuthnVerifier :=
  MkWebAuthn (wa v) (Some u) (Some s).

Definition webauthn_Verify (v : WebAuthnVerifier) (evidence : string) : error :=
  match wa v with
  | None => Some notConfiguredErr
  | Some w =>
     match user v, session v with
     | Some u, Some s =>
        match ParseCredentialRequestResponseBody evidence with
        | Err e => Some (EWrap "parse passkey response: " e "")
        | Ok parsed =>
           match ValidateLogin w u s parsed with
           | Some e => Some (EWrap "validate passkey: " e "")
           | None => None
           end
        end
     | _, _ => Some (ESent ErrPasskeyNotBound)
     end
  end.

(** A verifier no [BindSession] has touched refuses all evidence. *)
Definition unbound (v : WebAuthnVerifier) : Prop := user v = None ∨ session v = None.

Lemma New_unbound rp name origins : unbound (NewWebAuthnVerifier rp name origins).
Proof.
  unfold NewWebAuthnVerifier, unbound. destruct (String.eqb rp ""); [by left|].
  destruct (webauthn_New rp name origins); by left.
Qed.

Lemma unbound_refuses v ev : unbound v → is_Some (webauthn_Verify v ev).
Proof.
  unfold unbound, webauthn_Verify. intros Hu.
  destruct (wa v); [|by eexists]. destruct (user v), (session v); try by eexists.
  by destruct Hu.
Qed.

Lemma unconfigured_fails_closed rp name origins ev u :
  let v := NewWebAuthnVerifier rp name origins in
  Configured v = false →
  (∃ e, webauthn_Verify v ev = Some e ∧ errors_is e ErrRelyingPartyNotConfigured = true ∧
    errors_is e ErrFactorNotImplemented = true) ∧
  BeginLogin v u = Err notConfiguredErr ∧ BeginRegistration v u = Err notConfiguredErr ∧
  ∀ s, webauthn_Verify (BindSession v u s) ev = Some notConfiguredErr.
Proof.
  intros v. unfold Configured, webauthn_Verify, BeginLogin, BeginRegistration, BindSession.
  destruct (wa v) eqn:E; [done|]. intros _. simpl. split_and!; try done.
  by exists notConfiguredErr.
Qed.

Lemma unconfigured_empty name origins : Configured (NewWebAuthnVerifier "" name origins) = false.
Proof. done. Qed.
End webauthn.

(** ** A library for witnesses

    A session is the answer it expects. *)

Definition echo_lib : WebAuthnLib := {|
  RelyingParty := string; User := string; SessionData := string; Parsed := string;
  Creation := string; Assertion := string;
  webauthn_New rp name origins :=
    match origins with [] => Err (EMsg "no origins") | _ => Ok rp end;
  lib_BeginRegistration rp u := Ok (u, rp);
  lib_BeginLogin rp u := Ok (u, rp);
  ParseCredentialRequestResponseBody s := if String.eqb s "" then Err (EMsg "empty") else Ok s;
  ValidateLogin rp u s p := if String.eqb p s then None else Some (EMsg "mismatch");
|}.

Lemma unconfigured_fails_closed_witness :
  let _ := echo_lib in
  let v := NewWebAuthnVerifier "" "Remote" ["https://x"] in
  (∃ e, webauthn_Verify v "ev" = Some e ∧ errors_is e ErrRelyingPartyNotConfigured = true ∧
    errors_is e ErrFactorNotImplemented = true) ∧
  BeginLogin v "u" = Err notConfiguredErr ∧ BeginRegistration v "u" = Err notConfiguredErr ∧
  ∀ s, webauthn_Verify (BindSession v "u" s) "ev" = Some notConfiguredErr.
Proof. intros lib. by apply (@unconfigured_fails_closed echo_lib). Defined.
