(* ===== verification/Http.v ===== *)
(** * The parts of [net/http] and [encoding/json] the handlers touch

    A request as a handler reads it, a response as a handler writes it. Bodies
    are streams of bytes that end with io.EOF or an error; decoding one into a
    struct of string fields is the parameter [JsonDecoder]. *)

From S2P Require Import Prelude GoStr.
From Stdlib Require Import Ascii.
#[local] Set Warnings "-register-all".

(** An io.Reader: the bytes it delivers, then its error ([None]: io.EOF). *)
Record stream := Stream {
  content : string;
  read_error : error;
}.

Record request := Request {
  Method : string;
  URLPath : string;
  Query : list (string * string);
  Header : list (string * string);
  RemoteAddr : string;
  Host : string;
  Body : stream;
  ctx_device : option string;     (* the value of deviceIDKey in the context *)
}.

(** Query().Get and Header.Get: the first value, or the empty string. *)
Fixpoint get_first (l : list (string * string)) (k : string) : string :=
  match l with
  | [] => ""
  | (k', v) :: l' => if String.eqb k' k then v else get_first l' k
  end.

Definition query_get (r : request) (k : string) : string := get_first (Query r) k.
Definition header_get (r : request) (k : string) : string := get_first (Header r) k.

Definition MethodGet : string := "GET".
Definition MethodPost : string := "POST".
Definition MethodDelete : string := "DELETE".
Definition MethodPatch : string := "PATCH".
Definition MethodHead : string := "HEAD".
Definition MethodOptions : string := "OPTIONS".

(** JSON values the handlers send. *)
Inductive json :=
  | JNull
  | JString (s : string)
  | JNumber (n : Z)
  | JBool (b : bool)
  | JArray (l : list json)
  | JObject (fields : list (string * json)).

Inductive payload :=
  | NoBody
  | Json (j : json)
  | Raw (s : string).

Record response := Response {
  status : Z;
  headers : list (string * string);   (* in the order they were set *)
  payload_of : payload;
}.

Definition add_headers (hs : list (string * string)) (r : response) : response :=
  Response (status r) (hs ++ headers r) (payload_of r).

(** writeJSON / writeOwnerJSON: the same three lines in every package. *)
Definition write_json (code : Z) (j : json) : response :=
  Response code [("Content-Type", "application/json")] (Json j).

(** writeAuthError / writeError / writeErr / writeJSONError *)
Definition write_error (code : Z) (msg : string) : response :=
  write_json code (JObject [("error", JString msg)]).

Definition write_status (code : Z) : response := Response code [] NoBody.

(** json.NewDecoder(r.Body).Decode(&body) into a struct of string fields: the
    fields present, or the error. *)
Class JsonDecoder := json_decode : stream → result (gmap string string).

Definition field (fields : gmap string string) (k : string) : string := default "" (fields !! k).

(** error values as Go prints them; the text of a sentinel is the parameter of
    the [errors.New] that made it. *)
Definition sentinel_text (s : sentinel) : string :=
  match s with
  | ErrNotExist => "no such file or directory"
  | ErrExist => "file exists"
  | ErrNotDir => "not a directory"
  | ErrIsDir => "is a directory"
  | ErrLoop => "too many levels of symbolic links"
  | ErrCrossDevice => "invalid cross-device link"
  | ErrNotEmpty => "directory not empty"
  | ErrInvalid => "invalid argument"
  | ErrNoRows => "sql: no rows in result set"
  | ErrConstraint => "constraint failed"
  | ErrEOF => "EOF"
  | ErrOutsideRoots => "path is outside the allowed roots"
  | ErrOffsetConflict => "upload offset conflict"
  | ErrChecksumMismatch => "checksum mismatch"
  | ErrFactorNotImplemented => "authentication factor is not implemented yet"
  | ErrPairingExpired => "pairing attempt expired"
  | ErrPairingIncomplete => "pairing is not complete: factors still outstanding"
  | ErrPairingConsumed => "pairing code has already been used"
  | ErrUnknownFactor => "unknown authentication factor"
  | ErrEmptyPassword => "password must not be empty"
  | ErrMalformedHash => "stored password hash is malformed"
  | ErrPasswordMismatch => "password does not match"
  | ErrTOTPCodeInvalid => "totp code invalid"
  | ErrTOTPCodeReused => "totp code already used"
  | ErrRelyingPartyNotConfigured => "webauthn relying party ID is not configured (CCR_PUBLIC_DOMAIN / --public-domain unset for this installation, see D-04 in ROADMAP.md)"
  | ErrPasskeyNotBound => "passkey verifier is not bound to a pairing attempt"
  | ErrRateLimited => "too many failed attempts, locked out"
  | ErrStepUpRequired => "step-up authentication required"
  | ErrStepUpExpired => "step-up grant expired"
  | ErrDeviceAuthFailed => "device authentication failed"
  | ErrChallengeExpired => "challenge expired"
  | ErrWildcardBind => "bind address must be localhost or a specific interface (e.g. the Tailscale IP), never a wildcard: public access is CloudGate's job"
  end.

Fixpoint Error (e : goerr) : string :=
  match e with
  | ESent s => sentinel_text s
  | EMsg m => m
  | EWrap pre e post => pre +:+ Error e +:+ post
  | EWrap2 a sep b => Error a +:+ sep +:+ Error b
  end.

(** ** A decoder for witnesses: [k=v] pairs joined by [&] *)

Definition form_decoder : JsonDecoder := λ body,
  match read_error body with
  | Some e => Err e
  | None =>
     Ok (list_to_map (map (λ p, match cut_char "=" p with (k, v) => (k, default "" v) end)
                          (split_char "&" (content body))))
  end.

(** A POST of such a body. *)
Definition post_form (path addr body : string) : request :=
  Request MethodPost path [] [] addr "localhost" (Stream body None) None.
