(* ===== verification/Middleware.v ===== *)
(** * identity/middleware.go: device authentication and step-up in front of a handler

    A handler acts on a state [S]; [E] is what the environment supplies while
    a request is served, and [None] is a panic. Middleware reaches the part of
    the state it works on through a [Lens], so that the same definitions serve
    every state that has such a part. *)

From S2P Require Import Prelude GoStr DeviceAuth StepUp Http.
From Stdlib Require Import Ascii.

(** ** Handlers and parts of a state *)

Definition Handler (E S : Type) : Type := E → S → request → option (response * S).

Record Lens (S A : Type) := MkLens {
  get : S → A;
  set : A → S → S;
  get_set : ∀ a s, get (set a s) = a;
  set_set : ∀ a b s, set a (set b s) = set a s;
}.
Arguments get {S A} l s.
Arguments set {S A} l a s.
Arguments get_set {S A} l a s.
Arguments set_set {S A} l a b s.

(** context.WithValue(r.Context(), deviceIDKey, id) *)
Definition with_device (r : request) (id : string) : request :=
  Request (Method r) (URLPath r) (Query r) (Header r) (RemoteAddr r) (Host r) (Body r) (Some id).

Definition DeviceIDFromContext (r : request) : string * bool :=
  match ctx_device r with Some id => (id, true) | None => ("", false) end.

Definition writeAuthError (code : Z) (msg : string) : response := write_error code msg.

Section middleware.
Context {E S D : Type} `{DeviceLookup D} `{Ed25519}.

(** The outstanding challenges, the device store a lookup of this request
    sees, and the clock reading Verify makes. *)
Variable auth : Lens S Pending.
Variable store_of : E → S → D.
Variable t_verify : E → Z.

Definition RequireDevice (next : Handler E S) : Handler E S := λ env st r,
  let deviceID := header_get r "X-Device-Id" in
  let sigHeader := header_get r "X-Device-Signature" in
  if String.eqb deviceID "" || String.eqb sigHeader ""
  then Some (writeAuthError 401 "missing device credentials", st)
  else match b64_decode true sigHeader with
  | None => Some (writeAuthError 401 "malformed device signature", st)
  | Some sig =>
     '(err, p) ← Verify (get auth st) (store_of env st) deviceID sig (t_verify env);
     let st' := set auth p st in
     match err with
     | Some _ => Some (writeAuthError 401 "device authentication failed", st')
     | None => next env st' (with_device r deviceID)
     end
  end.

(** The grants, and the clock reading Consume makes. *)
Variable gate : Lens S StepUpGate.
Variable t_consume : E → Z.

Definition RequireStepUp (action : string) (next : Handler E S) : Handler E S := λ env st r,
  match DeviceIDFromContext r with
  | (_, false) => Some (writeAuthError 401 "device authentication required", st)
  | (deviceID, true) =>
     if negb (RequiresStepUp action) then next env st r else
     let '(err, g) := Consume (get gate st) deviceID action (t_consume env) in
     let st' := set gate g st in
     match err with
     | Some _ => Some (writeAuthError 401 "step-up authentication required", st')
     | None => next env st' r
     end
  end.

(** ** Who gets through *)

(** The request carries device [id]'s signature over its outstanding challenge. *)
Definition authentic (env : E) (st : S) (r : request) (id : string) : Prop :=
  id = header_get r "X-Device-Id" ∧ id ≠ "" ∧
  ∃ sig pc pk, header_get r "X-Device-Signature" ≠ "" ∧
    b64_decode true (header_get r "X-Device-Signature") = Some sig ∧
    get auth st !! id = Some pc ∧ t_verify env ≤ expiresAt pc ∧
    lookup_device (store_of env st) id = (pk, false, true) ∧
    signature_valid pk (nonce pc) sig = true.

Context `{!DeviceLookupSpec D}.

(** Either the request is authentic and [next] decides, or the answer is a 401
    that does not depend on [next]; both ways only challenges have changed. *)
Lemma RequireDevice_cases next env st r :
  let dev := header_get r "X-Device-Id" in
  (authentic env st r dev ∧
     RequireDevice next env st r = next env (set auth (delete dev (get auth st)) st) (with_device r dev)) ∨
  ((∀ id', ¬ authentic env st r id') ∧ ∃ msg st',
     (st' = st ∨ st' = set auth (delete dev (get auth st)) st) ∧
     ∀ next' : Handler E S, RequireDevice next' env st r = Some (writeAuthError 401 msg, st')).
Proof.
  intros dev. unfold RequireDevice. fold dev.
  destruct (String.eqb_spec dev "") as [Hid|Hid]; simpl.
  { right. split; [by intros id (-> & ? & _)|eauto 10]. }
  destruct (String.eqb_spec (header_get r "X-Device-Signature") "") as [Hs|Hs].
  { right. split; [by intros id (_ & _ & ? & ? & ? & ? & _)|eauto 10]. }
  destruct (b64_decode true _) as [sig|] eqn:Eb; cycle 1.
  { right. split; [|eauto 10]. intros id (_ & _ & ? & ? & ? & _ & ? & _). congruence. }
  destruct (Verify_total (get auth st) (store_of env st) dev sig (t_verify env)) as [e HV].
  pose proof (Verify_accepts (get auth st) (store_of env st) dev sig (t_verify env)) as HA.
  destruct e as [e|].
  - right. split.
    + intros id (-> & _ & sig' & pc & pk & _ & Es & Hp & Ht & Hl & Hv).
      rewrite Eb in Es. injection Es as <-.
      destruct (proj2 HA) as [p' HV']; [by exists pc, pk|]. fold dev in HV'. rewrite HV in HV'. done.
    + rewrite HV. simpl. eauto 10.
  - left. split; [|by rewrite HV].
    destruct (proj1 HA) as (pc & pk & Hp & Ht & Hl & Hv); [eauto|].
    split; [done|]. split; [done|]. by exists sig, pc, pk.
Qed.

(** A request that does not carry a valid signature of a known, unrevoked device over its
    unexpired challenge is answered 401 whatever the wrapped handler is, and changes nothing but
    the challenge of the device it names. *)
Lemma unauthenticated_never_reaches_next env st r :
  (∀ id, ¬ authentic env st r id) →
  ∃ resp st', status resp = 401 ∧ (∀ next : Handler E S, RequireDevice next env st r = Some (resp, st')) ∧
    (st' = st ∨ ∃ id, st' = set auth (delete id (get auth st)) st).
Proof.
  intros Hn. destruct (RequireDevice_cases (λ _ _ _, None) env st r) as [[Ha _]|(_ & msg & st' & Hst & HR)].
  - by destruct (Hn _ Ha).
  - exists (writeAuthError 401 msg), st'. split_and!; [done|done|].
    destruct Hst as [->| ->]; [by left|right; by eexists].
Qed.

(** An authentic request reaches the wrapped handler with its device id in the context, and
    unless the handler touches challenges every later request of that device is refused until a
    new challenge is issued. *)
Lemma authentic_request_is_served_once env st r id next resp st' :
  authentic env st r id → RequireDevice next env st r = Some (resp, st') →
  (∀ e s q resp s', next e s q = Some (resp, s') → get auth s' = get auth s) →
  next env (set auth (delete id (get auth st)) st) (with_device r id) = Some (resp, st') ∧
  ∀ env' r', header_get r' "X-Device-Id" = id →
    ∃ msg st2, ∀ next', RequireDevice next' env' st' r' = Some (writeAuthError 401 msg, st2).
Proof.
  intros Ha HR Hnext.
  destruct (RequireDevice_cases next env st r) as [[_ HE]|(Hn & _)]; [|by destruct (Hn id)].
  assert (header_get r "X-Device-Id" = id) as Eid by (by destruct Ha as [-> _]).
  rewrite Eid in HE. rewrite HR in HE. split; [done|]. intros env' r' Eid'.
  symmetry in HE. apply Hnext in HE. rewrite get_set in HE.
  destruct (RequireDevice_cases next env' st' r') as [[Ha' _]|(_ & msg & st2 & _ & HR')]; [|by eauto].
  destruct Ha' as (_ & _ & sig & pc & pk & _ & _ & Hp & _).
  by rewrite HE, Eid', lookup_delete_eq in Hp.
Qed.

(** Both together, in the order main.go composes them. *)
Definition guarded (action : string) (next : Handler E S) : Handler E S :=
  RequireDevice (RequireStepUp action next).

(** Behind RequireDevice and RequireStepUp a sensitive handler runs only for an authentic
    request of a device with an unused, unexpired grant for that action; otherwise the answer is
    401. *)
Lemma guarded_needs_both action env st r :
  RequiresStepUp action = true →
  (∀ a s, get gate (set auth a s) = get gate s) →
  (∃ id, authentic env st r id ∧ (Consume (get gate st) id action (t_consume env)).1 = None) ∨
  ∃ resp st', status resp = 401 ∧ ∀ next, guarded action next env st r = Some (resp, st').
Proof.
  intros Hreq Hlens. unfold guarded. set (id := header_get r "X-Device-Id").
  destruct (Consume (get gate st) id action (t_consume env)) as [err g] eqn:EC.
  destruct (RequireDevice_cases (λ _ _ _, None) env st r) as [[Ha _]|(Hn & msg & st' & _ & HR)]; cycle 1.
  { right. by exists (writeAuthError 401 msg), st'. }
  destruct err as [e|].
  - right. do 2 eexists. split; [|intros next;
      destruct (RequireDevice_cases (RequireStepUp action next) env st r)
        as [[_ ->]|(Hn & _)]; [|by destruct (Hn _ Ha)]].
    + shelve.
    + unfold RequireStepUp; simpl. rewrite Hreq, Hlens. simpl. fold id. rewrite EC. simpl. reflexivity.
    Unshelve. done.
  - left. exists id. by rewrite EC.
Qed.
End middleware.

(** ** Witnesses: challenges and grants side by side, one clock reading *)

Definition fst_lens {A B} : Lens (A * B) A.
Proof. by refine {| get s := s.1; set a s := (a, s.2) |}. Defined.

Definition snd_lens {A B} : Lens (A * B) B.
Proof. by refine {| get s := s.2; set b s := (s.1, b) |}. Defined.

Section examples.
#[local] Existing Instances sample_store sample_store_spec echo_scheme.

Definition demo_state : Pending * StepUpGate :=
  ({["d1" := Challenge [3; 4] 100]}, Grant NewStepUpGate "d1" ActionRevokeDevice 5).

Definition signed_request (id : string) (sig : list Z) : request :=
  Request MethodPost "/owner/devices/revoke" []
    [("X-Device-Id", id); ("X-Device-Signature", b64_encode true sig)] "" "" (Stream "" None) None.

Definition demo_next : Handler Z (Pending * StepUpGate) := λ _ st _, Some (write_status 204, st).

Abbreviation demo_guard :=
  (RequireDevice fst_lens (λ _ _, tt) (λ t : Z, t)).

Lemma demo_authentic :
  authentic fst_lens (λ _ _, tt) (λ t : Z, t) 50 demo_state (signed_request "d1" (sample_key ++ [3; 4])) "d1".
Proof.
  split; [done|]. split; [done|].
  exists (sample_key ++ [3; 4]), (Challenge [3; 4] 100), sample_key. by vm_compute.
Qed.

Lemma unauthenticated_never_reaches_next_witness :
  ∃ resp st', status resp = 401 ∧
    demo_guard demo_next 50 demo_state (signed_request "d1" [1]) = Some (resp, st').
Proof.
  destruct (unauthenticated_never_reaches_next (fst_lens (B := StepUpGate)) (λ _ _, tt) (λ t : Z, t)
    50 demo_state (signed_request "d1" [1])) as (resp & st' & Hs & HR & _).
  - intros id (-> & _ & sig & pc & pk & _ & Hb & Hp & _ & Hl & Hv).
    vm_compute in Hb. injection Hb as <-. vm_compute in Hp. injection Hp as <-.
    vm_compute in Hl. injection Hl as <-. by vm_compute in Hv.
  - by exists resp, st'.
Defined.

Lemma authentic_request_is_served_once_witness :
  ∃ st' msg st2,
    demo_guard demo_next 50 demo_state (signed_request "d1" (sample_key ++ [3; 4])) = Some (write_status 204, st') ∧
    demo_guard demo_next 51 st' (signed_request "d1" (sample_key ++ [3; 4])) = Some (writeAuthError 401 msg, st2).
Proof.
  destruct (authentic_request_is_served_once (fst_lens (B := StepUpGate)) (λ _ _, tt) (λ t : Z, t)
    50 demo_state (signed_request "d1" (sample_key ++ [3; 4])) "d1" demo_next (write_status 204)
    (delete "d1" demo_state.1, demo_state.2)) as [_ HR]; [apply demo_authentic|done|by intros ?????[= _ <-]|].
  destruct (HR 51 (signed_request "d1" (sample_key ++ [3; 4])) eq_refl) as (msg & st2 & HR').
  exists (delete "d1" demo_state.1, demo_state.2), msg, st2. split; [done|apply HR'].
Defined.

Lemma guarded_needs_both_witness :
  ∃ resp st', status resp = 401 ∧
    guarded fst_lens (λ _ _, tt) (λ t : Z, t) snd_lens (λ t : Z, t) ActionPairDevice demo_next
      50 demo_state (signed_request "d1" (sample_key ++ [3; 4])) = Some (resp, st').
Proof.
  destruct (guarded_needs_both (fst_lens (B := StepUpGate)) (λ _ _, tt) (λ t : Z, t) snd_lens (λ t : Z, t)
    ActionPairDevice 50 demo_state (signed_request "d1" (sample_key ++ [3; 4])))
    as [(id & (-> & _) & HC)|(resp & st' & Hs & HR)]; [done|done|by vm_compute in HC|].
  by exists resp, st'.
Defined.
End examples.
