(* ===== verification/Tickets.v ===== *)
(** * cmd/claudecode-remoted/main.go: the WebSocket tickets

    [Tickets] is the [tickets] map of a [wsTicketStore], from ticket to expiry;
    its methods run with the mutex held and take the clock readings they make
    as arguments. *)

From S2P Require Import Prelude GoStr.

Definition wsTicketTTL : Z := 30 * Second.

Abbreviation Tickets := (gmap string Z).

Definition newWSTicketStore : Tickets := ∅.

Definition tickets_sweepLocked (s : Tickets) (now : Z) : Tickets :=
  filter (λ kv, time_after now kv.2 = false) s.

(** [rand]: the 24 bytes of crypto/rand, read before the lock is taken. *)
Definition issue (s : Tickets) (rand : result (list Z)) (t_sweep t_issue : Z)
    : result string * Tickets :=
  match rand with
  | Err e => (Err (EWrap "generate ws ticket: " e ""), s)
  | Ok buf =>
     let ticket := hex_encode buf in
     (Ok ticket, <[ticket := time_add t_issue wsTicketTTL]> (tickets_sweepLocked s t_sweep))
  end.

Definition consume (s : Tickets) (ticket : string) (now : Z) : bool * Tickets :=
  match s !! ticket with
  | None => (false, s)
  | Some expiry => (time_before now expiry, delete ticket s)
  end.

(** ** Histories *)

Inductive ticket_call :=
  | TIssue (rand : result (list Z)) (t_sweep t_issue : Z)
  | TConsume (ticket : string) (now : Z).

Definition ticket_step (s : Tickets) (c : ticket_call) : Tickets :=
  match c with
  | TIssue rand ts ti => (issue s rand ts ti).2
  | TConsume tk now => (consume s tk now).2
  end.

Definition ticket_run (cs : list ticket_call) : Tickets := fold_left ticket_step cs newWSTicketStore.

(** The ticket a call is about, and the clock readings it makes. *)
Definition ticket_of (c : ticket_call) : option string :=
  match c with
  | TIssue (Ok buf) _ _ => Some (hex_encode buf)
  | TIssue (Err _) _ _ => None
  | TConsume tk _ => Some tk
  end.

Definition readings (c : ticket_call) : list Z :=
  match c with TIssue _ ts ti => [ts; ti] | TConsume _ now => [now] end.

(** No call of the history read a later time than [now]. *)
Definition clock_reaches (cs : list ticket_call) (now : Z) : Prop :=
  Forall (λ c, Forall (λ t, t ≤ now) (readings c)) cs.

(** ** Reference: the last call about a ticket decides *)

Definition expiry_of (c : ticket_call) : option Z :=
  match c with TIssue _ _ ti => Some (ti + wsTicketTTL) | TConsume _ _ => None end.

(** Newest call first. *)
Fixpoint standing (tk : string) (cs : list ticket_call) : option Z :=
  match cs with
  | [] => None
  | c :: cs' => if bool_decide (ticket_of c = Some tk) then expiry_of c else standing tk cs'
  end.

Lemma ticket_run_snoc cs c : ticket_run (cs ++ [c]) = ticket_step (ticket_run cs) c.
Proof. unfold ticket_run. by rewrite fold_left_app. Qed.

Lemma sweep_lookup s now tk e :
  tickets_sweepLocked s now !! tk = Some e ↔ s !! tk = Some e ∧ now ≤ e.
Proof.
  unfold tickets_sweepLocked, time_after. rewrite map_lookup_filter_Some. simpl.
  by rewrite Z.ltb_ge.
Qed.

(** The map agrees with the reference, but for tickets a sweep has dropped
    because they had expired. *)
Lemma tickets_refine cs tk now :
  clock_reaches cs now →
  (∀ e, ticket_run cs !! tk = Some e → standing tk (rev cs) = Some e) ∧
  (∀ e, standing tk (rev cs) = Some e → ticket_run cs !! tk = Some e ∨ e < now).
Proof.
  induction cs as [|c cs IH] using rev_ind; [by split|].
  intros [Hcs Hc]%Forall_app. destruct (IH Hcs) as [IH1 IH2].
  rewrite ticket_run_snoc, rev_app_distr. cbn [rev app standing].
  apply Forall_cons in Hc as [Hc _].
  destruct c as [[buf|e] ts ti|tk' t]; simpl in *.
  - destruct (decide (hex_encode buf = tk)) as [->|Hne].
    + rewrite bool_decide_true, lookup_insert_eq by done. by split; [|left].
    + rewrite bool_decide_false by congruence. rewrite lookup_insert_ne by done.
      setoid_rewrite sweep_lookup. split; [naive_solver|].
      intros e He. destruct (IH2 e He) as [Hl|]; [|by right].
      destruct (Z.le_gt_cases ts e); [by left|right]. apply Forall_cons in Hc as [Hts _]. lia.
  - by split.
  - unfold consume. destruct (decide (tk' = tk)) as [->|Hne].
    + rewrite bool_decide_true by done.
      destruct (ticket_run cs !! tk) eqn:E; simpl; [rewrite lookup_delete_eq|rewrite E]; done.
    + rewrite bool_decide_false by congruence.
      destruct (ticket_run cs !! tk'); simpl; [rewrite lookup_delete_ne by done|]; done.
Qed.

Lemma standing_some tk cs e :
  standing tk (rev cs) = Some e ↔
  ∃ before buf ts ti after, cs = before ++ TIssue (Ok buf) ts ti :: after ∧ hex_encode buf = tk ∧
    Forall (λ c, ticket_of c ≠ Some tk) after ∧ e = ti + wsTicketTTL.
Proof.
  split.
  - induction cs as [|c cs IH] using rev_ind; [done|].
    rewrite rev_app_distr. cbn [rev app standing]. case_bool_decide as Hc.
    + destruct c as [[buf|] ts ti|]; simpl in *; [|done|done]. intros [= <-].
      exists cs, buf, ts, ti, []. naive_solver.
    + intros (b & buf & ts & ti & a & -> & Hb & Ha & ->)%IH.
      exists b, buf, ts, ti, (a ++ [c]). split_and!; [by rewrite <- app_assoc|done| |done].
      apply Forall_app. by split; [|constructor].
  - intros (b & buf & ts & ti & a & -> & Hb & Ha & ->).
    rewrite rev_app_distr. simpl. rewrite <- app_assoc. apply Forall_rev in Ha.
    induction Ha as [|c a' Hc _ IH]; simpl; [|by rewrite bool_decide_false].
    by rewrite Hb, bool_decide_true.
Qed.

(** C19: After any history of issue and consume calls on a clock that has not passed now, a
    ticket is accepted exactly if some issue call made it less than thirty seconds ago and no
    call about that ticket followed. *)
Theorem ticket_valid_iff cs tk now :
  clock_reaches cs now →
  (consume (ticket_run cs) tk now).1 = true ↔
  ∃ before buf ts ti after, cs = before ++ TIssue (Ok buf) ts ti :: after ∧ hex_encode buf = tk ∧
    Forall (λ c, ticket_of c ≠ Some tk) after ∧ now < ti + wsTicketTTL.
Proof.
  intros Hc. destruct (tickets_refine cs tk now Hc) as [H1 H2].
  transitivity (∃ e, standing tk (rev cs) = Some e ∧ now < e).
  - unfold consume, time_before. destruct (ticket_run cs !! tk) as [e|] eqn:E; simpl.
    + rewrite Z.ltb_lt, (H1 e eq_refl). split; [eauto|]. by intros (? & [= <-] & ?).
    + split; [done|]. intros (e & He & Hlt). destruct (H2 e He); [congruence|lia].
  - setoid_rewrite standing_some. split.
    + intros (e & (b & buf & ts & ti & a & -> & ? & ? & ->) & Hlt). by exists b, buf, ts, ti, a.
    + intros (b & buf & ts & ti & a & -> & ? & ? & Hlt).
      exists (ti + wsTicketTTL). split; [by exists b, buf, ts, ti, a|done].
Qed.

Lemma ticket_valid_iff_witness :
  (consume (ticket_run [TIssue (Ok [1]) 10 10; TIssue (Ok [2]) 20 20; TConsume "02" 25]) "01" 30).1 = true.
Proof.
  apply ticket_valid_iff; [by repeat constructor|].
  exists [], [1], 10, 10, [TIssue (Ok [2]) 20 20; TConsume "02" 25].
  split_and!; [done|done|repeat constructor; by vm_compute|by vm_compute].
Defined.
