(* ===== verification/Regex.v ===== *)
(** * Package regexp, for the one pattern the daemon compiles

    Regular expressions over bytes, the language of one, and a backtracking
    matcher proved to decide it. *)

From S2P Require Import Prelude GoStr.

Inductive regex :=
  | RClass (p : Z → bool)               (* one byte of a class *)
  | RSeq (a b : regex)
  | ROpt (a : regex)                    (* a? *)
  | RRep (m n : nat) (a : regex)        (* a{m,m+n} *)
  | RPlus (a : regex).                  (* a+ *)

(** ** Languages *)

Abbreviation lang := (list Z → Prop).

Definition lcat (P Q : lang) : lang := λ w, ∃ u v, w = u ++ v ∧ P u ∧ Q v.

Fixpoint lpower (P : lang) (n : nat) : lang :=
  match n with O => λ w, w = [] | S n' => lcat P (lpower P n') end.

Fixpoint lang_of (r : regex) : lang :=
  match r with
  | RClass p => λ w, ∃ b, w = [b] ∧ p b = true
  | RSeq a b => lcat (lang_of a) (lang_of b)
  | ROpt a => λ w, w = [] ∨ lang_of a w
  | RRep m n a => λ w, ∃ k, (m ≤ k ≤ m + n)%nat ∧ lpower (lang_of a) k w
  | RPlus a => λ w, ∃ k, lpower (lang_of a) (S k) w
  end.

(** ** The matcher

    [mtch r s k]: some word of [r] is a prefix of [s] and [k] accepts the rest. *)

Section loops.
Variable step : list Z → (list Z → bool) → bool.

(** At most [n] times, after [m] times. *)
Fixpoint upto (n : nat) (s : list Z) (k : list Z → bool) : bool :=
  match n with
  | O => k s
  | S n' => k s || step s (λ s', upto n' s' k)
  end.

Fixpoint exactly (m : nat) (s : list Z) (k : list Z → bool) : bool :=
  match m with
  | O => k s
  | S m' => step s (λ s', exactly m' s' k)
  end.
End loops.

(** A repetition is never longer than what is left to read. *)
Fixpoint mtch (r : regex) (s : list Z) (k : list Z → bool) : bool :=
  match r with
  | RClass p => match s with b :: s' => p b && k s' | [] => false end
  | RSeq a b => mtch a s (λ s', mtch b s' k)
  | ROpt a => k s || mtch a s k
  | RRep m n a => exactly (mtch a) m s (λ s', upto (mtch a) n s' k)
  | RPlus a => mtch a s (λ s', upto (mtch a) (length s') s' k)
  end.

(** MatchString of ^r$. *)
Definition MatchString (r : regex) (s : string) : bool :=
  mtch r (bytes s) (λ rest, bool_decide (rest = [])).

(** Every word of the body of a [+] reads something. *)
Fixpoint regex_ok (r : regex) : Prop :=
  match r with
  | RClass _ => True
  | RSeq a b => regex_ok a ∧ regex_ok b
  | ROpt a | RRep _ _ a => regex_ok a
  | RPlus a => regex_ok a ∧ ¬ lang_of a []
  end.

(** ** The matcher decides the language *)

Definition decides (step : list Z → (list Z → bool) → bool) (P : lang) : Prop :=
  ∀ s k, step s k = true ↔ ∃ u v, s = u ++ v ∧ P u ∧ k v = true.

Lemma decides_cat f g P Q :
  decides f P → decides g Q → decides (λ s k, f s (λ s', g s' k)) (lcat P Q).
Proof.
  intros Hf Hg s k. rewrite (Hf s). setoid_rewrite (Hg _ k). split.
  - intros (u & v & -> & Hu & u' & v' & -> & Hu' & Hk).
    exists (u ++ u'), v'. split; [by rewrite app_assoc|]. split; [by exists u, u'|done].
  - intros (w & v & -> & (u & u' & -> & Hu & Hu') & Hk).
    exists u, (u' ++ v). split; [by rewrite app_assoc|]. split; [done|]. by exists u', v.
Qed.

Lemma exactly_decides f P m : decides f P → decides (exactly f m) (lpower P m).
Proof.
  intros Hf. induction m as [|m IH]; [|by apply (decides_cat f (exactly f m))].
  intros s k. simpl. split; [intros Hk; by exists [], s|by intros (u & v & -> & -> & Hk)].
Qed.

Lemma upto_decides f P n :
  decides f P → decides (upto f n) (λ w, ∃ k, (k ≤ n)%nat ∧ lpower P k w).
Proof.
  intros Hf. induction n as [|n IH]; intros s k; simpl.
  { split; [intros Hk; exists [], s; split_and!; [done|by exists 0%nat|done]|].
    intros (u & v & -> & (j & Hj & Hu) & Hk). by destruct j; [simpl in Hu; subst|lia]. }
  rewrite orb_true_iff, (Hf s). setoid_rewrite (IH _ k). split.
  - intros [Hk|(u & v & -> & Hu & u' & v' & -> & (j & Hj & Hu') & Hk)].
    { exists [], s. split_and!; [done|exists 0%nat; split; [lia|done]|done]. }
    exists (u ++ u'), v'. split_and!; [by rewrite app_assoc| |done].
    exists (S j). split; [lia|]. by exists u, u'.
  - intros (w & v & -> & ([|j] & Hj & Hw) & Hk); [simpl in Hw; subst; by left|right].
    destruct Hw as (u & u' & -> & Hu & Hu'). exists u, (u' ++ v). split_and!; [by rewrite app_assoc|done|].
    exists u', v. split_and!; [done|exists j; split; [lia|done]|done].
Qed.

Lemma lpower_add P m n w : lpower P (m + n) w ↔ lcat (lpower P m) (lpower P n) w.
Proof.
  revert w. induction m as [|m IH]; intros w; simpl.
  { split; [intros H; by exists [], w|by intros (u & v & -> & -> & H)]. }
  split.
  - intros (u & v & -> & Hu & (v1 & v2 & -> & H1 & H2)%IH).
    exists (u ++ v1), v2. split; [by rewrite app_assoc|]. split; [by exists u, v1|done].
  - intros (x & v & -> & (u & v1 & -> & Hu & H1) & H2). exists u, (v1 ++ v).
    split; [by rewrite app_assoc|]. split; [done|]. apply IH. by exists v1, v.
Qed.

(** Without empty words a power is at least as long as its exponent. *)
Lemma lpower_length P n w : ¬ P [] → lpower P n w → (n ≤ length w)%nat.
Proof.
  intros HP. revert w. induction n as [|n IH]; intros w; simpl; [lia|].
  intros (u & v & -> & Hu & Hv%IH). destruct u as [|b u]; [done|].
  rewrite length_app. simpl. lia.
Qed.

Lemma decides_ext f P Q : (∀ w, P w ↔ Q w) → decides f P → decides f Q.
Proof. intros HPQ Hf s k. rewrite (Hf s k). by setoid_rewrite HPQ. Qed.

Lemma mtch_decides r : regex_ok r → decides (mtch r) (lang_of r).
Proof.
  induction r as [p|a IHa b IHb|a IHa|m n a IHa|a IHa]; simpl.
  - intros _ s k. destruct s as [|c s]; simpl.
    { split; [done|]. by intros (u & v & E & (b & -> & _) & _). }
    rewrite andb_true_iff. split; [intros [Hp Hk]; exists [c], s; eauto|].
    intros (u & v & E & (b & -> & Hp) & Hk). by injection E as -> ->.
  - intros [Ha Hb]. apply (decides_cat (mtch a) (mtch b)); auto.
  - intros Ha s k. rewrite orb_true_iff, (IHa Ha s k). split.
    + intros [Hk|(u & v & -> & Hu & Hk)]; [exists [], s; eauto|exists u, v; eauto].
    + intros (u & v & -> & [-> |Hu] & Hk); [by left|right; by exists u, v].
  - intros Ha. eapply decides_ext, decides_cat;
      [|by apply exactly_decides, IHa|by apply upto_decides, IHa].
    intros w. split.
    + intros (u & v & -> & Hu & j & Hj & Hv). exists (m + j)%nat. split; [lia|].
      apply lpower_add. by exists u, v.
    + intros (k & Hk & Hw). replace k with (m + (k - m))%nat in Hw by lia.
      apply lpower_add in Hw as (u & v & -> & Hu & Hv). exists u, v. split_and!; [done..|].
      exists (k - m)%nat. split; [lia|done].
  - intros [Ha Hne] s k. rewrite (IHa Ha s). split.
    + intros (u & v & -> & Hu & Hk). apply (upto_decides _ _ _ (IHa Ha)) in Hk as (u' & v' & -> & (j & _ & Hu') & Hk).
      exists (u ++ u'), v'. split_and!; [by rewrite app_assoc| |done]. exists j. by exists u, u'.
    + intros (w & v & -> & (j & u & u' & -> & Hu & Hu') & Hk). exists u, (u' ++ v).
      split_and!; [by rewrite app_assoc|done|]. apply (upto_decides _ _ _ (IHa Ha)).
      exists u', v. split_and!; [done| |done]. exists j. split; [|done].
      apply lpower_length in Hu'; [|done]. rewrite length_app. lia.
Qed.

Lemma MatchString_spec r s : regex_ok r → MatchString r s = true ↔ lang_of r (bytes s).
Proof.
  intros Hr. unfold MatchString. etrans; [apply (mtch_decides r Hr)|].
  setoid_rewrite bool_decide_eq_true. split.
  - intros (u & v & -> & Hu & ->). by rewrite app_nil_r.
  - intros Hs. exists (bytes s), []. by rewrite app_nil_r.
Qed.

(** Powers of a class are words of the class. *)
Lemma lpower_class p n w :
  lpower (lang_of (RClass p)) n w ↔ length w = n ∧ Forall (λ b, p b = true) w.
Proof.
  revert w. induction n as [|n IH]; intros w; simpl.
  { split; [intros ->; by split|]. by intros [?%nil_length_inv _]. }
  split.
  - intros (u & v & -> & (b & -> & Hb) & [Hl Hv]%IH). simpl. split; [lia|by constructor].
  - intros [Hl HF]. destruct w as [|b w]; [done|]. apply Forall_cons in HF as [Hb HF].
    exists [b], w. split_and!; [done|by exists b|]. apply IH. split; [simpl in Hl; lia|done].
Qed.
