(* ===== verification/NetAddr.v ===== *)
(** * The parts of Go's [net] and [net/netip] the daemon calls:
      SplitHostPort and ParseIP. *)

From S2P Require Import Prelude GoStr.
From Stdlib Require Import Ascii.

Definition addr_err (addr why : string) : goerr := EMsg ("address " +:+ addr +:+ ": " +:+ why).

Definition check_brackets (addr open_part close_part host port : string)
    : result (string * string) :=
  if contains_char "[" open_part then Err (addr_err addr "unexpected '[' in address")
  else if contains_char "]" close_part then Err (addr_err addr "unexpected ']' in address")
  else Ok (host, port).

(** net.SplitHostPort *)
Definition SplitHostPort (addr : string) : result (string * string) :=
  match cut_last ":" addr with
  | None => Err (addr_err addr "missing port in address")
  | Some (before, port) =>
     match addr with
     | String "[" rest =>
        match cut_char "]" rest with
        | (_, None) => Err (addr_err addr "missing ']' in address")
        | (host, Some after) =>
           match after with
           | EmptyString => Err (addr_err addr "missing port in address")
           | String ":" port' =>
              if contains_char ":" port' then Err (addr_err addr "too many colons in address")
              else check_brackets addr rest after host port'
           | _ => Err (addr_err addr "missing port in address")
           end
        end
     | _ =>
        if contains_char ":" before then Err (addr_err addr "too many colons in address")
        else check_brackets addr addr addr before port
     end
  end.

(** ** netip.ParseAddr *)

(** One octet: digits, at most 255, no leading zero. *)
Fixpoint octet_loop (len : nat) (val : Z) (s : string) : option Z :=
  match s with
  | EmptyString => if (0 <? len)%nat then Some val else None
  | String a s' =>
     let b := byte_of a in
     if in_range 48 57 b then
       if (len =? 1)%nat && (val =? 0) then None
       else let val' := val * 10 + (b - 48) in
            if 255 <? val' then None else octet_loop (S len) val' s'
     else None
  end.

Definition octet (s : string) : option Z := octet_loop 0 0 s.

Definition parseIPv4 (s : string) : option (list Z) :=
  match split_char "." s with
  | [a; b; c; d] =>
     a ← octet a; b ← octet b; c ← octet c; d ← octet d; Some [a; b; c; d]
  | _ => None
  end.

Definition hex_val (b : Z) : option Z :=
  if in_range 48 57 b then Some (b - 48)
  else if in_range 97 102 b then Some (b - 87)
  else if in_range 65 70 b then Some (b - 55)
  else None.

(** The hex digits at the front: their value, their number (at most four) and
    what follows. *)
Fixpoint hex_group (n : nat) (acc : Z) (s : string) : option (nat * Z * string) :=
  match s with
  | EmptyString => Some (n, acc, s)
  | String a s' =>
     match hex_val (byte_of a) with
     | None => Some (n, acc, s)
     | Some v => if (3 <? n)%nat then None else hex_group (S n) (acc * 16 + v) s'
     end
  end.

(** The loop of parseIPv6: [ip] holds the bytes so far, [ell] the position of
    the ellipsis. Each iteration that continues adds two bytes, so eight
    iterations of fuel are enough. *)
Fixpoint ipv6_loop (fuel : nat) (ip : list Z) (ell : option nat) (s : string)
    : option (list Z * option nat * string) :=
  match fuel with
  | O => Some (ip, ell, s)
  | S fuel' =>
     '(n, acc, rest) ← hex_group 0 0 s;
     if (n =? 0)%nat then None else
     match rest with
     | String "." _ =>
        if match ell with None => negb (length ip =? 12)%nat | Some _ => false end then None
        else if (16 <? length ip + 4)%nat then None
        else v4 ← parseIPv4 s; Some (ip ++ v4, ell, "")
     | _ =>
        let ip := ip ++ [acc / 256; acc mod 256] in
        match rest with
        | EmptyString => Some (ip, ell, "")
        | String ":" s1 =>
           match s1 with
           | EmptyString => None
           | String ":" s2 =>
              match ell with
              | Some _ => None
              | None =>
                 match s2 with
                 | EmptyString => Some (ip, Some (length ip), "")
                 | _ => ipv6_loop fuel' ip (Some (length ip)) s2
                 end
              end
           | _ => ipv6_loop fuel' ip ell s1
           end
        | _ => None
        end
     end
  end.

Definition parseIPv6 (s : string) : option (list Z) :=
  let '(ell0, body) :=
    match s with
    | String ":" (String ":" rest) => (Some O, rest)
    | _ => (None, s)
    end in
  match ell0, body with
  | Some _, EmptyString => Some (replicate 16 0)
  | _, _ =>
     '(ip, ell, rest) ← ipv6_loop 8 [] ell0 body;
     if negb (String.eqb rest "") then None else
     if (length ip <? 16)%nat then
       match ell with
       | None => None
       | Some e => Some (take e ip ++ replicate (16 - length ip) 0 ++ drop e ip)
       end
     else match ell with None => Some ip | Some _ => None end
  end.

Fixpoint ip_kind (s : string) : option ascii :=
  match s with
  | EmptyString => None
  | String a s' =>
     if Ascii.eqb a "." || Ascii.eqb a ":" || Ascii.eqb a "%" then Some a else ip_kind s'
  end.

(** net.ParseIP: 4 or 16 bytes. An address with a zone is not one. *)
Definition ParseIP (s : string) : option (list Z) :=
  match ip_kind s with
  | Some "."%char => parseIPv4 s
  | Some ":"%char => if contains_char "%" s then None else parseIPv6 s
  | _ => None
  end.

(** The IPv4 form of an address, To4. *)
Definition To4 (ip : list Z) : option (list Z) :=
  if (length ip =? 4)%nat then Some ip
  else if bool_decide (take 12 ip = replicate 10 0 ++ [255; 255]) then Some (drop 12 ip)
  else None.

(** IP.IsLoopback and IP.IsUnspecified *)
Definition IsLoopback (ip : list Z) : bool :=
  match To4 ip with
  | Some v4 => match v4 with b :: _ => b =? 127 | [] => false end
  | None => bool_decide (ip = replicate 15 0 ++ [1])
  end.

Definition IsUnspecified (ip : list Z) : bool :=
  match To4 ip with
  | Some v4 => bool_decide (v4 = [0; 0; 0; 0])
  | None => bool_decide (ip = replicate 16 0)
  end.
