(* ===== verification/Config.v ===== *)
(** * cmd/claudecode-remoted: the checks made before the daemon starts

    The flag values of main.go that are parsed or refused there, and the
    setup-owner command of setup_owner.go, a function from what stdin holds to
    what is printed. *)

From S2P Require Import Prelude GoStr Http NetAddr Regex Totp Password.
From Stdlib Require Import Ascii.

Definition splitRoots (s : string) : list string :=
  List.filter (λ p, negb (String.eqb p "")) (map trim_space (split_char "," s)).

(** ** Listening addresses *)

Definition wildcard_hosts : list string := [""; "0.0.0.0"; "::"; "[::]"; "*"].

Definition checkBindAddress (addr : string) : error :=
  match SplitHostPort addr with
  | Err e => Some e
  | Ok (host, _) =>
     if existsb (String.eqb (trim_space host)) wildcard_hosts then Some (ESent ErrWildcardBind) else None
  end.

Section config.
Context `{Quote}.

Definition checkLoopbackOnly (addr : string) : error :=
  match SplitHostPort addr with
  | Err e => Some e
  | Ok (h, _) =>
     let host := trim_space h in
     if String.eqb host "localhost" then None
     else if match ParseIP host with Some ip => IsLoopback ip | None => false end then None
     else Some (EMsg ("--insecure-no-auth requires a loopback bind address (127.0.0.1, ::1, or localhost), got "
                      +:+ go_quote host))
  end.

(** ** The public domain *)

Definition alpha (b : Z) : bool := in_range 97 122 b || in_range 65 90 b.
Definition alnum (b : Z) : bool := alpha b || in_range 48 57 b.
Definition ldh (b : Z) : bool := alnum b || (b =? 45).

Definition label_re : regex :=
  RSeq (RClass alnum) (ROpt (RSeq (RRep 0 61 (RClass ldh)) (RClass alnum))).

Definition hostnameRE : regex :=
  RSeq (RPlus (RSeq label_re (RClass (λ b, b =? 46)))) (RRep 2 61 (RClass alpha)).

Definition validatePublicDomain (domain : string) : error :=
  if String.eqb domain "" then None
  else if contains domain "://"
  then Some (EMsg ("must be a bare hostname, not a URL: " +:+ go_quote domain))
  else if contains_char "/" domain || contains_char ":" domain
  then Some (EMsg ("must not contain a path or port: " +:+ go_quote domain))
  else match ParseIP domain with
  | Some _ =>
     Some (EMsg ("must be a domain name, not an IP address (WebAuthn relying-party IDs cannot be IPs): "
                 +:+ go_quote domain))
  | None =>
     if (253 <? slen domain) || negb (MatchString hostnameRE domain)
     then Some (EMsg ("does not look like a valid hostname: " +:+ go_quote domain))
     else None
  end.
End config.

(** ** setup-owner *)

Definition newline : string := String "010" "".

(** bufio.Reader.ReadString: up to and including the first newline, or all
    there is and the error that ended it. *)
Definition ReadLine (input : stream) : string * error :=
  match cut_char "010" (content input) with
  | (line, Some _) => (line +:+ newline, None)
  | (line, None) =>
     (line, match read_error input with Some e => Some e | None => Some (ESent ErrEOF) end)
  end.

Definition Fprintln (l : string) : string := l +:+ newline.

Definition setup_prompt : string :=
  Fprintln "Owner credential setup" +:+
  Fprintln "Enter the owner password, then press Enter." +:+ "password: ".

Definition setup_report (accountName hash secret uri : string) : string :=
  Fprintln "" +:+
  Fprintln "Put these in /etc/claudecode-remote/.env — never in the repo," +:+
  Fprintln "and never on the command line, where ps would expose them:" +:+
  Fprintln "" +:+
  Fprintln ("CCR_OWNER_EMAIL=" +:+ accountName) +:+
  Fprintln ("CCR_OWNER_PASSWORD_HASH=" +:+ hash) +:+
  Fprintln ("CCR_OWNER_TOTP_SECRET=" +:+ secret) +:+
  Fprintln "" +:+
  Fprintln "Add this to your authenticator app now — the secret is not shown again:" +:+
  Fprintln uri +:+
  Fprintln "" +:+
  Fprintln "The passkey factor stays unsatisfiable until the WebAuthn relying-party" +:+
  Fprintln "domain is decided (D-04). Pairing cannot complete before then, by design.".

(** What follows the reading of [line]. *)
Definition setup_with `{Argon2} `{TotpLib} (line email : string) (salt : result (list Z))
    : option (error * string) :=
  let password := trim_right ["013"%char; "010"%char] line in
  if String.eqb password "" then Some (Some (EMsg "password must not be empty"), setup_prompt)
  else
    hashed ← HashPassword password salt;
    match hashed with
    | Err e => Some (Some (EWrap "hash password: " e ""), setup_prompt)
    | Ok hash =>
       let accountName := if String.eqb email "" then "owner" else email in
       match GenerateTOTPSecret "ClaudeCode Remote" accountName with
       | Err e => Some (Some (EWrap "generate TOTP secret: " e ""), setup_prompt)
       | Ok (secret, uri) => Some (None, setup_prompt +:+ setup_report accountName hash secret uri)
       end
    end.

(** The error and everything printed; [None] when hashing panics. *)
Definition runSetupOwner `{Argon2} `{TotpLib} (input : stream) (email : string)
    (salt : result (list Z)) : option (error * string) :=
  let '(line, err) := ReadLine input in
  match err with
  | None => setup_with line email salt
  | Some e =>
     if bool_decide (e = ESent ErrEOF) then setup_with line email salt
     else Some (Some (EWrap "read password: " e ""), setup_prompt)
  end.

(** ** Roots *)

(** A root that survives the parsing as it is. *)
Definition clean_root (r : string) : Prop := r ≠ "" ∧ char_free "," r ∧ trim_space r = r.

#[export] Instance clean_root_dec r : Decision (clean_root r).
Proof. unfold clean_root. apply _. Defined.

Lemma splitRoots_join rs : Forall clean_root rs → splitRoots (join_char "," rs) = rs.
Proof.
  intros HF. unfold splitRoots. destruct (decide (rs = [])) as [->|Hne]; [done|].
  rewrite split_join; [|done|eapply Forall_impl; [exact HF|by intros r (_ & ? & _)]].
  clear Hne. induction HF as [|r rs (Hne & _ & Ht) _ IH]; simpl; [done|].
  rewrite Ht, IH. by rewrite (proj2 (String.eqb_neq _ _) Hne).
Qed.

(** No entry, however written, becomes the root "". *)
Lemma splitRoots_no_empty s : "" ∉ splitRoots s.
Proof.
  unfold splitRoots. intros Hin%list_elem_of_In. apply filter_In in Hin as [_ Hin]. done.
Qed.

(** ** Addresses *)

Lemma SplitHostPort_host addr host port :
  SplitHostPort addr = Ok (host, port) →
  checkBindAddress addr =
  if existsb (String.eqb (trim_space host)) wildcard_hosts then Some (ESent ErrWildcardBind) else None.
Proof. unfold checkBindAddress. by intros ->. Qed.

Lemma loopback_address `{Quote} addr :
  checkLoopbackOnly addr = None →
  checkBindAddress addr = None ∧
  ∃ host port, SplitHostPort addr = Ok (host, port) ∧
    (trim_space host = "localhost" ∨
     ∃ ip, ParseIP (trim_space host) = Some ip ∧ IsLoopback ip = true ∧ IsUnspecified ip = false).
Proof.
  unfold checkLoopbackOnly. destruct (SplitHostPort addr) as [[host port]|] eqn:ES; [|done].
  rewrite (SplitHostPort_host _ _ _ ES).
  destruct (String.eqb_spec (trim_space host) "localhost") as [Hl|Hl].
  { intros _. rewrite Hl. split; [done|]. exists host, port. split; [done|by left]. }
  destruct (ParseIP (trim_space host)) as [ip|] eqn:EP; [|done].
  destruct (IsLoopback ip) eqn:EL; [intros _|done].
  assert (IsUnspecified ip = false) as HU.
  { revert EL. unfold IsLoopback, IsUnspecified. destruct (To4 ip) as [[|b l]|]; [done| |].
    - rewrite Z.eqb_eq. intros ->. by apply bool_decide_eq_false_2.
    - rewrite bool_decide_eq_true. intros ->. by apply bool_decide_eq_false_2. }
  split; [|exists host, port; split; [done|right; by exists ip]].
  destruct (existsb _ _) eqn:EX; [exfalso|done].
  apply existsb_exists in EX as (w & Hw & Ew%String.eqb_eq). rewrite Ew in EP.
  clear Ew HU Hl. repeat (destruct Hw as [<-|Hw]; [vm_compute in EP; simplify_eq; by vm_compute in EL|]). done.
Qed.

Lemma loopback_only `{Quote} addr :
  checkLoopbackOnly addr = None →
  checkBindAddress addr = None ∧
  ∃ host port, SplitHostPort addr = Ok (host, port) ∧
    (trim_space host = "localhost" ∨
     ∃ ip, ParseIP (trim_space host) = Some ip ∧ IsLoopback ip = true ∧ IsUnspecified ip = false).
Proof. apply loopback_address. Qed.

(** The comparison is textual: another spelling of the wildcard passes. *)
Lemma other_wildcard_accepted :
  checkBindAddress "[::0]:8080" = None ∧ IsUnspecified <$> ParseIP "::0" = Some true.
Proof. by vm_compute. Qed.

(** ** Host names *)

Definition dns_label (l : string) : Prop :=
  1 ≤ slen l ≤ 63 ∧ Forall (λ b, ldh b = true) (bytes l) ∧
  (∃ b t, bytes l = b :: t ∧ alnum b = true) ∧ (∃ b t, rev (bytes l) = b :: t ∧ alnum b = true).

Definition dns_tld (l : string) : Prop :=
  2 ≤ slen l ≤ 63 ∧ Forall (λ b, alpha b = true) (bytes l).

Lemma length_bytes s : length (bytes s) = String.length s.
Proof. induction s; simpl; congruence. Qed.

Lemma alnum_ldh b : alnum b = true → ldh b = true.
Proof. unfold ldh. by intros ->. Qed.

Lemma ldh_byte b : ldh b = true → is_byte b ∧ b ≠ 46 ∧ b ≠ 47 ∧ b ≠ 58 ∧ b ≠ 37.
Proof. unfold ldh, alnum, alpha, in_range, is_byte. to_prop. intuition lia. Qed.

Lemma label_word w :
  lang_of label_re w ↔
  (1 ≤ length w ≤ 63)%nat ∧ Forall (λ b, ldh b = true) w ∧
  (∃ b t, w = b :: t ∧ alnum b = true) ∧ (∃ b t, rev w = b :: t ∧ alnum b = true).
Proof.
  unfold label_re. cbn [lang_of]. split.
  - intros (u & v & -> & (a & -> & Ha) & [->|(m & z & -> & (k & Hk & [Hl Hm]%lpower_class) & (b & -> & Hb))]).
    + split_and!; [simpl; lia|simpl; lia| |by exists a, []|by exists a, []].
      constructor; [by apply alnum_ldh|done].
    + split_and!; [simpl; lia|rewrite !length_app; simpl; lia| |by exists a, (m ++ [b])|].
      * constructor; [by apply alnum_ldh|]. apply Forall_app. split; [done|].
        constructor; [by apply alnum_ldh|done].
      * exists b, (rev m ++ [a]). by rewrite app_assoc, rev_app_distr, rev_app_distr.
  - intros ([H1 H63] & HF & (a & t & -> & Ha) & (b & r & Hr & Hb)).
    exists [a], t. split_and!; [done|by exists a|].
    destruct t as [|c t _] using rev_ind; [by left|right].
    rewrite app_comm_cons, rev_app_distr in Hr. injection Hr as -> _.
    rewrite length_cons, length_app in H63. simpl in H63.
    exists t, [b]. split_and!; [done| |by exists b].
    exists (length t). split; [lia|]. apply lpower_class. split; [done|].
    apply Forall_cons in HF as [_ HF]. by apply Forall_app in HF as [HF _].
Qed.

(** The bytes of labels that are each followed by a dot. *)
Definition dotted (ls : list string) : list Z := concat (map (λ l, bytes l ++ [46]) ls).

Lemma join_dotted ls tld : bytes (join_char "." (ls ++ [tld])) = dotted ls ++ bytes tld.
Proof.
  induction ls as [|l ls IH]; [done|].
  assert (join_char "." ((l :: ls) ++ [tld]) = l +:+ String "." (join_char "." (ls ++ [tld]))) as ->
    by (by destruct ls).
  rewrite bytes_app. cbn [bytes]. rewrite IH. unfold dotted. simpl.
  by rewrite <- !app_assoc.
Qed.

Lemma dns_label_word l : dns_label l ↔ lang_of label_re (bytes l).
Proof.
  rewrite label_word, length_bytes. unfold dns_label, slen. split.
  - intros ([? ?] & HF & HA & HB). split_and!; [lia|lia|done..].
  - intros ([? ?] & HF & HA & HB). split_and!; [lia|lia|done..].
Qed.

Lemma labels_word k w :
  lpower (lang_of (RSeq label_re (RClass (λ b, b =? 46)))) k w ↔
  ∃ ls, length ls = k ∧ Forall dns_label ls ∧ w = dotted ls.
Proof.
  revert w. induction k as [|k IH]; intros w; simpl.
  { split; [intros ->; by exists []|]. by intros (ls & ->%nil_length_inv & _ & ->). }
  split.
  - intros (x & v & -> & (l & y & -> & Hl & (b & -> & ->%Z.eqb_eq)) & (ls & Hls & HF & ->)%IH).
    assert (bytes (of_bytes l) = l) as El.
    { apply bytes_of_bytes. apply label_word in Hl as (_ & HF' & _).
      eapply Forall_impl; [exact HF'|]. intros b Hb. by apply ldh_byte. }
    exists (of_bytes l :: ls). split_and!; [by simpl; rewrite Hls| |].
    + constructor; [|done]. apply dns_label_word. by rewrite El.
    + unfold dotted. simpl. by rewrite El.
  - intros ([|l ls] & Hls & HF & ->); [done|]. apply Forall_cons in HF as [Hl HF].
    exists (bytes l ++ [46]), (dotted ls). split_and!; [done| |].
    + exists (bytes l), [46]. split_and!; [done|by apply dns_label_word|by exists 46].
    + apply IH. exists ls. by split_and!; [simpl in Hls; lia| |].
Qed.

Lemma hostname_word d :
  lang_of hostnameRE (bytes d) ↔
  ∃ ls tld, ls ≠ [] ∧ d = join_char "." (ls ++ [tld]) ∧ Forall dns_label ls ∧ dns_tld tld.
Proof.
  unfold hostnameRE. change (lang_of (RSeq ?a ?b)) with (lcat (lang_of a) (lang_of b)). split.
  - intros (u & v & E & [k (ls & Hls & HF & ->)%labels_word] & (n & Hn & [Hl Hv]%lpower_class)).
    exists ls, (of_bytes v).
    assert (bytes (of_bytes v) = v) as Ev.
    { apply bytes_of_bytes. eapply Forall_impl; [exact Hv|]. intros b Hb.
      apply ldh_byte, alnum_ldh. unfold alnum. simpl in Hb. by rewrite Hb. }
    split_and!; [by destruct ls| |done|].
    + apply bytes_inj. by rewrite join_dotted, Ev.
    + unfold dns_tld, slen. rewrite <- length_bytes, Ev. split; [lia|done].
  - intros (ls & tld & Hne & -> & HF & [Hl Ht]). rewrite join_dotted.
    exists (dotted ls), (bytes tld). split_and!; [done| |].
    + destruct ls as [|l ls]; [done|]. exists (length ls). apply labels_word. by exists (l :: ls).
    + exists (length (bytes tld)). split; [rewrite length_bytes; unfold slen in Hl; lia|].
      by apply lpower_class.
Qed.

Lemma hostnameRE_ok : regex_ok hostnameRE.
Proof.
  split; [|done]. split; [by split_and!|].
  intros (u & v & E & _ & (b & -> & _)). by destruct u.
Qed.

Lemma hostname_bytes ls tld :
  Forall dns_label ls → dns_tld tld →
  Forall (λ b, b ≠ 47 ∧ b ≠ 58 ∧ b ≠ 37) (bytes (join_char "." (ls ++ [tld]))).
Proof.
  intros HF [_ Ht]. rewrite join_dotted. apply Forall_app. split.
  - unfold dotted. apply Forall_concat, Forall_map. eapply Forall_impl; [exact HF|].
    intros l (_ & Hl & _). apply Forall_app. split; [|by repeat constructor].
    eapply Forall_impl; [exact Hl|]. intros b Hb%ldh_byte. tauto.
  - eapply Forall_impl; [exact Ht|]. intros b Hb.
    assert (ldh b = true) as Hl%ldh_byte by (unfold ldh, alnum; simpl in Hb; by rewrite Hb). tauto.
Qed.

Lemma char_free_class a d (P : Z → Prop) :
  ¬ P (byte_of a) → Forall P (bytes d) → char_free a d.
Proof.
  intros Ha HF. apply char_free_bytes. eapply Forall_impl; [exact HF|]. intros b Hb ->. done.
Qed.

Lemma octet_alpha l : dns_tld l → octet l = None.
Proof.
  intros [Hl HF]. destruct l as [|a l]; [simpl in Hl; unfold slen in Hl; simpl in Hl; lia|].
  apply Forall_cons in HF as [Ha _]. unfold octet. simpl.
  assert (in_range 48 57 (byte_of a) = false) as ->; [|done].
  revert Ha. unfold alpha, in_range. to_prop. intros Ha. apply not_true_is_false.
  to_prop. intuition lia.
Qed.

Lemma ip_kind_cases s :
  ip_kind s = None ∨ ip_kind s = Some "."%char ∨
  (ip_kind s = Some ":"%char ∧ contains_char ":" s = true) ∨
  (ip_kind s = Some "%"%char ∧ contains_char "%" s = true).
Proof.
  induction s as [|a s IH]; simpl; [by left|].
  destruct (Ascii.eqb_spec a "."%char) as [->|]; simpl; [tauto|].
  destruct (Ascii.eqb_spec a ":"%char) as [->|]; simpl; [tauto|].
  destruct (Ascii.eqb_spec a "%"%char) as [->|]; simpl; [tauto|]. done.
Qed.

(** A host name that ends in letters is no IP address. *)
Lemma hostname_not_ip ls tld :
  Forall dns_label ls → dns_tld tld → ParseIP (join_char "." (ls ++ [tld])) = None.
Proof.
  intros HF Ht. pose proof (hostname_bytes ls tld HF Ht) as Hb. set (d := join_char _ _) in *.
  assert (char_free ":" d ∧ char_free "%" d) as [H1 H2].
  { split; (eapply char_free_class; [|exact Hb]); [change (byte_of ":") with 58|
      change (byte_of "%") with 37]; cbv beta; lia. }
  unfold ParseIP. destruct (ip_kind_cases d) as [->|[->|[[_ E]|[_ E]]]]; [done| |congruence..].
  unfold parseIPv4, d. rewrite split_join.
  - destruct ls as [|l1 [|l2 [|l3 [|l4 ls]]]]; try done; simpl; [|by destruct ls].
    rewrite (octet_alpha tld) by done. by destruct (octet l1), (octet l2), (octet l3).
  - by destruct ls.
  - apply Forall_app. split.
    + eapply Forall_impl; [exact HF|]. intros l (_ & Hl & _). apply char_free_bytes.
      eapply Forall_impl; [exact Hl|]. intros b Hb'%ldh_byte. change (byte_of ".") with 46. tauto.
    + constructor; [|done]. destruct Ht as [_ Ht]. apply char_free_bytes.
      eapply Forall_impl; [exact Ht|]. intros b Hb' ->. done.
Qed.

Lemma contains_first s sub c : contains s (String c sub) = true → contains_char c s = true.
Proof.
  induction s as [|a s IH]; simpl; [done|].
  destruct (Ascii.eqb_spec c a) as [->|Hne]; [by rewrite Ascii.eqb_refl|]. simpl.
  intros Hc. rewrite IH by done. apply orb_true_r.
Qed.

(** C26: The validation of --public-domain, with its regular expression and its special cases,
    accepts exactly the empty string and the names of at most 253 bytes made of DNS labels of 1
    to 63 letters, digits and inner hyphens and a last label of 2 to 63 letters. *)
Theorem public_domain_iff `{Quote} d :
  validatePublicDomain d = None ↔
  d = "" ∨ slen d ≤ 253 ∧
    ∃ ls tld, ls ≠ [] ∧ d = join_char "." (ls ++ [tld]) ∧ Forall dns_label ls ∧ dns_tld tld.
Proof.
  rewrite <- hostname_word, <- MatchString_spec by apply hostnameRE_ok.
  unfold validatePublicDomain. destruct (String.eqb_spec d "") as [->|Hd]; [by split; [left|]|].
  destruct (MatchString hostnameRE d) eqn:EM; cycle 1.
  { rewrite orb_true_r. split; [|by intros [?|[_ ?]]]. by repeat case_match. }
  pose proof EM as (ls & tld & _ & Ed & HF & Ht)%MatchString_spec%hostname_word; [|apply hostnameRE_ok].
  pose proof (hostname_bytes ls tld HF Ht) as Hb. rewrite <- Ed in Hb.
  assert (contains_char "/" d = false ∧ contains_char ":" d = false) as [H1 H2].
  { split; (eapply char_free_class; [|exact Hb]); [change (byte_of "/") with 47|
      change (byte_of ":") with 58]; cbv beta; lia. }
  destruct (contains d "://") eqn:EC; [apply contains_first in EC; congruence|].
  rewrite H1, H2. simpl. rewrite Ed, (hostname_not_ip ls tld), <- Ed by done.
  destruct (Z.ltb_spec 253 (slen d)); simpl; (split; [|intros [?|[? _]]]); try done; [lia|auto].
Qed.

(** ** The credentials that are printed *)

Lemma trim_right_line pw :
  (∀ b t, rev (bytes pw) = b :: t → b ≠ 13 ∧ b ≠ 10) →
  trim_right ["013"%char; "010"%char] (pw +:+ newline) = pw.
Proof.
  induction pw as [|a pw IH]; [done|]. simpl. intros Hend.
  destruct pw as [|a' pw].
  - simpl. specialize (Hend (byte_of a) [] eq_refl).
    destruct (Ascii.eqb_spec a "013"%char) as [->|]; [by destruct Hend|].
    destruct (Ascii.eqb_spec a "010"%char) as [->|]; [by destruct Hend|]. done.
  - rewrite IH; [done|]. intros b t Hr. apply (Hend b (t ++ [byte_of a])). by rewrite Hr.
Qed.

(** C35: setup-owner, given a password line, prints the credentials report with a hash that the
    password verifier accepts for that very password. *)
Theorem setup_prints_working_hash `{Argon2} `{TotpLib} pw rest tail email salt secret uri :
  pw ≠ "" → char_free "010" pw → (∀ b t, rev (bytes pw) = b :: t → b ≠ 13) →
  Forall is_byte salt → Z.of_nat (length salt) = argonSaltLen →
  Generate "ClaudeCode Remote" (if String.eqb email "" then "owner" else email) = Ok (secret, uri) →
  ∃ hash, runSetupOwner (Stream (pw +:+ String "010" rest) tail) email (Ok salt) =
      Some (None, setup_prompt +:+
        setup_report (if String.eqb email "" then "owner" else email) hash secret uri) ∧
    password_Verify hash pw = Some None.
Proof.
  intros Hne Hnl Hcr Hb Hl HG. destruct (hash_then_compare pw salt) as (h & Hh & Hc & _); [done..|].
  exists h. split; [|done]. unfold runSetupOwner, ReadLine. simpl content.
  rewrite cut_char_app by done. unfold setup_with. rewrite trim_right_line.
  - rewrite (proj2 (String.eqb_neq _ _) Hne), Hh. cbn [mbind option_bind].
    unfold GenerateTOTPSecret. by rewrite HG.
  - intros b t Hr. split; [by eapply Hcr|]. intros ->.
    assert (10 ∈ bytes pw) as Hin.
    { apply list_elem_of_In, in_rev, list_elem_of_In. rewrite Hr. by left. }
    by apply (proj1 (Forall_forall _ _) (char_free_no_byte _ _ Hnl)) in Hin.
Qed.

(** ** Witnesses *)

Section examples.
#[local] Instance plain_quote : Quote := λ s, s.
#[local] Existing Instance padding_kdf.
#[local] Instance fixed_totp : TotpLib := {|
  ValidateCustom code secret now opts := Ok (String.eqb code secret);
  Generate issuer account := Ok ("SECRET", "otpauth://totp/" +:+ account);
|}.

Lemma loopback_only_witness :
  checkLoopbackOnly "127.0.0.1:8080" = None ∧ checkBindAddress "127.0.0.1:8080" = None.
Proof.
  assert (checkLoopbackOnly "127.0.0.1:8080" = None) as Hc by (by vm_compute).
  split; [exact Hc|]. by destruct (loopback_only "127.0.0.1:8080" Hc).
Defined.

Lemma setup_prints_working_hash_witness :
  ∃ hash, (runSetupOwner (Stream ("hunter2" +:+ String "010" "") None) "" (Ok (replicate 16 1)))
      = Some (None, setup_prompt +:+ setup_report "owner" hash "SECRET" "otpauth://totp/owner") ∧
    password_Verify hash "hunter2" = Some None.
Proof.
  apply (setup_prints_working_hash "hunter2" "" None "" (replicate 16 1) "SECRET" "otpauth://totp/owner");
    [done|done| |by repeat constructor|done|done].
  intros b t Hr. vm_compute in Hr. by injection Hr as <- _.
Defined.

Example domain_accepted : validatePublicDomain "remote.example.org" = None.
Proof. by vm_compute. Qed.

Example domain_is_ip : is_Some (validatePublicDomain "192.168.0.1").
Proof. by eexists. Qed.

Example domain_hyphen : is_Some (validatePublicDomain "-x.example.org").
Proof. by eexists. Qed.
End examples.
