(* ===== verification/Locks.v ===== *)
(** * locks/locks.go: the terminal locks

    A lock is an empty file [terminal-<id>] in one directory, so the state of a
    [locks.Manager] is the file system; a manager is the path of its directory. *)

From S2P Require Import Prelude GoStr Path Fs.
From Stdlib Require Import Ascii.

Definition DefaultDir : string := "/run/claudecode-locks".
Definition Prefix : string := "terminal-".

(** The runes [sanitize] keeps. *)
Definition lock_rune (r : Z) : bool :=
  in_range 97 122 r || in_range 65 90 r || in_range 48 57 r || (r =? 45) || (r =? 95).

Definition sanitize (id : string) : string :=
  of_bytes (map (λ r, if lock_rune r then r else 95) (range_string id)).

(** New: the directory that is used, created when it is missing. *)
Definition New (fs : FS) (dir : string) : result string * FS :=
  let dir := if String.eqb dir "" then DefaultDir else dir in
  match MkdirAll fs dir with
  | (Some e, fs') => (Err (EWrap ("create lock directory " +:+ dir +:+ ": ") e ""), fs')
  | (None, fs') => (Ok dir, fs')
  end.

Definition lock_path (dir sessionID : string) : string := Join [dir; Prefix +:+ sanitize sessionID].

Definition Acquire (fs : FS) (dir sessionID : string) : error * FS :=
  match open_create fs (lock_path dir sessionID) with
  | Err e => (Some (EWrap ("acquire terminal lock for " +:+ sessionID +:+ ": ") e ""), fs)
  | Ok fs' => (None, fs')
  end.

Definition Release (fs : FS) (dir sessionID : string) : error * FS :=
  match Remove fs (lock_path dir sessionID) with
  | (Some e, fs') =>
     if errors_is e ErrNotExist then (None, fs')
     else (Some (EWrap ("release terminal lock for " +:+ sessionID +:+ ": ") e ""), fs')
  | (None, fs') => (None, fs')
  end.

Definition Held (fs : FS) (dir sessionID : string) : bool :=
  is_ok (Stat fs (lock_path dir sessionID)).

Definition List_locks (fs : FS) (dir : string) : result (list string) :=
  match ReadDir fs dir with
  | Err e => Err (EWrap ("list locks in " +:+ dir +:+ ": ") e "")
  | Ok entries =>
     Ok (map (λ p, trim_prefix p Prefix)
             (List.filter (λ n, has_prefix n Prefix) (map fst entries)))
  end.

(** ** Lock names *)

Lemma lock_rune_bounds r : lock_rune r = true → 45 ≤ r ≤ 122 ∧ r ≠ 46 ∧ r ≠ 47.
Proof. unfold lock_rune, in_range. to_prop. intuition lia. Qed.

Lemma sanitize_bytes id : bytes (sanitize id) = map (λ r, if lock_rune r then r else 95) (range_string id).
Proof.
  unfold sanitize. apply bytes_of_bytes. apply Forall_map, Forall_forall. intros r _.
  unfold is_byte. destruct (lock_rune r) eqn:E; [apply lock_rune_bounds in E|]; lia.
Qed.

(** A lock name has no separator, whatever the session id is. *)
Lemma sanitize_runes id : Forall (λ b, lock_rune b = true) (bytes (sanitize id)).
Proof.
  rewrite sanitize_bytes. apply Forall_map, Forall_forall. intros r _. by destruct (lock_rune r) eqn:E.
Qed.

Lemma runes_ascii bs : Forall (λ b, b < 128) bs → runes bs = bs.
Proof.
  induction 1 as [|b bs Hb _ IH]; [done|]. simpl. by rewrite (proj2 (Z.ltb_lt _ _)), IH.
Qed.

Lemma sanitize_clean id : Forall (λ b, lock_rune b = true) (bytes id) → sanitize id = id.
Proof.
  intros HF. apply bytes_inj. rewrite sanitize_bytes. unfold range_string. rewrite runes_ascii.
  - induction HF as [|b bs Hb _ IH]; simpl; [done|]. by rewrite Hb, IH.
  - eapply Forall_impl; [exact HF|]. intros b Hb%lock_rune_bounds. lia.
Qed.

Lemma lock_name_plain s :
  Forall (λ b, lock_rune b = true) (bytes s) → plain (Prefix +:+ s) ∧ char_free "000" (Prefix +:+ s).
Proof.
  intros HF.
  assert (∀ a, byte_of a = 47 ∨ byte_of a = 0 → char_free a s) as Hfree.
  { intros a Ha. apply char_free_bytes. eapply Forall_impl; [exact HF|].
    intros b Hb%lock_rune_bounds. lia. }
  split; [|by apply char_free_app; split; [|apply Hfree; right]].
  split_and!; [done..|]. by apply char_free_app; split; [|apply Hfree; left].
Qed.

(** ** The directory of the locks *)

Definition lock_loc (D : loc) (s : string) : loc := D ++ [Prefix +:+ s].

(** The lock directory exists, and nothing in it but files has a lock's name. *)
Record lock_site (fs : FS) (dir : string) (D : loc) : Prop := {
  ls_wf : fs_wf fs;
  ls_quiet : quiet fs;
  ls_dir : real_dir (nodes fs) D;
  ls_path : dir = render D;
  ls_files : ∀ s n, nodes fs !! lock_loc D s = Some n → ∃ data t, n = File data t;
}.

Lemma lock_path_loc fs dir D id :
  lock_site fs dir D → lock_path dir id = render (lock_loc D (sanitize id)).
Proof.
  intros HS. unfold lock_path. rewrite (ls_path _ _ _ HS).
  change (Prefix +:+ sanitize id) with (join_path [Prefix +:+ sanitize id]) at 1. apply Join_render.
  - eapply real_dir_plain, HS.
  - constructor; [|done]. by apply lock_name_plain, sanitize_runes.
Qed.

Lemma lock_loc_inj D s s' : lock_loc D s = lock_loc D s' → s = s'.
Proof. unfold lock_loc. intros [_ E]%app_inj_tail. by apply app_str_inj in E. Qed.

Lemma lock_not_dir fs dir D s : lock_site fs dir D → not_dir_at (nodes fs) (lock_loc D s).
Proof. intros HS sz t Hn. by destruct (ls_files _ _ _ HS _ _ Hn) as (? & ? & ?). Qed.

Lemma lock_real fs dir D id data t :
  lock_site fs dir D → nodes fs !! lock_loc D (sanitize id) = Some (File data t) →
  real (nodes fs) (lock_loc D (sanitize id)).
Proof. intros HS Hn. eapply real_file; [apply HS|apply lock_name_plain, sanitize_runes|done]. Qed.

Lemma lock_site_insert fs dir D id :
  lock_site fs dir D →
  lock_site (with_nodes fs (<[lock_loc D (sanitize id) := File "" (stamp fs)]> (nodes fs))) dir D.
Proof.
  intros HS. pose proof (lock_not_dir fs dir D (sanitize id) HS) as Hnd.
  destruct (HS) as [Hwf Hq Hd Hp Hf]. split; simpl; [|done|by apply real_dir_insert|done|].
  - apply fs_wf_insert; [done..|]. apply Forall_app. split.
    + eapply real_nul; [done|by left].
    + constructor; [apply lock_name_plain, sanitize_runes|done].
  - intros s n [[_ <-]|[_ Hn]]%lookup_insert_Some; [by eauto|by eapply Hf].
Qed.

Lemma lock_site_delete fs dir D s :
  lock_site fs dir D → lock_site (with_nodes fs (delete (lock_loc D s) (nodes fs))) dir D.
Proof.
  intros HS. pose proof (lock_not_dir fs dir D s HS) as Hnd.
  destruct HS as [Hwf Hq Hd Hp Hf]. split; simpl; [by apply fs_wf_delete|done|by apply real_dir_delete|done|].
  intros s' n [_ Hn]%lookup_delete_Some. by eapply Hf.
Qed.

(** ** The operations, by what they do to the set of names *)

Definition held fs (D : loc) (s : string) : bool :=
  match nodes fs !! lock_loc D s with Some _ => true | None => false end.

Lemma Acquire_spec fs dir D id :
  lock_site fs dir D →
  ∃ fs', Acquire fs dir id = (None, fs') ∧ lock_site fs' dir D ∧
    (∀ s, held fs' D s = bool_decide (s = sanitize id) || held fs D s) ∧
    (∀ k, k ≠ lock_loc D (sanitize id) → nodes fs' !! k = nodes fs !! k).
Proof.
  intros HS. unfold Acquire, open_create, sys. rewrite (ls_quiet _ _ _ HS).
  rewrite (lock_path_loc fs dir D id HS).
  destruct (lock_name_plain (sanitize id) (sanitize_runes id)) as [Hpl Hnul].
  destruct (nodes fs !! lock_loc D (sanitize id)) as [n|] eqn:E.
  - destruct (ls_files _ _ _ HS _ _ E) as (data & t & ->).
    exists fs. split_and!; [|done| |done].
    + rewrite resolve_render, walk_real; [by rewrite E|by eapply lock_real|apply HS|
        by eapply real_plain, lock_real|by eapply real_nul; [apply HS|by eapply lock_real]].
    + intros s. case_bool_decide as Hs; [|done]. subst. unfold held. by rewrite E.
  - eexists. split_and!.
    + unfold lock_loc. rewrite resolve_child by (done || apply HS). reflexivity.
    + by apply lock_site_insert.
    + intros s. unfold held; simpl. case_bool_decide as Hs.
      * subst. by rewrite lookup_insert_eq.
      * rewrite lookup_insert_ne; [done|]. intros Hl%lock_loc_inj. by symmetry in Hl.
    + intros k Hk. by apply lookup_insert_ne.
Qed.

Lemma Release_spec fs dir D id :
  lock_site fs dir D →
  ∃ fs', Release fs dir id = (None, fs') ∧ lock_site fs' dir D ∧
    (∀ s, held fs' D s = negb (bool_decide (s = sanitize id)) && held fs D s) ∧
    (∀ k, k ≠ lock_loc D (sanitize id) → nodes fs' !! k = nodes fs !! k).
Proof.
  intros HS. unfold Release. rewrite (lock_path_loc fs dir D id HS).
  destruct (lock_name_plain (sanitize id) (sanitize_runes id)) as [Hpl Hnul].
  destruct (nodes fs !! lock_loc D (sanitize id)) as [n|] eqn:E.
  - destruct (ls_files _ _ _ HS _ _ E) as (data & t & ->).
    rewrite (Remove_real fs _ data t) by (apply HS || done || by eapply lock_real).
    eexists. split_and!; [done|by apply lock_site_delete| |intros k Hk; by apply lookup_delete_ne].
    intros s. unfold held; simpl. case_bool_decide as Hs; simpl.
    + subst. by rewrite lookup_delete_eq.
    + rewrite lookup_delete_ne; [done|]. intros Hl%lock_loc_inj. by symmetry in Hl.
  - unfold Remove, sys, reach. rewrite (ls_quiet _ _ _ HS). unfold lock_loc at 1.
    rewrite resolve_child by (done || apply HS). simpl.
    exists fs. split_and!; [done|done| |done].
    intros s. case_bool_decide as Hs; [|done]. subst. unfold held. by rewrite E.
Qed.

Lemma Held_spec fs dir D id : lock_site fs dir D → Held fs dir id = held fs D (sanitize id).
Proof.
  intros HS. unfold Held, held. rewrite (lock_path_loc fs dir D id HS).
  destruct (lock_name_plain (sanitize id) (sanitize_runes id)) as [Hpl Hnul].
  destruct (nodes fs !! lock_loc D (sanitize id)) as [n|] eqn:E.
  - destruct (ls_files _ _ _ HS _ _ E) as (data & t & ->).
    by rewrite (Stat_real fs _ (File data t)) by (apply HS || done || by eapply lock_real).
  - unfold Stat, sys, reach. rewrite (ls_quiet _ _ _ HS). unfold lock_loc.
    by rewrite resolve_child by (done || apply HS).
Qed.

Lemma List_locks_spec fs dir D :
  lock_site fs dir D →
  ∃ names, List_locks fs dir = Ok names ∧ NoDup names ∧ ∀ s, s ∈ names ↔ held fs D s = true.
Proof.
  intros HS. unfold List_locks, ReadDir, sys. rewrite !(ls_quiet _ _ _ HS), (ls_path _ _ _ HS).
  destruct (real_dir_node _ _ (ls_dir _ _ _ HS)) as (sz & t & Hn).
  rewrite (reach_real fs "open" D (Directory sz t)) by (done || apply HS || (left; apply HS)).
  cbn [mbind result_bind]. eexists. split; [done|].
  pose proof (children_NoDup (nodes fs) D) as HN.
  set (names := map fst (children (nodes fs) D)) in *.
  assert (∀ s, s ∈ map (λ p, trim_prefix p Prefix) (List.filter (λ n, has_prefix n Prefix) names) ↔
               (Prefix +:+ s) ∈ names) as Hin.
  { intros s. rewrite !list_elem_of_In, in_map_iff. setoid_rewrite filter_In. split.
    - intros (p & Hp & Hpn & (t' & ->)%has_prefix_true). rewrite trim_prefix_app in Hp. by subst.
    - intros Hs. exists (Prefix +:+ s). by rewrite trim_prefix_app, has_prefix_app. }
  split.
  - clear Hin. induction names as [|p names IH]; cbn [List.filter map]; [constructor|].
    apply NoDup_cons in HN as [Hp HN]. destruct (has_prefix p Prefix) eqn:E; [|by apply IH].
    cbn [map]. constructor; [|by apply IH]. apply has_prefix_true in E as [s ->].
    rewrite trim_prefix_app. intros (q & Hq & Hqn)%list_elem_of_fmap.
    apply list_elem_of_In, filter_In in Hqn as [Hqn (s' & ->)%has_prefix_true].
    rewrite trim_prefix_app in Hq. subst. by apply list_elem_of_In in Hqn.
  - intros s. rewrite Hin. unfold names, held. rewrite list_elem_of_fmap. split.
    + intros ([c n] & Hc & Hcn%children_elem). cbn [fst] in Hc. subst c. unfold lock_loc. by rewrite Hcn.
    + destruct (nodes fs !! lock_loc D s) as [n|] eqn:E; [intros _|done].
      exists (Prefix +:+ s, n). split; [done|]. by apply children_elem.
Qed.

(** ** Reference: a set of session ids *)

Inductive lock_call := LAcquire (id : string) | LRelease (id : string).

Definition lock_step (dir : string) (fs : FS) (c : lock_call) : error * FS :=
  match c with LAcquire id => Acquire fs dir id | LRelease id => Release fs dir id end.

Fixpoint lock_run (dir : string) (fs : FS) (cs : list lock_call) : list error * FS :=
  match cs with
  | [] => ([], fs)
  | c :: cs' =>
     let '(e, fs1) := lock_step dir fs c in
     let '(es, fs2) := lock_run dir fs1 cs' in (e :: es, fs2)
  end.

Definition set_step (L : gset string) (c : lock_call) : gset string :=
  match c with LAcquire id => {[sanitize id]} ∪ L | LRelease id => L ∖ {[sanitize id]} end.

Definition represents fs (D : loc) (L : gset string) : Prop := ∀ s, held fs D s = true ↔ s ∈ L.

Lemma lock_step_represents fs dir D L c :
  lock_site fs dir D → represents fs D L →
  ∃ fs', lock_step dir fs c = (None, fs') ∧ lock_site fs' dir D ∧ represents fs' D (set_step L c).
Proof.
  intros HS HL. destruct c as [id|id]; simpl.
  - destruct (Acquire_spec fs dir D id HS) as (fs' & HA & HS' & Hh & _).
    exists fs'. split_and!; [done|done|]. intros s. rewrite Hh, orb_true_iff, bool_decide_eq_true, (HL s).
    set_solver.
  - destruct (Release_spec fs dir D id HS) as (fs' & HA & HS' & Hh & _).
    exists fs'. split_and!; [done|done|]. intros s.
    rewrite Hh, andb_true_iff, negb_true_iff, bool_decide_eq_false, (HL s). set_solver.
Qed.

(** C23: Any sequence of Acquire and Release calls on a lock directory behaves as insertions
    into and deletions from a set of sanitised ids: no call fails, Held decides membership and
    List enumerates the set. *)
Theorem locks_refine_set fs dir D L cs :
  lock_site fs dir D → represents fs D L →
  let fs' := (lock_run dir fs cs).2 in
  let L' := fold_left set_step cs L in
  (lock_run dir fs cs).1 = map (λ _, None) cs ∧
  (∀ id, Held fs' dir id = bool_decide (sanitize id ∈ L')) ∧
  ∃ names, List_locks fs' dir = Ok names ∧ NoDup names ∧ ∀ s, s ∈ names ↔ s ∈ L'.
Proof.
  revert fs L. induction cs as [|c cs IH]; intros fs L HS HL; simpl.
  - split; [done|]. split.
    + intros id. rewrite (Held_spec fs dir D id HS). apply Bool.eq_true_iff_eq.
      by rewrite bool_decide_eq_true, (HL (sanitize id)).
    + destruct (List_locks_spec fs dir D HS) as (names & Hn & HN & Hin).
      exists names. split_and!; [done|done|]. intros s. by rewrite Hin, (HL s).
  - destruct (lock_step_represents fs dir D L c HS HL) as (fs1 & -> & HS1 & HL1).
    destruct (IH fs1 _ HS1 HL1) as (HE & HH & HN).
    destruct (lock_run dir fs1 cs) as [es fs2]; simpl in *. by rewrite HE.
Qed.

(** The ids the daemon generates keep their name. *)
Lemma hex_digit_byte n : 0 ≤ n < 16 → lock_rune (byte_of (hex_digit n)) = true.
Proof.
  intros Hn. unfold hex_digit. rewrite byte_of_ascii_of by (unfold is_byte; case_match; to_prop; lia).
  unfold lock_rune, in_range. case_match; to_prop; lia.
Qed.

Lemma hex_runes bs : Forall is_byte bs → Forall (λ b, lock_rune b = true) (bytes (hex_encode bs)).
Proof.
  induction 1 as [|b bs Hb _ IH]; cbn [hex_encode bytes]; [constructor|]. unfold is_byte in Hb.
  constructor; [apply hex_digit_byte; split; [apply Z.div_pos; lia|apply Z.div_lt_upper_bound; lia]|].
  constructor; [by apply hex_digit_byte, Z.mod_pos_bound|done].
Qed.

Lemma sanitize_hex bs : Forall is_byte bs → sanitize (hex_encode bs) = hex_encode bs.
Proof. intros Hb. by apply sanitize_clean, hex_runes. Qed.

(** Other ids may share a lock. *)
Example sanitize_collides : sanitize "a/b" = sanitize "a_b".
Proof. by vm_compute. Qed.

(** ** A concrete directory *)

Definition lock_dir_loc : loc := ["run"; "claudecode-locks"].

Definition lock_nodes : gmap loc node :=
  list_to_map [([], Directory 4096 0); (["run"], Directory 4096 0); (lock_dir_loc, Directory 4096 0)].

Definition lock_fs : FS := MkFS lock_nodes [] (λ _ _, None) (λ _, 0%nat) (5 * Second) (λ _, 0).

Lemma lock_nodes_short l n : lock_nodes !! l = Some n → (length l ≤ 2)%nat ∧ Forall (char_free "000") l.
Proof.
  intros Hl%elem_of_map_to_list.
  assert (Forall (λ p, (length p.1 ≤ 2)%nat ∧ Forall (char_free "000") p.1) (map_to_list lock_nodes)) as HF.
  { vm_compute. repeat constructor. }
  by apply (proj1 (Forall_forall _ _) HF) in Hl.
Qed.

Lemma lock_fs_site : lock_site lock_fs DefaultDir lock_dir_loc.
Proof.
  assert (real_dir lock_nodes []) as Hr by (by apply (real_root _ 4096 0)).
  split; [|done| |done|].
  - split_and!; [done| |done]. intros l n Hl. by apply lock_nodes_short in Hl as [_ ?].
  - apply (real_child _ ["run"] "claudecode-locks" 4096 0); [|by_decide|by vm_compute].
    apply (real_child _ [] "run" 4096 0); [done|by_decide|by vm_compute].
  - intros s n [Hl _]%lock_nodes_short. simpl in Hl. lia.
Qed.

Lemma lock_fs_represents : represents lock_fs lock_dir_loc ∅.
Proof.
  intros s. unfold held. destruct (nodes lock_fs !! lock_loc lock_dir_loc s) eqn:E; [|set_solver].
  apply lock_nodes_short in E as [Hl _]. simpl in Hl. lia.
Qed.

Lemma locks_refine_set_witness :
  Held (lock_run DefaultDir lock_fs [LAcquire "0a"; LAcquire "0b"; LAcquire "0a"; LRelease "0b"]).2
    DefaultDir "0b" = false.
Proof.
  destruct (locks_refine_set lock_fs DefaultDir lock_dir_loc ∅
    [LAcquire "0a"; LAcquire "0b"; LAcquire "0a"; LRelease "0b"] lock_fs_site lock_fs_represents)
    as (_ & HH & _). rewrite HH. by vm_compute.
Defined.
