(* ===== verification/Tmux.v ===== *)
(** * terminal/tmux.go: the tmux driver

    The tmux binary is a program of its own: the parameter [TmuxBinary] runs
    one command line on a tmux server state [W], and gives what it printed, the
    error of the process and the state after it. [TmuxSpec] is what tmux
    documents about the commands used here. *)

From S2P Require Import Prelude GoStr.
From Stdlib Require Import Ascii.

Definition Term : string := "tmux-256color".

Record tmux_output := Printed {
  out_stdout : string;
  out_combined : string;       (* with what went to stderr *)
}.

Class TmuxBinary (W : Type) := {
  (** program, arguments, what is added to the environment *)
  tmux_exec : W → string → list string → list string → tmux_output * error * W;
  (** pty.StartWithSize of a command, with its columns and rows *)
  pty_start : W → string → list string → list string → Z → Z → error * W;
}.

Record Tmux := MkTmux { Bin : string }.

Definition NewTmux : Tmux := MkTmux "tmux".

Definition bin (t : Tmux) : string := if String.eqb (Bin t) "" then "tmux" else Bin t.

Section tmux.
Context {W : Type} `{TmuxBinary W}.

Definition run (t : Tmux) (w : W) (args : list string) : string * error * W :=
  let '(o, err, w') := tmux_exec w (bin t) args ["TERM=" +:+ Term] in
  match err with
  | Some e =>
     (out_combined o,
      Some (EWrap ("tmux " +:+ join_char " " args +:+ ": ") e (": " +:+ trim_space (out_combined o))), w')
  | None => (out_combined o, None, w')
  end.

Definition SetGlobalWindowSize (t : Tmux) (w : W) : error * W :=
  let '(_, err, w') := run t w ["set-option"; "-g"; "window-size"; "latest"] in (err, w').

Definition EnableTruecolor (t : Tmux) (w : W) : error * W :=
  let '(out, err, w1) := run t w ["show-options"; "-g"; "terminal-features"] in
  if match err with None => contains out "RGB" | Some _ => false end then (None, w1)
  else let '(_, err, w2) := run t w1 ["set-option"; "-ags"; "terminal-features"; ",*:RGB"] in (err, w2).

Definition HasSession (t : Tmux) (w : W) (name : string) : bool * W :=
  let '(_, err, w') := tmux_exec w (bin t) ["has-session"; "-t"; name] [] in
  (match err with None => true | Some _ => false end, w').

Definition new_session_args (name cwd shell : string) : list string :=
  ["new-session"; "-d"; "-s"; name] ++
  (if String.eqb cwd "" then [] else ["-c"; cwd]) ++
  (if String.eqb shell "" then [] else [shell]).

Definition NewSession (t : Tmux) (w : W) (name cwd shell : string) : error * W :=
  match run t w (new_session_args name cwd shell) with
  | (_, Some e, w1) => (Some e, w1)
  | (_, None, w1) =>
     match run t w1 ["set-option"; "-t"; name; "window-size"; "latest"] with
     | (_, Some e, w2) => (Some e, w2)
     | (_, None, w2) => (None, (EnableTruecolor t w2).2)
     end
  end.

Definition CapturePane (t : Tmux) (w : W) (name : string) : result string * W :=
  match tmux_exec w (bin t) ["capture-pane"; "-p"; "-e"; "-t"; name] ["TERM=" +:+ Term] with
  | (_, Some e, w') => (Err (EWrap ("capture-pane for " +:+ name +:+ ": ") e ""), w')
  | (o, None, w') => (Ok (out_stdout o), w')
  end.

Definition KillSession (t : Tmux) (w : W) (name : string) : error * W :=
  let '(_, err, w') := run t w ["kill-session"; "-t"; name] in (err, w').

(** Columns and rows are uint16; zero means the default. *)
Definition Attach (t : Tmux) (w : W) (name : string) (cols rows : Z) : error * W :=
  let cols := if cols =? 0 then 80 else cols in
  let rows := if rows =? 0 then 24 else rows in
  match pty_start w (bin t) ["attach-session"; "-t"; name] ["TERM=" +:+ Term] cols rows with
  | (Some e, w') => (Some (EWrap ("attach to " +:+ name +:+ ": ") e ""), w')
  | (None, w') => (None, w')
  end.
End tmux.

(** ** What tmux documents *)

(** A name tmux takes as it is. *)
Definition tmux_name (name : string) : Prop := name ≠ "" ∧ char_free ":" name ∧ char_free "." name.

(** The commands that start or end no session. *)
Definition keeps_sessions (args : list string) : Prop :=
  ∃ cmd rest, args = cmd :: rest ∧
    cmd ∈ ["set-option"; "show-options"; "capture-pane"; "has-session"].

Class TmuxSpec (W : Type) `{TmuxBinary W} := {
  tmux_sessions : W → gset string;
  spec_new w b name opts env : tmux_name name →
    let '(_, err, w') := tmux_exec w b (["new-session"; "-d"; "-s"; name] ++ opts) env in
    match err with
    | None => name ∉ tmux_sessions w ∧ tmux_sessions w' = {[name]} ∪ tmux_sessions w
    | Some _ => tmux_sessions w' = tmux_sessions w
    end;
  spec_kill w b name env : name ∈ tmux_sessions w →
    let '(_, err, w') := tmux_exec w b ["kill-session"; "-t"; name] env in
    match err with
    | None => tmux_sessions w' = tmux_sessions w ∖ {[name]}
    | Some _ => tmux_sessions w' = tmux_sessions w
    end;
  spec_keeps w b args env : keeps_sessions args →
    tmux_sessions (tmux_exec w b args env).2 = tmux_sessions w;
}.

Section facts.
Context {W : Type} `{TmuxSpec W}.

Lemma run_state t (w : W) args :
  (run t w args).2 = (tmux_exec w (bin t) args ["TERM=" +:+ Term]).2.
Proof. unfold run. by destruct (tmux_exec w _ _ _) as [[? []] ?]. Qed.

Lemma run_failed t (w : W) args :
  (run t w args).1.2 = None ↔ (tmux_exec w (bin t) args ["TERM=" +:+ Term]).1.2 = None.
Proof. unfold run. by destruct (tmux_exec w _ _ _) as [[? []] ?]. Qed.

Lemma run_keeps t (w : W) args :
  keeps_sessions args → tmux_sessions (run t w args).2 = tmux_sessions w.
Proof. intros Hk. rewrite run_state. by apply spec_keeps. Qed.

Ltac keeps := eexists _, _; split; [reflexivity|set_solver].

Lemma EnableTruecolor_keeps t (w : W) : tmux_sessions (EnableTruecolor t w).2 = tmux_sessions w.
Proof.
  unfold EnableTruecolor.
  pose proof (run_keeps t w ["show-options"; "-g"; "terminal-features"] ltac:(keeps)) as H1.
  destruct (run t w _) as [[out err] w1]; simpl in *.
  destruct (match err with None => _ | Some _ => _ end); [done|].
  pose proof (run_keeps t w1 ["set-option"; "-ags"; "terminal-features"; ",*:RGB"] ltac:(keeps)) as H2.
  destruct (run t w1 _) as [[out2 err2] w2]; simpl in *. congruence.
Qed.

Definition size_args (name : string) : list string := ["set-option"; "-t"; name; "window-size"; "latest"].

(** Either no session was started, or one was and only setting its window size
    can have failed after that. *)
Lemma NewSession_cases t (w : W) name cwd shell :
  tmux_name name →
  let r := NewSession t w name cwd shell in
  (is_Some r.1 ∧ tmux_sessions r.2 = tmux_sessions w) ∨
  (name ∉ tmux_sessions w ∧ tmux_sessions r.2 = {[name]} ∪ tmux_sessions w ∧
   ∃ w1, r.1 = (run t w1 (size_args name)).1.2).
Proof.
  intros Hn. unfold NewSession. fold (size_args name).
  pose proof (spec_new w (bin t) name ((if String.eqb cwd "" then [] else ["-c"; cwd]) ++
    (if String.eqb shell "" then [] else [shell])) ["TERM=" +:+ Term] Hn) as HS.
  pose proof (run_state t w (new_session_args name cwd shell)) as Hst.
  pose proof (run_failed t w (new_session_args name cwd shell)) as Hf.
  unfold new_session_args in *. destruct (tmux_exec w _ _ _) as [[o err] w']; simpl in Hst, Hf.
  destruct (run t w _) as [[out err1] w1]; simpl in Hst, Hf; subst w1.
  destruct err1 as [e1|]; simpl.
  - left. split; [by eexists|]. destruct err; [done|]. discriminate (proj2 Hf eq_refl).
  - rewrite (proj1 Hf eq_refl) in HS. destruct HS as [Hni HS].
    pose proof (run_keeps t w' (size_args name) ltac:(keeps)) as H2.
    right. split; [done|].
    destruct (run t w' (size_args name)) as [[out2 [e2|]] w2] eqn:E2; simpl in *;
      rewrite ?EnableTruecolor_keeps; (split; [congruence|exists w'; by rewrite E2]).
Qed.

Lemma KillSession_sessions t (w : W) name :
  name ∈ tmux_sessions w →
  let r := KillSession t w name in
  match r.1 with
  | None => tmux_sessions r.2 = tmux_sessions w ∖ {[name]}
  | Some _ => tmux_sessions r.2 = tmux_sessions w
  end.
Proof.
  intros Hn. unfold KillSession.
  pose proof (spec_kill w (bin t) name ["TERM=" +:+ Term] Hn) as HS.
  pose proof (run_state t w ["kill-session"; "-t"; name]) as Hst.
  pose proof (run_failed t w ["kill-session"; "-t"; name]) as Hf.
  destruct (tmux_exec w _ _ _) as [[o err] w']; simpl in Hst, Hf.
  destruct (run t w _) as [[out err1] w1]; simpl in Hst, Hf; subst w1.
  destruct err1 as [e1|], err as [e|]; simpl; try done;
    [discriminate (proj2 Hf eq_refl)|discriminate (proj1 Hf eq_refl)].
Qed.
End facts.

(** ** A tmux for witnesses: its state is the set of sessions *)

Definition set_exec (w : gset string) (args : list string) : error * gset string :=
  match args with
  | "new-session" :: "-d" :: "-s" :: name :: _ =>
     if decide (name ∈ w) then (Some (EMsg "exit status 1"), w) else (None, {[name]} ∪ w)
  | ["kill-session"; "-t"; name] =>
     if decide (name ∈ w) then (None, w ∖ {[name]}) else (Some (EMsg "exit status 1"), w)
  | _ => (None, w)
  end.

Definition set_tmux : TmuxBinary (gset string) := {|
  tmux_exec w _ args _ := (Printed "" "", (set_exec w args).1, (set_exec w args).2);
  pty_start w _ _ _ _ _ := (None, w);
|}.

Definition set_tmux_spec : @TmuxSpec (gset string) set_tmux.
Proof.
  refine (@Build_TmuxSpec (gset string) set_tmux (λ w, w) _ _ _).
  - intros w b name opts env _. simpl. by case_decide.
  - intros w b name env Hn. simpl. by rewrite decide_True.
  - intros w b args env (cmd & rest & -> & Hc). simpl.
    repeat (apply elem_of_cons in Hc as [->|Hc]; [done|]). by apply elem_of_nil in Hc.
Defined.
