(* ===== verification/Manager.v ===== *)
(** * terminal/manager.go: terminal sessions

    A session is a row of the sessions table, a tmux session and a lock file.
    [term_state] holds the three stores; the clock readings of the statements
    and the driver's answers are arguments. *)

From S2P Require Import Prelude GoStr Path Fs Database Locks Tmux.

Section manager.
Context {W : Type} `{TmuxBinary W}.

(** The fields of a [Manager]: what it needs to find the stores. *)
Record Manager := MkManager {
  LockDir : string;
  TmuxOf : Tmux;
}.

Record term_state := TermState {
  tdb : DB;
  tfs : FS;
  tmux : W;
}.

Definition with_tdb (st : term_state) (d : DB) : term_state := TermState d (tfs st) (tmux st).
Definition with_tfs (st : term_state) (fs : FS) : term_state := TermState (tdb st) fs (tmux st).
Definition with_tmux (st : term_state) (w : W) : term_state := TermState (tdb st) (tfs st) w.

(** The state of the tmux server after NewManager; both results are ignored. *)
Definition NewManager (m : Manager) (w : W) : W :=
  (EnableTruecolor (TmuxOf m) (SetGlobalWindowSize (TmuxOf m) w).2).2.

(** NewID: hex of eight random bytes. *)
Definition NewID (rand : result (list Z)) : result string :=
  match rand with
  | Err e => Err (EWrap "generate session id: " e "")
  | Ok buf => Ok (hex_encode buf)
  end.

Definition tmux_name_of (id : string) : string := "ccr-" +:+ id.

(** [now]: the clock reading of the INSERT; [io_create] and [io_get]: the
    driver's answers. *)
Definition Create (m : Manager) (st : term_state) (name cwd shell : string)
    (rand : result (list Z)) (now : Z) (io_create io_get : error) : result Session * term_state :=
  match NewID rand with
  | Err e => (Err e, st)
  | Ok id =>
     let tmuxName := tmux_name_of id in
     match NewSession (TmuxOf m) (tmux st) tmuxName cwd shell with
     | (Some e, w) => (Err e, with_tmux st w)
     | (None, w) =>
        let st1 := with_tmux st w in
        match CreateSession (tdb st1) (MkSession id name tmuxName cwd shell "" 0 0) now io_create with
        | (Some e, _) =>
           (Err e, with_tmux st1 (KillSession (TmuxOf m) (tmux st1) tmuxName).2)
        | (None, d) =>
           let st2 := with_tdb st1 d in
           match Acquire (tfs st2) (LockDir m) id with
           | (Some e, fs) => (Err e, with_tfs st2 fs)
           | (None, fs) => (GetSession (tdb st2) id io_get, with_tfs st2 fs)
           end
        end
     end
  end.

Definition List_sessions `{SqlOrder} (st : term_state) (io : error) : result (list Session) :=
  ListOpenSessions (tdb st) io.

Definition Get (st : term_state) (id : string) (io : error) : result Session :=
  GetSession (tdb st) id io.

Definition Rename (st : term_state) (id name : string) (io : error) : error * term_state :=
  let '(e, d) := RenameSession (tdb st) id name io in (e, with_tdb st d).

Definition Close (m : Manager) (st : term_state) (id : string) (now : Z) (io_get io_close : error)
    : error * term_state :=
  match GetSession (tdb st) id io_get with
  | Err e => (Some e, st)
  | Ok s =>
     match CloseSession (tdb st) id now io_close with
     | (Some e, d) => (Some e, with_tdb st d)
     | (None, d) =>
        let '(killErr, w) := KillSession (TmuxOf m) (tmux st) (TmuxSession s) in
        match Release (tfs st) (LockDir m) id with
        | (Some e, fs) => (Some e, TermState d fs w)
        | (None, fs) => (killErr, TermState d fs w)
        end
     end
  end.

(** ** Histories *)

(** A call of a manager, a touch by an attached client, or a change of the
    tmux server that is not the daemon's. *)
Inductive term_call :=
  | MCreate (name cwd shell : string) (rand : result (list Z)) (now : Z) (io_create io_get : error)
  | MRename (id name : string) (io : error)
  | MClose (id : string) (now : Z) (io_get io_close : error)
  | MTouch (id : string) (now : Z) (io : error)
  | MTmux (w : W).

Definition term_step (m : Manager) (st : term_state) (c : term_call) : term_state :=
  match c with
  | MCreate name cwd shell rand now ioc iog => (Create m st name cwd shell rand now ioc iog).2
  | MRename id name io => (Rename st id name io).2
  | MClose id now iog ioc => (Close m st id now iog ioc).2
  | MTouch id now io => with_tdb st (TouchSession (tdb st) id now io).2
  | MTmux w => with_tmux st w
  end.

Definition term_run (m : Manager) (st : term_state) (cs : list term_call) : term_state :=
  fold_left (term_step m) cs st.

(** crypto/rand gives bytes. *)
Definition call_ok (c : term_call) : Prop :=
  match c with MCreate _ _ _ (Ok buf) _ _ _ => Forall is_byte buf | _ => True end.

(** ** A session is open exactly as long as its lock is held *)

Definition open_in (d : DB) (id : string) : Prop :=
  ∃ r, sessions d !! id = Some r ∧ s_status r = Some StatusOpen.

Record locks_match (m : Manager) (D : loc) (st : term_state) : Prop := {
  lm_site : lock_site (tfs st) (LockDir m) D;
  lm_ids : ∀ id r, sessions (tdb st) !! id = Some r → sanitize id = id;
  lm_held : ∀ s, held (tfs st) D s = true ↔ open_in (tdb st) s;
}.

(** A statement that changes no status of any row. *)
Lemma locks_match_db m D st d :
  locks_match m D st →
  (∀ id, s_status <$> sessions d !! id = s_status <$> sessions (tdb st) !! id) →
  locks_match m D (with_tdb st d).
Proof.
  intros [HS Hids Hh] Hd. split; simpl; [done| |].
  - intros id r Hr. specialize (Hd id). rewrite Hr in Hd.
    destruct (sessions (tdb st) !! id) as [r'|] eqn:E; [by eapply Hids|done].
  - intros s. rewrite Hh. unfold open_in. specialize (Hd s).
    destruct (sessions (tdb st) !! s), (sessions d !! s); simplify_eq/=; naive_solver congruence.
Qed.

Lemma update_keeps_status d id f key :
  (∀ r, s_status (f r) = s_status r) →
  s_status <$> (update_where (sessions d) id (λ _, true) f).1 !! key =
  s_status <$> sessions d !! key.
Proof.
  intros Hf. rewrite update_where_lookup. destruct (sessions d !! key); simpl; [|done].
  case_match; by rewrite ?Hf.
Qed.

Lemma CreateSession_lookup d s now io key :
  sessions (CreateSession d s now io).2 !! key =
  if bool_decide ((CreateSession d s now io).1 = None) && bool_decide (key = ID s)
  then Some (session_insert (fill_session s now)) else sessions d !! key.
Proof.
  unfold CreateSession. destruct io; simpl; [done|].
  destruct (sessions d !! ID s) eqn:E; simpl; [done|].
  destruct (_ || _); simpl; [|done]. case_bool_decide as Hk; simpl.
  - subst. by rewrite lookup_insert_eq.
  - by rewrite lookup_insert_ne.
Qed.

Lemma locks_match_create m D st name cwd shell rand now ioc iog :
  match rand with Ok buf => Forall is_byte buf | Err _ => True end → locks_match m D st →
  locks_match m D (Create m st name cwd shell rand now ioc iog).2.
Proof.
  intros Hb HL. unfold Create, NewID. destruct rand as [buf|]; [|done].
  set (id := hex_encode buf).
  destruct (NewSession _ _ _ _ _) as [[e|] w]; [by destruct HL|].
  simpl. pose proof (CreateSession_lookup (tdb st) (MkSession id name (tmux_name_of id) cwd shell "" 0 0) now ioc) as HC.
  destruct (CreateSession _ _ _ _) as [[e|] d]; simpl in *; [by destruct HL|].
  destruct HL as [HS Hids Hh].
  destruct (Acquire_spec (tfs st) (LockDir m) D id HS) as (fs' & -> & HS' & Hheld & _). simpl.
  assert (sanitize id = id) as Hid by (by apply sanitize_hex).
  split; simpl; [done| |].
  - intros k r. rewrite HC. case_bool_decide as Hk; [by subst|apply Hids].
  - intros s. rewrite Hheld, orb_true_iff, bool_decide_eq_true, (Hh s), Hid.
    unfold open_in. rewrite HC. case_bool_decide as Hs.
    + split; [|by left]. intros _. eexists. by split.
    + naive_solver.
Qed.

Lemma locks_match_close m D st id now iog ioc :
  locks_match m D st → locks_match m D (Close m st id now iog ioc).2.
Proof.
  intros HL. unfold Close. destruct (GetSession _ _ _) as [s|] eqn:EG; [|done].
  destruct ioc as [e|]; [by destruct HL|].
  destruct (CloseSession_cases (tdb st) id now) as [(r & Hr & Hst & ->)|[Hn ->]]; [|by destruct HL].
  destruct (KillSession _ _ _) as [ke w].
  destruct HL as [HS Hids Hh]. assert (sanitize id = id) as Hid by (by eapply Hids).
  destruct (Release_spec (tfs st) (LockDir m) D id HS) as (fs' & -> & HS' & Hheld & _). simpl.
  split; simpl; [done| |].
  - intros k r' [[<- _]|[_ Hk]]%lookup_insert_Some; [done|by eapply Hids].
  - intros s'. rewrite Hheld, andb_true_iff, negb_true_iff, bool_decide_eq_false, (Hh s'), Hid.
    unfold open_in; simpl. destruct (decide (s' = id)) as [->|Hne].
    + rewrite lookup_insert_eq. split; [by intros []|]. by intros (r' & [= <-] & ?).
    + rewrite lookup_insert_ne by done. naive_solver.
Qed.

Lemma locks_match_step m D st c :
  call_ok c → locks_match m D st → locks_match m D (term_step m st c).
Proof.
  intros Hc HL. destruct c as [name cwd shell rand now ioc iog|id name io|id now iog ioc|id now io|w]; simpl.
  - by apply locks_match_create.
  - unfold Rename, RenameSession. destruct io as [e|]; [by destruct HL|].
    pose proof (λ k, update_keeps_status (tdb st) id (set_name name) k (λ r, eq_refl)) as HU.
    destruct (update_where _ _ _ _) as [t n]; simpl in *. by apply locks_match_db.
  - by apply locks_match_close.
  - unfold TouchSession. destruct io as [e|]; [by destruct HL|].
    pose proof (λ k, update_keeps_status (tdb st) id (set_active now) k (λ r, eq_refl)) as HU.
    destruct (update_where _ _ _ _) as [t n]; simpl in *. by apply locks_match_db.
  - by destruct HL.
Qed.

Lemma locks_match_start m D st :
  lock_site (tfs st) (LockDir m) D → sessions (tdb st) = ∅ → represents (tfs st) D ∅ →
  locks_match m D st.
Proof.
  intros HS Hd HR. split; [done| |]; unfold open_in; rewrite Hd.
  - by intros ? ? ?%lookup_empty_Some.
  - intros s. rewrite (HR s). split; [set_solver|]. by intros (r & ?%lookup_empty_Some & _).
Qed.

Lemma locked_exactly_while_open m D st cs id :
  lock_site (tfs st) (LockDir m) D → sessions (tdb st) = ∅ → represents (tfs st) D ∅ →
  Forall call_ok cs → sanitize id = id →
  Held (tfs (term_run m st cs)) (LockDir m) id = true ↔ open_in (tdb (term_run m st cs)) id.
Proof.
  intros HS Hd HR Hcs Hid.
  assert (locks_match m D st) as HL by (by apply locks_match_start).
  clear HS Hd HR. unfold term_run. revert st HL.
  induction Hcs as [|c cs Hc _ IH]; intros st HL; simpl.
  - destruct HL as [HS _ Hh]. by rewrite (Held_spec _ _ D id HS), Hid.
  - apply IH. by apply locks_match_step.
Qed.

(** ** The outcomes of Create and Close *)

Lemma tmux_name_hex buf : Forall is_byte buf → tmux_name (tmux_name_of (hex_encode buf)).
Proof.
  intros Hb%hex_runes.
  assert (∀ a, (byte_of a = 58 ∨ byte_of a = 46) → char_free a (hex_encode buf)) as Hf.
  { intros a Ha. apply char_free_bytes. eapply Forall_impl; [exact Hb|].
    intros b Hb'. unfold lock_rune, in_range in Hb'. to_prop. lia. }
  unfold tmux_name_of. split_and!; [done| |]; apply char_free_app;
    (split; [done|apply Hf]); [by left|by right].
Qed.

Context `{!TmuxSpec W}.

Lemma Create_ok m D st name cwd shell buf now s st' :
  lock_site (tfs st) (LockDir m) D → Forall is_byte buf →
  Create m st name cwd shell (Ok buf) now None None = (Ok s, st') →
  s = MkSession (hex_encode buf) name (tmux_name_of (hex_encode buf)) cwd shell StatusOpen now now ∧
  GetSession (tdb st') (ID s) None = Ok s ∧
  Held (tfs st') (LockDir m) (ID s) = true ∧
  tmux_sessions (tmux st') = {[TmuxSession s]} ∪ tmux_sessions (tmux st) ∧
  sessions (tdb st) !! ID s = None ∧ TmuxSession s ∉ tmux_sessions (tmux st).
Proof.
  intros HS Hb. unfold Create, NewID. set (id := hex_encode buf).
  destruct (NewSession_cases (TmuxOf m) (tmux st) (tmux_name_of id) cwd shell)
    as [[He _]|(Hni & HW & _)]; [by apply tmux_name_hex| |];
    destruct (NewSession _ _ _ _ _) as [[e|] w]; simpl in *; try done; try (by destruct He).
  unfold CreateSession; simpl. destruct (sessions (tdb st) !! id) eqn:E; simpl; [done|].
  destruct (Acquire_spec (tfs st) (LockDir m) D id HS) as (fs' & HA & HS' & Hheld & _). rewrite HA.
  unfold GetSession; simpl. rewrite lookup_insert_eq. simpl. intros [= <- <-]. simpl.
  rewrite lookup_insert_eq. split_and!; try done; [].
  by rewrite (Held_spec _ _ D id HS'), Hheld, bool_decide_eq_true_2.
Qed.

Lemma Create_starts_a_session m D st name cwd shell buf now s st' :
  lock_site (tfs st) (LockDir m) D → Forall is_byte buf →
  Create m st name cwd shell (Ok buf) now None None = (Ok s, st') →
  s = MkSession (hex_encode buf) name (tmux_name_of (hex_encode buf)) cwd shell StatusOpen now now ∧
  GetSession (tdb st') (ID s) None = Ok s ∧
  Held (tfs st') (LockDir m) (ID s) = true ∧
  tmux_sessions (tmux st') = {[TmuxSession s]} ∪ tmux_sessions (tmux st) ∧
  sessions (tdb st) !! ID s = None ∧ TmuxSession s ∉ tmux_sessions (tmux st).
Proof. apply Create_ok. Qed.

(** When the INSERT fails after the tmux session was started, Create ends that session
    again, so that rows, locks and tmux sessions are as before. *)
Lemma failed_create_changes_nothing m D st name cwd shell buf now io e st' :
  lock_site (tfs st) (LockDir m) D → Forall is_byte buf →
  let tname := tmux_name_of (hex_encode buf) in
  (∀ w, (run (TmuxOf m) w (size_args tname)).1.2 = None) →
  (∀ w, tname ∈ tmux_sessions w → (KillSession (TmuxOf m) w tname).1 = None) →
  Create m st name cwd shell (Ok buf) now io None = (Err e, st') →
  tdb st' = tdb st ∧ tfs st' = tfs st ∧ tmux_sessions (tmux st') = tmux_sessions (tmux st).
Proof.
  intros HS Hb tname Hset Hkill. unfold Create, NewID. fold tname. set (id := hex_encode buf) in *.
  destruct (NewSession_cases (TmuxOf m) (tmux st) tname cwd shell) as [[He Hs]|(Hni & HW & w1 & He)];
    [by apply tmux_name_hex| |]; [|rewrite Hset in He];
    destruct (NewSession _ _ _ _ _) as [[e'|] w]; simpl in *; try done;
    try (by destruct He); [by intros [= _ <-]|].
  destruct (CreateSession _ _ _ _) as [[e'|] d] eqn:EC.
  - intros [= _ <-]. simpl. split_and!; [done..|].
    pose proof (KillSession_sessions (TmuxOf m) w tname) as HK.
    cbv zeta in HK. rewrite (Hkill w) in HK by set_solver. rewrite HK by set_solver. set_solver.
  - destruct (Acquire_spec (tfs st) (LockDir m) D id HS) as (fs' & HA & _). rewrite HA. simpl.
    destruct io as [?|]; [done|].
    pose proof (create_then_get (tdb st) (MkSession id name tname cwd shell "" 0 0) now) as HG.
    rewrite EC in HG. simpl in HG. by destruct HG as [-> _].
Qed.

Lemma Close_row m st id r now :
  sessions (tdb st) !! id = Some r → s_status r = Some StatusOpen →
  sessions (tdb (Close m st id now None None).2) !! id = Some (set_closed now r).
Proof.
  intros Hr Hst. unfold Close, GetSession. rewrite Hr. unfold scan_session. rewrite Hst.
  destruct (CloseSession_cases (tdb st) id now) as [(r0 & Hr0 & _ & ->)|[Hn _]];
    [|by destruct (Hn r Hr)].
  rewrite Hr in Hr0. injection Hr0 as <-.
  destruct (KillSession _ _ _) as [ke w], (Release _ _ _) as [[e|] fs]; simpl; apply lookup_insert_eq.
Qed.

Lemma Close_closed m st id r now :
  sessions (tdb st) !! id = Some r → s_status r = Some StatusClosed →
  Close m st id now None None = (Some (ESent ErrNoRows), st).
Proof.
  intros Hr Hst. unfold Close, GetSession, CloseSession, update_where, status_is.
  rewrite Hr. unfold scan_session. rewrite Hst. simpl. by destruct st as [[] ? ?].
Qed.

Lemma Close_open m D st id r now :
  lock_site (tfs st) (LockDir m) D → sessions (tdb st) !! id = Some r → s_status r = Some StatusOpen →
  ∃ fs', Close m st id now None None =
    ((KillSession (TmuxOf m) (tmux st) (s_tmux r)).1,
     TermState (Tables (<[id := set_closed now r]> (sessions (tdb st))) (devices (tdb st))) fs'
       (KillSession (TmuxOf m) (tmux st) (s_tmux r)).2) ∧
  lock_site fs' (LockDir m) D ∧
  ∀ s, held fs' D s = negb (bool_decide (s = sanitize id)) && held (tfs st) D s.
Proof.
  intros HS Hr Hst. unfold Close, GetSession. rewrite Hr. unfold scan_session. rewrite Hst.
  cbn [TmuxSession].
  destruct (CloseSession_cases (tdb st) id now) as [(r0 & Hr0 & _ & ->)|[Hn _]];
    [|by destruct (Hn r Hr)].
  rewrite Hr in Hr0. injection Hr0 as <-.
  destruct (KillSession _ _ _) as [ke w].
  destruct (Release_spec (tfs st) (LockDir m) D id HS) as (fs' & -> & HS' & Hheld & _). by exists fs'.
Qed.

(** Closing an open session marks its row closed and releases its lock even if tmux fails,
    removes exactly its tmux session if tmux does not fail, and a second Close reports that
    there is no such open session and changes nothing. *)
Lemma Close_ends_the_session m D st id r now :
  lock_site (tfs st) (LockDir m) D → sessions (tdb st) !! id = Some r → s_status r = Some StatusOpen →
  let st' := (Close m st id now None None).2 in
  (∃ r', sessions (tdb st') !! id = Some r' ∧ s_status r' = Some StatusClosed) ∧
  Held (tfs st') (LockDir m) id = false ∧
  (s_tmux r ∈ tmux_sessions (tmux st) → (Close m st id now None None).1 = None →
     tmux_sessions (tmux st') = tmux_sessions (tmux st) ∖ {[s_tmux r]}) ∧
  Close m st' id now None None = (Some (ESent ErrNoRows), st').
Proof.
  intros HS Hr Hst st'. unfold st'.
  destruct (Close_open m D st id r now HS Hr Hst) as (fs' & -> & HS' & Hheld). cbn [fst snd tdb tfs tmux].
  pose proof (KillSession_sessions (TmuxOf m) (tmux st) (s_tmux r)) as HK. cbv zeta in HK.
  split_and!.
  - eexists. cbn [sessions]. by rewrite lookup_insert_eq.
  - by rewrite (Held_spec _ _ D id HS'), Hheld, bool_decide_eq_true_2.
  - intros Hin E. rewrite E in HK. by apply HK.
  - eapply Close_closed; [simpl; apply lookup_insert_eq|done].
Qed.
End manager.

(** ** Concrete sessions *)

Section examples.
#[local] Existing Instances set_tmux set_tmux_spec.

Definition demo_manager : Manager := MkManager DefaultDir NewTmux.
Definition demo_start : term_state (W := gset string) := TermState empty_db lock_fs ∅.

Definition demo_calls : list (term_call (W := gset string)) :=
  [MCreate "one" "/" "sh" (Ok [10]) 5 None None; MCreate "two" "" "" (Ok [11]) 6 None None;
   MTmux {["ccr-0b"]}; MClose "0a" 7 None None; MClose "0a" 8 None None].

Lemma locked_exactly_while_open_witness :
  Held (tfs (term_run demo_manager demo_start demo_calls)) DefaultDir "0b" = true.
Proof.
  apply (locked_exactly_while_open demo_manager lock_dir_loc demo_start demo_calls "0b");
    [apply lock_fs_site|done|apply lock_fs_represents|by repeat constructor|by vm_compute|].
  eexists. by split; [by vm_compute|].
Defined.

Definition demo_created : result Session * term_state (W := gset string) :=
  Create demo_manager demo_start "one" "/" "sh" (Ok [10]) 5 None None.

Definition demo_session : Session := MkSession "0a" "one" "ccr-0a" "/" "sh" "open" 5 5.

Lemma Create_starts_a_session_witness : GetSession (tdb demo_created.2) "0a" None = Ok demo_session.
Proof.
  destruct (Create_starts_a_session demo_manager lock_dir_loc demo_start "one" "/" "sh" [10] 5
    demo_session demo_created.2) as (_ & HG & _);
    [apply lock_fs_site|by repeat constructor|reflexivity|exact HG].
Defined.

(** The tmux session is gone, its row is not: the INSERT fails. *)
Definition demo_stale : term_state (W := gset string) := TermState (tdb demo_created.2) lock_fs ∅.

Lemma failed_create_changes_nothing_witness :
  tmux_sessions (tmux (Create demo_manager demo_stale "again" "/" "sh" (Ok [10]) 5 None None).2) = ∅.
Proof.
  destruct (failed_create_changes_nothing demo_manager lock_dir_loc demo_stale
    "again" "/" "sh" [10] 5 None
    (EWrap "create session 0a: " (ESent ErrConstraint) "")
    (Create demo_manager demo_stale "again" "/" "sh" (Ok [10]) 5 None None).2) as (_ & _ & Ht);
    [apply lock_fs_site|by repeat constructor|done| |by vm_compute|exact Ht].
  intros w Hw. unfold KillSession, run. cbn. by rewrite decide_True.
Defined.

Lemma demo_match : locks_match demo_manager lock_dir_loc demo_start.
Proof.
  apply locks_match_start; [apply lock_fs_site|done|apply lock_fs_represents].
Qed.

Lemma Close_ends_the_session_witness :
  Held (tfs (Close demo_manager demo_created.2 "0a" 7 None None).2) DefaultDir "0a" = false.
Proof.
  destruct (Close_ends_the_session demo_manager lock_dir_loc demo_created.2 "0a"
    (SessionRow (Some "one") "ccr-0a" (Some "/") (Some "sh") (Some "open") (Some 5) (Some 5)) 7)
    as (_ & Hh & _); [|by vm_compute|done|exact Hh].
  assert (locks_match demo_manager lock_dir_loc demo_created.2) as HL; [|apply HL].
  apply (locks_match_create demo_manager lock_dir_loc demo_start "one" "/" "sh" (Ok [10]) 5 None None);
    [by repeat constructor|apply demo_match].
Defined.

(** A lock directory on a full disk. *)
Definition full_disk : FS :=
  MkFS lock_nodes [] (λ op _, match op with SOpen => Some (EMsg "no space left on device") | _ => None end)
    (λ _, 0%nat) (5 * Second) (λ _, 0).

(** The row and the tmux session are not taken back when the lock cannot be
    made: Create fails, and an open session nobody asked for stays, unlocked. *)
Lemma lock_failure_leaves_a_session :
  let st := TermState empty_db full_disk ∅ in
  let r := Create demo_manager st "one" "/" "sh" (Ok [10]) 5 None None in
  is_ok r.1 = false ∧ open_in (tdb r.2) "0a" ∧ "ccr-0a" ∈ tmux_sessions (tmux r.2) ∧
  Held (tfs r.2) DefaultDir "0a" = false.
Proof.
  split_and!; [by vm_compute| |by vm_compute|by vm_compute].
  eexists. by split; [by vm_compute|].
Qed.
End examples.
