(* ===== verification/Stream.v ===== *)
(** * terminal/http.go: the WebSocket stream of a session

    After the handshake two goroutines share one connection: one copies what
    the PTY prints to the client, the other handles the client's messages. A
    [stream_event] is one iteration of either of them, so that a list of
    events is one interleaving. Each event carries the outcomes of the calls it
    makes on the connection, the PTY and the database. When the second loop has
    ended the handler waits for the first, a second at most, and then closes the
    attachment and the connection under it; those are events too. *)

From S2P Require Import Prelude GoStr Database.

(** ** Messages *)

(** The [uint16] fields are numbers below 2^16. *)
Record clientMessage := ClientMessage {
  cm_type : string;
  cm_data : string;
  cm_cols : Z;
  cm_rows : Z;
}.

Record serverMessage := ServerMessage {
  sm_type : string;
  sm_data : string;
}.

Definition output_message (raw : string) : serverMessage :=
  ServerMessage "output" (b64_encode true (bytes raw)).

Definition exit_message : serverMessage := ServerMessage "exit" "".

(** What an "input" message types: its data decoded, or else as it is. *)
Definition input_bytes (data : string) : string :=
  match b64_decode true data with Some raw => of_bytes raw | None => data end.

(** ** State *)

(** The PTY of an attachment: once it is closed only a read that was under way
    can still give something. *)
Inductive pty_file := PtyOpen | PtyClosing | PtyClosed.

Record stream_state := StreamState {
  reading : bool;                    (* the goroutine PTY -> client runs *)
  handling : bool;                   (* the loop client -> PTY runs *)
  sent : list serverMessage;         (* what reached the connection, in order *)
  typed : list string;               (* what was written to the PTY, in order *)
  window : Z * Z;                    (* columns and rows of the PTY *)
  pty : pty_file;
  connected : bool;                  (* the connection has not been closed here *)
}.

Inductive stream_event :=
  | PtyRead (data : string) (read_err send_err : error)
  | Receive (msg : clientMessage) (write_err : option (nat * goerr)) (resize_err : error) (now : Z) (io : error)
  | ReceiveError
  | Leave (timed_out : bool)         (* the select after the loop, and att.Close *)
  | Hangup.                          (* conn.Close *)

(** Attachment.Resize: a zero size is ignored. *)
Definition Resize (w : Z * Z) (cols rows : Z) (setsize : error) : error * (Z * Z) :=
  if (cols =? 0) || (rows =? 0) then (None, w)
  else match setsize with Some e => (Some e, w) | None => (None, (cols, rows)) end.

Definition deliver (s : list serverMessage) (m : serverMessage) (err : error) : list serverMessage :=
  match err with None => s ++ [m] | Some _ => s end.

(** att.PTY.Read: what the PTY gives, as long as there is one. *)
Definition Read (p : pty_file) (data : string) (read_err : error) : string * error :=
  match p with
  | PtyClosed => ("", Some (EMsg "read /dev/ptmx: file already closed"))
  | _ => (data, read_err)
  end.

Definition read_pty (p : pty_file) : pty_file :=
  match p with PtyOpen => PtyOpen | _ => PtyClosed end.

(** [send]: what sending gives, as long as the connection is open. *)
Definition send (st : stream_state) (send_err : error) : error :=
  if connected st then send_err else Some (EMsg "use of closed network connection").

(** One iteration of the goroutine that reads the PTY. *)
Definition pty_step (st : stream_state) (data : string) (read_err send_err : error) : stream_state :=
  let '(data, read_err) := Read (pty st) data read_err in
  let send_err := send st send_err in
  let p := read_pty (pty st) in
  let sent1 := if String.eqb data "" then sent st else deliver (sent st) (output_message data) send_err in
  if negb (String.eqb data "") && match send_err with Some _ => true | None => false end
  then StreamState false (handling st) sent1 (typed st) (window st) p (connected st)
  else match read_err with
  | Some _ =>
     StreamState false (handling st) (deliver sent1 exit_message send_err) (typed st) (window st) p (connected st)
  | None => StreamState true (handling st) sent1 (typed st) (window st) p (connected st)
  end.

(** One iteration of the loop over the client's messages, with the sessions
    table it touches. A write that fails can have typed some of the bytes; the
    [break] after it leaves the [switch] it is in. *)
Definition client_step (id : string) (st : stream_state) (d : DB) (msg : clientMessage)
    (write_err : option (nat * goerr)) (resize_err : error) (now : Z) (io : error) : stream_state * DB :=
  if String.eqb (cm_type msg) "input" then
    let raw := input_bytes (cm_data msg) in
    match write_err with
    | Some (n, _) =>
       (StreamState (reading st) true (sent st) (typed st ++ [String.substring 0 n raw]) (window st)
          (pty st) (connected st), d)
    | None =>
       (StreamState (reading st) true (sent st) (typed st ++ [raw]) (window st) (pty st) (connected st),
        (TouchSession d id now io).2)
    end
  else if String.eqb (cm_type msg) "resize" then
    (StreamState (reading st) true (sent st) (typed st)
       (Resize (window st) (cm_cols msg) (cm_rows msg) resize_err).2 (pty st) (connected st),
     (TouchSession d id now io).2)
  else (st, d).

(** Attachment.Close: the tmux client is gone, its session is not. A read that
    the goroutine has begun is still to return. *)
Definition Close_attachment (st : stream_state) : stream_state :=
  StreamState (reading st) (handling st) (sent st) (typed st) (window st)
    (if reading st then PtyClosing else PtyClosed) (connected st).

(** After the loop: the [select] is left when the goroutine is done or the
    second is over. *)
Definition leave (st : stream_state) (timed_out : bool) : stream_state :=
  match pty st with
  | PtyOpen => if negb (handling st) && (negb (reading st) || timed_out) then Close_attachment st else st
  | _ => st
  end.

(** The deferred conn.Close, which runs after att.Close. *)
Definition hangup (st : stream_state) : stream_state :=
  match pty st with
  | PtyOpen => st
  | p => StreamState (reading st) (handling st) (sent st) (typed st) (window st) p false
  end.

(** An event of a goroutine that has ended is none. *)
Definition stream_step (id : string) (s : stream_state * DB) (e : stream_event) : stream_state * DB :=
  let '(st, d) := s in
  match e with
  | PtyRead data read_err send_err =>
     (if reading st then pty_step st data read_err send_err else st, d)
  | Receive msg we re now io => if handling st then client_step id st d msg we re now io else (st, d)
  | ReceiveError =>
     (if handling st
      then StreamState (reading st) false (sent st) (typed st) (window st) (pty st) (connected st)
      else st, d)
  | Leave timed_out => (leave st timed_out, d)
  | Hangup => (hangup st, d)
  end.

(** The stream as it starts, with the screen the client is sent first. *)
Definition stream_start (snapshot : string) : stream_state :=
  StreamState true true (if String.eqb snapshot "" then [] else [output_message snapshot]) [] (80, 24)
    PtyOpen true.

(** What the connection goes through does not depend on the table, which other
    requests change between the events. *)
Definition conn_step (st : stream_state) (e : stream_event) : stream_state :=
  (stream_step "" (st, empty_db) e).1.

Lemma stream_step_conn id st d e : (stream_step id (st, d) e).1 = conn_step st e.
Proof.
  unfold conn_step. destruct e as [data re se|msg we re now io| |t|]; simpl; [done| |done..].
  destruct (handling st); [|done]. unfold client_step.
  destruct (String.eqb _ "input"); [by destruct we as [[]|]|]. by destruct (String.eqb _ "resize").
Qed.

Definition conn_run (st : stream_state) (es : list stream_event) : stream_state := fold_left conn_step es st.

(** ** What each side sees *)

(** The terminal bytes of the messages a client has received. *)
Definition shown (ms : list serverMessage) : string :=
  fold_right (λ m acc, (if String.eqb (sm_type m) "output" then input_bytes (sm_data m) else "") +:+ acc) "" ms.

(** The bytes the goroutine reads from the PTY, and whether a send failed. *)
Fixpoint printed (es : list stream_event) : string :=
  match es with
  | [] => ""
  | PtyRead data None _ :: es' => data +:+ printed es'
  | PtyRead data (Some _) _ :: es' => data
  | _ :: es' => printed es'
  end.

(** While sending succeeds and the handler runs. *)
Definition undisturbed (es : list stream_event) : Prop :=
  Forall (λ e, match e with PtyRead _ _ (Some _) | Leave _ | Hangup => False | _ => True end) es.

(** The messages the loop handles, up to the first failure to receive one. *)
Fixpoint received (es : list stream_event) : list (clientMessage * option (nat * goerr)) :=
  match es with
  | [] => []
  | Receive msg we _ _ _ :: es' => (msg, we) :: received es'
  | ReceiveError :: _ => []
  | _ :: es' => received es'
  end.

(** What they type: all of a message's bytes, or those that went through. *)
Definition keystrokes (ms : list (clientMessage * option (nat * goerr))) : list string :=
  omap (λ p, if String.eqb (cm_type p.1) "input"
             then Some match p.2 with
                       | None => input_bytes (cm_data p.1)
                       | Some (n, _) => String.substring 0 n (input_bytes (cm_data p.1))
                       end
             else None) ms.

Lemma input_bytes_encoded raw : input_bytes (b64_encode true (bytes raw)) = raw.
Proof. unfold input_bytes. by rewrite b64_decode_encode, of_bytes_bytes by apply bytes_range. Qed.

Lemma shown_app a b : shown (a ++ b) = shown a +:+ shown b.
Proof.
  induction a as [|m a IH]; [done|]. cbn [app shown fold_right]. fold (shown (a ++ b)) (shown a).
  by rewrite IH, app_str_assoc.
Qed.

Lemma shown_output raw : shown [output_message raw] = raw.
Proof. cbn. rewrite input_bytes_encoded. apply app_str_nil_r. Qed.

Lemma shown_exit : shown [exit_message] = "".
Proof. done. Qed.

(** ** Raw bytes in both directions, whatever the interleaving *)

(** The handler has not left. *)
Definition attached (st : stream_state) : Prop := pty st = PtyOpen ∧ connected st = true.

Lemma client_step_sides id st d msg we re now io :
  let st' := (client_step id st d msg we re now io).1 in
  reading st' = reading st ∧ sent st' = sent st ∧ (handling st = true → handling st' = true) ∧
  typed st' = typed st ++ keystrokes [(msg, we)] ∧ pty st' = pty st ∧ connected st' = connected st.
Proof.
  unfold client_step, keystrokes. simpl.
  destruct (String.eqb (cm_type msg) "input"); [destruct we as [[]|]|destruct (String.eqb _ _)];
    simpl; rewrite ?app_nil_r; by split_and!.
Qed.

Lemma pty_step_sides st data re se :
  let st' := pty_step st data re se in
  handling st' = handling st ∧ typed st' = typed st ∧ pty st' = read_pty (pty st) ∧
  connected st' = connected st.
Proof. unfold pty_step. destruct (Read _ _ _) as [data' re']. destruct (_ && _); [done|]. by destruct re'. Qed.

Lemma pty_step_shown st data re :
  attached st →
  let st' := pty_step st data re None in
  shown (sent st') = shown (sent st) +:+ data ∧
  reading st' = match re with None => true | Some _ => false end.
Proof.
  intros [Hp Hc]. unfold pty_step, send. rewrite Hp, Hc. simpl. rewrite andb_false_r.
  assert (shown (if String.eqb data "" then sent st else deliver (sent st) (output_message data) None)
    = shown (sent st) +:+ data) as E.
  { destruct (String.eqb_spec data "") as [->|_]; [by rewrite app_str_nil_r|].
    unfold deliver. by rewrite shown_app, shown_output. }
  destruct re as [e|]; simpl; [|done]. split; [|done].
  by rewrite shown_app, shown_exit, app_str_nil_r.
Qed.

Lemma run_shown es st :
  attached st → undisturbed es →
  shown (sent (conn_run st es)) = shown (sent st) +:+ (if reading st then printed es else "").
Proof.
  intros Ha HF. revert st Ha. induction HF as [|e es He HF IH]; intros st Ha; simpl.
  { destruct (reading st); by rewrite app_str_nil_r. }
  change (shown (sent (conn_run (conn_step st e) es)) = shown (sent st) +:+
    (if reading st then printed (e :: es) else "")).
  unfold conn_step. destruct e as [data re [se|]|msg we re now io| |t|]; simpl; try done.
  - destruct (reading st) eqn:ER; [|by rewrite IH, ER].
    destruct (pty_step_shown st data re Ha) as [Hs Hr].
    destruct (pty_step_sides st data re None) as (_ & _ & Hp & Hc). destruct Ha as [Ha1 Ha2].
    rewrite IH, Hs, Hr by (split; [by rewrite Hp, Ha1|by rewrite Hc]).
    destruct re; [by rewrite app_str_nil_r|by rewrite app_str_assoc].
  - destruct (handling st) eqn:EH; [|by apply IH].
    destruct (client_step_sides "" st empty_db msg we re now io) as (Hr & Hs & _ & _ & Hp & Hc).
    destruct Ha as [Ha1 Ha2]. by rewrite IH, Hr, Hs by (split; [by rewrite Hp|by rewrite Hc]).
  - destruct (handling st); by rewrite IH by exact Ha.
Qed.

Lemma leave_sides st t :
  reading (leave st t) = reading st ∧ handling (leave st t) = handling st ∧ sent (leave st t) = sent st ∧
  typed (leave st t) = typed st.
Proof. unfold leave. destruct (pty st); [by destruct (_ && _)|done..]. Qed.

Lemma hangup_sides st :
  reading (hangup st) = reading st ∧ handling (hangup st) = handling st ∧ sent (hangup st) = sent st ∧
  typed (hangup st) = typed st.
Proof. unfold hangup. by destruct (pty st). Qed.

Lemma run_typed es st :
  typed (conn_run st es) = typed st ++ (if handling st then keystrokes (received es) else []).
Proof.
  revert st. induction es as [|e es IH]; intros st; simpl.
  { destruct (handling st); by rewrite app_nil_r. }
  fold (conn_run (conn_step st e) es). rewrite IH. unfold conn_step.
  destruct e as [data re se|msg we re now io| |t|]; simpl.
  - destruct (reading st); [|done]. by destruct (pty_step_sides st data re se) as (-> & -> & _).
  - destruct (handling st) eqn:EH; simpl; [|by rewrite ?EH].
    destruct (client_step_sides "" st empty_db msg we re now io) as (_ & _ & Hh & -> & _).
    rewrite (Hh EH). unfold keystrokes. rewrite <- app_assoc. f_equal. simpl.
    by destruct (String.eqb _ _).
  - destruct (handling st) eqn:EH; simpl; [|by rewrite ?EH]. done.
  - by destruct (leave_sides st t) as (_ & -> & _ & ->).
  - by destruct (hangup_sides st) as (_ & -> & _ & ->).
Qed.

(** From the start, while sending succeeds and the handler runs. *)
Lemma conn_transparent snapshot es :
  undisturbed es →
  shown (sent (conn_run (stream_start snapshot) es)) = snapshot +:+ printed es ∧
  typed (conn_run (stream_start snapshot) es) = keystrokes (received es).
Proof.
  intros HF. rewrite run_shown, run_typed by done. split; [|done].
  unfold stream_start; simpl. destruct (String.eqb_spec snapshot "") as [->|_]; [done|].
  by rewrite shown_output.
Qed.

(** Plain text that happens to be base64 is decoded all the same. *)
Lemma plain_text_is_garbled : input_bytes "exit" ≠ "exit" ∧ input_bytes "ls" = "ls".
Proof. by vm_compute. Qed.

(** While the handler waits for the goroutine the PTY is still open, so that
    there is nothing for the goroutine to notice. *)
Lemma waits_with_the_pty_open st :
  pty st = PtyOpen → reading st = true → leave st false = st ∧ pty (leave st false) = PtyOpen.
Proof. intros Hp Hr. unfold leave. rewrite Hp, Hr. simpl. by rewrite andb_false_r. Qed.

(** A failed write to the PTY does not end the loop. *)
Lemma write_error_keeps_loop id st d data n e re now io :
  handling st = true →
  let st' := (stream_step id (st, d) (Receive (ClientMessage "input" data 0 0) (Some (n, e)) re now io)).1 in
  handling st' = true ∧ reading st' = reading st ∧ sent st' = sent st.
Proof. intros Hh. simpl. by rewrite Hh. Qed.

(** ** A stream whose client has gone ends *)

Definition ended (st : stream_state) : Prop :=
  reading st = false ∧ handling st = false ∧ pty st ≠ PtyOpen ∧ connected st = false.

Lemma ended_step id st d e : ended st → stream_step id (st, d) e = (st, d).
Proof.
  intros (Hr & Hh & Hp & Hc). destruct st as [r h s t w p c]; simpl in *. subst.
  destruct e as [| | |t'|]; simpl; [done..| |]; unfold leave, hangup; simpl; by destruct p.
Qed.

Lemma ended_run st es : ended st → conn_run st es = st.
Proof.
  intros He. induction es as [|e es IH]; [done|]. change (conn_run (conn_step st e) es = st).
  unfold conn_step. by rewrite ended_step.
Qed.

(** How far the handler has come, and the goroutine. *)
Definition handler_phase (n : nat) (st : stream_state) : Prop :=
  match n with
  | 0%nat => True
  | 1%nat => handling st = false
  | 2%nat => handling st = false ∧ pty st ≠ PtyOpen
  | _ => handling st = false ∧ pty st ≠ PtyOpen ∧ connected st = false
  end.

Definition reader_phase (n : nat) (st : stream_state) : Prop :=
  match n with
  | 0%nat => True
  | 1%nat => handling st = false
  | 2%nat => handling st = false ∧ pty st ≠ PtyOpen
  | 3%nat => handling st = false ∧ pty st ≠ PtyOpen ∧ (reading st = false ∨ pty st = PtyClosed)
  | _ => handling st = false ∧ pty st ≠ PtyOpen ∧ reading st = false
  end.

(** Nothing that has ended starts again. *)
Lemma conn_step_keeps st e :
  (handling st = false → handling (conn_step st e) = false) ∧
  (pty st ≠ PtyOpen → pty (conn_step st e) ≠ PtyOpen) ∧
  (pty st = PtyClosed → pty (conn_step st e) = PtyClosed) ∧
  (connected st = false → connected (conn_step st e) = false) ∧
  (reading st = false → reading (conn_step st e) = false).
Proof.
  unfold conn_step. destruct e as [data re se|msg we re now io| |t|]; simpl.
  - destruct (reading st) eqn:ER; [|rewrite ?ER; intuition congruence].
    destruct (pty_step_sides st data re se) as (-> & _ & -> & ->). destruct (pty st); simpl; intuition congruence.
  - destruct (handling st) eqn:EH; [|rewrite ?EH; intuition congruence].
    destruct (client_step_sides "" st empty_db msg we re now io) as (-> & _ & _ & _ & -> & ->). intuition congruence.
  - destruct (handling st) eqn:EH; simpl; rewrite ?EH; intuition congruence.
  - unfold leave. destruct (pty st) eqn:EP; simpl; rewrite ?EP; [|intuition congruence..].
    destruct (_ && _); simpl; rewrite ?EP; [by destruct (reading st); intuition|intuition congruence].
  - unfold hangup. destruct (pty st) eqn:EP; simpl; rewrite ?EP; intuition congruence.
Qed.

Lemma phases_run (P : nat → stream_state → Prop) :
  (∀ n st e, P n st → P n (conn_step st e)) →
  ∀ steps es, steps `sublist_of` es → ∀ n st,
  (∀ i e st', steps !! i = Some e → P (n + i)%nat st' → P (S (n + i)) (conn_step st' e)) →
  P n st → P (n + length steps)%nat (conn_run st es).
Proof.
  intros Hkeep steps es Hsub.
  induction Hsub as [|e steps es Hsub IH|e steps es Hsub IH]; intros n st Hnext HP; simpl.
  - by rewrite Nat.add_0_r.
  - rewrite Nat.add_succ_r. apply (IH (S n)).
    + intros i e' st' Hi HPi. specialize (Hnext (S i) e' st' Hi).
      rewrite Nat.add_succ_r in Hnext. by apply Hnext.
    + specialize (Hnext 0%nat e st eq_refl). rewrite Nat.add_0_r in Hnext. by apply Hnext.
  - apply IH; [done|by apply Hkeep].
Qed.

Lemma handler_phase_keeps n st e : handler_phase n st → handler_phase n (conn_step st e).
Proof. destruct (conn_step_keeps st e) as (?&?&?&?&?). destruct n as [|[|[|n]]]; simpl; tauto. Qed.

Lemma reader_phase_keeps n st e : reader_phase n st → reader_phase n (conn_step st e).
Proof. destruct (conn_step_keeps st e) as (?&?&?&?&?). destruct n as [|[|[|[|n]]]]; simpl; tauto. Qed.

Lemma receive_error_step st : handling (conn_step st ReceiveError) = false.
Proof. unfold conn_step; simpl. by destruct (handling st) eqn:E. Qed.

Lemma leave_step st :
  handling st = false → handling (conn_step st (Leave true)) = false ∧ pty (conn_step st (Leave true)) ≠ PtyOpen.
Proof.
  intros Hh. unfold conn_step; simpl. unfold leave. rewrite Hh, orb_true_r.
  destruct (pty st) eqn:EP; simpl; rewrite ?EP; [|done..]. by destruct (reading st).
Qed.

Lemma hangup_step st : pty st ≠ PtyOpen → connected (conn_step st Hangup) = false.
Proof. unfold conn_step; simpl. unfold hangup. by destruct (pty st). Qed.

(** The read after the attachment is closed can be the one that was under way;
    the one after that fails. *)
Lemma read_closing_step st data re se :
  pty st ≠ PtyOpen →
  reading (conn_step st (PtyRead data re se)) = false ∨ pty (conn_step st (PtyRead data re se)) = PtyClosed.
Proof.
  intros Hp. unfold conn_step; simpl. destruct (reading st) eqn:ER; [|by left]. right.
  destruct (pty_step_sides st data re se) as (_ & _ & -> & _). by destruct (pty st).
Qed.

Lemma read_closed_step st data re se :
  reading st = false ∨ pty st = PtyClosed → reading (conn_step st (PtyRead data re se)) = false.
Proof.
  unfold conn_step; simpl. destruct (reading st) eqn:ER; [|done]. intros [|Hp]; [done|].
  unfold pty_step. by rewrite Hp.
Qed.

(** Once receiving has failed and the second is over, the handler closes what
    it has opened, and two iterations later the goroutine has ended. *)
Lemma abandoned_ends st es data re se data' re' se' :
  [ReceiveError; Leave true; Hangup] `sublist_of` es →
  [ReceiveError; Leave true; PtyRead data re se; PtyRead data' re' se'] `sublist_of` es →
  ended (conn_run st es).
Proof.
  intros HA HB.
  destruct (phases_run handler_phase handler_phase_keeps _ _ HA 0 st) as (Hh & Hp & Hc); [|done|].
  { intros [|[|[|i]]] e st'; simpl; intros [= <-].
    - intros _. apply receive_error_step.
    - apply leave_step.
    - intros [Hh Hp]. destruct (conn_step_keeps st' Hangup) as (?&?&_).
      split_and!; [by auto..|by apply hangup_step]. }
  destruct (phases_run reader_phase reader_phase_keeps _ _ HB 0 st) as (_ & _ & Hr); [|done|done].
  intros [|[|[|[|i]]]] e st'; simpl; intros [= <-].
  - intros _. apply receive_error_step.
  - apply leave_step.
  - intros [? ?]. destruct (conn_step_keeps st' (PtyRead data re se)) as (?&?&_).
    split_and!; [by auto..|by apply read_closing_step].
  - intros (? & ? & ?). destruct (conn_step_keeps st' (PtyRead data' re' se')) as (?&?&_).
    split_and!; [by auto..|by apply read_closed_step].
Qed.
