(* ===== verification/SessionRace.v ===== *)
(** * Terminal sessions whose requests overlap

    [Create] and [Close] of a [Manager] hold no lock of their own: each goes
    from one store to the next (tmux, the sessions table, the lock directory).
    Here every visit of a store is a step of a thread, and threads take turns in
    any order; the commands one visit sends to tmux stay together. Rename and
    the touches of the streams are single statements. *)

From S2P Require Import Prelude GoStr Path Fs Database Locks Tmux Manager Threads.
From Stdlib Require Import Strings.Byte.

Inductive session_thread :=
  | Creating (name cwd shell : string)
  | Started (id name cwd shell : string)          (* the tmux session runs *)
  | Undoing (e : goerr) (tname : string)           (* the INSERT failed *)
  | Rowed (id : string)                            (* the row is there, the lock is not *)
  | Locked (id : string)
  | Made (r : result Session)
  | Closing (id : string)
  | Found (id : string) (s : Session)
  | Marked (id : string) (s : Session)             (* the row is closed, the lock is still there *)
  | Killed (id : string) (killErr : error)
  | Ended (e : error).

(** What a step finds around it: random bytes, the clock, and the driver's
    answers to the INSERT, the SELECT and the UPDATE. *)
Record session_env := SessionEnv {
  se_rand : result (list byte);
  se_now : Z;
  se_insert : error;
  se_select : error;
  se_update : error;
}.

Definition random_bytes (r : result (list byte)) : result (list Z) :=
  match r with Ok bs => Ok (map (λ b, Z.of_N (Byte.to_N b)) bs) | Err e => Err e end.

Section session_race.
Context {W : Type} `{TmuxBinary W}.
Variable m : Manager.
Implicit Types st : term_state (W := W).

Definition create_turn st (t : session_thread) (x : session_env)
    : option (session_thread * term_state (W := W)) :=
  match t with
  | Creating name cwd shell =>
     match NewID (random_bytes (se_rand x)) with
     | Err e => Some (Made (Err e), st)
     | Ok id =>
        match NewSession (TmuxOf m) (tmux st) (tmux_name_of id) cwd shell with
        | (Some e, w) => Some (Made (Err e), with_tmux st w)
        | (None, w) => Some (Started id name cwd shell, with_tmux st w)
        end
     end
  | Started id name cwd shell =>
     match CreateSession (tdb st) (MkSession id name (tmux_name_of id) cwd shell "" 0 0)
             (se_now x) (se_insert x) with
     | (Some e, _) => Some (Undoing e (tmux_name_of id), st)
     | (None, d) => Some (Rowed id, with_tdb st d)
     end
  | Undoing e tname => Some (Made (Err e), with_tmux st (KillSession (TmuxOf m) (tmux st) tname).2)
  | Rowed id =>
     match Acquire (tfs st) (LockDir m) id with
     | (Some e, fs) => Some (Made (Err e), with_tfs st fs)
     | (None, fs) => Some (Locked id, with_tfs st fs)
     end
  | Locked id => Some (Made (GetSession (tdb st) id (se_select x)), st)
  | _ => None
  end.

Definition close_turn st (t : session_thread) (x : session_env)
    : option (session_thread * term_state (W := W)) :=
  match t with
  | Closing id =>
     match GetSession (tdb st) id (se_select x) with
     | Err e => Some (Ended (Some e), st)
     | Ok s => Some (Found id s, st)
     end
  | Found id s =>
     match CloseSession (tdb st) id (se_now x) (se_update x) with
     | (Some e, d) => Some (Ended (Some e), with_tdb st d)
     | (None, d) => Some (Marked id s, with_tdb st d)
     end
  | Marked id s =>
     let '(killErr, w) := KillSession (TmuxOf m) (tmux st) (TmuxSession s) in
     Some (Killed id killErr, with_tmux st w)
  | Killed id killErr =>
     match Release (tfs st) (LockDir m) id with
     | (Some e, fs) => Some (Ended (Some e), with_tfs st fs)
     | (None, fs) => Some (Ended killErr, with_tfs st fs)
     end
  | _ => None
  end.

Definition session_turn st (t : session_thread) (x : session_env)
    : option (session_thread * term_state (W := W)) :=
  match t with
  | Closing _ | Found _ _ | Marked _ _ | Killed _ _ => close_turn st t x
  | _ => create_turn st t x
  end.

Definition one_statement (c : term_call (W := W)) : bool :=
  match c with MCreate _ _ _ _ _ _ _ | MClose _ _ _ _ => false | _ => true end.

#[export] Instance session_threads : Threads (term_state (W := W)) session_thread session_env (term_call (W := W)) := {
  arriving t := match t with Creating _ _ _ | Closing _ => true | _ => false end;
  finished t := match t with Made _ | Ended _ => true | _ => false end;
  thread_step := session_turn;
  section_of _ _ _ := None;
  other_step st c := if one_statement c then Some (term_step m st c) else None;
}.

(** ** A request nothing comes between *)

Lemma alone_create st name cwd shell x :
  alone 5 st (Creating name cwd shell) x =
    Some (prod_map Made (λ st', st')
      (Create m st name cwd shell (random_bytes (se_rand x)) (se_now x) (se_insert x) (se_select x))).
Proof.
  unfold Create. simpl. destruct (NewID _) as [id'|]; [|done].
  destruct (NewSession _ _ _ _ _) as [[e|] w]; [done|]. simpl.
  destruct (CreateSession _ _ _ _) as [[e|] d]; [done|]. simpl.
  by destruct (Acquire _ _ _) as [[e|] fs].
Qed.

Lemma alone_close st id x :
  alone 4 st (Closing id) x =
    Some (prod_map Ended (λ st', st') (Close m st id (se_now x) (se_select x) (se_update x))).
Proof.
  unfold Close. simpl. destruct (GetSession _ _ _) as [s|]; [|done]. simpl.
  destruct (CloseSession _ _ _ _) as [[e|] d]; [done|]. simpl.
  destruct (KillSession _ _ _) as [ke w]. simpl. by destruct (Release _ _ _) as [[e|] fs].
Qed.

Lemma uninterrupted_turns_make_the_call st name cwd shell id x :
  alone 5 st (Creating name cwd shell) x =
    Some (prod_map Made (λ st', st')
      (Create m st name cwd shell (random_bytes (se_rand x)) (se_now x) (se_insert x) (se_select x))) ∧
  alone 4 st (Closing id) x =
    Some (prod_map Ended (λ st', st') (Close m st id (se_now x) (se_select x) (se_update x))).
Proof. split; [apply alone_create|apply alone_close]. Qed.

(** ** Rows are never lost and never reopened *)

Definition closed_in (d : DB) (id : string) : Prop :=
  ∃ r, sessions d !! id = Some r ∧ s_status r = Some StatusClosed.

Definition known (d : DB) (id : string) : Prop := is_Some (sessions d !! id).

Lemma closed_not_open d id : closed_in d id → ¬ open_in d id.
Proof. intros (r & Hr & Hc) (r' & Hr' & Ho). by simplify_eq. Qed.

Lemma known_step d c id : known d id → known (db_step d c) id.
Proof.
  intros [r Hr]. pose proof (session_step d c id) as Hc. rewrite Hr in Hc. unfold known.
  by inversion Hc.
Qed.

Lemma closed_step d c id : closed_in d id → closed_in (db_step d c) id.
Proof.
  intros (r & Hr & Hst). pose proof (session_step d c id) as Hc. rewrite Hr in Hc. unfold closed_in.
  inversion Hc; subst; by eexists.
Qed.

Definition row_status (d : DB) (id : string) : option (option string) := s_status <$> sessions d !! id.

Lemma open_in_status d id : open_in d id ↔ row_status d id = Some (Some StatusOpen).
Proof. unfold open_in, row_status. rewrite fmap_Some. naive_solver. Qed.

Lemma closed_in_status d id : closed_in d id ↔ row_status d id = Some (Some StatusClosed).
Proof. unfold closed_in, row_status. rewrite fmap_Some. naive_solver. Qed.

Lemma known_status d id : known d id ↔ is_Some (row_status d id).
Proof. unfold known, row_status. by rewrite fmap_is_Some. Qed.

(** A single statement changes no status and no lock. *)
Lemma one_statement_keeps st c id :
  one_statement c = true →
  row_status (tdb (term_step m st c)) id = row_status (tdb st) id ∧ tfs (term_step m st c) = tfs st.
Proof.
  unfold row_status. destruct c as [ |id' name io| |id' now io|w]; intros Ho; try discriminate Ho; [| |done]; simpl.
  - unfold Rename, RenameSession. destruct io as [e|]; [done|].
    pose proof (update_keeps_status (tdb st) id' (set_name name) id (λ r, eq_refl)) as HU.
    by destruct (update_where _ _ _ _).
  - unfold TouchSession. destruct io as [e|]; [done|].
    pose proof (update_keeps_status (tdb st) id' (set_active now) id (λ r, eq_refl)) as HU.
    by destruct (update_where _ _ _ _).
Qed.

(** ** Open sessions are locked *)

Section invariant.
Variable D : loc.

(** What a thread relies on. *)
Definition relies (d : DB) (t : session_thread) : Prop :=
  match t with
  | Started id _ _ _ => sanitize id = id
  | Rowed id | Found id _ => known d id
  | Marked id _ | Killed id _ => closed_in d id
  | _ => True
  end.

Record race_inv st (ts : list session_thread) : Prop := {
  ri_site : lock_site (tfs st) (LockDir m) D;
  ri_ids id : known (tdb st) id → sanitize id = id;
  ri_relies t : t ∈ ts → relies (tdb st) t;
  ri_locked id : open_in (tdb st) id → held (tfs st) D id = true ∨ Rowed id ∈ ts;
}.

Lemma random_bytes_ok r buf : random_bytes r = Ok buf → Forall is_byte buf.
Proof.
  destruct r as [bs|]; [|done]. intros [= <-]. apply Forall_fmap, Forall_forall. intros b _. simpl.
  unfold is_byte. pose proof (Byte.to_N_bounded b). lia.
Qed.

(** A statement of the table that a turn runs, with what it changes. *)
Lemma relies_step d c t : relies d t → relies (db_step d c) t.
Proof. destruct t; simpl; auto using known_step, closed_step. Qed.

(** A turn that keeps the table and the locks, or only ends a thread that
    holds no lock back. *)
Lemma inv_quiet st st' ts k t t' :
  race_inv st ts → ts !! k = Some t → (∀ id, t ≠ Rowed id) →
  tdb st' = tdb st → tfs st' = tfs st → relies (tdb st) t' → race_inv st' (<[k := t']> ts).
Proof.
  intros [HS Hids Hr Hl] Hk Hne Hd Hf Ht'. split; rewrite ?Hd, ?Hf; [done|done| |].
  - intros t0 [->|Hin]%elem_of_update; [done|by apply Hr].
  - intros id [Hh|Hin]%Hl; [by left|]. right.
    destruct (elem_of_update_other ts k t' t (Rowed id) Hk Hin) as [E|]; [|done]. by destruct (Hne id).
Qed.

Lemma inv_started st ts k id name cwd shell x t' st' :
  race_inv st ts → ts !! k = Some (Started id name cwd shell) →
  session_turn st (Started id name cwd shell) x = Some (t', st') → race_inv st' (<[k := t']> ts).
Proof.
  intros HI Hk. pose proof HI as [HS Hids Hr Hl]. unfold session_turn, create_turn.
  set (s := MkSession id name (tmux_name_of id) cwd shell "" 0 0).
  pose proof (CreateSession_lookup (tdb st) s (se_now x) (se_insert x)) as HC.
  assert (sanitize id = id) as Hid.
  { apply (Hr (Started id name cwd shell)). by eapply list_elem_of_lookup_2. }
  pose proof (λ t0, relies_step (tdb st) (QCreate s, se_now x, se_insert x) t0) as Hrel. simpl in Hrel.
  destruct (CreateSession _ _ _ _) as [[e|] d]; simpl in *; intros [= <- <-]; [by eapply inv_quiet|].
  assert (∀ id0, id0 ≠ id → sessions d !! id0 = sessions (tdb st) !! id0) as Hne.
  { intros id0 Hn. rewrite HC. by rewrite bool_decide_eq_false_2. }
  assert (known d id) as Hkn by (unfold known; rewrite HC, bool_decide_eq_true_2 by done; by eexists).
  split; simpl; [done| | |].
  - intros id0. destruct (decide (id0 = id)) as [->|Hn]; [done|]. unfold known. rewrite Hne by done. apply Hids.
  - intros t0 [->|Hin]%elem_of_update; [done|]. by apply Hrel, Hr.
  - intros id0. destruct (decide (id0 = id)) as [->|Hn].
    + intros _. right. by eapply elem_of_update_new.
    + unfold open_in. rewrite Hne by done. intros [Hh|Hin]%Hl; [by left|]. right.
      by destruct (elem_of_update_other ts k (Rowed id) _ _ Hk Hin) as [[=]|].
Qed.

Lemma inv_rowed st ts k id x t' st' :
  race_inv st ts → ts !! k = Some (Rowed id) → session_turn st (Rowed id) x = Some (t', st') →
  race_inv st' (<[k := t']> ts).
Proof.
  intros [HS Hids Hr Hl] Hk. simpl.
  assert (known (tdb st) id) as Hkn by (apply (Hr (Rowed id)); by eapply list_elem_of_lookup_2).
  destruct (Acquire_spec (tfs st) (LockDir m) D id HS) as (fs' & -> & HS' & Hheld & _).
  intros [= <- <-]. split; simpl; [done|done| |].
  - intros t0 [->|Hin]%elem_of_update; [done|by apply Hr].
  - intros id0. rewrite Hheld, orb_true_iff, bool_decide_eq_true, (Hids id Hkn).
    intros [Hh|Hin]%Hl; [by left; right|].
    destruct (elem_of_update_other ts k (Locked id) _ _ Hk Hin) as [[= ->]|]; [by left; left|by right].
Qed.

Lemma inv_found st ts k id s x t' st' :
  race_inv st ts → ts !! k = Some (Found id s) → session_turn st (Found id s) x = Some (t', st') →
  race_inv st' (<[k := t']> ts).
Proof.
  intros HI Hk. pose proof HI as [HS Hids Hr Hl]. simpl.
  pose proof (λ t0, relies_step (tdb st) (QClose id, se_now x, se_update x) t0) as Hrel. simpl in Hrel.
  destruct (se_update x) as [e|]; [intros [= <- <-]; by eapply inv_quiet|].
  destruct (CloseSession_cases (tdb st) id (se_now x)) as [(r & Hrow & Hst & HC)|[_ HC]];
    rewrite HC in Hrel |- *; intros [= <- <-]; [|by eapply inv_quiet].
  set (d := Tables _ _) in *.
  assert (∀ id0, known d id0 ↔ known (tdb st) id0) as Hkn.
  { intros id0. unfold known, d; simpl. destruct (decide (id0 = id)) as [->|Hn].
    - rewrite lookup_insert_eq, Hrow. split; by eexists.
    - by rewrite lookup_insert_ne. }
  assert (closed_in d id) as Hcl by (eexists; split; [apply lookup_insert_eq|done]).
  split; simpl; [done| | |].
  - intros id0. rewrite Hkn. apply Hids.
  - intros t0 [->|Hin]%elem_of_update; [done|]. by apply Hrel, Hr.
  - intros id0 Ho. destruct (decide (id0 = id)) as [->|Hn]; [by destruct (closed_not_open d id Hcl)|].
    unfold open_in, d in Ho; simpl in Ho. rewrite lookup_insert_ne in Ho by done.
    destruct (Hl id0 Ho) as [Hh|Hin]; [by left|]. right.
    by destruct (elem_of_update_other ts k (Marked id s) _ _ Hk Hin) as [[=]|].
Qed.

Lemma inv_killed st ts k id ke x t' st' :
  race_inv st ts → ts !! k = Some (Killed id ke) → session_turn st (Killed id ke) x = Some (t', st') →
  race_inv st' (<[k := t']> ts).
Proof.
  intros [HS Hids Hr Hl] Hk. simpl.
  assert (closed_in (tdb st) id) as Hcl by (apply (Hr (Killed id ke)); by eapply list_elem_of_lookup_2).
  assert (sanitize id = id) as Hid by (apply Hids; destruct Hcl as (r & ? & _); by exists r).
  destruct (Release_spec (tfs st) (LockDir m) D id HS) as (fs' & -> & HS' & Hheld & _).
  intros [= <- <-]. split; simpl; [done|done| |].
  - intros t0 [->|Hin]%elem_of_update; [done|by apply Hr].
  - intros id0 Ho. rewrite Hheld, Hid.
    destruct (decide (id0 = id)) as [->|Hn]; [by destruct (closed_not_open _ _ Hcl)|].
    rewrite bool_decide_eq_false_2 by done. simpl.
    destruct (Hl id0 Ho) as [Hh|Hin]; [by left|]. right.
    by destruct (elem_of_update_other ts k (Ended ke) _ _ Hk Hin) as [[=]|].
Qed.

Lemma inv_session_turn st ts k t x t' st' :
  race_inv st ts → ts !! k = Some t → session_turn st t x = Some (t', st') →
  race_inv st' (<[k := t']> ts).
Proof.
  intros HI Hk. pose proof HI as [HS Hids Hr Hl].
  assert (relies (tdb st) t) as Hrt by (apply Hr; by eapply list_elem_of_lookup_2).
  destruct t as [name cwd shell|id name cwd shell|e tn|id|id|r|id|id s|id s|id ke|e];
    try (by eauto using inv_started, inv_rowed, inv_found, inv_killed); simpl; try done.
  - destruct (NewID _) as [id|] eqn:Hid; [|intros [= <- <-]; by eapply inv_quiet].
    destruct (NewSession _ _ _ _ _) as [[e|] w]; intros [= <- <-]; (eapply inv_quiet; try done).
    simpl. unfold NewID in Hid. destruct (random_bytes _) as [buf|] eqn:Hb; [|done].
    injection Hid as <-. by apply sanitize_hex, (random_bytes_ok (se_rand x)).
  - intros [= <- <-]. by eapply inv_quiet.
  - intros [= <- <-]. by eapply inv_quiet.
  - destruct (GetSession _ _ _) as [s|] eqn:HG; intros [= <- <-]; eapply inv_quiet; try done.
    simpl. unfold GetSession in HG. unfold known. destruct (se_select x); [done|].
    by destruct (sessions (tdb st) !! id).
  - destruct (KillSession _ _ _) as [ke w]. intros [= <- <-]. by eapply inv_quiet.
Qed.

Lemma inv_other st ts c st' :
  race_inv st ts → other_step st c = Some st' → race_inv st' ts.
Proof.
  intros [HS Hids Hr Hl]. simpl. destruct (one_statement c) eqn:Ho; [|done]. intros [= <-].
  pose proof (λ id, one_statement_keeps st c id Ho) as Hk.
  assert (∀ id, known (tdb (term_step m st c)) id ↔ known (tdb st) id) as Hkn
    by (intros id; by rewrite !known_status, (proj1 (Hk id))).
  assert (∀ id, closed_in (tdb (term_step m st c)) id ↔ closed_in (tdb st) id) as Hcl
    by (intros id; by rewrite !closed_in_status, (proj1 (Hk id))).
  split.
  - by rewrite (proj2 (Hk "")).
  - intros id. rewrite Hkn. apply Hids.
  - intros t Hin. specialize (Hr t Hin). destruct t; simpl in *; rewrite ?Hkn, ?Hcl; done.
  - intros id. rewrite open_in_status, (proj1 (Hk id)), <- open_in_status, (proj2 (Hk "")). apply Hl.
Qed.

Lemma race_inv_start st :
  lock_site (tfs st) (LockDir m) D → sessions (tdb st) = ∅ → race_inv st [].
Proof.
  intros HS Hd. split; [done| |by intros t ?%elem_of_nil|]; unfold known, open_in; rewrite Hd.
  - by intros id [? ?%lookup_empty_Some].
  - by intros id (? & ?%lookup_empty_Some & _).
Qed.

Lemma race_inv_arrive st ts t : race_inv st ts → arriving t = true → race_inv st (ts ++ [t]).
Proof.
  intros [HS1 Hids Hr Hl] Ha. split; [done|done| |].
  - intros t0 [Hin| ->%list_elem_of_singleton]%elem_of_app; [by apply Hr|by destruct t].
  - intros id [Hh|Hin]%Hl; [by left|]. right. rewrite elem_of_app. by left.
Qed.

Lemma race_inv_run st ls cf :
  lock_site (tfs st) (LockDir m) D → sessions (tdb st) = ∅ → conc_run (Conf st []) ls cf →
  race_inv (cf_state cf) (cf_threads cf).
Proof.
  intros HS Hd. apply (conc_run_invariant race_inv).
  - intros. by apply race_inv_arrive.
  - apply inv_session_turn.
  - apply inv_other.
  - by apply race_inv_start.
Qed.

(** C11: However the steps of any number of concurrent creations, closings, renames and touches
    interleave, starting without sessions: a session whose row is open has its lock, unless its
    creation stands exactly between the INSERT and the lock. *)
Theorem open_session_is_locked st ls cf id :
  lock_site (tfs st) (LockDir m) D → sessions (tdb st) = ∅ → conc_run (Conf st []) ls cf →
  open_in (tdb (cf_state cf)) id → Rowed id ∉ cf_threads cf →
  Held (tfs (cf_state cf)) (LockDir m) id = true.
Proof.
  intros HS Hd Hr Ho Hn. destruct (race_inv_run st ls cf HS Hd Hr) as [HS' Hids _ Hl].
  assert (sanitize id = id) as Hid by (apply Hids; destruct Ho as (r & ? & _); by exists r).
  rewrite (Held_spec _ _ D id HS'), Hid. by destruct (Hl id Ho).
Qed.

(** ** A lock nobody will release *)

(** Threads that are about to release the lock of [id]. *)
Definition releases (id : string) (t : session_thread) : Prop :=
  match t with Marked id' _ | Killed id' _ => id' = id | _ => False end.

Definition orphaned (id : string) st (ts : list session_thread) : Prop :=
  closed_in (tdb st) id ∧ held (tfs st) D id = true ∧ ∀ t, t ∈ ts → ¬ releases id t.

Lemma orphaned_quiet id st st' ts k t' :
  orphaned id st ts → (∀ d, closed_in (tdb st) id → d = tdb st' → closed_in d id) →
  (held (tfs st) D id = true → held (tfs st') D id = true) → ¬ releases id t' →
  orphaned id st' (<[k := t']> ts).
Proof.
  intros (Hc & Hh & Hr) Hd Hf Ht. split_and!; [by eapply Hd|by apply Hf|].
  intros t0 [->|Hin]%elem_of_update; [done|by apply Hr].
Qed.

Lemma orphaned_turn id st ts k t x t' st' :
  race_inv st ts → orphaned id st ts → ts !! k = Some t → session_turn st t x = Some (t', st') →
  orphaned id st' (<[k := t']> ts).
Proof.
  intros [HS Hids Hr _] HO Hk. pose proof HO as (Hc & Hh & Hrel).
  assert (relies (tdb st) t) as Hrt by (apply Hr; by eapply list_elem_of_lookup_2).
  assert (¬ releases id t) as Hnt by (apply Hrel; by eapply list_elem_of_lookup_2).
  destruct t as [name cwd shell|id' name cwd shell|e tn|id'|id'|r|id'|id' s|id' s|id' ke|e]; simpl; try done.
  - destruct (NewID _); [destruct (NewSession _ _ _ _ _) as [[e|] w]|]; intros [= <- <-];
      eapply orphaned_quiet; naive_solver.
  - set (s := MkSession _ _ _ _ _ _ _ _).
    pose proof (closed_step (tdb st) (QCreate s, se_now x, se_insert x) id Hc) as Hc'. simpl in Hc'.
    destruct (CreateSession _ _ _ _) as [[e|] d]; intros [= <- <-]; eapply orphaned_quiet; naive_solver.
  - intros [= <- <-]; eapply orphaned_quiet; naive_solver.
  - destruct (Acquire_spec (tfs st) (LockDir m) D id' HS) as (fs' & -> & _ & Hheld & _).
    intros [= <- <-]. eapply orphaned_quiet; simpl; [done|naive_solver| |by intros []].
    rewrite Hheld. intros ->. apply orb_true_r.
  - intros [= <- <-]; eapply orphaned_quiet; naive_solver.
  - destruct (GetSession _ _ _); intros [= <- <-]; eapply orphaned_quiet; naive_solver.
  - destruct (se_update x) as [e|]; [intros [= <- <-]; eapply orphaned_quiet; naive_solver|].
    pose proof (closed_step (tdb st) (QClose id', se_now x, None) id Hc) as Hc'.
    change (closed_in (CloseSession (tdb st) id' (se_now x) None).2 id) in Hc'.
    destruct (CloseSession_cases (tdb st) id' (se_now x)) as [(r & Hrow & Hst & HC)|[_ HC]];
      rewrite HC in Hc' |- *; intros [= <- <-]; (eapply orphaned_quiet; [done|naive_solver|done|]); simpl.
    + intros ->. apply (closed_not_open _ _ Hc). by exists r.
    + done.
  - destruct (KillSession _ _ _) as [ke w]. intros [= <- <-]. eapply orphaned_quiet; naive_solver.
  - assert (sanitize id' = id') as Hid by (apply Hids; destruct Hrt as (r & ? & _); by exists r).
    destruct (Release_spec (tfs st) (LockDir m) D id' HS) as (fs' & -> & _ & Hheld & _).
    intros [= <- <-]. eapply orphaned_quiet; simpl; [done|naive_solver| |by intros []].
    rewrite Hheld, Hid. intros ->. simpl in Hnt. by rewrite bool_decide_eq_false_2 by congruence.
Qed.

Lemma orphaned_run id cf ls cf' :
  race_inv (cf_state cf) (cf_threads cf) → orphaned id (cf_state cf) (cf_threads cf) → conc_run cf ls cf' →
  race_inv (cf_state cf') (cf_threads cf') ∧ orphaned id (cf_state cf') (cf_threads cf').
Proof.
  intros HI HO. apply (conc_run_invariant (λ st ts, race_inv st ts ∧ orphaned id st ts)); [| | |done].
  - intros st ts t [HI1 (Hc & Hh & Hr)] Ha. split; [by apply race_inv_arrive|].
    split_and!; [done|done|]. intros t0 [Hin| ->%list_elem_of_singleton]%elem_of_app; [by apply Hr|by intros Hx; destruct t].
  - intros st ts k t x t' st' [HI1 HO1] Hk Ht. split; [by eapply inv_session_turn|by eapply orphaned_turn].
  - intros st ts c st' [HI1 (Hc & Hh & Hr)] Hs. split; [by eapply inv_other|]. revert Hs. simpl.
    destruct (one_statement c) eqn:Ho; [|done]. intros [= <-].
    pose proof (one_statement_keeps st c id Ho) as [Hrow Hfs].
    split_and!; [by rewrite closed_in_status, Hrow, <- closed_in_status|by rewrite Hfs|done].
Qed.

(** A whole Close between the INSERT and the lock of the session. *)
Lemma close_runs st ts id r :
  lock_site (tfs st) (LockDir m) D → sessions (tdb st) !! id = Some r → s_status r = Some StatusOpen →
  ∃ ls st1 ke, conc_run (Conf st ts) ls (Conf st1 (ts ++ [Ended ke])) ∧
    lock_site (tfs st1) (LockDir m) D ∧ closed_in (tdb st1) id.
Proof.
  intros HS Hrow Hst. set (x := SessionEnv (Ok []) 0 None None None).
  destruct (Close_open m D st id r 0 HS Hrow Hst) as (fs1 & HC & HS1 & _).
  pose proof (alone_close st id x) as Ha. change (se_now x) with 0 in Ha. simpl se_select in Ha.
  simpl se_update in Ha. rewrite HC in Ha. simpl in Ha.
  assert ((ts ++ [Closing id]) !! length ts = Some (Closing id)) as Hlast by (by rewrite lookup_app_r, Nat.sub_diag).
  pose proof (alone_run 4 st (ts ++ [Closing id]) _ _ _ _ _ Hlast Ha) as [ls1 Hr1].
  rewrite insert_app_r_alt, Nat.sub_diag in Hr1 by done. simpl in Hr1.
  eexists ls1, _, _. split_and!.
  - apply (conc_run_trans (Conf st ts) [] (Conf st (ts ++ [Closing id])) ls1); [|exact Hr1].
    apply (cr_step (Conf st ts) [] (Conf st ts) None); [constructor|by constructor].
  - done.
  - eexists. split; [apply lookup_insert_eq|done].
Qed.

Lemma orphaning_run st ls st0 ts k id :
  lock_site (tfs st) (LockDir m) D → sessions (tdb st) = ∅ → conc_run (Conf st []) ls (Conf st0 ts) →
  ts !! k = Some (Rowed id) → open_in (tdb st0) id → (∀ t, t ∈ ts → ¬ releases id t) →
  ∃ ls1 cf1, conc_run (Conf st0 ts) ls1 cf1 ∧ race_inv (cf_state cf1) (cf_threads cf1) ∧
    orphaned id (cf_state cf1) (cf_threads cf1).
Proof.
  intros HS Hd Hr Hk (r & Hrow & Hst) Hrel. pose proof (race_inv_run st ls _ HS Hd Hr) as HI. simpl in HI.
  destruct (close_runs st0 ts id r (ri_site _ _ HI) Hrow Hst) as (ls1 & st1 & ke & Hr1 & HS1 & Hc).
  set (x := SessionEnv (Ok []) 0 None None None).
  assert ((ts ++ [Ended ke]) !! k = Some (Rowed id)) as Hk1 by (by apply lookup_app_l_Some).
  destruct (Acquire_spec (tfs st1) (LockDir m) D id HS1) as (fs2 & HA & _ & Hheld & _).
  assert (session_turn st1 (Rowed id) x = Some (Locked id, with_tfs st1 fs2)) as Ht by (simpl; by rewrite HA).
  assert (race_inv st1 (ts ++ [Ended ke])) as HI1.
  { apply (race_inv_run st (ls ++ ls1) (Conf st1 (ts ++ [Ended ke])) HS Hd). by eapply conc_run_trans. }
  assert (sanitize id = id) as Hid by (apply (ri_ids _ _ HI); by exists r).
  exists (ls1 ++ []), (Conf (with_tfs st1 fs2) (<[k := Locked id]> (ts ++ [Ended ke]))). split_and!.
  - apply (cr_step (Conf st0 ts) ls1 (Conf st1 (ts ++ [Ended ke])) None); [exact Hr1|].
    exact (cs_thread st1 _ k (Rowed id) (Locked id) _ x Hk1 Ht).
  - by eapply inv_session_turn.
  - split_and!; simpl; [done|by rewrite Hheld, Hid, bool_decide_eq_true_2|].
    intros t [->|[Hin| ->%list_elem_of_singleton]%elem_of_app]%elem_of_update; [by intros []|by apply Hrel|by intros []].
Qed.

(** C39: Whenever a creation stands between its INSERT and its lock, a closing of that session
    can come in between; the lock is then taken for a closed session and stays: in every
    continuation the row is closed, the lock is held and every further closing answers ErrNoRows
    and releases nothing. *)
Theorem close_before_lock_orphans_it st ls cf k id :
  lock_site (tfs st) (LockDir m) D → sessions (tdb st) = ∅ → conc_run (Conf st []) ls cf →
  cf_threads cf !! k = Some (Rowed id) → open_in (tdb (cf_state cf)) id →
  (∀ t, t ∈ cf_threads cf → ¬ releases id t) →
  ∃ ls1 cf1, conc_run cf ls1 cf1 ∧
    ∀ ls2 cf2, conc_run cf1 ls2 cf2 →
      closed_in (tdb (cf_state cf2)) id ∧ Held (tfs (cf_state cf2)) (LockDir m) id = true ∧
      ∀ now, Close m (cf_state cf2) id now None None = (Some (ESent ErrNoRows), cf_state cf2).
Proof.
  intros HS Hd Hr Hk Ho Hrel. destruct cf as [st0 ts].
  destruct (orphaning_run st ls st0 ts k id HS Hd Hr Hk Ho Hrel) as (ls1 & cf1 & Hr1 & HI1 & HO1).
  exists ls1, cf1. split; [done|]. intros ls2 cf2 Hr2.
  destruct (orphaned_run id cf1 ls2 cf2 HI1 HO1 Hr2) as [HI2 (Hc & Hh & _)].
  assert (sanitize id = id) as Hid by (apply (ri_ids _ _ HI2); destruct Hc as (r & ? & _); by exists r).
  split_and!; [done|by rewrite (Held_spec _ _ D id (ri_site _ _ HI2)), Hid|].
  intros now. destruct Hc as (r' & Hr' & Hst'). by eapply Close_closed.
Qed.
End invariant.
End session_race.

(** ** A concrete race *)

Section examples.
#[local] Existing Instances set_tmux set_tmux_spec.
#[local] Instance demo_threads : Threads _ _ _ _ := session_threads demo_manager.

Definition calm_env (now : Z) : session_env := SessionEnv (Ok [x0a]) now None None None.

(** A client creates a session; another one lists it, and sees it. *)
Definition until_row : list (move session_thread session_env (term_call (W := gset string))) :=
  [Arrive (Creating "one" "/" "sh"); Turn 0 (calm_env 5); Turn 0 (calm_env 6)].

Definition rowed : conf (term_state (W := gset string)) session_thread :=
  match do_moves [] (Conf demo_start []) until_row with Some (_, cf) => cf | None => Conf demo_start [] end.

Lemma rowed_reached : conc_run (Conf demo_start []) [] rowed.
Proof. apply (do_moves_run _ [] (Conf demo_start []) until_row); [constructor|by vm_compute]. Qed.

Lemma close_before_lock_orphans_it_witness :
  ∃ ls1 cf1, conc_run rowed ls1 cf1 ∧ Held (tfs (cf_state cf1)) DefaultDir "0a" = true ∧
    closed_in (tdb (cf_state cf1)) "0a".
Proof.
  destruct (close_before_lock_orphans_it demo_manager lock_dir_loc demo_start [] rowed 0 "0a")
    as (ls1 & cf1 & Hr & Hall); [apply lock_fs_site|done|apply rowed_reached|by vm_compute| | |].
  - eexists. by split; [by vm_compute|].
  - intros t Ht. assert (cf_threads rowed = [Rowed "0a"]) as Hts by by vm_compute.
    rewrite Hts in Ht. apply list_elem_of_singleton in Ht as ->. by intros [].
  - exists ls1, cf1. destruct (Hall [] cf1) as (Hc & Hh & _); [constructor|]. by split_and!.
Defined.

Definition until_locked : list (move session_thread session_env (term_call (W := gset string))) :=
  until_row ++ [Arrive (Closing "0a"); Turn 1 (calm_env 7); Turn 0 (calm_env 8)].

Definition locked : conf (term_state (W := gset string)) session_thread :=
  match do_moves [] (Conf demo_start []) until_locked with Some (_, cf) => cf | None => Conf demo_start [] end.

Lemma open_session_is_locked_witness : Held (tfs (cf_state locked)) DefaultDir "0a" = true.
Proof.
  apply (open_session_is_locked demo_manager lock_dir_loc demo_start [] locked "0a");
    [apply lock_fs_site|done| | |].
  - apply (do_moves_run _ [] (Conf demo_start []) until_locked); [constructor|by vm_compute].
  - eexists. by split; [by vm_compute|].
  - assert (cf_threads locked = [Locked "0a"; Found "0a" (MkSession "0a" "one" "ccr-0a" "/" "sh" "open" 6 6)]) as -> by by vm_compute. set_solver.
Defined.
End examples.
