(* ===== verification/TermHttp.v ===== *)
(** * terminal/http.go: the terminal routes

    The handlers of [Manager.Routes]. The WebSocket handshake is the third-party
    [Upgrader]; a stream it starts is added to those that are live, and goes on
    by [stream_event]s between the other requests. url.Parse is the parameter
    [UrlParse]. *)

From S2P Require Import Prelude GoStr Http Path Fs Database Locks Tmux Manager Stream.
From Stdlib Require Import Ascii.

(** The Host of url.Parse(s). *)
Class UrlParse := url_host : string → result string.

(** gorilla/websocket: Upgrade with a CheckOrigin function, the response it
    wrote when the handshake failed. *)
Class Upgrader := {
  Upgrade : (request → bool) → request → option response;
  Upgrade_checks : ∀ check r, check r = false → is_Some (Upgrade check r);
}.

(** What the environment supplies to a request. *)
Record term_env := TermEnv {
  e_rand : result (list Z);       (* NewID *)
  e_now : Z;                      (* the clock reading of the statement *)
  e_io1 : error;                  (* the driver's answers, first and second statement *)
  e_io2 : error;
  e_snapshot_send : error;        (* sending the first screen *)
}.

Section term_http.
Context {W : Type} `{TmuxBinary W} `{Unicode} `{JsonDecoder} `{SqlOrder} `{UrlParse} `{Upgrader}.

(** What the routes share: the manager's stores, and the streams started so
    far with the session each belongs to. *)
Record http_state := HttpState {
  term : term_state (W := W);
  live : list (string * stream_state);
}.

(** The response and the new stores, the streams being as they were. *)
Definition lift (st : http_state) (p : response * term_state (W := W)) : response * http_state :=
  (p.1, HttpState p.2 (live st)).

Definition json_session (s : Session) : json :=
  JObject [("id", JString (ID s)); ("name", JString (Name s)); ("tmux_session", JString (TmuxSession s));
           ("cwd", JString (Cwd s)); ("shell", JString (Shell s)); ("status", JString (Status s));
           ("created_at", JNumber (CreatedAt s)); ("last_active_at", JNumber (LastActiveAt s))].

Definition handleSessions (m : Manager) (st : term_state (W := W)) (r : request) (env : term_env)
    : response * term_state :=
  if String.eqb (Method r) MethodGet then
    match List_sessions st (e_io1 env) with
    | Err e => (write_error 500 (Error e), st)
    | Ok list => (write_json 200 (JArray (map json_session list)), st)
    end
  else if String.eqb (Method r) MethodPost then
    let create body :=
      match Create m st (field body "name") (field body "cwd") (field body "shell")
              (e_rand env) (e_now env) (e_io1 env) (e_io2 env) with
      | (Err e, st') => (write_error 500 (Error e), st')
      | (Ok s, st') => (write_json 201 (json_session s), st')
      end in
    match json_decode (Body r) with
    | Err e => if errors_is e ErrEOF then create ∅ else (write_error 400 "invalid JSON body", st)
    | Ok body => create body
    end
  else (write_error 405 "method not allowed", st).

(** The id and the tail of "/sessions/<id>" or "/sessions/<id>/<tail>". *)
Definition splitSessionPath (path : string) : option (string * string) :=
  let rest := trim_prefix path "/sessions/" in
  if String.eqb rest "" || String.eqb rest path then None else
  let '(id, tail) := cut_char "/" rest in
  if String.eqb id "" then None else Some (id, default "" tail).

Definition sameOriginOrNone (r : request) : bool :=
  let origin := header_get r "Origin" in
  if String.eqb origin "" then true else
  match url_host origin with
  | Err _ => false
  | Ok host => equal_fold host (Host r)
  end.

(** A hijacked connection: the 101 is written on the connection itself, with
    none of the headers the middleware has set. *)
Definition hijacked : response := write_status 101.

(** The connection once it is upgraded: attached, and the first screen sent. *)
Definition start_stream (m : Manager) (st : http_state) (s : Session) (env : term_env) : http_state :=
  match Attach (TmuxOf m) (tmux (term st)) (TmuxSession s) 80 24 with
  | (Some _, w) => HttpState (with_tmux (term st) w) (live st)
  | (None, w) =>
     let '(snapshot, w) := CapturePane (TmuxOf m) w (TmuxSession s) in
     let first := match snapshot with Ok out => out | Err _ => "" end in
     if negb (String.eqb first "") && match e_snapshot_send env with Some _ => true | None => false end
     then HttpState (with_tmux (term st) w) (live st)
     else HttpState (with_tmux (term st) w) (live st ++ [(ID s, stream_start first)])
  end.

Definition handleStream (m : Manager) (st : http_state) (r : request) (id : string) (env : term_env)
    : response * http_state :=
  match Get (term st) id (e_io1 env) with
  | Err _ => (write_error 404 "no such session", st)
  | Ok s =>
     if negb (String.eqb (Status s) StatusOpen) then (write_error 410 "session is closed", st) else
     match Upgrade sameOriginOrNone r with
     | Some resp => (resp, st)
     | None => (hijacked, start_stream m st s env)
     end
  end.

(** One event of the [k]-th stream. *)
Definition stream_event_at (st : http_state) (k : nat) (e : stream_event) : http_state :=
  match live st !! k with
  | None => st
  | Some (id, s) =>
     let '(s', d) := stream_step id (s, tdb (term st)) e in
     HttpState (with_tdb (term st) d) (<[k := (id, s')]> (live st))
  end.

(** The switch on the method of "/sessions/<id>". *)
Definition session_method (m : Manager) (st : term_state (W := W)) (r : request) (id : string)
    (env : term_env) : response * term_state (W := W) :=
  if String.eqb (Method r) MethodDelete then
    match Close m st id (e_now env) (e_io1 env) (e_io2 env) with
    | (Some e, st') =>
       if errors_is e ErrNoRows then (write_error 404 "no such open session", st')
       else (write_error 500 (Error e), st')
    | (None, st') => (write_status 204, st')
    end
  else if String.eqb (Method r) MethodPatch then
    match json_decode (Body r) with
    | Err _ => (write_error 400 "invalid JSON body", st)
    | Ok body =>
       match Rename st id (field body "name") (e_io1 env) with
       | (Some e, st') =>
          if errors_is e ErrNoRows then (write_error 404 "no such session", st')
          else (write_error 500 (Error e), st')
       | (None, st') =>
          match Get st' id (e_io2 env) with
          | Err e => (write_error 500 (Error e), st')
          | Ok s => (write_json 200 (json_session s), st')
          end
       end
    end
  else if String.eqb (Method r) MethodGet then
    match Get st id (e_io1 env) with
    | Err _ => (write_error 404 "no such session", st)
    | Ok s => (write_json 200 (json_session s), st)
    end
  else (write_error 405 "method not allowed", st).

Definition handleSession (m : Manager) (st : http_state) (r : request) (env : term_env)
    : response * http_state :=
  match splitSessionPath (URLPath r) with
  | None => (write_error 404 "not found", st)
  | Some (id, tail) =>
     if String.eqb tail "stream" then handleStream m st r id env
     else if negb (String.eqb tail "") then (write_error 404 "not found", st)
     else lift st (session_method m (term st) r id env)
  end.

(** The mux of [Routes], by pattern. *)
Definition term_handle (m : Manager) (pattern : string) (st : http_state) (r : request)
    (env : term_env) : response * http_state :=
  if String.eqb pattern "/sessions" then lift st (handleSessions m (term st) r env)
  else handleSession m st r env.

(** ** Histories *)

(** A request at its pattern, an event of a stream, or a change of the tmux
    server that is not the daemon's: any interleaving of them is a history. *)
Inductive term_event :=
  | TRequest (pattern : string) (r : request) (env : term_env)
  | TStream (k : nat) (e : stream_event)
  | TTmux (w : W).

Definition term_event_step (m : Manager) (st : http_state) (e : term_event) : http_state :=
  match e with
  | TRequest pattern r env => (term_handle m pattern st r env).2
  | TStream k e => stream_event_at st k e
  | TTmux w => HttpState (with_tmux (term st) w) (live st)
  end.

Definition term_history (m : Manager) (st : http_state) (es : list term_event) : http_state :=
  fold_left (term_event_step m) es st.

(** ** The devices table is none of their business *)

Lemma touch_devices d id now io : devices (TouchSession d id now io).2 = devices d.
Proof. unfold TouchSession. destruct io; [done|]. by destruct (update_where _ _ _ _). Qed.

(** A stream only touches its own row, and there the time. *)
Lemma stream_step_db id s d e :
  (stream_step id (s, d) e).2 = d ∨ ∃ now io, (stream_step id (s, d) e).2 = (TouchSession d id now io).2.
Proof.
  destruct e as [data re se|msg we re now io| |t|]; simpl; [by left| |by left..].
  destruct (handling s); [|by left]. unfold client_step.
  destruct (String.eqb _ "input"); [destruct we as [[]|]; [by left|right; by exists now, io]|].
  destruct (String.eqb _ "resize"); [right; by exists now, io|by left].
Qed.

Lemma stream_event_devices st k e : devices (tdb (term (stream_event_at st k e))) = devices (tdb (term st)).
Proof.
  unfold stream_event_at. destruct (live st !! k) as [[id s]|]; [|done].
  pose proof (stream_step_db id s (tdb (term st)) e) as Hd.
  destruct (stream_step id _ e) as [s' d]. simpl in *.
  destruct Hd as [->|(now & io & ->)]; [done|apply touch_devices].
Qed.

Lemma start_stream_tdb m st s env :
  tdb (term (start_stream m st s env)) = tdb (term st) ∧ tfs (term (start_stream m st s env)) = tfs (term st).
Proof.
  unfold start_stream. destruct (Attach _ _ _ _ _) as [[e|] w]; [done|].
  destruct (CapturePane _ _ _) as [snap w']. by destruct (_ && _).
Qed.

Lemma CreateSession_devices d s now io : devices (CreateSession d s now io).2 = devices d.
Proof. unfold CreateSession. destruct io; [done|]. by repeat case_match. Qed.

Lemma Create_devices m st name cwd shell rand now io1 io2 :
  devices (tdb (Create m st name cwd shell rand now io1 io2).2) = devices (tdb st).
Proof.
  unfold Create. destruct (NewID rand) as [id|]; [|done].
  destruct (NewSession _ _ _ _ _) as [[e|] w]; [done|].
  set (s := MkSession _ _ _ _ _ _ _ _).
  pose proof (CreateSession_devices (tdb st) s now io1) as HC. simpl.
  destruct (CreateSession (tdb st) s now io1) as [[e|] d]; [done|]. by destruct (Acquire _ _ _) as [[] ?].
Qed.

Lemma CloseSession_devices d id now io : devices (CloseSession d id now io).2 = devices d.
Proof. unfold CloseSession. destruct io; [done|]. by destruct (update_where _ _ _ _). Qed.

Lemma Close_devices m st id now io1 io2 : devices (tdb (Close m st id now io1 io2).2) = devices (tdb st).
Proof.
  unfold Close. destruct (GetSession _ _ _) as [s|]; [|done].
  pose proof (CloseSession_devices (tdb st) id now io2) as HC.
  destruct (CloseSession _ _ _ _) as [[e|] d]; [done|]. destruct (KillSession _ _ _) as [k w].
  by destruct (Release _ _ _) as [[] ?].
Qed.

Lemma Rename_devices (st : term_state (W := W)) id name io : devices (tdb (Rename st id name io).2) = devices (tdb st).
Proof. unfold Rename, RenameSession. destruct io; [done|]. by destruct (update_where _ _ _ _). Qed.

Lemma handleSessions_devices m st r env : devices (tdb (handleSessions m st r env).2) = devices (tdb st).
Proof.
  unfold handleSessions. destruct (String.eqb _ MethodGet); [by destruct (List_sessions _ _)|].
  destruct (String.eqb _ MethodPost); [|done].
  assert (∀ b, devices (tdb (Create m st (field b "name") (field b "cwd") (field b "shell")
    (e_rand env) (e_now env) (e_io1 env) (e_io2 env)).2) = devices (tdb st)) as HC
    by (intros; apply Create_devices).
  destruct (json_decode (Body r)) as [b|e]; [specialize (HC b)|destruct (errors_is e ErrEOF); [specialize (HC ∅)|done]];
    by destruct (Create _ _ _ _ _ _ _ _ _) as [[] ?].
Qed.

Lemma session_method_devices m st r id env :
  devices (tdb (session_method m st r id env).2) = devices (tdb st).
Proof.
  unfold session_method. destruct (String.eqb _ MethodDelete).
  { pose proof (Close_devices m st id (e_now env) (e_io1 env) (e_io2 env)) as HC.
    destruct (Close _ _ _ _ _ _) as [[e|] st']; [|done]. by destruct (errors_is e ErrNoRows). }
  destruct (String.eqb _ MethodPatch); [|destruct (String.eqb _ MethodGet); [by destruct (Get _ _ _)|done]].
  destruct (json_decode (Body r)) as [body|]; [|done].
  pose proof (Rename_devices st id (field body "name") (e_io1 env)) as HR.
  destruct (Rename _ _ _ _) as [[e|] st']; [by destruct (errors_is e ErrNoRows)|].
  by destruct (Get _ _ _).
Qed.

Lemma handleSession_devices m st r env :
  devices (tdb (term (handleSession m st r env).2)) = devices (tdb (term st)).
Proof.
  unfold handleSession. destruct (splitSessionPath _) as [[id tail]|]; [|done].
  destruct (String.eqb tail "stream").
  { unfold handleStream. destruct (Get _ _ _) as [s|]; [|done]. destruct (negb _); [done|].
    destruct (Upgrade _ _); [done|]. simpl. by rewrite (proj1 (start_stream_tdb m st s env)). }
  destruct (negb _); [done|]. apply session_method_devices.
Qed.

(** ** Every request keeps locks and open sessions together *)

Definition http_match (m : Manager) (D : loc) (st : http_state) : Prop := locks_match m D (term st).

Lemma stream_event_match m D st k e : http_match m D st → http_match m D (stream_event_at st k e).
Proof.
  intros HL. unfold stream_event_at. destruct (live st !! k) as [[id s]|]; [|done].
  pose proof (stream_step_db id s (tdb (term st)) e) as Hd.
  destruct (stream_step id _ e) as [s' d]. simpl in Hd. unfold http_match; simpl.
  apply locks_match_db; [done|]. intros key. destruct Hd as [->|(now & io & ->)]; [done|].
  unfold TouchSession. destruct io; [done|].
  pose proof (update_keeps_status (tdb (term st)) id (set_active now) key (λ r, eq_refl)) as HU.
  by destruct (update_where _ _ _ _).
Qed.

Lemma start_stream_match m D st s env : http_match m D st → http_match m D (start_stream m st s env).
Proof.
  intros [HS Hids Hh]. pose proof (start_stream_tdb m st s env) as [Hd Hf].
  split; rewrite ?Hd, ?Hf; done.
Qed.

(** The random bytes of a request are bytes. *)
Definition env_ok (env : term_env) : Prop :=
  match e_rand env with Ok buf => Forall is_byte buf | Err _ => True end.

Lemma handleSessions_match m D st r env :
  env_ok env → locks_match m D st → locks_match m D (handleSessions m st r env).2.
Proof.
  intros He HL. unfold handleSessions.
  destruct (String.eqb _ MethodGet); [by destruct (List_sessions _ _)|].
  destruct (String.eqb _ MethodPost); [|done].
  assert (∀ name cwd shell, locks_match m D
    (Create m st name cwd shell (e_rand env) (e_now env) (e_io1 env) (e_io2 env)).2) as HC
    by (intros; by apply locks_match_create).
  destruct (json_decode (Body r)) as [body|e]; [|destruct (errors_is e ErrEOF); [|done]].
  - specialize (HC (field body "name") (field body "cwd") (field body "shell")).
    by destruct (Create _ _ _ _ _ _ _ _ _) as [[] ?].
  - specialize (HC (field ∅ "name") (field ∅ "cwd") (field ∅ "shell")).
    by destruct (Create _ _ _ _ _ _ _ _ _) as [[] ?].
Qed.

Lemma session_method_match m D st r id env :
  locks_match m D st → locks_match m D (session_method m st r id env).2.
Proof.
  intros HL. unfold session_method. destruct (String.eqb _ MethodDelete).
  { pose proof (locks_match_close m D st id (e_now env) (e_io1 env) (e_io2 env) HL) as HC.
    destruct (Close _ _ _ _ _ _) as [[e|] st']; [|done]. by destruct (errors_is e ErrNoRows). }
  destruct (String.eqb _ MethodPatch); [|destruct (String.eqb _ MethodGet); [by destruct (Get _ _ _)|done]].
  destruct (json_decode (Body r)) as [body|]; [|done].
  pose proof (locks_match_step m D st (MRename id (field body "name") (e_io1 env)) I HL) as HR.
  simpl in HR. destruct (Rename _ _ _ _) as [[e|] st']; [by destruct (errors_is e ErrNoRows)|].
  by destruct (Get _ _ _).
Qed.

Lemma handleSession_match m D st r env : http_match m D st → http_match m D (handleSession m st r env).2.
Proof.
  intros HL. unfold handleSession. destruct (splitSessionPath _) as [[id tail]|]; [|done].
  destruct (String.eqb tail "stream").
  { unfold handleStream. destruct (Get _ _ _) as [s|]; [|done]. destruct (negb _); [done|].
    destruct (Upgrade _ _); [done|]. by apply start_stream_match. }
  destruct (negb _); [done|]. by apply session_method_match.
Qed.

Definition event_ok (e : term_event) : Prop :=
  match e with TRequest _ _ env => env_ok env | _ => True end.

Lemma term_event_match m D st e : event_ok e → http_match m D st → http_match m D (term_event_step m st e).
Proof.
  intros He HL. destruct e as [pattern r env|k e|w]; simpl.
  - unfold term_handle. destruct (String.eqb pattern "/sessions");
      [by apply handleSessions_match|by apply handleSession_match].
  - by apply stream_event_match.
  - by destruct HL.
Qed.

(** C12: In every history of requests to the terminal routes (each one step), events of the
    streams they started and outside changes of the tmux server, a session's lock is held
    exactly while its row is open. *)
Theorem requests_keep_locks m D st es id :
  lock_site (tfs (term st)) (LockDir m) D → sessions (tdb (term st)) = ∅ → represents (tfs (term st)) D ∅ →
  Forall event_ok es → sanitize id = id →
  let st' := term (term_history m st es) in
  Held (tfs st') (LockDir m) id = true ↔ open_in (tdb st') id.
Proof.
  intros HS Hd HR Hes Hid.
  assert (http_match m D (term_history m st es)) as [HS' _ Hh].
  { assert (http_match m D st) as HL by (by apply locks_match_start).
    clear HS Hd HR. revert st HL.
    induction Hes as [|e es He _ IH]; intros st HL; [done|]. by apply IH, term_event_match. }
  simpl. by rewrite (Held_spec _ _ D id HS'), Hid.
Qed.

Lemma foreign_origin_is_refused m st r id env host :
  header_get r "Origin" ≠ "" → url_host (header_get r "Origin") = Ok host →
  equal_fold host (Host r) = false →
  ∃ resp, handleStream m st r id env = (resp, st) ∧
    (resp = write_error 404 "no such session" ∨ resp = write_error 410 "session is closed" ∨
     Upgrade sameOriginOrNone r = Some resp).
Proof.
  intros Ho Hu He.
  assert (sameOriginOrNone r = false) as Hc.
  { unfold sameOriginOrNone. by rewrite (proj2 (String.eqb_neq _ _) Ho), Hu. }
  destruct (Upgrade_checks _ _ Hc) as [resp Hresp].
  unfold handleStream. destruct (Get _ id (e_io1 env)) as [s|]; [|eauto].
  destruct (negb _); [eauto|]. rewrite Hresp. eauto.
Qed.

(** ** Streams do not disturb each other *)

(** The events of the [k]-th stream in a history. *)
Definition events_of (k : nat) (es : list term_event) : list stream_event :=
  omap (λ e, match e with TStream k' e => if decide (k' = k) then Some e else None | _ => None end) es.

(** What one step does to the stream at [k]. *)
Lemma step_live m st e k id s :
  live st !! k = Some (id, s) →
  live (term_event_step m st e) !! k = Some (id, conn_run s (events_of k [e])).
Proof.
  intros Hk. destruct e as [pattern r env|k' e|w]; simpl; [|unfold stream_event_at|done].
  - unfold term_handle. destruct (String.eqb pattern "/sessions"); [done|].
    unfold handleSession. destruct (splitSessionPath _) as [[id' tail]|]; [|done].
    destruct (String.eqb tail "stream"); [|by destruct (negb _)].
    unfold handleStream. destruct (Get _ _ _) as [s'|]; [|done]. destruct (negb _); [done|].
    destruct (Upgrade _ _); [done|]. unfold start_stream; simpl.
    destruct (Attach _ _ _ _ _) as [[x|] w]; [done|]. destruct (CapturePane _ _ _) as [snap w'].
    destruct (_ && _); [done|]. by apply lookup_app_l_Some.
  - destruct (decide (k' = k)) as [->|Hne].
    + rewrite Hk. pose proof (stream_step_conn id s (tdb (term st)) e) as Hc.
      destruct (stream_step id _ e) as [s' d]. simpl in Hc |- *. subst s'.
      apply list_lookup_insert_eq. by eapply lookup_lt_Some.
    + destruct (live st !! k') as [[id' s']|]; [|done].
      destruct (stream_step id' _ e) as [s'' d]. simpl. by rewrite list_lookup_insert_ne.
Qed.

Lemma history_live m st es k id s :
  live st !! k = Some (id, s) →
  live (term_history m st es) !! k = Some (id, conn_run s (events_of k es)).
Proof.
  revert st s. induction es as [|e es IH]; intros st s Hk; [done|].
  change (term_history m st (e :: es)) with (term_history m (term_event_step m st e) es).
  rewrite (IH _ (conn_run s (events_of k [e]))) by (by apply step_live).
  do 2 f_equal. unfold events_of. simpl. destruct e as [|k' e|]; simpl; [done| |done].
  by destruct (decide (k' = k)).
Qed.

Lemma term_history_app m st es es' :
  term_history m st (es ++ es') = term_history m (term_history m st es) es'.
Proof. apply fold_left_app. Qed.

(** A request that starts a stream starts it with the screen it captured. *)
Lemma started_stream m st r env id s :
  live (handleSession m st r env).2 !! length (live st) = Some (id, s) →
  ∃ first, s = stream_start first.
Proof.
  assert (live st !! length (live st) = None) as Hnone by (by apply lookup_ge_None_2).
  unfold handleSession. destruct (splitSessionPath _) as [[id' tail]|]; [|simpl; by rewrite Hnone].
  destruct (String.eqb tail "stream"); [|destruct (negb _); simpl; by rewrite Hnone].
  unfold handleStream. destruct (Get _ _ _) as [s'|]; [|simpl; by rewrite Hnone].
  destruct (negb _); [simpl; by rewrite Hnone|]. destruct (Upgrade _ _); [simpl; by rewrite Hnone|].
  unfold start_stream; simpl. destruct (Attach _ _ _ _ _) as [[x|] w]; [simpl; by rewrite Hnone|].
  destruct (CapturePane _ _ _) as [snap w']. destruct (_ && _); simpl; [simpl; by rewrite Hnone|].
  rewrite lookup_app_r, Nat.sub_diag by done. intros [= _ <-]. by eexists.
Qed.

(** C22: Whatever else happens meanwhile, other streams and requests included: while sending
    succeeds and the handler runs, the terminal bytes a client decodes from its stream are the
    screen it started with followed by everything its PTY printed until the first read error,
    and what is written to the PTY is what its input messages decode to, in order, cut short
    where a write failed. *)
Theorem streams_are_transparent m st r env id s es1 es2 :
  let st1 := term_history m st es1 in
  let k := length (live st1) in
  live (handleSession m st1 r env).2 !! k = Some (id, s) → undisturbed (events_of k es2) →
  ∃ first s', s = stream_start first ∧
    live (term_history m (handleSession m st1 r env).2 es2) !! k = Some (id, s') ∧
    shown (sent s') = first +:+ printed (events_of k es2) ∧
    typed s' = keystrokes (received (events_of k es2)).
Proof.
  intros st1 k Hk HF. destruct (started_stream _ _ _ _ _ _ Hk) as [first ->].
  exists first, (conn_run (stream_start first) (events_of k es2)).
  split_and!; [done|by apply history_live|by apply conn_transparent..].
Qed.

(** C25: Whatever else happens meanwhile: once receiving from a client has failed, the second is
    over and the handler has closed the attachment and the connection, two iterations later at
    the latest the goroutine that reads the PTY has ended too, and from then on no event of that
    stream has any effect. *)
Theorem abandoned_stream_ends m st k id s es data re se data' re' se' :
  live st !! k = Some (id, s) →
  [ReceiveError; Leave true; Hangup] `sublist_of` events_of k es →
  [ReceiveError; Leave true; PtyRead data re se; PtyRead data' re' se'] `sublist_of` events_of k es →
  ∃ s', reading s' = false ∧ handling s' = false ∧ connected s' = false ∧
    ∀ es', let st' := term_history m st (es ++ es') in
      live st' !! k = Some (id, s') ∧ ∀ e, stream_event_at st' k e = st'.
Proof.
  intros Hk HA HB. pose proof (abandoned_ends s _ _ _ _ _ _ _ HA HB) as He.
  exists (conn_run s (events_of k es)). split_and!; [by destruct He as (?&?&?&?)..|].
  intros es' st'.
  assert (live st' !! k = Some (id, conn_run s (events_of k es))) as Hk'.
  { unfold st'. rewrite term_history_app, (history_live _ _ _ _ id (conn_run s (events_of k es)))
      by (by apply history_live). by rewrite ended_run. }
  split; [done|]. intros e. unfold stream_event_at. rewrite Hk', ended_step by done.
  rewrite list_insert_id by done. by destruct st' as [[] ?].
Qed.

(** ** The life of a session over HTTP *)

Definition quiet_env (env : term_env) : Prop := e_io1 env = None ∧ e_io2 env = None.

Lemma hex_no_slash buf : Forall is_byte buf → char_free "/" (hex_encode buf).
Proof.
  intros Hb. apply char_free_bytes. eapply Forall_impl; [by apply hex_runes|].
  intros b Hr%lock_rune_bounds. change (byte_of "/") with 47. lia.
Qed.

Lemma split_session buf tail :
  buf ≠ [] → Forall is_byte buf → (tail = "" ∨ ∃ t, tail = String "/" t) →
  splitSessionPath ("/sessions/" +:+ hex_encode buf +:+ tail) =
  Some (hex_encode buf, match tail with "" => "" | String _ t => t end).
Proof.
  intros Hne Hb Ht. pose proof (hex_no_slash buf Hb) as Hs.
  unfold splitSessionPath. rewrite trim_prefix_app.
  destruct (hex_encode buf) as [|a id] eqn:E; [by destruct buf|].
  apply char_free_cons in Hs as [Ha Hs].
  assert (String.eqb (String a id +:+ tail) ("/sessions/" +:+ String a id +:+ tail) = false) as ->.
  { apply String.eqb_neq. simpl. by intros [= ? _]. }
  assert (cut_char "/" (String a id +:+ tail) =
    (String a id, match tail with "" => None | String _ t => Some t end)) as ->.
  { assert (char_free "/" (String a id)) as Hf by (by apply char_free_cons).
    destruct Ht as [->|[t ->]]; [by rewrite app_str_nil_r, cut_char_free|by rewrite cut_char_app]. }
  destruct tail; done.
Qed.

Lemma split_session_tail buf : 
  buf ≠ [] → Forall is_byte buf →
  splitSessionPath ("/sessions/" +:+ hex_encode buf) = Some (hex_encode buf, "") ∧
  splitSessionPath (("/sessions/" +:+ hex_encode buf) +:+ "/stream") = Some (hex_encode buf, "stream").
Proof.
  intros Hne Hb. split.
  - rewrite <- (app_str_nil_r (hex_encode buf)) at 1. apply split_session; [done..|by left].
  - rewrite app_str_assoc. rewrite split_session; [done..|right; by eexists].
Qed.

(** What DELETE and the stream answer once the row is closed. *)
Lemma closed_session_requests m st id r :
  sessions (tdb (term st)) !! id = Some r → s_status r = Some StatusClosed →
  (∀ q e, splitSessionPath (URLPath q) = Some (id, "") → Method q = MethodDelete → quiet_env e →
     handleSession m st q e = (write_error 404 "no such open session", st)) ∧
  (∀ q e, splitSessionPath (URLPath q) = Some (id, "stream") → quiet_env e →
     handleSession m st q e = (write_error 410 "session is closed", st)).
Proof.
  intros Hr Hst. split.
  - intros q e Hp HM [Ha1 Ha2]. unfold handleSession, session_method, lift. rewrite Hp, HM, Ha1, Ha2. simpl.
    rewrite (Close_closed m _ id r) by done. by destruct st.
  - intros q e Hp [Ha1 Ha2]. unfold handleSession. rewrite Hp. simpl.
    unfold handleStream, Get, GetSession. rewrite Ha1, Hr. unfold scan_session. by rewrite Hst.
Qed.

(** ** A row over a history *)

(** What an event can do to the row of session [id]. *)
Inductive row_change (id : string) : term_event → session_row → session_row → Prop :=
  | rc_same e r : row_change id e r r
  | rc_active k e r t : row_change id (TStream k e) r (set_active t r)
  | rc_name pattern q env body r :
      Method q = MethodPatch → splitSessionPath (URLPath q) = Some (id, "") →
      json_decode (Body q) = Ok body →
      row_change id (TRequest pattern q env) r (set_name (field body "name") r)
  | rc_closed pattern q env r t :
      pattern ≠ "/sessions" → Method q = MethodDelete → splitSessionPath (URLPath q) = Some (id, "") →
      s_status r = Some StatusOpen → row_change id (TRequest pattern q env) r (set_closed t r).

Lemma Create_row m st name cwd shell rand now io1 io2 id r :
  sessions (tdb st) !! id = Some r →
  sessions (tdb (Create m st name cwd shell rand now io1 io2).2) !! id = Some r.
Proof.
  intros Hr. unfold Create. destruct (NewID rand) as [id'|]; [|done].
  destruct (NewSession _ _ _ _ _) as [[e|] w]; [done|]. unfold CreateSession; simpl.
  destruct io1; [done|]. destruct (sessions (tdb st) !! id') eqn:E; [done|]. simpl.
  assert (<[id' := session_insert (fill_session (MkSession id' name (tmux_name_of id') cwd shell "" 0 0) now)]>
    (sessions (tdb st)) !! id = Some r) as Hi by (rewrite lookup_insert_ne; [done|congruence]).
  by destruct (Acquire _ _ _) as [[e|] fs].
Qed.

(** An UPDATE of the row of [id'], where it applies. *)
Lemma update_row {R} (m : gmap string R) id' cond f id r :
  m !! id = Some r →
  (update_where m id' cond f).1 !! id = Some r ∨
  (id = id' ∧ cond r = true ∧ (update_where m id' cond f).1 !! id = Some (f r)).
Proof.
  intros Hr. destruct (update_where_change m id' cond f id) as [->|(r0 & Hr0 & -> & Hc & ->)]; [by left|].
  right. rewrite Hr in Hr0. by injection Hr0 as <-.
Qed.

Lemma stream_row st k e id r :
  sessions (tdb (term st)) !! id = Some r →
  ∃ r', sessions (tdb (term (stream_event_at st k e))) !! id = Some r' ∧ row_change id (TStream k e) r r'.
Proof.
  intros Hr. unfold stream_event_at. destruct (live st !! k) as [[id' s]|]; [|by exists r; split; [|constructor]].
  pose proof (stream_step_db id' s (tdb (term st)) e) as Hd.
  destruct (stream_step id' _ e) as [s' d]. simpl in Hd |- *.
  destruct Hd as [->|(now & io & ->)]; [by exists r; split; [|constructor]|].
  unfold TouchSession. destruct io; [by exists r; split; [|constructor]|].
  pose proof (update_row (sessions (tdb (term st))) id' (λ _, true) (set_active now) id r Hr) as Hu.
  destruct (update_where _ _ _ _) as [m' n]; simpl in *.
  destruct Hu as [Hu|(_ & _ & Hu)]; eexists; (split; [exact Hu|constructor]).
Qed.

Lemma session_method_tdb m st q id env :
  let d := tdb (session_method m st q id env).2 in
  d = tdb st ∨
  (Method q = MethodDelete ∧ d = (CloseSession (tdb st) id (e_now env) (e_io2 env)).2) ∨
  (Method q = MethodPatch ∧ ∃ body, json_decode (Body q) = Ok body ∧
     d = (RenameSession (tdb st) id (field body "name") (e_io1 env)).2).
Proof.
  cbv zeta. unfold session_method. destruct (String.eqb_spec (Method q) MethodDelete) as [HM|_].
  { unfold Close. destruct (GetSession _ _ _) as [s|e]; [|left; by destruct (errors_is e ErrNoRows)].
    destruct (CloseSession _ _ _ _) as [[e|] d].
    - right; left. split; [done|]. by destruct (errors_is e ErrNoRows).
    - right; left. split; [done|]. destruct (KillSession _ _ _) as [[k|] w];
        destruct (Release _ _ _) as [[e|] fs]; simpl; repeat case_match; simplify_eq; done. }
  destruct (String.eqb_spec (Method q) MethodPatch) as [HM|_];
    [|left; destruct (String.eqb _ MethodGet); [by destruct (Get _ _ _)|done]].
  destruct (json_decode (Body q)) as [body|] eqn:Hb; [|by left].
  right; right. split; [done|]. exists body. split; [done|]. unfold Rename.
  destruct (RenameSession _ _ _ _) as [[e|] d]; simpl; repeat case_match; simplify_eq; done.
Qed.

Lemma session_method_row m st pattern q id' env id r :
  pattern ≠ "/sessions" → splitSessionPath (URLPath q) = Some (id', "") →
  sessions (tdb st) !! id = Some r →
  ∃ r', sessions (tdb (session_method m st q id' env).2) !! id = Some r' ∧
    row_change id (TRequest pattern q env) r r'.
Proof.
  intros Hpat Hp Hr.
  destruct (session_method_tdb m st q id' env) as [->|[(HM & ->)|(HM & body & Hb & ->)]].
  - exists r. split; [done|constructor].
  - unfold CloseSession. destruct (e_io2 env); [by exists r; split; [|constructor]|].
    pose proof (update_row (sessions (tdb st)) id' (status_is StatusOpen) (set_closed (e_now env)) id r Hr) as Hu.
    destruct (update_where _ _ _ _) as [m' n]; simpl in *.
    destruct Hu as [Hu|(-> & Hc & Hu)]; eexists; (split; [exact Hu|]); [constructor|].
    apply rc_closed; [done..|]. by apply bool_decide_eq_true in Hc.
  - unfold RenameSession. destruct (e_io1 env); [by exists r; split; [|constructor]|].
    pose proof (update_row (sessions (tdb st)) id' (λ _, true) (set_name (field body "name")) id r Hr) as Hu.
    destruct (update_where _ _ _ _) as [m' n]; simpl in *.
    destruct Hu as [Hu|(-> & Hc & Hu)]; eexists; (split; [exact Hu|]); [constructor|by apply rc_name].
Qed.

Lemma handleSessions_row m st q env id r :
  sessions (tdb st) !! id = Some r → sessions (tdb (handleSessions m st q env).2) !! id = Some r.
Proof.
  intros Hr. unfold handleSessions. destruct (String.eqb _ MethodGet); [by destruct (List_sessions _ _)|].
  destruct (String.eqb _ MethodPost); [|done].
  assert (∀ b, sessions (tdb (Create m st (field b "name") (field b "cwd") (field b "shell")
    (e_rand env) (e_now env) (e_io1 env) (e_io2 env)).2) !! id = Some r) as HC by (intros; by apply Create_row).
  destruct (json_decode (Body q)) as [b|e]; [specialize (HC b)|destruct (errors_is e ErrEOF); [specialize (HC ∅)|done]];
    by destruct (Create _ _ _ _ _ _ _ _ _) as [[] ?].
Qed.

Lemma term_event_row m st e id r :
  sessions (tdb (term st)) !! id = Some r →
  ∃ r', sessions (tdb (term (term_event_step m st e))) !! id = Some r' ∧ row_change id e r r'.
Proof.
  intros Hr. destruct e as [pattern q env|k e|w]; simpl; [|by apply stream_row|by exists r; split; [|constructor]].
  unfold term_handle. destruct (String.eqb_spec pattern "/sessions") as [_|Hpat].
  { exists r. split; [by apply handleSessions_row|constructor]. }
  assert (∃ r', sessions (tdb (term st)) !! id = Some r' ∧ row_change id (TRequest pattern q env) r r') as Hsame
    by (exists r; split; [done|constructor]).
  unfold handleSession. destruct (splitSessionPath _) as [[id' tail]|] eqn:Hp; [|done].
  destruct (String.eqb tail "stream").
  { unfold handleStream. destruct (Get _ _ _) as [s|]; [|done]. destruct (negb _); [done|].
    destruct (Upgrade _ _); [done|]. simpl. by rewrite (proj1 (start_stream_tdb m st s env)). }
  destruct (String.eqb_spec tail "") as [->|]; simpl; [|done]. by apply session_method_row.
Qed.

(** A DELETE of session [id]; a PATCH that names it [n]. *)
Definition deletes (id : string) (e : term_event) : Prop :=
  match e with
  | TRequest _ q _ => Method q = MethodDelete ∧ splitSessionPath (URLPath q) = Some (id, "")
  | _ => False
  end.

Definition renames (id n : string) (e : term_event) : Prop :=
  match e with
  | TRequest _ q _ => Method q = MethodPatch ∧ splitSessionPath (URLPath q) = Some (id, "") ∧
      ∃ body, json_decode (Body q) = Ok body ∧ n = field body "name"
  | _ => False
  end.

Definition of_stream (e : term_event) : Prop := match e with TStream _ _ => True | _ => False end.

(** The session is the same but for the name PATCH gave it and the time a
    stream was last active. *)
Definition goes_on (es : list term_event) (s s' : Session) : Prop :=
  ID s' = ID s ∧ TmuxSession s' = TmuxSession s ∧ Cwd s' = Cwd s ∧ Shell s' = Shell s ∧
  Status s' = Status s ∧ CreatedAt s' = CreatedAt s ∧
  (Name s' = Name s ∨ Exists (renames (ID s) (Name s')) es) ∧
  (LastActiveAt s' = LastActiveAt s ∨ Exists of_stream es).

Lemma goes_on_snoc es e s s1 s2 :
  goes_on es s s1 → goes_on [e] s1 s2 → goes_on (es ++ [e]) s s2.
Proof.
  intros (Hi & ? & ? & ? & ? & ? & Hn & Ha) (? & ? & ? & ? & ? & ? & Hn' & Ha').
  split_and!; try congruence; rewrite Exists_app; [rewrite Hi in Hn'|]; intuition congruence.
Qed.

(** A row of an open session across events that do not delete it. *)
Lemma row_goes_on m st es id r s :
  sessions (tdb (term st)) !! id = Some r → scan_session id r = Ok s → Status s = StatusOpen →
  Forall (λ e, ¬ deletes id e) es →
  ∃ r' s', sessions (tdb (term (term_history m st es))) !! id = Some r' ∧ scan_session id r' = Ok s' ∧
    goes_on es s s'.
Proof.
  intros Hr Hs Hopen. induction es as [|e es IH] using rev_ind; intros HF.
  { exists r, s. split_and!; [done..|]. split_and!; try done; by left. }
  apply Forall_app in HF as [HF He]. apply Forall_cons in He as [He _].
  destruct (IH HF) as (r1 & s1 & Hr1 & Hs1 & Hg). rewrite term_history_app. simpl.
  change (term_history m ?st [e]) with (term_event_step m st e).
  destruct (term_event_row m _ e id r1 Hr1) as (r2 & Hr2 & Hch).
  assert (∃ s2, scan_session id r2 = Ok s2 ∧ goes_on [e] s1 s2) as (s2 & Hs2 & Hg').
  { unfold scan_session in Hs1. destruct (s_status r1) as [x|] eqn:Ex; [|done]. injection Hs1 as <-.
    destruct Hch as [e r1|k e r1 t|pattern q env body r1 HM Hp Hb|pattern q env r1 t _ HM Hp _];
      unfold scan_session; simpl; rewrite ?Ex.
    - eexists. split; [done|]. split_and!; try done; by left.
    - eexists. split; [done|]. split_and!; try done; [by left|]. right. by constructor.
    - eexists. split; [done|]. split_and!; try done; [|by left]. right. constructor. simpl. eauto.
    - destruct He. by split. }
  exists r2, s2. split_and!; [done..|]. by eapply goes_on_snoc.
Qed.

(** A closed row stays closed. *)
Lemma row_stays_closed m st es id r :
  sessions (tdb (term st)) !! id = Some r → s_status r = Some StatusClosed →
  ∃ r', sessions (tdb (term (term_history m st es))) !! id = Some r' ∧ s_status r' = Some StatusClosed.
Proof.
  intros Hr Hst. induction es as [|e es (r1 & Hr1 & Hst1)] using rev_ind; [by exists r|].
  rewrite term_history_app. change (term_history m ?st [e]) with (term_event_step m st e).
  destruct (term_event_row m _ e id r1 Hr1) as (r2 & Hr2 & Hch). exists r2. split; [done|].
  by destruct Hch.
Qed.

Context `{!TmuxSpec W}.

(** C24: A session that POST created goes on until it is deleted: after any history of requests,
    stream events and changes of the tmux server without a DELETE of it, GET answers the JSON
    that POST answered, but for a name that a PATCH gave it and a last active time if streams
    were in use; once a DELETE has been handled a further DELETE is answered 404 and its stream
    410, after any history that follows and whatever the tmux binary did. (The store does not
    fail for these GET, DELETE and stream requests, nor for the POST, whose lock directory is
    sound; in the histories anything may fail.) *)
Theorem session_lifecycle m D st st1 r0 env buf body resp :
  lock_site (tfs (term st)) (LockDir m) D → quiet_env env → e_rand env = Ok buf → buf ≠ [] →
  Forall is_byte buf → Method r0 = MethodPost → json_decode (Body r0) = Ok body →
  term_handle m "/sessions" st r0 env = (resp, st1) → status resp = 201 →
  let path := "/sessions/" +:+ hex_encode buf in
  ∃ s, resp = write_json 201 (json_session s) ∧ Name s = field body "name" ∧ Status s = StatusOpen ∧
    ID s = hex_encode buf ∧
    ∀ es, Forall (λ e, ¬ deletes (ID s) e) es →
    let st2 := term_history m st1 es in
    (∃ s', goes_on es s s' ∧ ∀ r e, URLPath r = path → Method r = MethodGet → quiet_env e →
       handleSession m st2 r e = (write_json 200 (json_session s'), st2)) ∧
    ∀ r e es', URLPath r = path → Method r = MethodDelete → quiet_env e →
      let st3 := term_history m (handleSession m st2 r e).2 es' in
      (∀ r' e', URLPath r' = path → Method r' = MethodDelete → quiet_env e' →
         handleSession m st3 r' e' = (write_error 404 "no such open session", st3)) ∧
      (∀ r' e', URLPath r' = path +:+ "/stream" → quiet_env e' →
         handleSession m st3 r' e' = (write_error 410 "session is closed", st3)).
Proof.
  intros HS [Hio1 Hio2] Hr Hne Hb HM Hbody HH H201 path.
  change (lift st (handleSessions m (term st) r0 env) = (resp, st1)) in HH.
  unfold handleSessions in HH. rewrite HM, Hbody, Hr, Hio1, Hio2 in HH. cbn [String.eqb MethodPost MethodGet] in HH.
  destruct (Create _ _ _ _ _ _ _ _ _) as [[s|e] st1'] eqn:EC; [|by injection HH as <- <-].
  injection HH as <- <-. clear H201.
  apply (Create_ok m D) in EC as (Es & HG & _); [|done|done].
  assert (ID s = hex_encode buf) as Eid by (by rewrite Es). rewrite Eid in HG.
  destruct (split_session_tail buf Hne Hb) as [Hp1 Hp2]. fold path in Hp1, Hp2.
  assert (Status s = StatusOpen) as Hopen by (by rewrite Es).
  exists s. split_and!; [done|by rewrite Es|done|done|]. rewrite Eid. intros es HF st2.
  unfold GetSession in HG. destruct (sessions (tdb st1') !! hex_encode buf) as [row|] eqn:Er; [|done].
  destruct (row_goes_on m (HttpState st1' (live st)) es _ row s Er HG Hopen HF) as (r' & s' & Hr' & Hs' & Hg).
  fold st2 in Hr'. split.
  - exists s'. split; [done|]. intros r e Hu HMr [Ha1 Ha2].
    unfold handleSession, session_method, lift. rewrite Hu, Hp1, HMr. simpl.
    unfold Get, GetSession. rewrite Ha1, Hr', Hs'. by destruct st2.
  - intros r e es' Hu HMr [Ha1 Ha2] st3.
    assert (s_status r' = Some StatusOpen) as Hst'.
    { unfold scan_session in Hs'. destruct (s_status r') as [x|]; [|done]. f_equal.
      destruct Hg as (_ & _ & _ & _ & Hst & _). injection Hs' as <-. simpl in Hst. congruence. }
    assert (∃ r3, sessions (tdb (term st3)) !! hex_encode buf = Some r3 ∧ s_status r3 = Some StatusClosed)
      as (r3 & Hr3 & Hst3).
    { apply (row_stays_closed m _ es' _ (set_closed (e_now e) r')); [|done].
      unfold handleSession, session_method. rewrite Hu, Hp1, HMr, Ha1, Ha2. simpl.
      pose proof (Close_row m (term st2) (hex_encode buf) r' (e_now e) Hr' Hst') as HC.
      destruct (Close _ _ _ _ _ _) as [[x|] st']; [by destruct (errors_is x ErrNoRows)|done]. }
    destruct (closed_session_requests m st3 _ _ Hr3 Hst3) as [Hd Hs]. split.
    + intros q e' Hu'. apply Hd. by rewrite Hu'.
    + intros q e' Hu'. apply Hs. by rewrite Hu'.
Qed.
End term_http.

(** ** Concrete requests *)

Section examples.
#[local] Existing Instances set_tmux set_tmux_spec ascii_only form_decoder merge_order.

(** Origins of the form scheme://host. *)
#[local] Instance origin_host : UrlParse := λ s,
  match split_char "/" s with
  | [_; ""; host] => Ok host
  | _ => Err (EMsg "not an origin")
  end.

#[local] Instance origin_upgrader : Upgrader.
Proof.
  refine {| Upgrade check r := if check r then None else Some (write_error 403 "request origin not allowed") |}.
  intros check r ->. by eexists.
Defined.

Definition term_request (method path body : string) (hs : list (string * string)) : request :=
  Request method path [] hs "100.64.0.2:5555" "remote.example.org" (Stream body None) None.

Definition plain_env (rand : list Z) (now : Z) : term_env := TermEnv (Ok rand) now None None None.

Definition open_request : request := term_request MethodPost "/sessions" "name=one&shell=sh" [].

Definition http_start : http_state (W := gset string) := HttpState demo_start [].

Definition opened : response * http_state (W := gset string) :=
  term_handle demo_manager "/sessions" http_start open_request (plain_env [10] 5).

Definition delete_request : request := term_request MethodDelete "/sessions/0a" "" [].
Definition stream_request : request := term_request MethodGet "/sessions/0a/stream" "" [].

Definition rename_request : request := term_request MethodPatch "/sessions/0a" "name=two" [].

(** A client attaches and types, and the session is renamed. *)
Definition used : list (term_event (W := gset string)) :=
  [TRequest "/sessions/" stream_request (plain_env [] 6);
   TStream 0 (Receive (ClientMessage "input" "bHM=" 0 0) None None 8 None);
   TRequest "/sessions/" rename_request (plain_env [] 9)].

Lemma session_lifecycle_witness :
  ∃ s, payload_of opened.1 = Json (json_session s) ∧
    let deleted := (handleSession demo_manager (term_history demo_manager opened.2 used)
                      delete_request (plain_env [] 10)).2 in
    let later := term_history demo_manager deleted used in
    handleSession demo_manager later stream_request (plain_env [] 12) =
      (write_error 410 "session is closed", later).
Proof.
  destruct (session_lifecycle demo_manager lock_dir_loc http_start opened.2 open_request (plain_env [10] 5)
    [10] (list_to_map [("name", "one"); ("shell", "sh")]) opened.1) as (s & Hs & _ & _ & Hid & Hd);
    [apply lock_fs_site|done|done|done|by repeat constructor|done|done|done|by vm_compute|].
  exists s. rewrite Hs. split; [done|].
  destruct (Hd used) as [_ Hdel].
  { rewrite Hid. repeat constructor; by intros []. }
  destruct (Hdel delete_request (plain_env [] 10) used) as [_ Hst]; [done..|]. apply Hst; done.
Defined.

(** A session with two clients attached; it is closed while they go on. *)
Definition attach_twice : list (term_event (W := gset string)) :=
  [TRequest "/sessions" open_request (plain_env [10] 5);
   TRequest "/sessions/" stream_request (plain_env [] 6);
   TRequest "/sessions/" stream_request (plain_env [] 7)].

Definition go_on : list (term_event (W := gset string)) :=
  [TStream 0 (PtyRead "$ " None None); TStream 1 (PtyRead "$ " None None);
   TStream 0 (Receive (ClientMessage "input" "bHM=" 0 0) None None 8 None);
   TRequest "/sessions/" delete_request (plain_env [] 9);
   TStream 0 (Receive (ClientMessage "input" "DQ==" 0 0) None None 10 None);
   TStream 1 (PtyRead "bye" (Some (ESent ErrEOF)) None); TStream 0 (PtyRead "ls" None None)].

Lemma requests_keep_locks_witness :
  Held (tfs (term (term_history demo_manager http_start (attach_twice ++ firstn 3 go_on)))) DefaultDir "0a" = true.
Proof.
  apply (requests_keep_locks demo_manager lock_dir_loc http_start (attach_twice ++ firstn 3 go_on) "0a");
    [apply lock_fs_site|done|apply lock_fs_represents|by repeat constructor|by vm_compute|].
  eexists. by split; [by vm_compute|].
Defined.

Definition one_attached : http_state (W := gset string) :=
  term_history demo_manager http_start (firstn 2 attach_twice).

Lemma streams_are_transparent_witness :
  ∃ s', live (term_history demo_manager
      (handleSession demo_manager one_attached stream_request (plain_env [] 7)).2 go_on) !! 1%nat = Some ("0a", s') ∧
    shown (sent s') = "$ bye" ∧ typed s' = [].
Proof.
  destruct (streams_are_transparent demo_manager http_start stream_request (plain_env [] 7) "0a" (stream_start "")
    (firstn 2 attach_twice) go_on) as (first & s' & Hf & Hs & Hsh & Ht); [by vm_compute|by vm_compute; repeat constructor|].
  assert (first = "") as -> by (revert Hf; unfold stream_start; by destruct first).
  exists s'. split; [exact Hs|]. split; [by rewrite Hsh; vm_compute|by rewrite Ht; vm_compute].
Defined.

(** The client goes away while the program it ran is silent: the handler gives
    up after a second, and the goroutine ends on its next two reads. *)
Definition go_away : list (term_event (W := gset string)) :=
  [TStream 0 (PtyRead "$ " None None); TStream 0 ReceiveError; TStream 0 (Leave false);
   TStream 0 (Leave true); TStream 0 (PtyRead "late" None (Some (EMsg "broken pipe")));
   TStream 0 Hangup; TStream 0 (PtyRead "lost" None None)].

Lemma abandoned_stream_ends_witness :
  live one_attached !! 0%nat = Some ("0a", stream_start "") ∧
  ∃ s', reading s' = false ∧
    live (term_history demo_manager one_attached (go_away ++ go_on)) !! 0%nat = Some ("0a", s').
Proof.
  split; [by vm_compute|].
  destruct (abandoned_stream_ends demo_manager one_attached 0 "0a" (stream_start "") go_away
    "late" None (Some (EMsg "broken pipe")) "lost" None None) as (s' & Hr & _ & _ & Hs');
    [by vm_compute|by vm_compute; repeat constructor..|].
  exists s'. split; [exact Hr|]. apply (Hs' go_on).
Defined.

Definition hostile_request : request :=
  term_request MethodGet "/sessions/0a/stream" "" [("Origin", "https://evil.example")].

Example hostile_refused : (handleSession demo_manager opened.2 hostile_request (plain_env [] 6)).1 =
  write_error 403 "request origin not allowed".
Proof. by vm_compute. Qed.
End examples.
