(* ===== verification/FileStore.v ===== *)
(** * files/store.go: the store of files under a list of roots

    A [Store] is its list of roots. The errors carry the texts of the code;
    reading a file is reading its content at the time of the call. *)

From S2P Require Import Prelude GoStr Path Fs Sha256.
From Stdlib Require Import Ascii.

Definition resolve_root (fs : FS) (r : string) : string :=
  let abs := Abs fs r in
  Clean (match EvalSymlinks fs abs with Ok real => real | Err _ => abs end).

Definition NewStore (fs : FS) (roots : list string) : result (list string) :=
  match roots with
  | [] => Err (EMsg "at least one root is required")
  | _ => Ok (map (resolve_root fs) roots)
  end.

(** The loop of resolveExisting, from [current] with [remainder] set aside. *)
Fixpoint resolve_loop (fuel : nat) (fs : FS) (path current remainder : string) : result string :=
  match EvalSymlinks fs current with
  | Ok real => Ok (if String.eqb remainder "" then real else Join [real; remainder])
  | Err err =>
     if negb (errors_is err ErrNotExist) then Err (EWrap ("resolve " +:+ path +:+ ": ") err "")
     else if String.eqb (Dir current) current then Ok path
     else match fuel with
     | O => Ok path
     | S fuel' => resolve_loop fuel' fs path (Dir current) (Join [Base current; remainder])
     end
  end.

(** Each iteration removes a component of the path. *)
Definition resolveExisting (fs : FS) (path : string) : result string :=
  resolve_loop (String.length path) fs path path "".

Definition in_root (real root : string) : bool :=
  String.eqb real root || has_prefix real (root +:+ "/").

Definition candidate_path (roots : list string) (rel : string) : string :=
  Clean (if IsAbs rel then rel else Join [default "" (head roots); rel]).

Definition Resolve (fs : FS) (roots : list string) (rel : string) : result string :=
  if contains_char "000" rel then Err (ESent ErrOutsideRoots)
  else
    real ← resolveExisting fs (candidate_path roots rel);
    if existsb (in_root real) roots then Ok real else Err (ESent ErrOutsideRoots).

(** ** Listing *)

Record Entry := MkEntry {
  EntryName : string;
  EntrySize : Z;
  EntryIsDir : bool;
  ModTime : Z;         (* seconds *)
}.

Definition entry_of (p : string * node) : Entry :=
  MkEntry p.1 (node_size p.2) (is_dir p.2) (node_mtime p.2 / Second).

(** The order of [sort.Slice]: directories first, then by name. *)
Definition entry_leb (a b : Entry) : bool :=
  if Bool.eqb (EntryIsDir a) (EntryIsDir b) then String.leb (EntryName a) (EntryName b)
  else EntryIsDir a.

Definition entry_le (a b : Entry) : Prop := entry_leb a b = true.

#[export] Instance entry_le_dec a b : Decision (entry_le a b).
Proof. unfold entry_le. apply _. Defined.

Definition List_ (fs : FS) (roots : list string) (rel : string) : result (list Entry) :=
  abs ← Resolve fs roots rel;
  match ReadDir fs abs with
  | Err e => Err (EWrap ("list " +:+ rel +:+ ": ") e "")
  | Ok entries =>
     let readable p := match fault fs SLstat (abs +:+ "/" +:+ p.1) with None => true | Some _ => false end in
     Ok (merge_sort entry_le (map entry_of (List.filter readable entries)))
  end.

(** ** Files *)

Definition HashFile (fs : FS) (path : string) : result string :=
  match os_Open fs path with
  | Err e => Err (EWrap ("open " +:+ path +:+ " for hashing: ") e "")
  | Ok l =>
     match read_all fs path l with
     | Err e => Err (EWrap ("hash " +:+ path +:+ ": ") e "")
     | Ok data => Ok (sha256_hex data)
     end
  end.

(** The open file, its size and its hash. *)
Definition Open (fs : FS) (roots : list string) (rel : string) : result (loc * Z * string) :=
  abs ← Resolve fs roots rel;
  match Stat fs abs with
  | Err e => Err (EWrap ("stat " +:+ rel +:+ ": ") e "")
  | Ok info =>
     if is_dir info then Err (EMsg (rel +:+ " is a directory"))
     else
       sum ← HashFile fs abs;
       match os_Open fs abs with
       | Err e => Err (EWrap ("open " +:+ rel +:+ ": ") e "")
       | Ok l => Ok (l, node_size info, sum)
       end
  end.

Definition Delete (fs : FS) (roots : list string) (rel : string) : error * FS :=
  match Resolve fs roots rel with
  | Err e => (Some e, fs)
  | Ok abs =>
     match Stat fs abs with
     | Err e => (Some (EWrap ("stat " +:+ rel +:+ ": ") e ""), fs)
     | Ok info =>
        if is_dir info then (Some (EMsg "refusing to delete a directory"), fs)
        else match Remove fs abs with
        | (Some e, fs') => (Some (EWrap ("delete " +:+ rel +:+ ": ") e ""), fs')
        | (None, fs') => (None, fs')
        end
     end
  end.

(** ** The boundary *)

Definition root_ok (r : string) : Prop :=
  ∃ l, r = render l ∧ Forall plain l ∧ Forall (char_free "000") l.

Definition roots_ok (roots : list string) : Prop := roots ≠ [] ∧ Forall root_ok roots.

(** Location [l] is one of the roots, or below a root other than "/". *)
Definition under (roots : list string) (l : loc) : Prop :=
  ∃ rl, render rl ∈ roots ∧ Forall plain rl ∧
    (l = rl ∨ (rl ≠ [] ∧ ∃ c l', l = rl ++ c :: l')).

Lemma in_root_under roots l :
  Forall root_ok roots → Forall plain l →
  existsb (in_root (render l)) roots = true → under roots l.
Proof.
  intros Hr Hl. rewrite existsb_exists. intros (root & Hin & Hroot).
  apply list_elem_of_In in Hin. destruct (proj1 (Forall_forall _ _) Hr root Hin) as (rl & -> & Hp & _).
  exists rl. split_and!; [done..|]. unfold in_root in Hroot. apply orb_true_iff in Hroot as [E|E].
  - left. apply String.eqb_eq in E. by apply render_inj.
  - right. by apply has_prefix_render.
Qed.

(** What the loop of [resolveExisting] has established about [current = pre]. *)
Definition tried (m : gmap loc node) (pre rem : list string) : Prop :=
  match rem with
  | [] => True
  | c :: _ => not_there (walk 255 m true [] (pre ++ [c]))
  end.

Lemma Join_base c rem :
  Forall plain (c :: rem) → Join [c; join_path rem] = join_path (c :: rem).
Proof.
  intros HF. unfold Join; simpl.
  rewrite (proj2 (String.eqb_neq c "")) by (inversion HF as [|? ? Hc _]; apply Hc). simpl.
  destruct rem as [|d rem].
  - change (Clean (join_path [c]) = join_path [c]). by apply Clean_join_path.
  - rewrite (proj2 (String.eqb_neq _ _)) by (apply join_path_not_nil; [by inversion HF|done]).
    change (Clean (join_path (c :: d :: rem)) = join_path (c :: d :: rem)). by apply Clean_join_path.
Qed.

Lemma resolve_loop_unfold fuel fs path current remainder :
  resolve_loop fuel fs path current remainder =
  match EvalSymlinks fs current with
  | Ok real => Ok (if String.eqb remainder "" then real else Join [real; remainder])
  | Err err =>
     if negb (errors_is err ErrNotExist) then Err (EWrap ("resolve " +:+ path +:+ ": ") err "")
     else if String.eqb (Dir current) current then Ok path
     else match fuel with
     | O => Ok path
     | S fuel' => resolve_loop fuel' fs path (Dir current) (Join [Base current; remainder])
     end
  end.
Proof. by destruct fuel. Qed.

Lemma reattach l rem :
  Forall plain l → Forall plain rem →
  (if String.eqb (join_path rem) "" then render l else Join [render l; join_path rem]) =
  render (l ++ rem).
Proof.
  intros Hl Hrem. destruct rem as [|c rem].
  - by rewrite app_nil_r.
  - rewrite (proj2 (String.eqb_neq _ _)) by (by apply join_path_not_nil). by apply Join_render.
Qed.

Lemma resolve_loop_spec fuel fs cl pre rem p :
  fs_wf fs → Forall plain cl → cl = pre ++ rem → tried (nodes fs) pre rem →
  (length pre ≤ fuel)%nat →
  resolve_loop fuel fs (render cl) (render pre) (join_path rem) = Ok p →
  ∃ pre' rem' base, cl = pre' ++ rem' ∧ tried (nodes fs) pre' rem' ∧
    walk 255 (nodes fs) true [] pre' = Found base ∧ real (nodes fs) base ∧ p = render (base ++ rem').
Proof.
  intros Hwf Hcl. revert pre rem.
  induction fuel as [|fuel IH]; intros pre rem Hsplit Htried Hfuel; rewrite resolve_loop_unfold;
    pose proof (EvalSymlinks_cases fs (render pre) Hwf) as HE;
    assert (Forall plain pre ∧ Forall plain rem) as [Hpre Hrem]
      by (rewrite Hsplit in Hcl; by apply Forall_app in Hcl);
    rewrite walk_split_render in HE by (done || apply Hwf);
    (destruct (EvalSymlinks fs (render pre)) as [rl|e];
      [destruct HE as (l & -> & Hl & Hw); rewrite reattach by (done || by eapply real_plain);
       intros [= <-]; by exists pre, rem, l|]);
    (destruct (errors_is e ErrNotExist) eqn:En; simpl negb; cbv iota; [|done]);
    (destruct pre as [|c pre _] using rev_ind;
      [destruct (HE eq_refl) as [Hw|(d & c & Hw)]; by rewrite walk_unfold in Hw|]);
    rewrite length_app in Hfuel; simpl in Hfuel; [lia|].
  apply Forall_app in Hpre as [Hpre Hc]. apply Forall_cons in Hc as [Hc _].
  rewrite Dir_render, Base_render by done.
  destruct (String.eqb_spec (render pre) (render (pre ++ [c]))) as [E|_].
  { apply render_inj in E; [|done|apply Forall_app; by split; [|constructor]].
    apply (f_equal length) in E. rewrite length_app in E. simpl in E. lia. }
  rewrite Join_base by (by constructor). apply IH; [by rewrite <- app_assoc in Hsplit| |lia].
  unfold tried. destruct (HE eq_refl) as [->|(d & c' & ->)]; done.
Qed.

(** The loop runs out of components before it runs out of fuel: more fuel
    changes nothing. *)
Lemma resolve_loop_fuel fuel fuel' fs path pre rem :
  Forall plain pre → (length pre ≤ fuel)%nat → (length pre ≤ fuel')%nat →
  resolve_loop fuel fs path (render pre) rem = resolve_loop fuel' fs path (render pre) rem.
Proof.
  revert fuel' pre rem. induction fuel as [|fuel IH]; intros fuel' pre rem Hp Hf Hf';
    rewrite (resolve_loop_unfold fuel'), resolve_loop_unfold;
    (destruct (EvalSymlinks fs (render pre)); [done|]);
    (destruct (negb _); [done|]);
    (destruct pre as [|c pre _] using rev_ind; [by rewrite Dir_root, String.eqb_refl|]);
    rewrite length_app in Hf, Hf'; simpl in Hf, Hf'; [lia|].
  destruct (String.eqb _ _); [done|]. destruct fuel' as [|fuel']; [lia|].
  apply Forall_app in Hp as [Hp Hc]. apply Forall_cons in Hc as [Hc _].
  rewrite Dir_render, Base_render by done. apply IH; [done|lia|lia].
Qed.

Lemma split_forall a c s :
  contains_char a s = false → Forall (char_free a) (split_char c s).
Proof.
  unfold char_free. induction s as [|b s IH]; simpl; [by repeat constructor|].
  intros [Hb Hs]%orb_false_iff. specialize (IH Hs).
  destruct (Ascii.eqb b c); [by constructor|].
  destruct (split_char c s) as [|h t]; [by repeat constructor; simpl; rewrite Hb|].
  inversion_clear IH. constructor; [|done]. simpl. by rewrite Hb.
Qed.

Lemma clean_loop_free a rooted cs stack :
  Forall (char_free a) cs → Forall (char_free a) stack → a ≠ "."%char →
  Forall (char_free a) (fold_left (clean_step rooted) cs stack).
Proof.
  intros Hcs Hst Ha. revert stack Hst. induction Hcs as [|c cs Hc _ IH]; intros stack Hst; simpl; [done|].
  apply IH. unfold clean_step.
  assert (char_free a "..") as Hdd.
  { unfold char_free; cbn [contains_char].
    by rewrite (proj2 (Ascii.eqb_neq "."%char a)) by congruence. }
  destruct (_ || _); [done|]. destruct (String.eqb c "..").
  - destruct Hst as [|t st Ht Hst]; [destruct rooted; by repeat constructor|].
    destruct (String.eqb t ".."); [|done]. by repeat constructor.
  - by constructor.
Qed.

Lemma render_length l : (length l ≤ String.length (render l))%nat.
Proof.
  unfold render, join_path; simpl. induction l as [|c l IH]; simpl; [lia|].
  destruct l as [|d l]; simpl in *; [lia|].
  assert (∀ s t : string, String.length (s +:+ t) = (String.length s + String.length t)%nat) as Ha.
  { induction s; intros; simpl; [done|]. by rewrite IHs. }
  rewrite Ha. simpl. lia.
Qed.

Definition candidate_ok (roots : list string) (rel : string) (cl : loc) : Prop :=
  candidate_path roots rel = render cl ∧ Forall plain cl ∧ Forall (char_free "000") cl.

(** A cleaned absolute path of a name without NUL bytes. *)
Lemma Clean_abs_ok s :
  IsAbs s = true → contains_char "000" s = false →
  ∃ cl, Clean s = render cl ∧ Forall plain cl ∧ Forall (char_free "000") cl.
Proof.
  intros Habs Hnul. exists (clean_comps true s). rewrite Clean_abs by done.
  split_and!; [done|apply clean_comps_plain|]. apply Forall_rev, clean_loop_free; [by apply split_forall|done|done].
Qed.

Lemma Join_abs_ok rl rel :
  Forall plain rl → Forall (char_free "000") rl → contains_char "000" rel = false →
  ∃ cl, Join [render rl; rel] = render cl ∧ Forall plain cl ∧ Forall (char_free "000") cl.
Proof.
  intros Hrl Hn Hnul. unfold Join; simpl. destruct (String.eqb_spec rel "") as [->|Hrel]; simpl.
  - exists rl. split_and!; [by apply Clean_render|done|done].
  - change (join_path [render rl; rel]) with (render rl +:+ String slash rel). apply Clean_abs_ok; [done|].
    apply (char_free_app "000" (render rl) (String slash rel)).
    split; [by apply render_nul|]. by apply char_free_cons.
Qed.

Lemma candidate_spec roots rel :
  roots_ok roots → contains_char "000" rel = false → ∃ cl, candidate_ok roots rel cl.
Proof.
  intros [Hne Hok] Hnul. unfold candidate_ok, candidate_path.
  destruct (IsAbs rel) eqn:Habs; [by apply Clean_abs_ok|].
  destruct roots as [|r roots]; [done|]. apply Forall_cons in Hok as [(rl & -> & Hrl & Hn) _]. simpl.
  destruct (Join_abs_ok rl rel Hrl Hn Hnul) as (cl & -> & Hcl & Hcn).
  exists cl. by rewrite Clean_render.
Qed.

(** Whatever the flags say, NewStore keeps cleaned absolute roots with their
    symbolic links resolved. *)
Lemma NewStore_roots_ok fs roots rs :
  fs_wf fs → real_dir (nodes fs) (cwd fs) → Forall (λ r, contains_char "000" r = false) roots →
  NewStore fs roots = Ok rs → roots_ok rs ∧ length rs = length roots.
Proof.
  intros Hwf Hcwd HF HN. assert (rs = map (resolve_root fs) roots ∧ roots ≠ []) as [-> Hne]
    by (by destruct roots; simplify_eq/=).
  split; [split; [by destruct roots|]|by rewrite length_map].
  apply Forall_map. eapply Forall_impl; [exact HF|]. intros r Hr. unfold resolve_root.
  pose proof (EvalSymlinks_cases fs (Abs fs r) Hwf) as HE. unfold root_ok.
  destruct (EvalSymlinks fs (Abs fs r)) as [p|e].
  - destruct HE as (l & -> & Hl & _). exists l. pose proof (real_plain _ _ Hl) as Hp.
    rewrite Clean_render by done. split_and!; [done|done|by eapply real_nul].
  - assert (∃ cl, Abs fs r = render cl ∧ Forall plain cl ∧ Forall (char_free "000") cl) as (cl & -> & Hcl & Hn).
    { unfold Abs. destruct (IsAbs r) eqn:Ea; [by apply Clean_abs_ok|].
      apply Join_abs_ok; [by eapply real_dir_plain|by eapply real_nul; [|left]|done]. }
    exists cl. by rewrite Clean_render.
Qed.

(** The shape of a resolved path. *)
Definition resolved (fs : FS) (roots : list string) (p : string) (l : loc) : Prop :=
  p = render l ∧ Forall plain l ∧ Forall (char_free "000") l ∧ under roots l ∧
  ∀ x, resolve_path fs p true = Found x → x = l ∧ real (nodes fs) l.

(** What Resolve answers: where the longest existing part of the path leads,
    and the names after it. *)
Lemma Resolve_parts fs roots rel p :
  fs_wf fs → roots_ok roots → Resolve fs roots rel = Ok p →
  ∃ pre base rem, p = render (base ++ rem) ∧ Forall plain (base ++ rem) ∧
    Forall (char_free "000") (base ++ rem) ∧ under roots (base ++ rem) ∧
    walk 255 (nodes fs) true [] pre = Found base ∧ real (nodes fs) base ∧ tried (nodes fs) pre rem.
Proof.
  intros Hwf Hroots. unfold Resolve. destruct (contains_char _ rel) eqn:Hnul; [done|].
  destruct (candidate_spec roots rel Hroots Hnul) as (cl & -> & Hcl & Hcn).
  unfold resolveExisting. destruct (resolve_loop _ _ _ _ _) as [q|e] eqn:HL; [|done].
  apply (resolve_loop_spec _ fs cl cl []) in HL as (pre & rem & base & Hsplit & Ht & Hw & Hb & ->);
    [|done|done|by rewrite app_nil_r|done|apply render_length].
  rewrite Hsplit in Hcl, Hcn. apply Forall_app in Hcl as [_ Hrem], Hcn as [_ Hrn].
  assert (Forall plain (base ++ rem)) as Hpl.
  { apply Forall_app. split; [by eapply real_plain|done]. }
  assert (Forall (char_free "000") (base ++ rem)) as Hnf.
  { apply Forall_app. split; [by eapply real_nul|done]. }
  cbn [mbind result_bind]. destruct (existsb (in_root _) roots) eqn:Hin; [|done]. intros [= <-].
  exists pre, base, rem. split_and!; try done. by apply in_root_under; [apply Hroots|..].
Qed.

Lemma Resolve_sound fs roots rel p :
  fs_wf fs → roots_ok roots → Resolve fs roots rel = Ok p → ∃ l, resolved fs roots p l.
Proof.
  intros Hwf Hroots (pre & base & rem & -> & Hpl & Hnf & Hu & Hw & Hb & Ht)%Resolve_parts; [|done..].
  exists (base ++ rem). split_and!; try done. intros x Hx.
  rewrite resolve_render in Hx by done. destruct rem as [|c rem].
  - rewrite app_nil_r in Hx |- *. rewrite walk_real in Hx by done. by injection Hx as <-.
  - by destruct (below_not_there _ pre base c rem x Hw Hb Ht Hx).
Qed.

(** No link is on the way of a resolved path, unless one dangles. *)
Lemma Resolve_unlinked fs roots rel p :
  fs_wf fs → in_directories (nodes fs) → no_dangling (nodes fs) → roots_ok roots →
  Resolve fs roots rel = Ok p →
  ∃ l, p = render l ∧ Forall plain l ∧ Forall (char_free "000") l ∧ under roots l ∧ unlinked (nodes fs) l.
Proof.
  intros Hwf Hd Hnd Hroots (pre & base & rem & -> & Hpl & Hnf & Hu & Hw & Hb & Ht)%Resolve_parts; [|done..].
  exists (base ++ rem). split_and!; try done. destruct rem as [|c rem].
  - rewrite app_nil_r. by apply real_unlinked.
  - eapply below_unlinked; [done..| |exact Ht]. apply Forall_app in Hpl as [_ Hpl]. by inversion Hpl.
Qed.

(** Where a name resolves to does not depend on the contents of files. *)
#[export] Instance Resolve_proper : Proper (same_fs ==> (=) ==> (=) ==> (=)) Resolve.
Proof.
  intros fs fs' Hfs roots ? <- rel ? <-. unfold Resolve, resolveExisting.
  set (path := candidate_path roots rel). set (fuel := String.length path).
  assert (∀ cur rem, resolve_loop fuel fs path cur rem = resolve_loop fuel fs' path cur rem) as E.
  { induction fuel as [|fuel IH]; intros cur rem; simpl;
      rewrite (EvalSymlinks_proper fs fs' Hfs cur cur eq_refl); [done|].
    repeat (case_match; try done). }
  by rewrite E.
Qed.

Lemma Stat_resolved fs roots p l n :
  resolved fs roots p l → Stat fs p = Ok n → real (nodes fs) l ∧ nodes fs !! l = Some n.
Proof.
  intros (_ & _ & _ & _ & Hr). unfold Stat, sys, reach.
  destruct (fault fs SStat p); [done|].
  destruct (resolve_path fs p true) as [x| |] eqn:E; simpl; [|done..].
  destruct (Hr _ eq_refl) as [-> Hl]. destruct (nodes fs !! l); simpl; [|done]. by intros [= ->].
Qed.

Lemma os_Open_resolved fs roots p l x :
  resolved fs roots p l → os_Open fs p = Ok x → x = l ∧ real (nodes fs) l.
Proof.
  intros (_ & _ & _ & _ & Hr). unfold os_Open, sys, reach.
  destruct (fault fs SOpen p); [done|].
  destruct (resolve_path fs p true) as [y| |] eqn:E; simpl; [|done..].
  destruct (Hr _ eq_refl) as [-> Hl]. destruct (nodes fs !! l); simpl; [|done]. by intros [= ->].
Qed.

Lemma HashFile_ok fs p sum :
  HashFile fs p = Ok sum →
  ∃ l data t, os_Open fs p = Ok l ∧ nodes fs !! l = Some (File data t) ∧ sum = sha256_hex data.
Proof.
  unfold HashFile, read_all, sys. destruct (os_Open fs p) as [l|]; [|done].
  destruct (fault fs SRead p); [done|].
  destruct (nodes fs !! l) as [[d t|s t|t u]|] eqn:E; try done.
  intros [= <-]. by exists l, d, t.
Qed.

Lemma real_file_or_dir m l n :
  real m l → m !! l = Some n → is_dir n = false → ∃ data t, n = File data t.
Proof.
  intros Hl Hn Hd. destruct (real_exists _ _ Hl) as (n' & Hn' & Hlk).
  rewrite Hn in Hn'. injection Hn' as <-. destruct n; [eauto|done|done].
Qed.

Lemma Open_inside fs roots rel l size sum :
  fs_wf fs → roots_ok roots → Open fs roots rel = Ok (l, size, sum) →
  under roots l ∧ real (nodes fs) l ∧
  ∃ data t, nodes fs !! l = Some (File data t) ∧ size = slen data ∧ sum = sha256_hex data.
Proof.
  intros Hwf Hroots. unfold Open. destruct (Resolve fs roots rel) as [p|] eqn:HR; [|done].
  apply Resolve_sound in HR as (l' & Hres); [|done|done]. cbn [mbind result_bind].
  destruct (Stat fs p) as [n|] eqn:HS; [|done].
  destruct (Stat_resolved _ _ _ _ _ Hres HS) as [Hreal Hn].
  destruct (is_dir n) eqn:Hd; [done|].
  destruct (real_file_or_dir _ _ _ Hreal Hn Hd) as (data & t & ->).
  destruct (HashFile fs p) as [s|] eqn:HH; [|done]. simpl.
  destruct (os_Open fs p) as [x|] eqn:HO; [|done]. intros [= <- <- <-].
  destruct (os_Open_resolved _ _ _ _ _ Hres HO) as [-> _].
  apply HashFile_ok in HH as (l1 & data' & t' & HO' & Hd' & ->).
  rewrite HO in HO'. injection HO' as <-.
  assert (data' = data) as -> by congruence.
  split_and!; [apply Hres|done|by exists data, t].
Qed.

(** C6: A file Open returns is, after every symbolic link on the way, a regular file at a
    location under one of the roots, with its size and its SHA-256. *)
Theorem Open_stays_inside fs roots rel l size sum :
  fs_wf fs → roots_ok roots → Open fs roots rel = Ok (l, size, sum) →
  under roots l ∧ real (nodes fs) l ∧
  ∃ data t, nodes fs !! l = Some (File data t) ∧ size = slen data ∧ sum = sha256_hex data.
Proof. apply Open_inside. Qed.

(** C37: Delete either fails and changes nothing, or removes exactly one regular file, whose
    location is under one of the roots. *)
Lemma Delete_stays_inside fs roots rel e fs' :
  fs_wf fs → roots_ok roots → Delete fs roots rel = (e, fs') →
  (is_Some e ∧ fs' = fs) ∨
  (e = None ∧ ∃ l data t, under roots l ∧ nodes fs !! l = Some (File data t) ∧
     fs' = with_nodes fs (delete l (nodes fs))).
Proof.
  intros Hwf Hroots. unfold Delete. destruct (Resolve fs roots rel) as [p|] eqn:HR; cycle 1.
  { intros [= <- <-]. left. by split. }
  apply Resolve_sound in HR as (l & Hres); [|done|done].
  destruct (Stat fs p) as [n|] eqn:HS; cycle 1.
  { intros [= <- <-]. left. by split. }
  destruct (Stat_resolved _ _ _ _ _ Hres HS) as [Hreal Hn].
  destruct (is_dir n) eqn:Hd; [intros [= <- <-]; left; by split|].
  destruct (real_file_or_dir _ _ _ Hreal Hn Hd) as (data & t & ->).
  unfold Remove, sys. destruct (fault fs SRemove p); [intros [= <- <-]; left; by split|].
  destruct Hres as (-> & _ & _ & Hu & _).
  rewrite (reach_real fs "remove" l (File data t) false Hwf Hreal Hn). simpl.
  intros [= <- <-]. right. split; [done|]. by exists l, data, t.
Qed.

Lemma entry_le_cases a b :
  entry_le a b ↔
  (EntryIsDir a = EntryIsDir b ∧ String.le (EntryName a) (EntryName b)) ∨
  (EntryIsDir a = true ∧ EntryIsDir b = false).
Proof.
  unfold entry_le, entry_leb, String.le. rewrite Is_true_true.
  destruct (EntryIsDir a), (EntryIsDir b); simpl; naive_solver.
Qed.

#[export] Instance entry_le_total : Total entry_le.
Proof.
  intros a b. rewrite !entry_le_cases.
  pose proof (String.le_total (EntryName a) (EntryName b)).
  destruct (EntryIsDir a), (EntryIsDir b); naive_solver.
Qed.

#[export] Instance entry_le_trans : Transitive entry_le.
Proof.
  intros a b c. rewrite !entry_le_cases.
  assert (String.le (EntryName a) (EntryName b) → String.le (EntryName b) (EntryName c) →
    String.le (EntryName a) (EntryName c)) by (intros; by etrans).
  destruct (EntryIsDir a), (EntryIsDir b), (EntryIsDir c); naive_solver.
Qed.

(** List returns exactly the entries of one directory under the roots, each name once,
    directories before files and then by name. *)
Lemma List_stays_inside fs roots rel es :
  fs_wf fs → roots_ok roots → (∀ p, fault fs SLstat p = None) → List_ fs roots rel = Ok es →
  ∃ l s t, under roots l ∧ nodes fs !! l = Some (Directory s t) ∧
    StronglySorted entry_le es ∧ NoDup (map EntryName es) ∧
    ∀ e, e ∈ es ↔ ∃ n, nodes fs !! (l ++ [EntryName e]) = Some n ∧ e = entry_of (EntryName e, n).
Proof.
  intros Hwf Hroots Hnf. unfold List_. destruct (Resolve fs roots rel) as [p|] eqn:HR; [|done].
  apply Resolve_sound in HR as (l & Hres); [|done|done]. cbn [mbind result_bind].
  unfold ReadDir, sys, reach. destruct (fault fs SOpen p); [done|].
  destruct (resolve_path fs p true) as [x| |] eqn:E; simpl; [|done..].
  destruct Hres as (_ & _ & _ & Hu & Hr). destruct (Hr _ E) as [-> Hreal].
  destruct (nodes fs !! l) as [n|] eqn:Hn; simpl; [|done].
  destruct (fault fs SReadDir p); [done|]. destruct n as [|s t|]; [done| |done].
  intros [= <-]. exists l, s, t.
  assert (∀ c : list (string * node), List.filter (λ q, match fault fs SLstat (p +:+ String "/" q.1) with
      | Some _ => false | None => true end) c = c) as Hfilter.
  { induction c as [|q c IH]; simpl; [done|]. by rewrite Hnf, IH. }
  rewrite Hfilter. split_and!; [done|done|apply StronglySorted_merge_sort; apply _| |].
  - eapply NoDup_Permutation_proper; [apply Permutation_map, merge_sort_Permutation|].
    rewrite map_map. apply children_NoDup.
  - intros e. rewrite merge_sort_Permutation, list_elem_of_fmap. split.
    + intros ([c n] & -> & Hin%children_elem). simpl. by exists n.
    + intros (n & Hm & He). exists (EntryName e, n). split; [done|]. by apply children_elem.
Qed.

(** ** What resolves *)

Lemma root_slash_serves_nothing fs rel p :
  fs_wf fs → Resolve fs ["/"] rel = Ok p → p = "/".
Proof.
  intros Hwf HR. apply Resolve_sound in HR as (l & -> & Hl & _ & (rl & Hrl & Hp & Hcase) & _); [|done|].
  - apply list_elem_of_singleton in Hrl. change "/" with (render []) in Hrl.
    apply render_inj in Hrl as ->; [|done|done]. destruct Hcase as [->|[? _]]; done.
  - split; [done|]. constructor; [|done]. by exists [].
Qed.

(** A relative path of plain names to an existing file or directory without symbolic links
    below a root other than / resolves to exactly that location. *)
Lemma Resolve_serves fs rl cs :
  fs_wf fs → rl ≠ [] → real_dir (nodes fs) rl → Forall plain cs → real (nodes fs) (rl ++ cs) →
  fault fs SLstat (render (rl ++ cs)) = None → cs ≠ [] →
  Resolve fs [render rl] (join_path cs) = Ok (render (rl ++ cs)).
Proof.
  intros Hwf Hne Hrl Hcs Hreal Hnf Hcne.
  pose proof (real_dir_plain _ _ Hrl) as Hrp.
  assert (Forall plain (rl ++ cs)) as Hpl by (apply Forall_app; by split).
  assert (contains_char "000" (join_path cs) = false) as Hnul.
  { pose proof (render_nul _ (real_nul _ _ Hwf Hreal)) as Hn. unfold render in Hn. simpl in Hn.
    rewrite join_path_app in Hn by done. apply char_free_app in Hn as [_ Hn].
    by apply char_free_cons in Hn as [_ Hn]. }
  unfold Resolve. rewrite Hnul. unfold candidate_path. rewrite join_path_rel by done. simpl.
  rewrite Join_render, Clean_render by done. unfold resolveExisting.
  rewrite resolve_loop_unfold. unfold EvalSymlinks, sys. rewrite Hnf.
  rewrite walk_split_render, walk_real by (done || apply Hwf). cbn [mbind result_bind String.eqb].
  unfold in_root. simpl existsb.
  destruct cs as [|c cs]; [done|].
  rewrite (proj2 (has_prefix_render rl (rl ++ c :: cs) Hrp Hpl)) by (split; [done|by exists c, cs]).
  by rewrite orb_true_r.
Qed.

(** ** A concrete tree

    A root with a file, a directory and a link that leads out of it. *)

Definition sample_nodes : gmap loc node :=
  list_to_map
    [([], Directory 4096 0); (["srv"], Directory 4096 0); (["etc"], Directory 4096 0);
     (["etc"; "passwd"], File "root:x" 0); (["srv"; "exchange"], Directory 4096 0);
     (["srv"; "exchange"; "b.txt"], File "bee" (2 * Second));
     (["srv"; "exchange"; "a.txt"], File "hello" (3 * Second));
     (["srv"; "exchange"; "docs"], Directory 4096 (4 * Second));
     (["srv"; "exchange"; "escape"], Symlink "/etc" 0);
     (["srv"; "exchange"; "dangling"], Symlink "../../etc/new" 0)].

Definition sample_fs : FS := MkFS sample_nodes [] (λ _ _, None) (λ _, 0%nat) (9 * Second) (λ _, 0).
Definition sample_roots : list string := ["/srv/exchange"].

Lemma sample_root : real_dir sample_nodes [].
Proof. by apply (real_root _ 4096 0). Qed.

Lemma sample_exchange : real_dir sample_nodes ["srv"; "exchange"].
Proof.
  apply (real_child _ ["srv"] "exchange" 4096 0); [|by_decide|by vm_compute].
  apply (real_child _ [] "srv" 4096 0); [apply sample_root|by_decide|by vm_compute].
Qed.

Lemma sample_wf : fs_wf sample_fs.
Proof.
  split_and!; [apply sample_root| |done].
  intros l n Hl. apply elem_of_map_to_list in Hl. simpl in Hl.
  assert (Forall (λ p, Forall (char_free "000") p.1) (map_to_list sample_nodes)) as HF.
  { vm_compute. repeat constructor. }
  by apply (proj1 (Forall_forall _ _) HF) in Hl.
Qed.

Lemma sample_roots_ok : roots_ok sample_roots.
Proof.
  split; [done|]. constructor; [|done]. exists ["srv"; "exchange"].
  split_and!; [done|by_decide|by repeat constructor].
Qed.

Example escape_refused : Resolve sample_fs sample_roots "escape/passwd" = Err (ESent ErrOutsideRoots).
Proof. by vm_compute. Qed.

Example dots_refused : Resolve sample_fs sample_roots "../../etc/passwd" = Err (ESent ErrOutsideRoots).
Proof. by vm_compute. Qed.

Lemma Open_stays_inside_witness :
  under sample_roots ["srv"; "exchange"; "a.txt"] ∧ 5 = slen "hello".
Proof.
  destruct (Open_stays_inside sample_fs sample_roots "docs/../a.txt" ["srv"; "exchange"; "a.txt"] 5
    (sha256_hex "hello") sample_wf sample_roots_ok) as (Hu & _ & data & t & Hn & Hs & _);
    [by vm_compute|]. split; [done|]. vm_compute in Hn. by injection Hn as <- _.
Defined.

Lemma Delete_stays_inside_witness :
  ∃ l data t, under sample_roots l ∧ nodes sample_fs !! l = Some (File data t) ∧
    (Delete sample_fs sample_roots "a.txt").2 = with_nodes sample_fs (delete l (nodes sample_fs)).
Proof.
  destruct (Delete_stays_inside sample_fs sample_roots "a.txt" None
    (Delete sample_fs sample_roots "a.txt").2 sample_wf sample_roots_ok) as [[[e [=]] _]|[_ Hd]];
    [reflexivity|exact Hd].
Defined.

Lemma List_stays_inside_witness :
  ∃ es, List_ sample_fs sample_roots "." = Ok es ∧
    map EntryName es = ["docs"; "a.txt"; "b.txt"; "dangling"; "escape"] ∧ StronglySorted entry_le es.
Proof.
  destruct (List_ sample_fs sample_roots ".") as [es|] eqn:E; [|by vm_compute in E].
  exists es. destruct (List_stays_inside sample_fs sample_roots "." es sample_wf sample_roots_ok)
    as (l & s & t & _ & _ & Hs & _); [done|done|].
  split_and!; [done| |done]. vm_compute in E. by injection E as <-.
Defined.

Lemma root_slash_serves_nothing_witness :
  ∃ p, Resolve sample_fs ["/"] "srv/.." = Ok p ∧ p = "/".
Proof.
  destruct (Resolve sample_fs ["/"] "srv/..") as [p|] eqn:E; [|by vm_compute in E].
  exists p. split; [done|]. by apply (root_slash_serves_nothing sample_fs "srv/.." p sample_wf).
Defined.

Lemma Resolve_serves_witness :
  Resolve sample_fs sample_roots "a.txt" = Ok "/srv/exchange/a.txt".
Proof.
  apply (Resolve_serves sample_fs ["srv"; "exchange"] ["a.txt"]); try done; [apply sample_wf|
    apply sample_exchange|by_decide|].
  right. exists ["srv"; "exchange"], "a.txt", "hello", (3 * Second).
  split_and!; [done|apply sample_exchange|by_decide|by vm_compute].
Defined.
