(* ===== verification/Upload.v ===== *)
(** * files/upload.go: resumable uploads

    An [Uploader] is the roots of its store and the directory of the partial
    files. Every operation takes the file system as it finds it; the mutex
    makes them run one after the other. The JSON text of the state file is the
    parameter [StateCodec]. *)

From S2P Require Import Prelude GoStr Path Fs Sha256 Http FileStore.
From Stdlib Require Import Ascii.

Record uploadState := MkUpload {
  UpID : string;
  Target : string;
  Length : Z;
  Expected : string;
}.

(** Text that json.Marshal keeps as it is, and a length that fits an int64. *)
Definition utf8_ok (s : string) : Prop := of_bytes (concat (map encode_rune (range_string s))) = s.

Definition state_ok (st : uploadState) : Prop :=
  utf8_ok (UpID st) ∧ utf8_ok (Target st) ∧ utf8_ok (Expected st) ∧
  min_int64 ≤ Length st ≤ max_int64.

(** json.Marshal and json.Unmarshal of an uploadState. *)
Class StateCodec := {
  json_Marshal : uploadState → string;
  json_Unmarshal : string → result uploadState;
  codec_roundtrip : ∀ st, state_ok st → json_Unmarshal (json_Marshal st) = Ok st;
}.

Record Uploader := MkUploader {
  up_roots : list string;
  up_dir : string;
}.

Definition upload_char (r : Z) : bool :=
  in_range 97 122 r || in_range 65 90 r || in_range 48 57 r || (r =? 45) || (r =? 95).

Definition validUploadID (id : string) : bool :=
  if String.eqb id "" || (64 <? slen id) then false
  else forallb upload_char (range_string id).

Section upload.
Context `{Unicode} `{StateCodec}.

Definition NewUploader (fs : FS) (roots : list string) (dir : string) : result Uploader * FS :=
  match MkdirAll fs dir with
  | (Some e, fs') => (Err (EWrap ("create upload directory " +:+ dir +:+ ": ") e ""), fs')
  | (None, fs') => (Ok (MkUploader roots dir), fs')
  end.

Definition partPath (u : Uploader) (id : string) : string := Join [up_dir u; id +:+ ".part"].
Definition statePath (u : Uploader) (id : string) : string := Join [up_dir u; id +:+ ".json"].

Definition Create (fs : FS) (u : Uploader) (id target : string) (length : Z) (expectedHash : string)
    : error * FS :=
  if length <? 0 then (Some (EMsg "upload length must not be negative"), fs) else
  match Resolve fs (up_roots u) target with
  | Err e => (Some e, fs)
  | Ok _ =>
     if negb (validUploadID id) then (Some (EMsg "invalid upload id"), fs) else
     match create_excl fs (partPath u id) with
     | Err e => (Some (EWrap ("create partial file for " +:+ id +:+ ": ") e ""), fs)
     | Ok fs1 =>
        let blob := json_Marshal (MkUpload id target length (to_lower expectedHash)) in
        match WriteFile fs1 (statePath u id) blob with
        | (Some e, fs2) => (Some (EWrap ("write upload state for " +:+ id +:+ ": ") e ""), fs2)
        | (None, fs2) => (None, fs2)
        end
     end
  end.

Definition loadState (fs : FS) (u : Uploader) (id : string) : result uploadState :=
  if negb (validUploadID id) then Err (EMsg "invalid upload id") else
  match ReadFile fs (statePath u id) with
  | Err e => Err (EWrap ("read upload state for " +:+ id +:+ ": ") e "")
  | Ok blob =>
     match json_Unmarshal blob with
     | Err e => Err (EWrap ("parse upload state for " +:+ id +:+ ": ") e "")
     | Ok st => Ok st
     end
  end.

(** The bytes stored and the declared length. *)
Definition Offset (fs : FS) (u : Uploader) (id : string) : result (Z * Z) :=
  st ← loadState fs u id;
  match Stat fs (partPath u id) with
  | Err e => Err (EWrap ("stat partial file for " +:+ id +:+ ": ") e "")
  | Ok info => Ok (node_size info, Length st)
  end.

(** io.Copy from [r] to the open file at [l], from [off] on: the bytes written
    and the error of the copy. *)
Definition copy_to (fs : FS) (path : string) (l : loc) (off : Z) (r : stream) : Z * error * FS :=
  let '(n, err, fs') := write_all fs path l off (content r) in
  (n, match err with Some e => Some e | None => read_error r end, fs').

Definition WriteChunk (fs : FS) (u : Uploader) (id : string) (offset : Z) (r : stream)
    : Z * bool * error * FS :=
  match loadState fs u id with
  | Err e => (0, false, Some e, fs)
  | Ok st =>
     match open_wronly fs (partPath u id) with
     | Err e => (0, false, Some (EWrap ("open partial file for " +:+ id +:+ ": ") e ""), fs)
     | Ok l =>
        match nodes fs !! l with
        | None => (0, false, Some (EWrap ("stat partial file for " +:+ id +:+ ": ") (ESent ErrNotExist) ""), fs)
        | Some info =>
           if negb (node_size info =? offset) then (node_size info, false, Some (ESent ErrOffsetConflict), fs)
           else
             let '(written, err, fs') := copy_to fs (partPath u id) l offset r in
             let newOffset := wrap64 (offset + written) in
             match err with
             | Some e => (newOffset, false, Some (EWrap ("write chunk for " +:+ id +:+ ": ") e ""), fs')
             | None =>
                if Length st <? newOffset
                then (newOffset, false,
                      Some (EMsg ("upload " +:+ id +:+ " exceeded its declared length")), fs')
                else (newOffset, newOffset =? Length st, None, fs')
             end
        end
     end
  end.

(** Both removals are attempted, whatever becomes of them. *)
Definition discard (fs : FS) (u : Uploader) (id : string) : FS :=
  (Remove (Remove fs (partPath u id)).2 (statePath u id)).2.

Definition Discard (fs : FS) (u : Uploader) (id : string) : FS := discard fs u id.

Definition copyFile (fs : FS) (src dst : string) : error * FS :=
  match os_Open fs src with
  | Err e => (Some e, fs)
  | Ok l =>
     match create_trunc fs dst with
     | Err e => (Some e, fs)
     | Ok (fs1, l') =>
        match read_all fs1 src l with
        | Err e => (Some e, fs1)
        | Ok data => let '(_, err, fs2) := copy_to fs1 dst l' 0 (Stream data None) in (err, fs2)
        end
     end
  end.

(** Moving the partial file to [target], by renaming or else by copying. *)
Definition move_into_place (fs : FS) (u : Uploader) (id target : string) : error * FS :=
  match Rename fs (partPath u id) target with
  | (None, fs') => (None, fs')
  | (Some _, fs') =>
     match copyFile fs' (partPath u id) target with
     | (Some e, fs'') => (Some (EWrap "move upload into place: " e ""), fs'')
     | (None, fs'') => (None, (Remove fs'' (partPath u id)).2)
     end
  end.

Definition Finish (fs : FS) (u : Uploader) (id : string) : string * error * FS :=
  match loadState fs u id with
  | Err e => ("", Some e, fs)
  | Ok st =>
     match HashFile fs (partPath u id) with
     | Err e => ("", Some e, fs)
     | Ok sum =>
        if negb (String.eqb (Expected st) "") && negb (equal_fold sum (Expected st))
        then (sum, Some (ESent ErrChecksumMismatch), discard fs u id)
        else match Resolve fs (up_roots u) (Target st) with
        | Err e => (sum, Some e, discard fs u id)
        | Ok target =>
           match MkdirAll fs (Dir target) with
           | (Some e, fs1) => (sum, Some (EWrap "create target directory: " e ""), fs1)
           | (None, fs1) =>
              match move_into_place fs1 u id target with
              | (Some e, fs2) => (sum, Some e, fs2)
              | (None, fs2) => (sum, None, (Remove fs2 (statePath u id)).2)
              end
           end
        end
     end
  end.
End upload.

(** ** Headers *)

(** One element of a tus Upload-Metadata header. *)
Definition metadata_part (out : gmap string string) (part : string) : gmap string string :=
  let part := trim_space part in
  if String.eqb part "" then out else
  match cut_char " " part with
  | (key, None) => <[key := ""]> out
  | (key, Some value) =>
     match b64_decode true value with
     | None => out
     | Some decoded => <[key := of_bytes decoded]> out
     end
  end.

Definition ParseUploadMetadata (header : string) : gmap string string :=
  fold_left metadata_part (split_char "," header) ∅.

Definition ParseOffset (v : string) : result Z :=
  if String.eqb v "" then Err (EMsg "missing offset") else
  match parse_int64 v with
  | Err _ => Err (EMsg ("invalid offset " +:+ v))
  | Ok n => if n <? 0 then Err (EMsg ("invalid offset " +:+ v)) else Ok n
  end.

(** ** Upload ids name plain files *)

Lemma runes_high b0 t : 128 ≤ b0 → ∃ r rs, runes (b0 :: t) = r :: rs ∧ 128 ≤ r.
Proof.
  intros Hb. simpl. destruct (Z.ltb_spec b0 128); [lia|].
  assert (128 ≤ RuneError) as HE by done.
  destruct t as [|b1 t1]; [by eexists _, _|].
  destruct (rune2 b0 b1) as [r|] eqn:E2.
  { eexists _, _. split; [done|]. revert E2. unfold rune2, cont, in_range.
    destruct (_ && _) eqn:C; [|done]. intros [= <-]. to_prop. lia. }
  destruct t1 as [|b2 t2]; [by eexists _, _|].
  destruct (rune3 b0 b1 b2) as [r|] eqn:E3.
  { eexists _, _. split; [done|]. revert E3. unfold rune3, cont, in_range.
    destruct (_ && _) eqn:C; [|done]. intros [= <-].
    apply andb_prop in C as [C1 C2]. to_prop.
    destruct (Z.eqb_spec b0 224); [to_prop; lia|].
    destruct (Z.eqb_spec b0 237); [to_prop; lia|]. to_prop. lia. }
  destruct t2 as [|b3 t3]; [by eexists _, _|].
  destruct (rune4 b0 b1 b2 b3) as [r|] eqn:E4; [|by eexists _, _].
  eexists _, _. split; [done|]. revert E4. unfold rune4, cont, in_range.
  destruct (_ && _) eqn:C; [|done]. intros [= <-].
  apply andb_prop in C as [C C3]. apply andb_prop in C as [C1 C2]. to_prop.
  destruct (Z.eqb_spec b0 240); [to_prop; lia|].
  destruct (Z.eqb_spec b0 244); [to_prop; lia|]. to_prop. lia.
Qed.

Lemma upload_char_bounds r : upload_char r = true → 45 ≤ r ≤ 122 ∧ r ≠ 46 ∧ r ≠ 47.
Proof. unfold upload_char, in_range. to_prop. intuition lia. Qed.

Lemma upload_bytes bs :
  forallb upload_char (runes bs) = true → Forall (λ b, upload_char b = true) bs.
Proof.
  induction bs as [|b0 t IH]; [done|]. destruct (Z.ltb_spec b0 128) as [Hb|Hb].
  - simpl. rewrite (proj2 (Z.ltb_lt _ _) Hb). simpl.
    intros [H1 H2]%andb_prop. constructor; [done|]. by apply IH.
  - destruct (runes_high b0 t Hb) as (r & rs & -> & Hr). simpl.
    intros [H1 _]%andb_prop. apply upload_char_bounds in H1. lia.
Qed.

Lemma validUploadID_spec id :
  validUploadID id = true →
  id ≠ "" ∧ char_free slash id ∧ char_free "000" id ∧ Forall (λ b, upload_char b = true) (bytes id).
Proof.
  unfold validUploadID. destruct (String.eqb_spec id ""); simpl; [done|].
  destruct (64 <? slen id); [done|]. intros HF%upload_bytes. split_and!; [done| | |done];
    apply char_free_bytes; eapply Forall_impl; try exact HF; intros b Hb%upload_char_bounds;
    change (byte_of slash) with 47; change (byte_of "000") with 0; lia.
Qed.

(** The name of a file kept for an upload. *)
Lemma upload_name_plain id ext :
  validUploadID id = true → (ext = ".part" ∨ ext = ".json") →
  plain (id +:+ ext) ∧ char_free "000" (id +:+ ext).
Proof.
  intros (Hne & Hs & Hn & _)%validUploadID_spec Hext.
  assert (∀ a, char_free a id → char_free a ext → char_free a (id +:+ ext)) as Happ
    by (intros; by apply char_free_app).
  destruct id as [|a id]; [done|].
  assert (String.length ext = 5%nat) as Hl by (by destruct Hext as [->| ->]).
  assert (∀ s t : string, String.length (s +:+ t) = (String.length s + String.length t)%nat) as Hlen.
  { induction s; intros; simpl; [done|]. by rewrite IHs. }
  split; [|by apply Happ; [|destruct Hext as [->| ->]]].
  split_and!; [done| | |by apply Happ; [|destruct Hext as [->| ->]]];
    intros E; apply (f_equal String.length) in E; rewrite Hlen, Hl in E; simpl in E; lia.
Qed.

Lemma ext_inj (s t : string) : s +:+ ".part" ≠ t +:+ ".json".
Proof.
  revert t. induction s as [|a s IH]; intros [|b t]; simpl; try done.
  - intros [= _ E]. apply (f_equal String.length) in E. simpl in E.
    assert (String.length (t +:+ ".json") = (String.length t + 5)%nat) as Hl
      by (clear; induction t; simpl; congruence). lia.
  - intros [= _ E]. apply (f_equal String.length) in E. simpl in E.
    assert (String.length (s +:+ ".part") = (String.length s + 5)%nat) as Hl
      by (clear; induction s; simpl; congruence). lia.
  - intros [= _ E]. by apply (IH t).
Qed.

(** ** An upload in progress *)

Section progress.
Context `{Unicode} `{StateCodec}.
Implicit Types fs : FS.

Definition part_loc (D : loc) (id : string) : loc := D ++ [id +:+ ".part"].
Definition json_loc (D : loc) (id : string) : loc := D ++ [id +:+ ".json"].

(** The directory of the uploader, in a file system without failures. *)
Record site fs (u : Uploader) (D : loc) : Prop := {
  site_wf : fs_wf fs;
  site_quiet : quiet fs;
  site_dir : real_dir (nodes fs) D;
  site_path : up_dir u = render D;
}.

(** Upload [st] has stored [data]. *)
Record in_progress fs (u : Uploader) (D : loc) (st : uploadState) (data : string) : Prop := {
  ip_site : site fs u D;
  ip_id : validUploadID (UpID st) = true;
  ip_ok : state_ok st;
  ip_part : ∃ t, nodes fs !! part_loc D (UpID st) = Some (File data t);
  ip_json : ∃ t, nodes fs !! json_loc D (UpID st) = Some (File (json_Marshal st) t);
}.

Lemma path_of fs u D id ext :
  site fs u D → validUploadID id = true → (ext = ".part" ∨ ext = ".json") →
  Join [up_dir u; id +:+ ext] = render (D ++ [id +:+ ext]).
Proof.
  intros HS Hid Hext. rewrite (site_path _ _ _ HS).
  change (id +:+ ext) with (join_path [id +:+ ext]) at 1. apply Join_render.
  - eapply real_dir_plain, site_dir, HS.
  - constructor; [|done]. by apply upload_name_plain.
Qed.

Lemma partPath_loc fs u D id :
  site fs u D → validUploadID id = true → partPath u id = render (part_loc D id).
Proof. intros. eapply path_of; eauto. Qed.

Lemma statePath_loc fs u D id :
  site fs u D → validUploadID id = true → statePath u id = render (json_loc D id).
Proof. intros. eapply path_of; eauto. Qed.

Lemma part_json_ne D id : part_loc D id ≠ json_loc D id.
Proof. unfold part_loc, json_loc. intros [_ E]%app_inj_tail. by apply ext_inj in E. Qed.

Lemma file_loc_real fs u D id ext data t :
  site fs u D → validUploadID id = true → (ext = ".part" ∨ ext = ".json") →
  nodes fs !! (D ++ [id +:+ ext]) = Some (File data t) → real (nodes fs) (D ++ [id +:+ ext]).
Proof.
  intros HS Hid Hext Hn. eapply real_file; [apply HS| |done]. by apply upload_name_plain.
Qed.

Lemma loadState_ip fs u D st data :
  in_progress fs u D st data → loadState fs u (UpID st) = Ok st.
Proof.
  intros [HS Hid Hok _ [t Hj]]. unfold loadState. rewrite Hid; simpl.
  rewrite (statePath_loc fs u D) by done.
  rewrite (ReadFile_real fs _ (json_Marshal st) t); try apply HS; [|by eapply file_loc_real; eauto|done].
  by rewrite codec_roundtrip.
Qed.

Lemma open_wronly_ip fs u D st data :
  in_progress fs u D st data → open_wronly fs (partPath u (UpID st)) = Ok (part_loc D (UpID st)).
Proof.
  intros [HS Hid _ [t Hp] _]. rewrite (partPath_loc fs u D) by done.
  unfold open_wronly, sys. rewrite (site_quiet _ _ _ HS).
  rewrite (reach_real fs "open" _ (File data t)); [done|apply HS| |done].
  by eapply file_loc_real; eauto.
Qed.

Lemma site_insert fs u D k data :
  site fs u D → not_dir_at (nodes fs) k → Forall (char_free "000") k →
  site (with_nodes fs (<[k := data]> (nodes fs))) u D.
Proof.
  intros [Hwf Hq Hd Hp] Hk Hn. split; [by apply fs_wf_insert|done|by apply real_dir_insert|done].
Qed.

Lemma site_delete fs u D k :
  site fs u D → not_dir_at (nodes fs) k → site (with_nodes fs (delete k (nodes fs))) u D.
Proof.
  intros [Hwf Hq Hd Hp] Hk. split; [by apply fs_wf_delete|done|by apply real_dir_delete|done].
Qed.

Lemma loc_nul fs u D id ext :
  site fs u D → validUploadID id = true → (ext = ".part" ∨ ext = ".json") →
  Forall (char_free "000") (D ++ [id +:+ ext]).
Proof.
  intros HS Hid Hext. apply Forall_app. split.
  - eapply real_nul; [apply HS|left; apply HS].
  - constructor; [|done]. by apply upload_name_plain.
Qed.

(** The file system after [more] was appended to the partial file. *)
Definition appended fs (D : loc) (st : uploadState) (data more : string) : FS :=
  extended fs (part_loc D (UpID st)) data more.

Lemma in_progress_appended fs u D st data more :
  in_progress fs u D st data → in_progress (appended fs D st data more) u D st (data +:+ more).
Proof.
  intros [HS Hid Hok [t Hp] [t' Hj]]. split; [|done|done| |].
  - unfold appended, extended. destruct (String.eqb more ""); [done|].
    apply site_insert; [done|by eapply not_dir_file|by eapply loc_nul; eauto].
  - by eapply extended_at.
  - exists t'. unfold appended. rewrite extended_ne; [done|]. intros E. by apply (part_json_ne D (UpID st)).
Qed.

Lemma WriteChunk_ip fs u D st data off r :
  in_progress fs u D st data →
  WriteChunk fs u (UpID st) off r =
  if negb (slen data =? off) then (slen data, false, Some (ESent ErrOffsetConflict), fs)
  else
    let n := wrap64 (off + slen (content r)) in
    let fs' := appended fs D st data (content r) in
    match read_error r with
    | Some e => (n, false, Some (EWrap ("write chunk for " +:+ UpID st +:+ ": ") e ""), fs')
    | None =>
       if Length st <? n
       then (n, false, Some (EMsg ("upload " +:+ UpID st +:+ " exceeded its declared length")), fs')
       else (n, n =? Length st, None, fs')
    end.
Proof.
  intros Hip. unfold WriteChunk. rewrite (loadState_ip fs u D st data Hip).
  rewrite (open_wronly_ip fs u D st data Hip).
  destruct Hip as [HS Hid _ [t Hp] _]. rewrite Hp. cbn [node_size].
  destruct (Z.eqb_spec (slen data) off) as [<-|]; cbn [negb]; [|done].
  unfold copy_to, write_all. rewrite (site_quiet _ _ _ HS), (write_at_end fs _ data t) by done.
  unfold appended. by destruct (String.eqb_spec (content r) "") as [->|].
Qed.

(** The same file system on a disk that takes [n] more bytes. *)
Definition full (n : nat) (fs : FS) : FS :=
  MkFS (nodes fs) (cwd fs)
    (λ op path, match op with SWrite => Some (EMsg "no space left on device") | _ => fault fs op path end)
    (λ _, n) (stamp fs) (device fs).

(** A chunk that breaks off, on a full disk or for another reason: what has
    gone through stays, and the upload is in progress as before. *)
Lemma WriteChunk_full fs u D st data n part e :
  in_progress fs u D st data → errors_is e ErrOffsetConflict = false →
  ∃ m e' fs', WriteChunk (full n fs) u (UpID st) (slen data) (Stream part (Some e)) = (m, false, Some e', fs') ∧
    errors_is e' ErrOffsetConflict = false ∧
    with_nodes fs (nodes fs') = appended fs D st data (String.substring 0 n part).
Proof.
  intros Hip He. unfold WriteChunk.
  change (loadState (full n fs) u (UpID st)) with (loadState fs u (UpID st)).
  rewrite (loadState_ip fs u D st data Hip).
  change (open_wronly (full n fs) (partPath u (UpID st))) with (open_wronly fs (partPath u (UpID st))).
  rewrite (open_wronly_ip fs u D st data Hip).
  destruct Hip as [HS Hid _ [t Hp] _]. cbn [nodes full]. rewrite Hp. cbn [node_size].
  rewrite Z.eqb_refl. cbn [negb]. unfold copy_to, write_all. cbn [content read_error fault short full].
  destruct (String.eqb_spec part "") as [->|_].
  - do 3 eexists. split_and!; [done|done|]. destruct n; by destruct fs.
  - do 3 eexists. split_and!; [done|done|].
    rewrite (write_at_end (full n fs) _ data t) by done. unfold appended, extended.
    destruct (String.eqb _ ""); [|done]. by destruct fs.
Qed.

Lemma Offset_ip fs u D st data :
  in_progress fs u D st data → Offset fs u (UpID st) = Ok (slen data, Length st).
Proof.
  intros Hip. unfold Offset. rewrite (loadState_ip fs u D st data Hip). cbn [mbind result_bind].
  destruct Hip as [HS Hid _ [t Hp] _]. rewrite (partPath_loc fs u D) by done.
  rewrite (Stat_real fs _ (File data t)); try apply HS; [done|by eapply file_loc_real; eauto|done].
Qed.

(** ** Reference: a log that only grows at its end *)

Definition log_step (log : string) (call : Z * stream) : string :=
  if slen log =? call.1 then log +:+ content call.2 else log.

Definition log_run (log : string) (calls : list (Z * stream)) : string := fold_left log_step calls log.

Definition write_step (u : Uploader) (id : string) fs (call : Z * stream) : FS :=
  (WriteChunk fs u id call.1 call.2).2.

Definition write_run (u : Uploader) (id : string) fs (calls : list (Z * stream)) : FS :=
  fold_left (write_step u id) calls fs.

Lemma write_step_ip fs u D st data call :
  in_progress fs u D st data →
  in_progress (write_step u (UpID st) fs call) u D st (log_step data call) ∧
  ∀ k, k ≠ part_loc D (UpID st) → nodes (write_step u (UpID st) fs call) !! k = nodes fs !! k.
Proof.
  intros Hip. unfold write_step, log_step. rewrite (WriteChunk_ip fs u D st data) by done.
  destruct (slen data =? call.1); simpl; [|done].
  assert (∀ k, k ≠ part_loc D (UpID st) →
    nodes (appended fs D st data (content call.2)) !! k = nodes fs !! k) as Hk
    by (intros k Hne; by apply extended_ne).
  pose proof (in_progress_appended fs u D st data (content call.2) Hip).
  destruct (read_error call.2); simpl; [done|]. by destruct (_ <? _).
Qed.

Lemma write_run_ip calls fs u D st data :
  in_progress fs u D st data →
  in_progress (write_run u (UpID st) fs calls) u D st (log_run data calls) ∧
  ∀ k, k ≠ part_loc D (UpID st) → nodes (write_run u (UpID st) fs calls) !! k = nodes fs !! k.
Proof.
  revert fs data. induction calls as [|c calls IH]; intros fs data Hip; [done|].
  destruct (write_step_ip fs u D st data c Hip) as [Hip' Hk].
  destruct (IH _ _ Hip') as [Hip'' Hk']. split; [done|].
  intros k Hne. unfold write_run; simpl. fold (write_run u (UpID st) (write_step u (UpID st) fs c) calls).
  by rewrite Hk', Hk.
Qed.

(** C20: Any sequence of WriteChunk calls on an upload in progress behaves as a log that appends
    a chunk exactly when its offset is the length of the log: duplicated, stale and reordered
    chunks change nothing, a chunk that breaks off keeps the bytes that arrived. *)
Theorem upload_refines_log fs u D st data calls :
  in_progress fs u D st data →
  let fs' := write_run u (UpID st) fs calls in
  Offset fs' u (UpID st) = Ok (slen (log_run data calls), Length st) ∧
  (∃ t, nodes fs' !! part_loc D (UpID st) = Some (File (log_run data calls) t)) ∧
  ∀ k, k ≠ part_loc D (UpID st) → nodes fs' !! k = nodes fs !! k.
Proof.
  intros Hip fs'. destruct (write_run_ip calls fs u D st data Hip) as [Hip' Hk].
  split_and!; [by apply (Offset_ip _ u D)|apply Hip'|done].
Qed.

(** ** Starting and finishing *)

Lemma Create_ip fs u D st p :
  site fs u D → validUploadID (UpID st) = true → state_ok st → 0 ≤ Length st →
  Resolve fs (up_roots u) (Target st) = Ok p →
  nodes fs !! part_loc D (UpID st) = None → nodes fs !! json_loc D (UpID st) = None →
  ∀ hash, Expected st = to_lower hash →
  ∃ fs', Create fs u (UpID st) (Target st) (Length st) hash = (None, fs') ∧
  in_progress fs' u D st "" ∧
  ∀ k, k ≠ part_loc D (UpID st) → k ≠ json_loc D (UpID st) → nodes fs' !! k = nodes fs !! k.
Proof.
  intros HS Hid Hok Hlen HR Hp Hj hash Hhash. unfold Create.
  rewrite (proj2 (Z.ltb_ge _ _) Hlen), HR, Hid. simpl negb. cbv iota.
  destruct (upload_name_plain (UpID st) ".part" Hid (or_introl eq_refl)) as [Hpp Hpn].
  destruct (upload_name_plain (UpID st) ".json" Hid (or_intror eq_refl)) as [Hjp Hjn].
  unfold create_excl, sys. rewrite (site_quiet _ _ _ HS).
  rewrite (partPath_loc fs u D) by done. unfold part_loc at 1.
  rewrite resolve_child by (done || apply HS).
  set (fs1 := with_nodes fs _).
  assert (site fs1 u D) as HS1.
  { apply site_insert; [done|by apply not_dir_None|by eapply loc_nul; eauto]. }
  assert (nodes fs1 !! json_loc D (UpID st) = None) as Hj1.
  { unfold fs1; simpl. rewrite lookup_insert_ne; [done|]. apply part_json_ne. }
  rewrite (statePath_loc fs1 u D) by done. unfold json_loc at 1.
  rewrite WriteFile_new by (done || apply HS1). rewrite <- Hhash.
  eexists. split_and!; [done| |].
  - split; simpl; [|done|done| |].
    + apply (site_insert fs1); [done|by apply not_dir_None|by eapply loc_nul; eauto].
    + eexists. rewrite lookup_insert_ne by (symmetry; apply part_json_ne). apply lookup_insert_eq.
    + eexists. destruct st; apply lookup_insert_eq.
  - intros k Hk Hk'. simpl. rewrite !lookup_insert_ne; [done|by symmetry|by symmetry].
Qed.

Lemma HashFile_ip fs u D st data :
  in_progress fs u D st data → HashFile fs (partPath u (UpID st)) = Ok (sha256_hex data).
Proof.
  intros [HS Hid _ [t Hp] _]. rewrite (partPath_loc fs u D) by done.
  unfold HashFile. pose proof (file_loc_real _ _ _ _ ".part" _ _ HS Hid (or_introl eq_refl) Hp) as Hr.
  unfold os_Open, read_all, sys. rewrite !(site_quiet _ _ _ HS).
  rewrite (reach_real fs "open" _ (File data t)) by (done || apply HS). cbn [mbind result_bind].
  by rewrite Hp.
Qed.

Lemma discard_ip fs u D st data :
  in_progress fs u D st data →
  discard fs u (UpID st) =
  with_nodes fs (delete (json_loc D (UpID st)) (delete (part_loc D (UpID st)) (nodes fs))).
Proof.
  intros [HS Hid _ [t Hp] [t' Hj]]. unfold discard.
  rewrite (partPath_loc fs u D), (statePath_loc fs u D) by done.
  rewrite (Remove_real fs _ data t); try apply HS; [|by eapply file_loc_real; eauto|done].
  cbn [snd]. set (fs1 := with_nodes fs _).
  assert (site fs1 u D) as HS1 by (apply site_delete; [done|by eapply not_dir_file]).
  assert (nodes fs1 !! json_loc D (UpID st) = Some (File (json_Marshal st) t')) as Hj1.
  { unfold fs1; simpl. rewrite lookup_delete_ne; [done|]. apply part_json_ne. }
  rewrite (Remove_real fs1 _ (json_Marshal st) t'); try apply HS1; [done| |done].
  by eapply file_loc_real; eauto.
Qed.

Definition hash_matches (st : uploadState) (data : string) : bool :=
  String.eqb (Expected st) "" || equal_fold (sha256_hex data) (Expected st).

Lemma Finish_unfold fs u D st data :
  in_progress fs u D st data →
  Finish fs u (UpID st) =
  if negb (hash_matches st data)
  then (sha256_hex data, Some (ESent ErrChecksumMismatch), discard fs u (UpID st))
  else match Resolve fs (up_roots u) (Target st) with
  | Err e => (sha256_hex data, Some e, discard fs u (UpID st))
  | Ok target =>
     match MkdirAll fs (Dir target) with
     | (Some e, fs1) => (sha256_hex data, Some (EWrap "create target directory: " e ""), fs1)
     | (None, fs1) =>
        match move_into_place fs1 u (UpID st) target with
        | (Some e, fs2) => (sha256_hex data, Some e, fs2)
        | (None, fs2) => (sha256_hex data, None, (Remove fs2 (statePath u (UpID st))).2)
        end
     end
  end.
Proof.
  intros Hip. unfold Finish, hash_matches.
  rewrite (loadState_ip fs u D st data), (HashFile_ip fs u D st data) by done.
  by rewrite negb_orb.
Qed.

(** C34: When the assembled data does not have the declared hash, Finish reports the checksum
    mismatch, removes both files of the upload and changes nothing else. *)
Theorem Finish_discards_corrupt fs u D st data :
  in_progress fs u D st data → hash_matches st data = false →
  Finish fs u (UpID st) =
  (sha256_hex data, Some (ESent ErrChecksumMismatch),
   with_nodes fs (delete (json_loc D (UpID st)) (delete (part_loc D (UpID st)) (nodes fs)))).
Proof.
  intros Hip Hm. rewrite (Finish_unfold fs u D st data), Hm by done. simpl.
  by rewrite (discard_ip fs u D st data).
Qed.

(** A destination: a name [c], free or that of a file, in the directory [B],
    other than the two files of the upload. What is missing of [B] can be made.
    Across devices nothing at the target may be a link: the copy would follow
    it. *)
Record destination fs (u : Uploader) (D : loc) (st : uploadState) (B : loc) (c : string) : Prop := {
  dest_resolves : Resolve fs (up_roots u) (Target st) = Ok (render (B ++ [c]));
  dest_dir : makeable (nodes fs) B;
  dest_plain : plain c;
  dest_nul : char_free "000" c;
  dest_free : not_dir_at (nodes fs) (B ++ [c]);
  dest_part : B ++ [c] ≠ part_loc D (UpID st);
  dest_json : B ++ [c] ≠ json_loc D (UpID st);
  dest_device : device fs D = device fs B ∨ ∀ g t, nodes fs !! (B ++ [c]) ≠ Some (Symlink g t);
}.

Lemma destination_same fs fs' u D st B c :
  same_fs fs fs' → destination fs u D st B c → destination fs' u D st B c.
Proof.
  intros Hfs []. destruct (Hfs) as [Hm _ _ Hdev]. split; try done.
  - by rewrite <- Hfs.
  - by rewrite <- Hm.
  - intros s t Hn. destruct (same_tree_at _ _ (B ++ [c]) Hm) as [[_ E]|(n & n' & E & E' & Hs)];
      [congruence|]. rewrite Hn in E'. simplify_eq. destruct n as [| |]; try done.
    by eapply dest_free0.
  - rewrite <- Hdev. destruct dest_device0 as [Hd|Hl]; [by left|right]. intros g t Hn.
    destruct (same_tree_at _ _ (B ++ [c]) Hm) as [[_ E]|(n & n' & E & E' & Hs)]; [congruence|].
    rewrite Hn in E'. simplify_eq. destruct n as [| |]; simplify_eq/=. by eapply Hl.
Qed.

Lemma appended_same fs u D st data more :
  in_progress fs u D st data → same_fs (appended fs D st data more) fs.
Proof.
  intros [_ _ _ [t Hp] _]. unfold appended, extended. destruct (String.eqb more ""); [done|].
  by eapply same_fs_file.
Qed.

(** What a finished upload leaves: the data at the target, none of its files,
    and the rest as it was but for the directories made on the way. *)
Record installed fs fs' (u : Uploader) (D : loc) (st : uploadState) (B : loc) (c : string) (data : string) : Prop := {
  inst_site : site fs' u D;
  inst_target : ∃ t, nodes fs' !! (B ++ [c]) = Some (File data t);
  inst_part : nodes fs' !! part_loc D (UpID st) = None;
  inst_json : nodes fs' !! json_loc D (UpID st) = None;
  inst_rest k : k ≠ B ++ [c] → k ≠ part_loc D (UpID st) → k ≠ json_loc D (UpID st) →
    nodes fs' !! k = nodes fs !! k ∨ made_dir (nodes fs) (nodes fs') B k;
}.

(** The partial file is put at the target, by rename or by copy. *)
Lemma move_into_place_ip fs u D id data t B c :
  site fs u D → validUploadID id = true → nodes fs !! part_loc D id = Some (File data t) →
  real_dir (nodes fs) B → plain c → char_free "000" c → not_dir_at (nodes fs) (B ++ [c]) →
  B ++ [c] ≠ part_loc D id →
  (device fs D = device fs B ∨ ∀ g t, nodes fs !! (B ++ [c]) ≠ Some (Symlink g t)) →
  ∃ t', move_into_place fs u id (render (B ++ [c])) =
    (None, with_nodes fs (delete (part_loc D id) (<[B ++ [c] := File data t']> (nodes fs)))).
Proof.
  intros HS Hid Hp HB Hc Hn Hfree HTP Hdev. pose proof HS as [Hwf Hq HD _].
  destruct (upload_name_plain id ".part" Hid (or_introl eq_refl)) as [Hpp Hpn].
  unfold move_into_place. rewrite (partPath_loc fs u D) by done.
  destruct (decide (device fs D = device fs B)) as [Hsame|Hother].
  { exists t. unfold part_loc at 1. rewrite (Rename_file fs _ _ _ _ data t) by done.
    by rewrite <- insert_delete_ne. }
  destruct Hdev as [|Hnl]; [done|]. exists (stamp fs).
  destruct (Rename_cross fs D (id +:+ ".part") B c data t) as [e He]; [done..|].
  unfold part_loc at 1. rewrite He. unfold copyFile, os_Open, sys. rewrite Hq.
  rewrite (reach_real fs "open" (part_loc D id) (File data t));
    [|done|by eapply (file_loc_real fs u D id ".part"); eauto|done].
  cbn [mbind result_bind]. rewrite create_trunc_child by done.
  set (fs1 := with_nodes fs (<[B ++ [c] := File "" (stamp fs)]> (nodes fs))).
  assert (read_all fs1 (render (part_loc D id)) (part_loc D id) = Ok data) as ->.
  { unfold read_all, sys. change (fault fs1) with (fault fs). rewrite Hq. simpl. by rewrite lookup_insert_ne, Hp. }
  assert (copy_to fs1 (render (B ++ [c])) (B ++ [c]) 0 (Stream data None) =
    (slen data, None, with_nodes fs (<[B ++ [c] := File data (stamp fs)]> (nodes fs)))) as ->.
  { unfold copy_to, write_all. change (fault fs1) with (fault fs). cbn [content read_error]. rewrite Hq.
    change 0 with (slen ""). rewrite (write_at_end fs1 _ "" (stamp fs)) by apply lookup_insert_eq.
    unfold extended. destruct (String.eqb_spec data "") as [->|_]; [done|].
    unfold fs1, with_nodes; simpl. by rewrite insert_insert_eq. }
  cbv iota. set (fs2 := with_nodes fs (<[B ++ [c] := File data (stamp fs)]> (nodes fs))).
  assert (site fs2 u D) as HS2.
  { apply site_insert; [done|done|]. apply Forall_app. split; [|by constructor]. eapply real_nul; [done|by left]. }
  assert (nodes fs2 !! part_loc D id = Some (File data t)) as Hp2 by (unfold fs2; simpl; by rewrite lookup_insert_ne).
  rewrite (Remove_real fs2 _ data t); [done|apply HS2..| |done].
  by eapply (file_loc_real fs2 u D id ".part"); eauto.
Qed.

Lemma Finish_ip fs u D st data B c :
  in_progress fs u D st data → destination fs u D st B c → hash_matches st data = true →
  ∃ fs', Finish fs u (UpID st) = (sha256_hex data, None, fs') ∧ installed fs fs' u D st B c data.
Proof.
  intros Hip [HR HB Hc Hn Hfree HTP HTJ Hdev] Hm.
  rewrite (Finish_unfold fs u D st data), Hm by done. simpl. rewrite HR.
  destruct Hip as [HS Hid _ [t Hp] [t' Hj]]. pose proof (part_json_ne D (UpID st)) as HPJ.
  rewrite Dir_render by (done || by eapply makeable_plain).
  destruct (MkdirAll_makes fs B) as (m1 & -> & Hr1 & Hwf1 & Hm1); [apply HS|apply HS|done|].
  set (fs1 := with_nodes fs m1).
  assert (site fs1 u D) as HS1.
  { split; [done|apply HS|by eapply dirs_made_real, site_dir|apply HS]. }
  assert (m1 !! (B ++ [c]) = nodes fs !! (B ++ [c])) as HT1.
  { eapply dirs_made_ne; [done|]. intros Hp0%prefix_length. rewrite length_app in Hp0. simpl in Hp0. lia. }
  pose proof (dirs_made_lookup _ _ _ _ _ Hm1 Hp) as Hp1. pose proof (dirs_made_lookup _ _ _ _ _ Hm1 Hj) as Hj1.
  destruct (move_into_place_ip fs1 u D (UpID st) data t B c) as [t2 ->]; try done.
  { intros s0 t0. simpl. rewrite HT1. apply Hfree. }
  { simpl. by rewrite HT1. }
  set (fs2 := with_nodes fs1 _).
  assert (site (with_nodes fs1 (<[B ++ [c] := File data t2]> m1)) u D) as HSi.
  { apply (site_insert fs1); [done| |].
    - intros s0 t0. simpl. rewrite HT1. apply Hfree.
    - apply Forall_app. split; [|by constructor]. eapply real_nul; [apply HS1|by left]. }
  assert (site fs2 u D) as HS2.
  { assert (not_dir_at (<[B ++ [c] := File data t2]> m1) (part_loc D (UpID st))) as Hnd
      by (eapply not_dir_file; rewrite lookup_insert_ne; [exact Hp1|done]).
    exact (site_delete _ u D _ HSi Hnd). }
  assert (nodes fs2 !! json_loc D (UpID st) = Some (File (json_Marshal st) t')) as Hj2.
  { unfold fs2; simpl. by rewrite lookup_delete_ne, lookup_insert_ne. }
  rewrite (statePath_loc fs2 u D) by done.
  rewrite (Remove_real fs2 _ (json_Marshal st) t'); try apply HS2; [|by eapply file_loc_real; eauto|done].
  eexists. split; [done|]. cbn [snd]. split.
  - apply site_delete; [done|by eapply not_dir_file].
  - exists t2. simpl. rewrite !lookup_delete_ne by done. apply lookup_insert_eq.
  - simpl. by rewrite lookup_delete_ne, lookup_delete_eq.
  - apply lookup_delete_eq.
  - intros k HT HP HJ.
    assert (nodes (with_nodes fs2 (delete (json_loc D (UpID st)) (nodes fs2))) !! k = m1 !! k) as Ek
      by (simpl; by rewrite !lookup_delete_ne, lookup_insert_ne).
    destruct (Hm1 k) as [E|(Hpre & E & Hd)]; [left; congruence|right]. split_and!; [done|done|].
    by rewrite Ek.
Qed.

(** ** From creation to the file in place *)


Lemma overlong_upload_is_stuck fs u D st data off r :
  in_progress fs u D st data → Length st < slen data →
  slen data + slen (content r) ≤ max_int64 →
  is_Some (WriteChunk fs u (UpID st) off r).1.2 ∧
  ∃ data', in_progress (WriteChunk fs u (UpID st) off r).2 u D st data' ∧ Length st < slen data'.
Proof.
  intros Hip Hlong Hmax. rewrite (WriteChunk_ip fs u D st data) by done.
  assert (0 ≤ slen data ∧ 0 ≤ slen (content r)) as [Hd0 Hr0] by (unfold slen; lia).
  assert (slen (data +:+ content r) = slen data + slen (content r)) as Hs.
  { clear. unfold slen. induction data as [|a d IH]; simpl; [lia|]. lia. }
  destruct (Z.eqb_spec (slen data) off) as [<-|]; cbn [negb]; cycle 1.
  { split; [by eexists|]. by exists data. }
  rewrite wrap64_id by (unfold min_int64; lia).
  pose proof (in_progress_appended fs u D st data (content r) Hip) as Hip'.
  destruct (read_error r) as [e|]; simpl.
  - split; [by eexists|]. exists (data +:+ content r). split; [done|lia].
  - rewrite (proj2 (Z.ltb_lt _ _)) by lia. simpl. split; [by eexists|].
    exists (data +:+ content r). split; [done|lia].
Qed.
End progress.

(** ** An upload whose files are gone *)

Section gone.
Context `{Unicode} `{StateCodec}.
Implicit Types fs : FS.

Record gone fs (u : Uploader) (D : loc) (id : string) : Prop := {
  gone_site : site fs u D;
  gone_id : validUploadID id = true;
  gone_part : nodes fs !! part_loc D id = None;
  gone_json : nodes fs !! json_loc D id = None;
}.

Lemma missing_name fs u D id ext follow :
  site fs u D → validUploadID id = true → (ext = ".part" ∨ ext = ".json") →
  nodes fs !! (D ++ [id +:+ ext]) = None →
  resolve_path fs (render (D ++ [id +:+ ext])) follow = Missing D (id +:+ ext).
Proof.
  intros HS Hid Hext Hn. destruct (upload_name_plain id ext Hid Hext).
  apply resolve_child; try done; apply HS.
Qed.

Lemma loadState_gone fs u D id : gone fs u D id → ∃ e, loadState fs u id = Err e ∧ errors_is e ErrOffsetConflict = false.
Proof.
  intros [HS Hid Hp Hj]. unfold loadState. rewrite Hid; simpl.
  rewrite (statePath_loc fs u D) by done. unfold ReadFile, os_Open, sys, reach.
  rewrite (site_quiet _ _ _ HS). unfold json_loc.
  rewrite (missing_name fs u D id ".json") by eauto. simpl. by eexists.
Qed.

Lemma Remove_missing fs u D id ext :
  site fs u D → validUploadID id = true → (ext = ".part" ∨ ext = ".json") →
  nodes fs !! (D ++ [id +:+ ext]) = None → (Remove fs (render (D ++ [id +:+ ext]))).2 = fs.
Proof.
  intros HS Hid Hext Hn. unfold Remove, sys, reach. rewrite (site_quiet _ _ _ HS).
  by rewrite (missing_name fs u D id ext).
Qed.

Lemma gone_quiet fs u D id :
  gone fs u D id →
  (∀ off r, ∃ e, WriteChunk fs u id off r = (0, false, Some e, fs) ∧ errors_is e ErrOffsetConflict = false) ∧
  (∃ e, Finish fs u id = ("", Some e, fs)) ∧ Discard fs u id = fs.
Proof.
  intros HG. destruct (loadState_gone fs u D id HG) as (e & He & Hc). split_and!.
  - intros off r. exists e. unfold WriteChunk. by rewrite He.
  - exists e. unfold Finish. by rewrite He.
  - destruct HG as [HS Hid Hp Hj]. unfold Discard, discard.
    rewrite (partPath_loc fs u D), (statePath_loc fs u D) by done. unfold part_loc, json_loc.
    rewrite (Remove_missing fs u D id ".part") by eauto. by rewrite (Remove_missing fs u D id ".json") by eauto.
Qed.
Lemma installed_gone fs fs' u D st B c data data' :
  in_progress fs u D st data → installed fs fs' u D st B c data' → gone fs' u D (UpID st).
Proof. intros [_ Hid _ _ _] []. by split. Qed.
End gone.

(** ** A codec for witnesses: base64 fields *)

Definition b64_field (s : string) : string := b64_encode false (bytes s).

Definition field_b64 (s : string) : result string :=
  match b64_decode false s with
  | Some bs => Ok (of_bytes bs)
  | None => Err (EMsg "bad field")
  end.

Lemma field_roundtrip s : field_b64 (b64_field s) = Ok s.
Proof.
  unfold field_b64, b64_field. rewrite b64_decode_encode by apply bytes_range.
  by rewrite of_bytes_bytes.
Qed.

Definition b64_codec : StateCodec.
Proof.
  refine {|
    json_Marshal st := join_char "$"
      [b64_field (UpID st); b64_field (Target st); b64_field (format_int (Length st)); b64_field (Expected st)];
    json_Unmarshal s :=
      match split_char "$" s with
      | [a; b; c; d] =>
         a ← field_b64 a; b ← field_b64 b; c ← field_b64 c; n ← parse_int64 c; d ← field_b64 d;
         Ok (MkUpload a b n d)
      | _ => Err (EMsg "bad state")
      end |}.
  intros [i t n e] (_ & _ & _ & Hn). cbv beta. cbn [UpID Target Length Expected].
  change (min_int64 ≤ n ≤ max_int64) in Hn.
  rewrite split_join; [|done|].
  - cbv iota. repeat (rewrite field_roundtrip; cbn [mbind result_bind]).
    rewrite parse_int64_format by done. cbn [mbind result_bind]. done.
  - repeat constructor; apply b64_no_dollar, bytes_range.
Defined.

(** ** Concrete uploads *)

Section examples.
#[local] Existing Instances ascii_only b64_codec.

Definition upload_nodes : gmap loc node :=
  <[["var"] := Directory 4096 0]> (<[["var"; "up"] := Directory 4096 0]> sample_nodes).

(** The uploads are on the device of the roots, or on another one. *)
Definition upload_fs (other : bool) : FS :=
  MkFS upload_nodes [] (λ _ _, None) (λ _, 0%nat) (9 * Second)
    (λ l, if other && bool_decide (l = ["var"; "up"]) then 1 else 0).

Definition uploader : Uploader := MkUploader sample_roots "/var/up".
Definition hello_hash : string := sha256_hex "hello world".
Definition hello_state (target : string) : uploadState :=
  MkUpload "0a" target 11 hello_hash.

(** A chunk, the same again, one that breaks off, and the rest. *)
Definition hello_calls : list (Z * stream) :=
  [(0, Stream "hel" None); (0, Stream "hel" None); (3, Stream "lo " (Some (EMsg "reset")));
   (6, Stream "world" None)].

Definition created (other : bool) (target : string) : FS :=
  (Create (upload_fs other) uploader "0a" target 11 hello_hash).2.
Definition written (other : bool) (target : string) : FS :=
  write_run uploader "0a" (created other target) hello_calls.

Lemma upload_site other : site (upload_fs other) uploader ["var"; "up"].
Proof.
  assert (real_dir upload_nodes []) as Hr by (by apply (real_root _ 4096 0)).
  split; [|done| |done].
  - split_and!; [done| |done]. intros l n Hl. apply elem_of_map_to_list in Hl. simpl in Hl.
    assert (Forall (λ p, Forall (char_free "000") p.1) (map_to_list upload_nodes)) as HF.
    { vm_compute. repeat constructor. }
    by apply (proj1 (Forall_forall _ _) HF) in Hl.
  - apply (real_child _ ["var"] "up" 4096 0); [|by_decide|by vm_compute].
    apply (real_child _ [] "var" 4096 0); [done|by_decide|by vm_compute].
Qed.

Lemma hello_state_ok target : utf8_ok target → state_ok (hello_state target).
Proof. intros Ht. split_and!; [by vm_compute|done|by vm_compute|done|done]. Qed.

Lemma created_in_progress : in_progress (created false "docs/hello.txt") uploader ["var"; "up"]
  (hello_state "docs/hello.txt") "".
Proof.
  destruct (Create_ip (upload_fs false) uploader ["var"; "up"] (hello_state "docs/hello.txt")
    "/srv/exchange/docs/hello.txt" (upload_site false)) with (hash := hello_hash)
    as (fs1 & HC & Hip & _); [by vm_compute|by apply hello_state_ok; vm_compute|done|
      by vm_compute|by vm_compute|by vm_compute|by vm_compute|].
  assert (created false "docs/hello.txt" = fs1) as ->; [|done].
  unfold created. exact (f_equal snd HC).
Qed.

Lemma upload_refines_log_witness :
  Offset (written false "docs/hello.txt") uploader "0a" = Ok (11, 11).
Proof.
  apply (upload_refines_log _ uploader ["var"; "up"] (hello_state "docs/hello.txt") "" hello_calls
    created_in_progress).
Defined.

Definition hello : uploadState := hello_state "docs/hello.txt".

(** A target in directories that do not exist yet, on another device than the
    upload directory: all of [hello_calls] after the creation. *)
Definition far : uploadState := hello_state "new/deep/hello.txt".

Abbreviation sent :=
  (write_run uploader (UpID far)
    (Create (upload_fs true) uploader (UpID far) (Target far) (Length far) hello_hash).2 hello_calls).

Lemma far_destination :
  destination sent uploader ["var"; "up"] far ["srv"; "exchange"; "new"; "deep"] "hello.txt".
Proof.
  assert (real_dir (nodes sent) []) as Hr by (apply (real_root _ 4096 0); by vm_compute).
  split; [by vm_compute| |by_decide|by vm_compute| |done|done|right; intros g t; by vm_compute].
  - apply (make_missing _ ["srv"; "exchange"; "new"] "deep"); [|by_decide|by vm_compute|by vm_compute].
    apply (make_missing _ ["srv"; "exchange"] "new"); [|by_decide|by vm_compute|by vm_compute].
    apply make_real. apply (real_child _ ["srv"] "exchange" 4096 0); [|by_decide|by vm_compute].
    apply (real_child _ [] "srv" 4096 0); [done|by_decide|by vm_compute].
  - apply not_dir_None. by vm_compute.
Qed.

Lemma created_destination :
  destination (created false "docs/hello.txt") uploader ["var"; "up"] hello
    ["srv"; "exchange"; "docs"] "hello.txt".
Proof.
  assert (real_dir (nodes (created false "docs/hello.txt")) []) as Hr
    by (apply (real_root _ 4096 0); by vm_compute).
  split; [by vm_compute|apply make_real|by_decide|by vm_compute| |done|done|left; by vm_compute].
  - apply (real_child _ ["srv"; "exchange"] "docs" 4096 (4 * Second)); [|by_decide|by vm_compute].
    apply (real_child _ ["srv"] "exchange" 4096 0); [|by_decide|by vm_compute].
    apply (real_child _ [] "srv" 4096 0); [done|by_decide|by vm_compute].
  - apply not_dir_None. by vm_compute.
Qed.

Lemma far_matches : hash_matches far (log_run "" hello_calls) = true.
Proof. by vm_compute. Qed.


Lemma Finish_discards_corrupt_witness :
  (Finish (created false "docs/hello.txt") uploader "0a").1.2 = Some (ESent ErrChecksumMismatch).
Proof.
  change "0a" with (UpID (hello_state "docs/hello.txt")).
  rewrite (Finish_discards_corrupt _ uploader ["var"; "up"] (hello_state "docs/hello.txt") "" created_in_progress);
    [done|by vm_compute].
Defined.

Definition long_data : string := "hello world and more".

Lemma overlong_upload_is_stuck_witness :
  let fs := (WriteChunk (created false "docs/hello.txt") uploader "0a" 0 (Stream long_data None)).2 in
  is_Some (WriteChunk fs uploader "0a" 20 (Stream "" None)).1.2.
Proof.
  intros fs. unfold fs.
  assert (in_progress fs uploader ["var"; "up"] (hello_state "docs/hello.txt") long_data) as Hip.
  { pose proof (write_step_ip _ uploader ["var"; "up"] (hello_state "docs/hello.txt") ""
      (0, Stream long_data None) created_in_progress) as [Hip _]. exact Hip. }
  apply (overlong_upload_is_stuck fs uploader ["var"; "up"] (hello_state "docs/hello.txt") long_data
    20 (Stream "" None) Hip); by vm_compute.
Defined.

(** With the upload directory on another device than the roots the file is
    copied into place, and the copy follows a dangling link. *)
Lemma Finish_follows_dangling_link :
  (Finish (written true "dangling") uploader "0a").1 = (hello_hash, None) ∧
  nodes (upload_fs true) !! ["etc"; "new"] = None ∧
  nodes (Finish (written true "dangling") uploader "0a").2 !! ["etc"; "new"] =
    Some (File "hello world" (9 * Second)) ∧
  ¬ under sample_roots ["etc"; "new"].
Proof.
  split_and!; [by vm_compute|by vm_compute|by vm_compute|].
  intros (rl & Hin%list_elem_of_singleton & Hp & Hl).
  change "/srv/exchange" with (render ["srv"; "exchange"]) in Hin.
  apply render_inj in Hin as ->; [|done|by_decide].
  by destruct Hl as [|(_ & c & l' & [=])].
Qed.

(** When the copy fails the target is left as far as it came, in place of what
    was there. *)
Lemma failed_copy_spoils_target :
  (nodes (upload_fs true) !! ["srv"; "exchange"; "a.txt"]) = Some (File "hello" (3 * Second)) ∧
  let '(sum, err, fs) := Finish (full 3 (written true "a.txt")) uploader "0a" in
  is_Some err ∧ sum = hello_hash ∧ nodes fs !! ["srv"; "exchange"; "a.txt"] = Some (File "hel" (9 * Second)).
Proof. split; [by vm_compute|]. vm_compute. split_and!; [by eexists|done..]. Qed.
End examples.
