(* ===== verification/FilesHttp.v ===== *)
(** * files/http.go: the file routes

    The handlers of [API]. The two parts of the struct that matter, the roots
    and the upload directory, are both in the [Uploader]. The quoting of a
    file name, which depends on Unicode tables, is the parameter [Quote]. *)

From S2P Require Import Prelude GoStr Path Fs Sha256 Http FileStore Upload.
From Stdlib Require Import Ascii.

Section files_http.
Context `{Unicode} `{StateCodec} `{Quote}.

Definition statusFor (e : goerr) : Z := if errors_is e ErrOutsideRoots then 403 else 500.

Definition writeErr (e : goerr) : response := write_error (statusFor e) (Error e).

Definition json_entry (e : Entry) : json :=
  JObject [("name", JString (EntryName e)); ("size", JNumber (EntrySize e));
           ("is_dir", JBool (EntryIsDir e)); ("mod_time", JNumber (ModTime e))].

Definition handleFiles (fs : FS) (a : Uploader) (r : request) : response * FS :=
  let p := if String.eqb (query_get r "path") "" then "." else query_get r "path" in
  if String.eqb (Method r) MethodGet then
    match List_ fs (up_roots a) p with
    | Err e => (writeErr e, fs)
    | Ok entries => (write_json 200 (JArray (map json_entry entries)), fs)
    end
  else if String.eqb (Method r) MethodDelete then
    match Delete fs (up_roots a) p with
    | (Some e, fs') => (writeErr e, fs')
    | (None, fs') => (write_status 204, fs')
    end
  else (write_error 405 "method not allowed", fs).

(** The body is what reading the file gives; a read error in the middle only
    cuts it short. *)
Definition handleDownload (fs : FS) (a : Uploader) (r : request) : response :=
  if negb (String.eqb (Method r) MethodGet) then write_error 405 "method not allowed" else
  let p := query_get r "path" in
  if String.eqb p "" then write_error 400 "path is required" else
  match Open fs (up_roots a) p with
  | Err e => writeErr e
  | Ok (l, size, sum) =>
     Response 200
       [("X-Checksum-SHA256", sum); ("Content-Length", format_int size);
        ("Content-Type", "application/octet-stream");
        ("Content-Disposition", "attachment; filename=" +:+ go_quote (Base p))]
       (Raw (match nodes fs !! l with Some (File d _) => d | _ => "" end))
  end.

Definition TusVersion : string := "1.0.0".

Definition setTusHeaders (r : response) : response :=
  add_headers [("Tus-Resumable", TusVersion); ("Tus-Version", TusVersion)] r.

(** newUploadID: hex of twelve random bytes. *)
Definition newUploadID (rand : result (list Z)) : result string :=
  match rand with
  | Err e => Err (EWrap "generate upload id: " e "")
  | Ok buf => Ok (hex_encode buf)
  end.

Definition meta_get (meta : gmap string string) (k : string) : string := default "" (meta !! k).

Definition upload_target (meta : gmap string string) : string :=
  let target := meta_get meta "filename" in
  if String.eqb (meta_get meta "dir") "" then target else Join [meta_get meta "dir"; target].

Definition handleUploadCreate (fs : FS) (a : Uploader) (r : request) (rand : result (list Z))
    : response * FS :=
  if String.eqb (Method r) MethodOptions
  then (setTusHeaders (add_headers [("Tus-Extension", "creation")] (write_status 204)), fs)
  else if negb (String.eqb (Method r) MethodPost)
  then (setTusHeaders (write_error 405 "method not allowed"), fs)
  else match ParseOffset (header_get r "Upload-Length") with
  | Err _ =>
     (setTusHeaders (write_error 400 "Upload-Length is required and must be a non-negative integer"), fs)
  | Ok length =>
     let meta := ParseUploadMetadata (header_get r "Upload-Metadata") in
     if String.eqb (meta_get meta "filename") ""
     then (setTusHeaders (write_error 400 "Upload-Metadata must contain a filename"), fs)
     else match newUploadID rand with
     | Err e => (setTusHeaders (write_error 500 (Error e)), fs)
     | Ok id =>
        match Create fs a id (upload_target meta) length (meta_get meta "sha256") with
        | (Some e, fs') => (setTusHeaders (writeErr e), fs')
        | (None, fs') =>
           (setTusHeaders
              (Response 201 [("Location", "/files/upload/" +:+ id); ("Upload-Offset", "0")] NoBody), fs')
        end
     end
  end.

Definition handle_patch (fs : FS) (a : Uploader) (r : request) (id : string) : response * FS :=
  let ct := header_get r "Content-Type" in
  if negb (String.eqb ct "") && negb (String.eqb ct "application/offset+octet-stream")
  then (write_error 415 "Content-Type must be application/offset+octet-stream", fs)
  else match ParseOffset (header_get r "Upload-Offset") with
  | Err _ => (write_error 400 "Upload-Offset is required", fs)
  | Ok offset =>
     let '(newOffset, done, err, fs1) := WriteChunk fs a id offset (Body r) in
     let at_offset := [("Upload-Offset", format_int newOffset)] in
     match err with
     | Some e =>
        if errors_is e ErrOffsetConflict
        then (add_headers at_offset (write_error 409 "offset conflict; resume from Upload-Offset"), fs1)
        else (writeErr e, fs1)
     | None =>
        if negb done then (add_headers at_offset (write_status 204), fs1)
        else
          let '(sum, err, fs2) := Finish fs1 a id in
          let hs := at_offset ++ [("X-Checksum-SHA256", sum)] in
          match err with
          | None => (add_headers hs (write_status 204), fs2)
          | Some e =>
             if errors_is e ErrChecksumMismatch
             then (add_headers hs
                     (write_error 422 "checksum mismatch; the upload was discarded, send it again"), fs2)
             else (add_headers hs (writeErr e), fs2)
          end
     end
  end.

Definition handleUploadResume (fs : FS) (a : Uploader) (r : request) : response * FS :=
  let id := trim_prefix (URLPath r) "/files/upload/" in
  let '(resp, fs') :=
    if String.eqb id "" || contains id "/" then (write_error 404 "not found", fs)
    else if String.eqb (Method r) MethodHead then
      match Offset fs a id with
      | Err _ => (write_status 404, fs)
      | Ok (offset, length) =>
         (Response 200 [("Cache-Control", "no-store"); ("Upload-Offset", format_int offset);
                        ("Upload-Length", format_int length)] NoBody, fs)
      end
    else if String.eqb (Method r) MethodPatch then handle_patch fs a r id
    else if String.eqb (Method r) MethodDelete then (write_status 204, Discard fs a id)
    else (write_error 405 "method not allowed", fs) in
  (setTusHeaders resp, fs').

(** The mux of [Register], by pattern. *)
Definition files_handle (fs : FS) (a : Uploader) (pattern : string) (r : request)
    (rand : result (list Z)) : response * FS :=
  if String.eqb pattern "/files" then handleFiles fs a r
  else if String.eqb pattern "/files/download" then (handleDownload fs a r, fs)
  else if String.eqb pattern "/files/upload" then handleUploadCreate fs a r rand
  else handleUploadResume fs a r.

(** ** The metadata header *)

Definition metadata_pair (p : string * string) : string := p.1 +:+ " " +:+ b64_encode true (bytes p.2).

Definition metadata_header (ps : list (string * string)) : string :=
  join_char "," (map metadata_pair ps).

(** A key as a tus client may send it. *)
Definition meta_key (k : string) : Prop := k ≠ "" ∧ Forall (λ b, 44 < b < 127) (bytes k).

Lemma meta_key_visible k : meta_key k → visible_ends (bytes k).
Proof.
  intros [Hk HF]. apply visible_ends_all; [by destruct k|].
  eapply Forall_impl; [done|]. simpl. lia.
Qed.

Lemma meta_key_no_space k : meta_key k → char_free " " k.
Proof.
  intros [_ HF]. apply char_free_bytes. eapply Forall_impl; [done|].
  change (byte_of " ") with 32. simpl. lia.
Qed.

Lemma metadata_pair_no_comma p : meta_key p.1 → char_free "," (metadata_pair p).
Proof.
  intros [_ HF]. apply char_free_bytes. unfold metadata_pair.
  rewrite !bytes_app, b64_encode_bytes_of by apply bytes_range.
  change (byte_of ",") with 44. rewrite !Forall_app. split_and!.
  - eapply Forall_impl; [done|]. simpl. lia.
  - by repeat constructor.
  - eapply Forall_impl; [apply b64_encode_visible, bytes_range|]. simpl. lia.
Qed.

Lemma b64_encode_nil pad v : v ≠ "" → bytes (b64_encode pad (bytes v)) ≠ [].
Proof.
  intros Hv E. rewrite b64_encode_bytes_of in E by apply bytes_range.
  destruct v as [|a [|b [|c v]]]; simpl in E; done.
Qed.

Lemma metadata_part_pair m p : meta_key p.1 → metadata_part m (metadata_pair p) = <[p.1 := p.2]> m.
Proof.
  intros Hk. destruct p as [k v]; simpl in *. unfold metadata_part, metadata_pair; simpl.
  pose proof (meta_key_visible k Hk) as Hv. pose proof (meta_key_no_space k Hk) as Hs.
  assert (String.eqb k "" = false) as Hne by (destruct Hk; by apply String.eqb_neq).
  destruct (decide (v = "")) as [->|Hv0].
  - rewrite trim_space_trailing, Hne, cut_char_free by done. done.
  - rewrite trim_space_visible.
    + rewrite (proj2 (String.eqb_neq _ _)) by (destruct Hk; by destruct k).
      change (k +:+ " " +:+ ?x) with (k +:+ String " " x).
      rewrite cut_char_app by done.
      rewrite b64_decode_encode by apply bytes_range. by rewrite of_bytes_bytes.
    + change (bytes _) with (bytes (k +:+ " " +:+ b64_encode true (bytes v))).
      rewrite !bytes_app. apply visible_ends_app; [done|].
      apply visible_ends_all; [by apply b64_encode_nil|].
      rewrite b64_encode_bytes_of by apply bytes_range.
      eapply Forall_impl; [apply b64_encode_visible, bytes_range|]. simpl. lia.
Qed.

(** C36: Parsing the Upload-Metadata header a client builds from pairs of a key and arbitrary
    bytes gives back exactly those pairs, the last one for a repeated key. *)
Theorem metadata_roundtrip ps :
  Forall (λ p, meta_key p.1) ps →
  ParseUploadMetadata (metadata_header ps) = fold_left (λ m p, <[p.1 := p.2]> m) ps ∅.
Proof.
  intros HF. destruct (decide (ps = [])) as [->|Hps]; [done|].
  unfold ParseUploadMetadata, metadata_header. rewrite split_join.
  - clear Hps. generalize (∅ : gmap string string).
    induction HF as [|p ps Hp _ IH]; intros m; simpl; [done|].
    by rewrite metadata_part_pair, IH by done.
  - by destruct ps.
  - apply Forall_map. eapply Forall_impl; [done|]. apply metadata_pair_no_comma.
Qed.

(** ** Refusals *)

Lemma handleDownload_ok fs a r :
  status (handleDownload fs a r) = 200 →
  ∃ l size sum, Open fs (up_roots a) (query_get r "path") = Ok (l, size, sum) ∧
  get_first (headers (handleDownload fs a r)) "X-Checksum-SHA256" = sum ∧
  payload_of (handleDownload fs a r) = Raw (match nodes fs !! l with Some (File d _) => d | _ => "" end).
Proof.
  unfold handleDownload. destruct (negb _); [done|].
  destruct (String.eqb _ _); [done|].
  destruct (Open _ _ _) as [[[l size] sum]|e]; [by eauto 10|].
  unfold writeErr, statusFor; simpl. by destruct (errors_is e _).
Qed.

(** A download answered 200 carries the whole content of one regular file under the roots
    and that content's SHA-256 in its header. *)
Lemma download_is_checksummed fs a r :
  fs_wf fs → roots_ok (up_roots a) → status (handleDownload fs a r) = 200 →
  ∃ l data t, under (up_roots a) l ∧ nodes fs !! l = Some (File data t) ∧
    payload_of (handleDownload fs a r) = Raw data ∧
    get_first (headers (handleDownload fs a r)) "X-Checksum-SHA256" = sha256_hex data.
Proof.
  intros Hwf Hroots (l & size & sum & HO & Hs & Hp)%handleDownload_ok.
  apply Open_inside in HO as (Hu & _ & data & t & Hn & _ & ->); [|done..].
  exists l, data, t. rewrite Hp, Hs, Hn. done.
Qed.

(** The path the request names, or the default one. *)
Definition request_path (pattern : string) (r : request) : string :=
  let p := query_get r "path" in
  if String.eqb pattern "/files" then (if String.eqb p "" then "." else p) else p.

Lemma outside_is_forbidden fs a pattern r rand e :
  (pattern = "/files" ∧ (Method r = MethodGet ∨ Method r = MethodDelete)) ∨
  (pattern = "/files/download" ∧ Method r = MethodGet ∧ query_get r "path" ≠ "") →
  Resolve fs (up_roots a) (request_path pattern r) = Err e → errors_is e ErrOutsideRoots = true →
  status (files_handle fs a pattern r rand).1 = 403 ∧ (files_handle fs a pattern r rand).2 = fs.
Proof.
  unfold request_path.
  intros [[-> Hm]|(-> & Hm & Hp)] HR He; unfold files_handle; simpl in *.
  - unfold handleFiles, writeErr, statusFor, List_, Delete. destruct Hm as [Hm|Hm]; rewrite Hm, HR; simpl;
      by rewrite He.
  - unfold handleDownload, writeErr, statusFor, Open. rewrite Hm. simpl.
    rewrite (proj2 (String.eqb_neq _ _) Hp), HR. simpl. by rewrite He.
Qed.

(** ** A client that resumes

    The client holds [d]; before every PATCH it asks HEAD where to go on, and
    stops when there is nothing to go on with. Of an interrupted attempt only the
    first [cut] bytes of the rest arrive, and the disk may take fewer of them
    than that before it is full; or all arrives and it is the answer that is
    lost. *)

Inductive interruption :=
  | Broken (cut : nat) (room : option nat)
  | AnswerLost.

Definition upload_request (m id : string) (hs : list (string * string)) (body : stream) : request :=
  Request m ("/files/upload/" +:+ id) [] hs "100.64.0.2:5555" "daemon" body None.

Definition told_offset (r : response) : Z :=
  match ParseOffset (get_first (headers r) "Upload-Offset") with Ok n => n | Err _ => 0 end.

Definition attempt (a : Uploader) (id d : string) (fs : FS) (i : option interruption) : response * FS :=
  let '(told, fs1) := handleUploadResume fs a (upload_request MethodHead id [] (Stream "" None)) in
  if negb (status told =? 200) then (told, fs1) else
  let rest := drop_str (Z.to_nat (told_offset told)) d in
  let patch := upload_request MethodPatch id [("Upload-Offset", format_int (told_offset told))] in
  match i with
  | None | Some AnswerLost => handleUploadResume fs1 a (patch (Stream rest None))
  | Some (Broken cut room) =>
     let r := patch (Stream (String.substring 0 cut rest) (Some (EMsg "connection reset"))) in
     match room with
     | None => handleUploadResume fs1 a r
     | Some n => let '(resp, fs2) := handleUploadResume (full n fs1) a r in (resp, with_nodes fs1 (nodes fs2))
     end
  end.

Definition broken_attempts (a : Uploader) (id d : string) (fs : FS) (ints : list interruption) : FS :=
  fold_left (λ fs i, (attempt a id d fs (Some i)).2) ints fs.

Lemma contains_single s c : contains s (String c "") = contains_char c s.
Proof.
  induction s as [|a s IH]; simpl; [done|]. rewrite IH.
  by rewrite andb_true_r, Ascii.eqb_sym.
Qed.

Lemma substring_prefix n s : ∃ t, s = String.substring 0 n s +:+ t.
Proof.
  revert s. induction n as [|n IH]; intros [|a s]; simpl; try by eexists.
  destruct (IH s) as [t E]. exists t. by rewrite <- E.
Qed.

Lemma slen_app s t : slen (s +:+ t) = slen s + slen t.
Proof. unfold slen. induction s as [|a s IH]; simpl; lia. Qed.

Lemma ParseOffset_format n : 0 ≤ n ≤ max_int64 → ParseOffset (format_int n) = Ok n.
Proof.
  intros Hn. unfold ParseOffset.
  assert (format_int n ≠ "") as Hne.
  { unfold format_int. rewrite (proj2 (Z.ltb_ge _ _)) by lia.
    by destruct (utoa_head (Z.to_N n)) as (a & s & -> & _). }
  rewrite (proj2 (String.eqb_neq _ _) Hne), parse_int64_format by (unfold min_int64; lia).
  by rewrite (proj2 (Z.ltb_ge _ _)) by lia.
Qed.

Lemma resume_id id m hs body :
  validUploadID id = true →
  let r := upload_request m id hs body in
  String.eqb (trim_prefix (URLPath r) "/files/upload/") "" = false ∧
  contains (trim_prefix (URLPath r) "/files/upload/") "/" = false ∧
  trim_prefix (URLPath r) "/files/upload/" = id.
Proof.
  intros (Hne & Hs & _)%validUploadID_spec r. unfold r; cbn [URLPath upload_request].
  rewrite trim_prefix_app, contains_single. split_and!; [by apply String.eqb_neq|done|done].
Qed.

Lemma head_ip fs a D st data :
  in_progress fs a D st data → slen data ≤ max_int64 →
  ∃ told, handleUploadResume fs a (upload_request MethodHead (UpID st) [] (Stream "" None)) = (told, fs) ∧
    status told = 200 ∧ told_offset told = slen data.
Proof.
  intros Hip Hmax. unfold handleUploadResume.
  destruct (resume_id (UpID st) MethodHead [] (Stream "" None) (ip_id _ _ _ _ _ Hip)) as (Hr1 & Hr2 & Hr3).
  rewrite Hr1, Hr2, Hr3. simpl. rewrite (Offset_ip fs a D st data) by done.
  eexists. split_and!; [done|done|].
  unfold told_offset; simpl. rewrite ParseOffset_format; [done|]. unfold slen in *. lia.
Qed.

(** Once the files are gone HEAD says so, and the client sends nothing. *)
Lemma attempt_gone fs a D id d i :
  gone fs a D id → status (attempt a id d fs i).1 = 404 ∧ (attempt a id d fs i).2 = fs.
Proof.
  intros HG. destruct (loadState_gone fs a D id HG) as (e & He & _).
  unfold attempt, handleUploadResume.
  destruct (resume_id id MethodHead [] (Stream "" None) (gone_id _ _ _ _ HG)) as (Hr1 & Hr2 & Hr3).
  rewrite Hr1, Hr2, Hr3. simpl. unfold Offset. by rewrite He.
Qed.

Lemma broken_attempts_gone ints fs a D id d :
  gone fs a D id → broken_attempts a id d fs ints = fs.
Proof.
  intros HG. induction ints as [|i ints IH]; [done|]. unfold broken_attempts; simpl.
  by rewrite (proj2 (attempt_gone fs a D id d (Some i) HG)).
Qed.

Lemma resume_patch fs a st hs body :
  validUploadID (UpID st) = true →
  let r := upload_request MethodPatch (UpID st) hs body in
  handleUploadResume fs a r = let '(resp, fs') := handle_patch fs a r (UpID st) in (setTusHeaders resp, fs').
Proof.
  intros Hid r. unfold handleUploadResume.
  destruct (resume_id (UpID st) MethodPatch hs body Hid) as (Hr1 & Hr2 & Hr3).
  fold r in Hr1, Hr2, Hr3. by rewrite Hr1, Hr2, Hr3.
Qed.

Lemma handle_patch_ip fs a D st data body :
  in_progress fs a D st data → slen data ≤ max_int64 →
  err_is (read_error body) ErrOffsetConflict = false →
  let r := upload_request MethodPatch (UpID st) [("Upload-Offset", format_int (slen data))] body in
  handle_patch fs a r (UpID st) =
  let n := wrap64 (slen data + slen (content body)) in
  let fs1 := appended fs D st data (content body) in
  let at_offset := [("Upload-Offset", format_int n)] in
  match read_error body with
  | Some e => (writeErr (EWrap ("write chunk for " +:+ UpID st +:+ ": ") e ""), fs1)
  | None =>
     if Length st <? n
     then (writeErr (EMsg ("upload " +:+ UpID st +:+ " exceeded its declared length")), fs1)
     else if negb (n =? Length st) then (add_headers at_offset (write_status 204), fs1)
     else
       let '(sum, err, fs2) := Finish fs1 a (UpID st) in
       let hs := at_offset ++ [("X-Checksum-SHA256", sum)] in
       match err with
       | None => (add_headers hs (write_status 204), fs2)
       | Some e =>
          if errors_is e ErrChecksumMismatch
          then (add_headers hs
                  (write_error 422 "checksum mismatch; the upload was discarded, send it again"), fs2)
          else (add_headers hs (writeErr e), fs2)
       end
  end.
Proof.
  intros Hip Hmax He r. unfold handle_patch, r. cbn -[WriteChunk Finish format_int ParseOffset].
  rewrite ParseOffset_format by (unfold slen in *; lia).
  rewrite (WriteChunk_ip fs a D st data) by done. rewrite Z.eqb_refl. simpl negb. cbv iota.
  destruct (read_error body) as [e|]; simpl in *; [by rewrite He|].
  by destruct (Length st <? _).
Qed.

(** What the PATCH of a broken attempt leaves. *)
Lemma broken_ip fs a D st data rest cut room :
  in_progress fs a D st data → slen data ≤ max_int64 →
  ∃ more rest', rest = more +:+ rest' ∧
    (attempt a (UpID st) (data +:+ rest) fs (Some (Broken cut room))).2 = appended fs D st data more.
Proof.
  intros Hip Hmax. destruct (substring_prefix cut rest) as [rest1 E1].
  unfold attempt. destruct (head_ip fs a D st data Hip Hmax) as (told & -> & -> & ->).
  assert (drop_str (Z.to_nat (slen data)) (data +:+ rest) = rest) as ->.
  { unfold slen. rewrite Nat2Z.id. apply drop_str_app. }
  cbv zeta. cbn [Z.eqb Pos.eqb negb]. set (part := String.substring 0 cut rest) in *.
  destruct room as [n|].
  - destruct (substring_prefix n part) as [rest2 E2].
    exists (String.substring 0 n part), (rest2 +:+ rest1). split; [by rewrite <- app_str_assoc, <- E2|].
    rewrite resume_patch by apply Hip. unfold handle_patch. cbn -[WriteChunk Finish format_int ParseOffset full].
    rewrite ParseOffset_format by (unfold slen in *; lia).
    destruct (WriteChunk_full fs a D st data n part (EMsg "connection reset") Hip eq_refl)
      as (m & e' & fs' & -> & He & Hfs). simpl. by rewrite He.
  - exists part, rest1. split; [done|]. rewrite resume_patch by apply Hip.
    by rewrite (handle_patch_ip fs a D st data).
Qed.

(** What was sent before is in the partial file only. *)
Lemma installed_before fs fs1 fs' a D st B c d :
  (∀ k, k ≠ part_loc D (UpID st) → nodes fs1 !! k = nodes fs !! k) →
  installed fs1 fs' a D st B c d → installed fs fs' a D st B c d.
Proof.
  intros Hk [HS Ht Hp Hj Hrest]. split; [done..|]. intros k HT HP HJ. rewrite <- Hk by done.
  destruct (Hrest k) as [->|(? & ? & ?)]; [done..|by left|right]. split_and!; [done|by rewrite <- Hk|done].
Qed.

(** An attempt all of which arrives. *)
Lemma whole_attempt_ip fs a D st data rest B c i :
  in_progress fs a D st data → slen (data +:+ rest) = Length st →
  hash_matches st (data +:+ rest) = true → destination fs a D st B c → i = None ∨ i = Some AnswerLost →
  ∃ fs', attempt a (UpID st) (data +:+ rest) fs i =
    (setTusHeaders (add_headers
       ([("Upload-Offset", format_int (Length st))] ++ [("X-Checksum-SHA256", sha256_hex (data +:+ rest))])
       (write_status 204)), fs') ∧ installed fs fs' a D st B c (data +:+ rest).
Proof.
  intros Hip Hlen Hm HD Hi. pose proof (ip_ok _ _ _ _ _ Hip) as (_ & _ & _ & Hl).
  assert (slen data ≤ Length st) as Hd by (rewrite slen_app in Hlen; unfold slen in *; lia).
  unfold attempt. destruct (head_ip fs a D st data Hip) as (told & -> & -> & ->); [lia|].
  assert (drop_str (Z.to_nat (slen data)) (data +:+ rest) = rest) as ->.
  { unfold slen. rewrite Nat2Z.id. apply drop_str_app. }
  cbv zeta. cbn [Z.eqb Pos.eqb negb].
  assert (∀ A (x : A) y, match i with None | Some AnswerLost => x | Some (Broken n m) => y n m end = x) as ->
    by (by destruct Hi as [->| ->]).
  rewrite resume_patch by apply Hip.
  rewrite (handle_patch_ip fs a D st data) by (done || lia). cbn [content read_error].
  rewrite <- slen_app, Hlen, wrap64_id, Z.ltb_irrefl, Z.eqb_refl by done. simpl negb. cbv iota.
  pose proof (in_progress_appended fs a D st data rest Hip) as Hip'.
  destruct (Finish_ip _ a D st _ B c Hip') as (fs' & HF & Hinst); [|done|].
  { eapply destination_same; [symmetry; by eapply appended_same|done]. }
  exists fs'. rewrite HF. split; [done|]. eapply installed_before; [|done].
  intros k Hk. by apply extended_ne.
Qed.

(** After any interruptions: the upload goes on, or it is in place. *)
Lemma broken_attempts_ip ints fs a D st data rest B c :
  in_progress fs a D st data → slen (data +:+ rest) = Length st →
  hash_matches st (data +:+ rest) = true → destination fs a D st B c →
  let fs' := broken_attempts a (UpID st) (data +:+ rest) fs ints in
  ((AnswerLost ∉ ints) ∧ ∃ data' rest', data +:+ rest = data' +:+ rest' ∧ in_progress fs' a D st data' ∧
     same_fs fs' fs ∧ ∀ k, k ≠ part_loc D (UpID st) → nodes fs' !! k = nodes fs !! k) ∨
  ((AnswerLost ∈ ints) ∧ installed fs fs' a D st B c (data +:+ rest)).
Proof.
  revert fs data rest. induction ints as [|i ints IH]; intros fs data rest Hip Hlen Hm HD.
  { left. split; [apply not_elem_of_nil|]. by exists data, rest. }
  pose proof (ip_ok _ _ _ _ _ Hip) as (_ & _ & _ & Hl).
  assert (slen data ≤ max_int64) as Hd by (rewrite slen_app in Hlen; unfold slen in *; lia).
  cbv zeta. change (broken_attempts a (UpID st) (data +:+ rest) fs (i :: ints)) with
    (broken_attempts a (UpID st) (data +:+ rest) (attempt a (UpID st) (data +:+ rest) fs (Some i)).2 ints).
  destruct i as [cut room|].
  - destruct (broken_ip fs a D st data rest cut room Hip Hd) as (more & rest' & Er & ->).
    assert (data +:+ rest = (data +:+ more) +:+ rest') as E by (by rewrite app_str_assoc, <- Er).
    rewrite E in Hlen, Hm |- *. set (fs1 := appended fs D st data more).
    assert (∀ k, k ≠ part_loc D (UpID st) → nodes fs1 !! k = nodes fs !! k) as Hk1 by (intros; by apply extended_ne).
    destruct (IH fs1 _ rest' (in_progress_appended fs a D st data _ Hip) Hlen Hm)
      as [(Hin & data' & rest'' & E' & Hip' & Hs & Hk)|(Hin & Hi)].
    { eapply destination_same; [symmetry; by eapply appended_same|done]. }
    + left. split; [by apply not_elem_of_cons|]. exists data', rest''. split_and!; [done..| |].
      * etrans; [apply Hs|]. by eapply appended_same.
      * intros k Hne. by rewrite Hk, Hk1.
    + right. split; [by right|]. by eapply installed_before.
  - right. split; [by left|].
    destruct (whole_attempt_ip fs a D st data rest B c (Some AnswerLost)) as (fs' & -> & Hi); [by auto..|].
    cbn [snd]. by rewrite (broken_attempts_gone _ _ a D) by (by eapply installed_gone).
Qed.

(** C21: A client that asks HEAD for the offset before each PATCH completes its upload after any
    number of interruptions: connections that broke at any byte, however much of it the disk
    took before it was full, and answers that were lost after all bytes had arrived. If no such
    answer was lost the last PATCH answers 204 with the SHA-256 of the data, otherwise HEAD
    answers 404 and nothing more is sent; either way the target holds exactly the data, the
    temporary files are gone and nothing else changed but for missing directories above the
    target, which are made. (The declared length and hash are those of the data; calls fail only
    as said; what exists above the target is directories, the target is no directory and across
    devices no link.) *)
Theorem resumed_upload_completes fs a D st d ints B c :
  in_progress fs a D st "" → slen d = Length st → hash_matches st d = true →
  destination fs a D st B c →
  let fs1 := broken_attempts a (UpID st) d fs ints in
  let last := attempt a (UpID st) d fs1 None in
  (((AnswerLost ∉ ints) ∧ status last.1 = 204 ∧ get_first (headers last.1) "X-Checksum-SHA256" = sha256_hex d) ∨
   ((AnswerLost ∈ ints) ∧ status last.1 = 404 ∧ last.2 = fs1)) ∧
  (∃ t, nodes last.2 !! (B ++ [c]) = Some (File d t)) ∧
  nodes last.2 !! part_loc D (UpID st) = None ∧ nodes last.2 !! json_loc D (UpID st) = None ∧
  ∀ k, k ≠ B ++ [c] → k ≠ part_loc D (UpID st) → k ≠ json_loc D (UpID st) →
    nodes last.2 !! k = nodes fs !! k ∨ made_dir (nodes fs) (nodes last.2) B k.
Proof.
  intros Hip Hlen Hm HD fs1 last.
  pose proof (broken_attempts_ip ints fs a D st "" d B c Hip Hlen Hm HD) as HB. simpl in HB. fold fs1 in HB.
  destruct HB as [(Hin & data & rest & E & Hip1 & Hs & Hk)|(Hin & Hi)].
  - destruct (whole_attempt_ip fs1 a D st data rest B c None) as (fs' & Hlast & Hi);
      [done|by rewrite <- E|by rewrite <- E|by eapply destination_same|by left|].
    rewrite <- E in Hlast, Hi. apply (installed_before fs) in Hi; [|done].
    unfold last. rewrite Hlast. cbn [fst snd]. split; [by left|]. by destruct Hi.
  - destruct (attempt_gone fs1 a D (UpID st) d None) as [Hs1 Hs2]; [by eapply installed_gone|].
    unfold last. rewrite Hs2. split; [by right|]. by destruct Hi.
Qed.
End files_http.

(** ** Witnesses *)

Section examples.
#[local] Existing Instances ascii_only b64_codec.
#[local] Instance plain_quote : Quote := λ s, s.

Lemma metadata_roundtrip_witness :
  ParseUploadMetadata (metadata_header [("filename", "a b.txt"); ("dir", "")]) =
  <["dir" := ""]> (<["filename" := "a b.txt"]> ∅).
Proof. apply (metadata_roundtrip [("filename", "a b.txt"); ("dir", "")]). by_decide. Defined.

Definition download_request (p : string) : request :=
  Request MethodGet "/files/download" [("path", p)] [] "100.64.0.2:5555" "daemon" (Stream "" None) None.

Lemma download_is_checksummed_witness :
  ∃ l data t, under sample_roots l ∧ nodes sample_fs !! l = Some (File data t) ∧
    payload_of (handleDownload sample_fs uploader (download_request "docs/../a.txt")) = Raw data.
Proof.
  destruct (download_is_checksummed sample_fs uploader (download_request "docs/../a.txt")
    sample_wf sample_roots_ok) as (l & data & t & Hu & Hn & Hp & _); [by vm_compute|].
  exists l, data, t. exact (conj Hu (conj Hn Hp)).
Defined.

Lemma outside_is_forbidden_witness :
  status (files_handle sample_fs uploader "/files/download"
            (download_request "escape/passwd") (Ok [])).1 = 403.
Proof.
  apply (outside_is_forbidden sample_fs uploader "/files/download"
    (download_request "escape/passwd") (Ok []) (ESent ErrOutsideRoots)); [by right|by vm_compute|done].
Defined.

(** The connection breaks, the disk is full, nothing arrives, all but the end;
    then the answer is lost that says the upload is there. *)
Definition outages : list interruption :=
  [Broken 3 None; Broken 8 (Some 2%nat); Broken 0 (Some 0%nat); Broken 20 None].

Definition outage (lost : bool) : list interruption := outages ++ (if lost then [AnswerLost; Broken 2 None] else []).

Lemma resumed_upload_completes_witness :
  (∀ lost, status (attempt uploader "0a" "hello world"
     (broken_attempts uploader "0a" "hello world" (created false "docs/hello.txt") (outage lost))
     None).1 = if lost then 404 else 204) ∧
  ∃ t, nodes (broken_attempts uploader "0a" "hello world" (created false "docs/hello.txt") (outage true))
    !! ["srv"; "exchange"; "docs"; "hello.txt"] = Some (File "hello world" t).
Proof.
  assert (∀ lost, let fs1 := broken_attempts uploader "0a" "hello world" (created false "docs/hello.txt") (outage lost) in
    status (attempt uploader "0a" "hello world" fs1 None).1 = (if lost then 404 else 204) ∧
    (lost = true → (attempt uploader "0a" "hello world" fs1 None).2 = fs1) ∧
    ∃ t, nodes (attempt uploader "0a" "hello world" fs1 None).2 !! ["srv"; "exchange"; "docs"; "hello.txt"] =
      Some (File "hello world" t)) as HR.
  { intros lost fs1. destruct (resumed_upload_completes (created false "docs/hello.txt") uploader ["var"; "up"] hello
      "hello world" (outage lost) ["srv"; "exchange"; "docs"] "hello.txt" created_in_progress)
      as (Ha & Ht & _); [done|by vm_compute|exact created_destination|].
    destruct lost.
    - destruct Ha as [(Hn & _)|(_ & Ha & Hs)]; [destruct Hn; apply list_elem_of_In; simpl; tauto|].
      split_and!; [exact Ha|intros _; exact Hs|exact Ht].
    - destruct Ha as [(_ & Ha & _)|(Hn & _)]; [|apply list_elem_of_In in Hn; simpl in Hn; intuition congruence].
      split_and!; [exact Ha|done|exact Ht]. }
  split; [intros lost; apply (HR lost)|].
  destruct (HR true) as (_ & Hs & t & Ht). exists t. rewrite <- (Hs eq_refl). exact Ht.
Defined.
End examples.
