(* ===== verification/UploadRace.v ===== *)
(** * Uploads whose requests overlap

    The handler of a PATCH calls WriteChunk and, when every byte is there,
    Finish. Each of them takes the mutex of the [Uploader], so that other
    requests may come between the two. Here a PATCH of one upload is a thread
    with these two sections; HEAD takes no lock and changes nothing, DELETE is
    one section. *)

From S2P Require Import Prelude GoStr Path Fs Sha256 Http FileStore Upload FilesHttp Threads.
From Stdlib Require Import Ascii.

Inductive patch_thread :=
  | Patching (r : request)
  | Whole (newOffset : Z)          (* every declared byte is stored, Finish has not run *)
  | Replied (resp : response).

Inductive upload_call := UDelete | UHead.

Section upload_race.
Context `{Unicode} `{StateCodec}.
Variables (a : Uploader) (id : string).
Implicit Types fs : FS.

(** Up to the return of WriteChunk. *)
Definition patch_write fs (r : request) : patch_thread * FS :=
  let ct := header_get r "Content-Type" in
  if negb (String.eqb ct "") && negb (String.eqb ct "application/offset+octet-stream")
  then (Replied (write_error 415 "Content-Type must be application/offset+octet-stream"), fs)
  else match ParseOffset (header_get r "Upload-Offset") with
  | Err _ => (Replied (write_error 400 "Upload-Offset is required"), fs)
  | Ok offset =>
     let '(newOffset, done, err, fs1) := WriteChunk fs a id offset (Body r) in
     let at_offset := [("Upload-Offset", format_int newOffset)] in
     match err with
     | Some e =>
        if errors_is e ErrOffsetConflict
        then (Replied (add_headers at_offset (write_error 409 "offset conflict; resume from Upload-Offset")), fs1)
        else (Replied (writeErr e), fs1)
     | None => if negb done then (Replied (add_headers at_offset (write_status 204)), fs1) else (Whole newOffset, fs1)
     end
  end.

Definition patch_finish fs (newOffset : Z) : response * FS :=
  let '(sum, err, fs2) := Finish fs a id in
  let hs := [("Upload-Offset", format_int newOffset)] ++ [("X-Checksum-SHA256", sum)] in
  match err with
  | None => (add_headers hs (write_status 204), fs2)
  | Some e =>
     if errors_is e ErrChecksumMismatch
     then (add_headers hs (write_error 422 "checksum mismatch; the upload was discarded, send it again"), fs2)
     else (add_headers hs (writeErr e), fs2)
  end.

Definition patch_turn fs (t : patch_thread) (_ : unit) : option (patch_thread * FS) :=
  match t with
  | Patching r => Some (patch_write fs r)
  | Whole newOffset => let '(resp, fs') := patch_finish fs newOffset in Some (Replied resp, fs')
  | Replied _ => None
  end.

#[export] Instance upload_threads : Threads FS patch_thread unit upload_call := {
  arriving t := match t with Patching _ => true | _ => false end;
  finished t := match t with Replied _ => true | _ => false end;
  thread_step := patch_turn;
  section_of _ _ _ := None;
  other_step fs c := match c with UDelete => Some (Discard fs a id) | UHead => Some fs end;
}.

Lemma alone_patch fs r : alone 2 fs (Patching r) () = Some (prod_map Replied (λ fs', fs') (handle_patch fs a r id)).
Proof.
  unfold handle_patch, alone; simpl. unfold patch_write. destruct (_ && _); [done|].
  destruct (ParseOffset _) as [offset|]; [|done].
  destruct (WriteChunk fs a id offset (Body r)) as [[[n done] [e|]] fs1]; [by destruct (errors_is e ErrOffsetConflict)|].
  destruct done; simpl; [|done]. unfold patch_finish.
  destruct (Finish fs1 a id) as [[sum [e|]] fs2]; [|done]. by destruct (errors_is e ErrChecksumMismatch).
Qed.

Lemma uninterrupted_turns_make_a_patch fs r :
  alone 2 fs (Patching r) () = Some (prod_map Replied (λ fs', fs') (handle_patch fs a r id)).
Proof. apply alone_patch. Qed.
End upload_race.

(** ** What every interleaving preserves *)

Section invariant.
Context `{Unicode} `{StateCodec}.
Variables (a : Uploader) (D : loc) (st : uploadState) (B : loc) (c : string) (fs0 : FS).
Implicit Types fs : FS.
Let T : loc := B ++ [c].
#[local] Instance race_threads : Threads _ _ _ _ := upload_threads a (UpID st).

(** The upload still goes on, with [data] stored. *)
Record uploading fs (data : string) : Prop := {
  up_progress : in_progress fs a D st data;
  up_destination : destination fs a D st B c;
  up_rest k : k ≠ part_loc D (UpID st) → nodes fs !! k = nodes fs0 !! k;
}.

(** It is over, and put [inst] at its target. *)
Record over fs (inst : option string) : Prop := {
  ov_gone : gone fs a D (UpID st);
  ov_target : match inst with
              | None => nodes fs !! T = nodes fs0 !! T
              | Some data => (∃ t, nodes fs !! T = Some (File data t)) ∧ hash_matches st data = true
              end;
  ov_rest k : k ≠ T → k ≠ part_loc D (UpID st) → k ≠ json_loc D (UpID st) →
    nodes fs !! k = nodes fs0 !! k ∨ made_dir (nodes fs0) (nodes fs) B k;
}.

(** The answer to a PATCH that finished the upload. *)
Definition success (resp : response) : Prop :=
  status resp = 204 ∧ ∃ sum, ("X-Checksum-SHA256", sum) ∈ headers resp.

Definition told (inst : option string) (t : patch_thread) : Prop :=
  match t with
  | Replied resp => success resp →
      ∃ data, inst = Some data ∧ get_first (headers resp) "X-Checksum-SHA256" = sha256_hex data
  | _ => True
  end.

Definition upload_inv fs (ts : list patch_thread) : Prop :=
  ∃ inst, (∀ t, t ∈ ts → told inst t) ∧ ((inst = None ∧ ∃ data, uploading fs data) ∨ over fs inst).

Lemma told_error inst code msg hs : code ≠ 204 → told inst (Replied (add_headers hs (write_error code msg))).
Proof. by intros Hc [Hs _]. Qed.

Lemma told_offset_only inst n : told inst (Replied (add_headers [("Upload-Offset", format_int n)] (write_status 204))).
Proof. intros [_ [sum [=]%list_elem_of_singleton]]. Qed.

Lemma statusFor_not e : statusFor e ≠ 204.
Proof. unfold statusFor. by destruct (errors_is _ _). Qed.

Lemma told_none inst t : told None t → told inst t.
Proof. destruct t as [| |resp]; simpl; try done. intros Ht Hs. by destruct (Ht Hs) as (? & [=] & _). Qed.

Lemma uploading_appended fs data more :
  uploading fs data → uploading (appended fs D st data more) (data +:+ more).
Proof.
  intros [Hip HD Hk]. split.
  - by apply in_progress_appended.
  - eapply destination_same; [symmetry; by eapply appended_same|done].
  - intros k Hne. rewrite <- Hk by done. by apply extended_ne.
Qed.

(** A write, in progress: what it leaves and what it answers. *)
Lemma write_uploading fs data r t' fs' :
  uploading fs data → patch_write a (UpID st) fs r = (t', fs') →
  told None t' ∧ ∃ data', uploading fs' data'.
Proof.
  intros HU. unfold patch_write. destruct (_ && _).
  { intros [= <- <-]. split; [by apply (told_error None 415 _ [])|by exists data]. }
  destruct (ParseOffset _) as [offset|].
  2: { intros [= <- <-]. split; [by apply (told_error None 400 _ [])|by exists data]. }
  rewrite (WriteChunk_ip fs a D st data) by apply HU. destruct (slen data =? offset); simpl.
  2: { intros [= <- <-]. split; [by apply told_error|by exists data]. }
  pose proof (uploading_appended fs data (content (Body r)) HU) as HU'.
  destruct (read_error (Body r)) as [e|].
  { case_match; intros [= <- <-]; (split; [|by eexists]);
      [by apply told_error|apply (told_error None _ _ []), statusFor_not]. }
  destruct (Length st <? _).
  { intros [= <- <-]. split; [by apply (told_error None 500 _ [])|by eexists]. }
  destruct (_ =? Length st); intros [= <- <-]; (split; [|by eexists]); [done|apply told_offset_only].
Qed.

Lemma discarded_over fs data :
  uploading fs data → over (discard fs a (UpID st)) None.
Proof.
  intros [Hip HD Hk]. rewrite (discard_ip fs a D st data) by done.
  pose proof (dest_part _ _ _ _ _ _ HD) as HTP. pose proof (dest_json _ _ _ _ _ _ HD) as HTJ.
  pose proof (part_json_ne D (UpID st)) as HPJ. destruct Hip as [HS Hid _ [t Hp] [t' Hj]]. split.
  - split; [|done| |]; simpl.
    + set (fs1 := with_nodes fs (delete (part_loc D (UpID st)) (nodes fs))).
      assert (site fs1 a D) as HS1 by (apply site_delete; [done|by eapply not_dir_file]).
      assert (nodes fs1 !! json_loc D (UpID st) = Some (File (json_Marshal st) t')) as Hj1
        by (unfold fs1; simpl; by rewrite lookup_delete_ne).
      exact (site_delete fs1 a D _ HS1 (not_dir_file _ _ _ _ Hj1)).
    + by rewrite lookup_delete_ne, lookup_delete_eq by done.
    + apply lookup_delete_eq.
  - simpl. unfold T. rewrite !lookup_delete_ne by done. by apply Hk.
  - intros k _ HkP HkJ. left. simpl. rewrite !lookup_delete_ne by done. by apply Hk.
Qed.

Lemma finished_over fs fs' data :
  uploading fs data → hash_matches st data = true → installed fs fs' a D st B c data → over fs' (Some data).
Proof.
  intros [Hip HD Hk] Hm Hi. split; [by eapply installed_gone; [apply Hip|]|by split; [apply Hi|]|].
  intros k HkT HkP HkJ. destruct (inst_rest _ _ _ _ _ _ _ _ Hi k) as [->|(? & ? & ?)]; [done..|left; by apply Hk|right].
  split_and!; [done|by rewrite <- Hk|done].
Qed.

Lemma finish_uploading fs data n resp fs' :
  uploading fs data → patch_finish a (UpID st) fs n = (resp, fs') →
  ∃ inst, told inst (Replied resp) ∧ over fs' inst.
Proof.
  intros HU. unfold patch_finish. destruct (hash_matches st data) eqn:Hm.
  - destruct (Finish_ip fs a D st data B c (up_progress _ _ HU) (up_destination _ _ HU) Hm) as (fs1 & -> & Hi).
    intros [= <- <-]. exists (Some data). split; [|by eapply finished_over].
    intros _. by exists data.
  - rewrite (Finish_unfold fs a D st data), Hm by apply HU. simpl. intros [= <- <-].
    exists None. split; [by apply told_error|by eapply discarded_over].
Qed.

Lemma write_over fs inst r t' fs' :
  over fs inst → patch_write a (UpID st) fs r = (t', fs') → told inst t' ∧ fs' = fs.
Proof.
  intros HO. unfold patch_write. destruct (_ && _).
  { intros [= <- <-]. split; [by apply (told_error inst 415 _ [])|done]. }
  destruct (ParseOffset _) as [offset|].
  2: { intros [= <- <-]. split; [by apply (told_error inst 400 _ [])|done]. }
  destruct (gone_quiet fs a D (UpID st) (ov_gone _ _ HO)) as [HW _].
  destruct (HW offset (Body r)) as (e & -> & He). rewrite He. intros [= <- <-].
  split; [apply (told_error inst _ _ []), statusFor_not|done].
Qed.

Lemma finish_over fs inst n resp fs' :
  over fs inst → patch_finish a (UpID st) fs n = (resp, fs') → told inst (Replied resp) ∧ fs' = fs.
Proof.
  intros HO. unfold patch_finish. destruct (gone_quiet fs a D (UpID st) (ov_gone _ _ HO)) as (_ & [e ->] & _).
  destruct (errors_is e ErrChecksumMismatch); intros [= <- <-]; (split; [|done]);
    apply told_error; [done|apply statusFor_not].
Qed.

Lemma upload_inv_turn fs ts k t t' fs' :
  upload_inv fs ts → ts !! k = Some t → patch_turn a (UpID st) fs t () = Some (t', fs') →
  upload_inv fs' (<[k := t']> ts).
Proof.
  intros (inst & Ht & HP) Hk.
  assert (∀ inst', (∀ t0, told inst t0 → told inst' t0) → told inst' t' → ∀ t0, t0 ∈ <[k := t']> ts → told inst' t0) as Hup.
  { intros inst' Hi Ht' t0 [->|Hin]%elem_of_update; [done|by apply Hi, Ht]. }
  destruct t as [r|n|resp]; simpl; [| |done].
  - intros [= Hw]. destruct HP as [[-> [data HU]]|HO].
    + destruct (write_uploading _ _ _ _ _ HU Hw) as [Ht' HU'].
      exists None. split; [by apply Hup|by left].
    + destruct (write_over _ _ _ _ _ HO Hw) as [Ht' ->]. exists inst. split; [by apply Hup|by right].
  - destruct (patch_finish a (UpID st) fs n) as [resp fs1] eqn:Hf. intros [= <- <-].
    destruct HP as [[-> [data HU]]|HO].
    + destruct (finish_uploading _ _ _ _ _ HU Hf) as (inst & Ht' & HO).
      exists inst. split; [by apply Hup; [intros; apply told_none|]|by right].
    + destruct (finish_over _ _ _ _ _ HO Hf) as [Ht' ->]. exists inst. split; [by apply Hup|by right].
Qed.

Lemma upload_inv_run data ls cf :
  in_progress fs0 a D st data → destination fs0 a D st B c → conc_run (Conf fs0 []) ls cf →
  upload_inv (cf_state cf) (cf_threads cf).
Proof.
  intros Hip HD. apply (conc_run_invariant upload_inv); simpl.
  - intros fs ts t (inst & Ht & HP) Ha. exists inst. split; [|done].
    intros t0 [Hin| ->%list_elem_of_singleton]%elem_of_app; [by apply Ht|by destruct t].
  - intros fs ts k t [] t' fs'. apply upload_inv_turn.
  - intros fs ts [|] fs' (inst & Ht & HP) [= <-]; [|by exists inst].
    destruct HP as [[-> [data' HU]]|HO].
    + exists None. split; [done|]. right. by eapply discarded_over.
    + exists inst. split; [done|]. right.
      by rewrite (proj2 (proj2 (gone_quiet fs a D (UpID st) (ov_gone _ _ HO)))).
  - exists None. split; [by intros t ?%elem_of_nil|]. left. split; [done|]. by exists data.
Qed.

(** C14: However PATCH, HEAD and DELETE requests of one upload interleave at the Uploader's
    mutex, nothing changes but the target, the upload's two files and missing directories above
    the target, which are made; the target is untouched or one file whose hash is the declared
    one (if one was declared), and whoever is answered 204 with a checksum was told the checksum
    of the file that is there. (No call of the file system fails; what exists above the target
    is directories, the target is no directory and across devices no link.) *)
Theorem racing_requests_install_declared_data data ls cf :
  in_progress fs0 a D st data → destination fs0 a D st B c → conc_run (Conf fs0 []) ls cf →
  let fs := cf_state cf in
  (∀ k, k ≠ B ++ [c] → k ≠ part_loc D (UpID st) → k ≠ json_loc D (UpID st) →
     nodes fs !! k = nodes fs0 !! k ∨ made_dir (nodes fs0) (nodes fs) B k) ∧
  (nodes fs !! (B ++ [c]) = nodes fs0 !! (B ++ [c]) ∨
   ∃ d t, nodes fs !! (B ++ [c]) = Some (File d t) ∧ hash_matches st d = true) ∧
  ∀ resp, Replied resp ∈ cf_threads cf → success resp →
    ∃ d t, nodes fs !! (B ++ [c]) = Some (File d t) ∧ hash_matches st d = true ∧
      get_first (headers resp) "X-Checksum-SHA256" = sha256_hex d.
Proof.
  intros Hip HD Hr. destruct (upload_inv_run data ls cf Hip HD Hr) as (inst & Ht & HP).
  destruct HP as [[-> [d HU]]|[_ HT Hk]].
  - pose proof (dest_part _ _ _ _ _ _ HD) as HTP. split_and!.
    + intros k _ HkP _. left. by apply (up_rest _ _ HU).
    + left. by apply (up_rest _ _ HU).
    + intros resp Hin Hs. by destruct (Ht _ Hin Hs) as (? & [=] & _).
  - destruct inst as [d|]; simpl in HT; (split_and!; [done| |]).
    + destruct HT as [[t Hn] Hm]. right. by exists d, t.
    + intros resp Hin Hs. destruct (Ht _ Hin Hs) as (d' & [= <-] & Hsum).
      destruct HT as [[t Hn] Hm]. by exists d, t.
    + by left.
    + intros resp Hin Hs. by destruct (Ht _ Hin Hs) as (? & [=] & _).
Qed.

(** ** A PATCH between the last byte and Finish *)

Definition patch_at (off : Z) (body : string) : request :=
  upload_request MethodPatch (UpID st) [("Upload-Offset", format_int off)] (Stream body None).

Lemma patch_at_end fs data body :
  in_progress fs a D st data → slen data ≤ max_int64 →
  let n := wrap64 (slen data + slen body) in
  patch_write a (UpID st) fs (patch_at (slen data) body) =
  (if Length st <? n then Replied (writeErr (EMsg ("upload " +:+ UpID st +:+ " exceeded its declared length")))
   else if n =? Length st then Whole n
   else Replied (add_headers [("Upload-Offset", format_int n)] (write_status 204)),
   appended fs D st data body).
Proof.
  intros Hip Hmax n. unfold patch_write, patch_at. cbn -[WriteChunk format_int ParseOffset].
  rewrite ParseOffset_format by (unfold slen in *; lia). rewrite (WriteChunk_ip fs a D st data) by done.
  rewrite Z.eqb_refl. cbn -[format_int]. fold n.
  destruct (Length st <? n); [done|]. by destruct (n =? Length st).
Qed.

(** C40: When no hash was declared, a PATCH that comes between another's last byte and its
    Finish is answered 500 but its bytes stay: Finish installs a file longer than declared and
    its client is told 204. *)
Theorem late_patch_lengthens_the_file data rest more :
  in_progress fs0 a D st data → destination fs0 a D st B c → Expected st = "" →
  slen data + slen rest = Length st → more ≠ "" → Length st + slen more ≤ max_int64 →
  ∃ ls cf resp1 resp2, conc_run (Conf fs0 []) ls cf ∧
    cf_threads cf = [Replied resp1; Replied resp2] ∧ success resp1 ∧ status resp2 = 500 ∧
    ∃ t, nodes (cf_state cf) !! (B ++ [c]) = Some (File (data +:+ rest +:+ more) t) ∧
      Length st < slen (data +:+ rest +:+ more).
Proof.
  intros Hip HD Hexp Hlen Hmore Hmax. pose proof (ip_ok _ _ _ _ _ Hip) as (_ & _ & _ & Hmin).
  assert (0 < slen more) as Hpos by (destruct more; [done|unfold slen; simpl; lia]).
  assert (0 ≤ slen data ∧ 0 ≤ slen rest) as [Hd0 Hr0] by (unfold slen; lia).
  set (r1 := patch_at (slen data) rest). set (r2 := patch_at (Length st) more).
  pose proof (patch_at_end fs0 data rest Hip ltac:(lia)) as HW1. cbv zeta in HW1.
  rewrite Hlen, wrap64_id, Z.ltb_irrefl, Z.eqb_refl in HW1 by (unfold min_int64 in *; lia).
  set (fs1 := appended fs0 D st data rest) in HW1.
  pose proof (in_progress_appended fs0 a D st data rest Hip) as Hip1. fold fs1 in Hip1.
  pose proof (patch_at_end fs1 (data +:+ rest) more Hip1) as HW2. cbv zeta in HW2.
  rewrite slen_app, Hlen, wrap64_id in HW2 by (unfold min_int64 in *; lia).
  rewrite (proj2 (Z.ltb_lt _ _)) in HW2 by lia. specialize (HW2 ltac:(lia)).
  set (resp2 := writeErr _) in HW2.
  assert (uploading fs0 data) as HU by (split; [done|done|by intros]).
  pose proof (uploading_appended _ _ more (uploading_appended _ _ rest HU)) as HU2. fold fs1 in HU2.
  set (fs2 := appended fs1 D st (data +:+ rest) more) in *.
  assert (hash_matches st ((data +:+ rest) +:+ more) = true) as Hm by (unfold hash_matches; by rewrite Hexp).
  destruct (Finish_ip fs2 a D st _ B c (up_progress _ _ HU2) (up_destination _ _ HU2) Hm) as (fs3 & HF & Hi).
  assert (∃ resp1, patch_finish a (UpID st) fs2 (Length st) = (resp1, fs3) ∧ success resp1) as (resp1 & HP & Hsucc).
  { unfold patch_finish. rewrite HF. eexists. split; [done|]. split; [done|]. eexists.
    apply elem_of_cons. right. apply elem_of_cons. by left. }
  exists [], (Conf fs3 [Replied resp1; Replied resp2]), resp1, resp2. split_and!; [|done|done|done|].
  - apply (do_moves_run (Conf fs0 []) [] (Conf fs0 [])
      [Arrive (Patching r1); Arrive (Patching r2); Turn 0 (); Turn 1 (); Turn 0 ()]); [constructor|].
    cbn -[patch_write patch_finish]. unfold r1, r2. rewrite HW1. cbn -[patch_write patch_finish].
    rewrite HW2. cbn -[patch_write patch_finish]. by rewrite HP.
  - destruct (inst_target _ _ _ _ _ _ _ _ Hi) as [t Ht]. exists t. rewrite <- app_str_assoc. split; [done|].
    rewrite !slen_app. lia.
Qed.
End invariant.

(** ** Concrete races *)

Section examples.
#[local] Existing Instances ascii_only b64_codec.
#[local] Instance demo_uploads : Threads _ _ _ _ := upload_threads uploader "0a".

Definition patch_hello (off : Z) (body : string) : patch_thread :=
  Patching (upload_request MethodPatch "0a" [("Upload-Offset", format_int off)] (Stream body None)).

(** The whole file twice at once, an empty PATCH at the end, and then all that
    saw the last byte run Finish; a DELETE comes too late. *)
Definition hello_race : list (move patch_thread unit upload_call) :=
  [Arrive (patch_hello 0 "hello world"); Arrive (patch_hello 0 "hello world"); Arrive (patch_hello 11 "");
   Turn 0 (); Turn 1 (); Other UHead; Turn 2 (); Turn 2 (); Turn 0 (); Other UDelete].

Definition hello_conf : conf FS patch_thread := Conf (created false "docs/hello.txt") [].

Definition raced : conf FS patch_thread :=
  match do_moves [] hello_conf hello_race with Some (_, cf) => cf | None => hello_conf end.

Definition raced_labels : list (label FS upload_call) :=
  match do_moves [] hello_conf hello_race with Some (ls, _) => ls | None => [] end.

Lemma raced_reached : conc_run hello_conf raced_labels raced.
Proof.
  assert (match do_moves [] hello_conf hello_race with Some _ => true | None => false end = true) as Hs by by vm_compute.
  unfold raced, raced_labels. destruct (do_moves [] hello_conf hello_race) as [[ls cf]|] eqn:E; [|done].
  by apply (do_moves_run hello_conf [] hello_conf hello_race); [constructor|].
Qed.

Definition reply (cf : conf FS patch_thread) (k : nat) : response :=
  match cf_threads cf !! k with Some (Replied resp) => resp | _ => write_status 0 end.

Lemma racing_requests_install_declared_data_witness :
  status (reply raced 2) = 204 ∧ status (reply raced 1) = 409 ∧ status (reply raced 0) = 500 ∧
  ∃ d t, nodes (cf_state raced) !! ["srv"; "exchange"; "docs"; "hello.txt"] = Some (File d t) ∧
    hash_matches (hello_state "docs/hello.txt") d = true.
Proof.
  split_and!; [by vm_compute..|].
  destruct (racing_requests_install_declared_data uploader ["var"; "up"] (hello_state "docs/hello.txt")
    ["srv"; "exchange"; "docs"] "hello.txt" (created false "docs/hello.txt") "" raced_labels raced
    created_in_progress created_destination raced_reached) as (_ & _ & Hs).
  destruct (Hs (reply raced 2)) as (d & t & Hn & Hm & _).
  - apply list_elem_of_lookup. exists 2%nat. by vm_compute.
  - split; [by vm_compute|]. exists hello_hash. apply list_elem_of_lookup. exists 1%nat. by vm_compute.
  - exists d, t. split; [exact Hn|exact Hm].
Defined.

(** An upload without a declared hash. *)
Definition loose : uploadState := MkUpload "0a" "docs/hello.txt" 11 "".
Definition loose_fs : FS := (Create (upload_fs false) uploader "0a" "docs/hello.txt" 11 "").2.

Lemma loose_in_progress : in_progress loose_fs uploader ["var"; "up"] loose "".
Proof.
  destruct (Create_ip (upload_fs false) uploader ["var"; "up"] loose
    "/srv/exchange/docs/hello.txt" (upload_site false)) with (hash := "")
    as (fs1 & HC & Hip & _); [by vm_compute|by split_and!; vm_compute|done|
      by vm_compute|by vm_compute|by vm_compute|by vm_compute|].
  assert (loose_fs = fs1) as ->; [|done]. exact (f_equal snd HC).
Qed.

Lemma loose_destination :
  destination loose_fs uploader ["var"; "up"] loose ["srv"; "exchange"; "docs"] "hello.txt".
Proof.
  assert (real_dir (nodes loose_fs) []) as Hr by (apply (real_root _ 4096 0); by vm_compute).
  split; [by vm_compute|apply make_real|by_decide|by vm_compute| |done|done|left; by vm_compute].
  - apply (real_child _ ["srv"; "exchange"] "docs" 4096 (4 * Second)); [|by_decide|by vm_compute].
    apply (real_child _ ["srv"] "exchange" 4096 0); [|by_decide|by vm_compute].
    apply (real_child _ [] "srv" 4096 0); [done|by_decide|by vm_compute].
  - apply not_dir_None. by vm_compute.
Qed.

Lemma late_patch_lengthens_the_file_witness :
  ∃ ls cf t, conc_run (Conf loose_fs []) ls cf ∧
    nodes (cf_state cf) !! ["srv"; "exchange"; "docs"; "hello.txt"] = Some (File "hello world!" t).
Proof.
  destruct (late_patch_lengthens_the_file uploader ["var"; "up"] loose ["srv"; "exchange"; "docs"] "hello.txt"
    loose_fs "" "hello world" "!") as (ls & cf & _ & _ & Hr & _ & _ & _ & t & Hn & _);
    [apply loose_in_progress|apply loose_destination|done..|].
  exists ls, cf, t. split; [exact Hr|exact Hn].
Defined.
End examples.
