(* ===== verification/FileRace.v ===== *)
(** * Downloads and deletions that overlap with changes of the files

    A download or a deletion resolves its path first and then uses the result in
    one system call after the other, with no lock around them. Here such a
    request is a thread with a section for each of these calls; between them the
    other requests take their turns, and anyone may put another file system in
    place of the one that is there ([Changing]). HashFile, and opening a file
    and copying it to the client, are one section each. Every call on a path
    returns, with its result, the location its path leads to ([at_path]); a
    turn returns the calls it made. *)

From S2P Require Import Prelude GoStr Path Fs Sha256 Http FileStore Upload FilesHttp Threads.
From Stdlib Require Import Ascii.

Inductive file_thread :=
  | Downloading (r : request)
  | DResolved (p abs : string)
  | DStatted (p abs : string) (size : Z)
  | DHashed (p abs : string) (size : Z) (sum : string)
  | Deleting (r : request)
  | RResolved (p abs : string)
  | RStatted (p abs : string)
  | Answered (resp : response).

(** The calls of a turn: a path is resolved, or a system call reaches a
    location. *)
Inductive file_call :=
  | Resolving
  | Reaching (l : loc).

Inductive file_event :=
  | Calling (cs : list file_call)
  | Changing (fs : FS).

(** A value with the calls that were made for it. *)
Definition traced (A : Type) : Type := list file_call * A.

#[export] Instance traced_ret : MRet traced := λ A x, ([], x).
#[export] Instance traced_bind : MBind traced := λ A B f m, (m.1 ++ (f m.2).1, (f m.2).2).

Definition resolving {A} (x : A) : traced A := ([Resolving], x).

(** A call on a path, and where the path leads; [follow] says whether the call
    follows a link at the end. *)
Definition at_path {A} (follow : bool) (call : FS → string → A) (fs : FS) (path : string) : traced A :=
  (match resolve_path fs path follow with Found l => [Reaching l] | _ => [] end, call fs path).

Section file_race.
Context `{Unicode} `{StateCodec} `{Quote}.
Variable (a : Uploader).
Implicit Types (fs : FS) (t : file_thread).

Definition download_turn fs t : option (traced file_thread) :=
  match t with
  | Downloading r =>
     if negb (String.eqb (Method r) MethodGet)
     then Some (mret (Answered (write_error 405 "method not allowed"))) else
     let p := query_get r "path" in
     if String.eqb p "" then Some (mret (Answered (write_error 400 "path is required"))) else
     Some (resolved ← resolving (Resolve fs (up_roots a) p);
       mret match resolved with
       | Err e => Answered (writeErr e)
       | Ok abs => DResolved p abs
       end)
  | DResolved p abs =>
     Some (info ← at_path true Stat fs abs;
       mret match info with
       | Err e => Answered (writeErr (EWrap ("stat " +:+ p +:+ ": ") e ""))
       | Ok info =>
          if is_dir info then Answered (writeErr (EMsg (p +:+ " is a directory")))
          else DStatted p abs (node_size info)
       end)
  | DStatted p abs size =>
     Some (sum ← at_path true HashFile fs abs;
       mret match sum with
       | Err e => Answered (writeErr e)
       | Ok sum => DHashed p abs size sum
       end)
  | DHashed p abs size sum =>
     Some (file ← at_path true os_Open fs abs;
       mret match file with
       | Err e => Answered (writeErr (EWrap ("open " +:+ p +:+ ": ") e ""))
       | Ok l =>
          Answered (Response 200
            [("X-Checksum-SHA256", sum); ("Content-Length", format_int size);
             ("Content-Type", "application/octet-stream");
             ("Content-Disposition", "attachment; filename=" +:+ go_quote (Base p))]
            (Raw (match nodes fs !! l with Some (File d _) => d | _ => "" end)))
       end)
  | _ => None
  end.

Definition delete_turn fs t : option (traced (file_thread * FS)) :=
  match t with
  | Deleting r =>
     let p := if String.eqb (query_get r "path") "" then "." else query_get r "path" in
     Some (resolved ← resolving (Resolve fs (up_roots a) p);
       mret match resolved with
       | Err e => (Answered (writeErr e), fs)
       | Ok abs => (RResolved p abs, fs)
       end)
  | RResolved p abs =>
     Some (info ← at_path true Stat fs abs;
       mret match info with
       | Err e => (Answered (writeErr (EWrap ("stat " +:+ p +:+ ": ") e "")), fs)
       | Ok info =>
          if is_dir info then (Answered (writeErr (EMsg "refusing to delete a directory")), fs)
          else (RStatted p abs, fs)
       end)
  | RStatted p abs =>
     Some (removed ← at_path false Remove fs abs;
       mret match removed with
       | (Some e, fs') => (Answered (writeErr (EWrap ("delete " +:+ p +:+ ": ") e "")), fs')
       | (None, fs') => (Answered (write_status 204), fs')
       end)
  | _ => None
  end.

Definition file_turn fs t : option (traced (file_thread * FS)) :=
  match download_turn fs t with
  | Some m => Some (t' ← m; mret (t', fs))
  | None => delete_turn fs t
  end.

#[export] Instance file_threads : Threads FS file_thread unit file_event := {
  arriving t := match t with
                | Downloading _ => true
                | Deleting r => String.eqb (Method r) MethodDelete
                | _ => false
                end;
  finished t := match t with Answered _ => true | _ => false end;
  thread_step fs t _ := snd <$> file_turn fs t;
  section_of fs t _ := Calling ∘ fst <$> file_turn fs t;
  other_step fs c := match c with Changing fs' => Some fs' | Calling _ => None end;
}.

(** ** A request nothing comes between *)

Lemma alone_turn n fs t :
  finished t = false →
  alone (S n) fs t () = '(t', fs') ← snd <$> file_turn fs t; alone n fs' t' ().
Proof. intros Hf. simpl in *. by rewrite Hf. Qed.

Lemma alone_answered n fs resp : alone n fs (Answered resp) () = Some (Answered resp, fs).
Proof. by destruct n. Qed.

Lemma alone_download fs r :
  alone 4 fs (Downloading r) () = Some (Answered (handleDownload fs a r), fs).
Proof.
  unfold handleDownload, Open. rewrite alone_turn by done. unfold file_turn. cbn [download_turn].
  destruct (negb _); [apply alone_answered|]. destruct (String.eqb _ ""); [apply alone_answered|].
  destruct (Resolve _ _ _) as [abs|e]; [|apply alone_answered].
  cbn -[alone Stat HashFile os_Open]. rewrite alone_turn by done. unfold file_turn. cbn -[alone Stat HashFile os_Open].
  destruct (Stat fs abs) as [info|e]; [|apply alone_answered]. destruct (is_dir info); [apply alone_answered|].
  cbn -[alone HashFile os_Open]. rewrite alone_turn by done. unfold file_turn. cbn -[alone HashFile os_Open].
  destruct (HashFile fs abs) as [sum|e]; [|apply alone_answered].
  cbn -[alone os_Open]. rewrite alone_turn by done. unfold file_turn. cbn -[alone os_Open].
  destruct (os_Open fs abs); apply alone_answered.
Qed.

Lemma alone_delete fs r :
  Method r = MethodDelete →
  alone 3 fs (Deleting r) () = Some (prod_map Answered (λ fs', fs') (handleFiles fs a r)).
Proof.
  intros HM. unfold handleFiles, Delete. rewrite HM, alone_turn by done. unfold file_turn.
  cbn -[alone Stat Remove Resolve query_get String.eqb].
  change (String.eqb MethodDelete MethodGet) with false.
  change (String.eqb MethodDelete MethodDelete) with true. cbv iota.
  set (p := if String.eqb (query_get r "path") "" then "." else _).
  destruct (Resolve _ _ _) as [abs|e]; [|apply alone_answered].
  rewrite alone_turn by done. unfold file_turn. cbn -[alone Stat Remove].
  destruct (Stat fs abs) as [info|e]; [|apply alone_answered]. destruct (is_dir info); [apply alone_answered|].
  rewrite alone_turn by done. unfold file_turn. cbn -[alone Remove].
  destruct (Remove fs abs) as [[e|] fs']; apply alone_answered.
Qed.

(** ** What a call sees or changes is where its path leads *)

Lemma at_path_Open fs path l :
  os_Open fs path = Ok l → Reaching l ∈ (at_path true os_Open fs path).1.
Proof.
  unfold os_Open, sys, reach, at_path. destruct (fault _ _ _); [done|].
  destruct (resolve_path fs path true) as [l'| |]; [|done..]. destruct (nodes fs !! l'); [|done].
  intros [= <-]. by left.
Qed.

Lemma at_path_Stat fs path n :
  Stat fs path = Ok n → ∃ l, Reaching l ∈ (at_path true Stat fs path).1 ∧ nodes fs !! l = Some n.
Proof.
  unfold Stat, sys, reach, at_path. destruct (fault _ _ _); [done|].
  destruct (resolve_path fs path true) as [l| |]; [|done..]. destruct (nodes fs !! l) eqn:E; [|done].
  intros [= <-]. exists l. by split; [left|].
Qed.

Lemma at_path_Hash fs path sum :
  HashFile fs path = Ok sum →
  ∃ l d u, Reaching l ∈ (at_path true HashFile fs path).1 ∧ nodes fs !! l = Some (File d u) ∧ sum = sha256_hex d.
Proof.
  unfold HashFile. destruct (os_Open fs path) as [l|] eqn:HO; [|done].
  apply at_path_Open in HO. unfold read_all, sys. destruct (fault _ _ _); [done|].
  destruct (nodes fs !! l) as [[d u| |]|] eqn:E; try done. intros [= <-]. by exists l, d, u.
Qed.

Lemma at_path_Remove fs path k :
  Reaching k ∉ (at_path false Remove fs path).1 → nodes (Remove fs path).2 !! k = nodes fs !! k.
Proof.
  unfold Remove, sys, reach, at_path. destruct (fault _ _ _); [done|]. simpl.
  destruct (resolve_path fs path false) as [l| |]; [|done..]. destruct (nodes fs !! l); [|done]. simpl.
  intros Hk. destruct (is_dir n && _); [done|]. simpl. rewrite lookup_delete_ne; [done|]. intros ->. destruct Hk. by left.
Qed.

(** ** The roots hold, whatever happens in between *)

(** A resolved path: it leads, now and later, to one place under the roots or
    to none. *)
Definition settled fs (abs : string) : Prop :=
  ∃ l, abs = render l ∧ Forall plain l ∧ Forall (char_free "000") l ∧ under (up_roots a) l ∧
    unlinked (nodes fs) l.

Definition thread_settled fs t : Prop :=
  match t with
  | DResolved _ abs | DStatted _ abs _ | DHashed _ abs _ _ | RResolved _ abs | RStatted _ abs => settled fs abs
  | _ => True
  end.

(** What is asked of the others: when a path is resolved no link dangles, and a
    change makes no link and leaves a file system. *)
Definition calm (s : label FS file_event) : Prop :=
  match s.2 with
  | Calling cs => Resolving ∈ cs → no_dangling (nodes s.1)
  | Changing fs' => fs_wf fs' ∧ in_directories (nodes fs') ∧ no_new_links (nodes s.1) (nodes fs')
  end.

Definition call_inside (c : file_call) : Prop :=
  match c with Reaching l => under (up_roots a) l | Resolving => True end.

(** A request makes the call [c] on [fs]. *)
Definition calls_made (ls : list (label FS file_event)) fs (c : file_call) : Prop :=
  ∃ cs, (fs, Calling cs) ∈ ls ∧ c ∈ cs.

(** Nobody else changes what is at [k]. *)
Definition left_alone (ls : list (label FS file_event)) (k : loc) : Prop :=
  ∀ fs fs', (fs, Changing fs') ∈ ls → nodes fs' !! k = nodes fs !! k.

(** The body is the content of the file where a call led, if a file was there. *)
Definition sends_file fs (c : file_call → Prop) (resp : response) : Prop :=
  payload_of resp = Raw "" ∨
  ∃ l d u, c (Reaching l) ∧ nodes fs !! l = Some (File d u) ∧ payload_of resp = Raw d.

Lemma settled_later fs fs' abs : no_new_links (nodes fs) (nodes fs') → settled fs abs → settled fs' abs.
Proof. intros Hn (l & Hp & Hl & Hc & Hu & Hul). exists l. split_and!; try done. by eapply unlinked_later. Qed.

Lemma threads_later fs fs' ts :
  no_new_links (nodes fs) (nodes fs') → Forall (thread_settled fs) ts → Forall (thread_settled fs') ts.
Proof.
  intros Hn HF. eapply Forall_impl; [exact HF|]. intros t. unfold thread_settled.
  destruct t; try done; by apply settled_later.
Qed.

(** Where a settled path leads. *)
Lemma settled_found fs abs follow x :
  fs_wf fs → settled fs abs → resolve_path fs abs follow = Found x → abs = render x ∧ under (up_roots a) x.
Proof.
  intros Hwf (l & -> & Hl & Hc & Hu & Hul) Hx. by apply resolve_unlinked in Hx as ->.
Qed.

Lemma Resolve_settled fs rel abs :
  fs_wf fs → in_directories (nodes fs) → no_dangling (nodes fs) → roots_ok (up_roots a) →
  Resolve fs (up_roots a) rel = Ok abs → settled fs abs.
Proof. intros. by eapply Resolve_unlinked. Qed.

(** The calls on a settled path. *)
Lemma at_path_settled {A} fs follow (call : FS → string → A) abs :
  fs_wf fs → settled fs abs → Forall call_inside (at_path follow call fs abs).1.
Proof.
  intros Hwf Hs. unfold at_path. simpl. destruct (resolve_path fs abs follow) as [x| |] eqn:Hx; [|constructor..].
  constructor; [|constructor]. by destruct (settled_found _ _ _ _ Hwf Hs Hx).
Qed.

(** A turn with the calls [cs]: it makes them under the roots, goes on with a
    settled path, and sends what is there. *)
Record good_turn fs (cs : list file_call) t' fs' : Prop := {
  gt_wf : fs_wf fs';
  gt_dirs : in_directories (nodes fs');
  gt_links : no_new_links (nodes fs) (nodes fs');
  gt_settled : thread_settled fs' t';
  gt_inside : Forall call_inside cs;
  gt_sent resp : t' = Answered resp → status resp = 200 → sends_file fs (λ c, c ∈ cs) resp;
  gt_rest k : ¬ under (up_roots a) k → nodes fs' !! k = nodes fs !! k;
}.

(** What Remove of a settled path does to the file system. *)
Lemma Remove_settled fs abs e fs' :
  "/" ∉ up_roots a → fs_wf fs → in_directories (nodes fs) → settled fs abs → Remove fs abs = (e, fs') →
  fs_wf fs' ∧ in_directories (nodes fs') ∧ no_new_links (nodes fs) (nodes fs').
Proof.
  intros Hslash Hwf Hd Hs. unfold Remove, sys, reach.
  destruct (fault fs SRemove abs); [by intros [= _ <-]|].
  destruct (resolve_path fs abs false) as [x| |] eqn:Hx; [|by intros [= _ <-]..].
  destruct (settled_found _ _ _ _ Hwf Hs Hx) as [-> (rl & Hrl & _ & Hcase)].
  destruct (nodes fs !! x) as [n|] eqn:Hn; [|by intros [= _ <-]].
  destruct (is_dir n && _) eqn:Hempty; intros [= _ <-]; [by split_and!|].
  assert (x ≠ []) as Hne.
  { intros ->. destruct Hcase as [<-|(Hne & c & l' & E)]; [done|]. by destruct rl. }
  destruct Hwf as (Hroot & Hnul & Hf). split_and!; [split_and!|..]; simpl.
  - destruct (real_dir_node _ _ Hroot) as (s & t & Hr). apply (real_root _ s t). by rewrite lookup_delete_ne.
  - by apply map_Forall_delete.
  - done.
  - intros l c Hc. assert (is_Some (nodes fs !! (l ++ [c]))) as Hc'.
    { destruct Hc as [n' Hn']. exists n'. by apply lookup_delete_Some in Hn' as [_ ?]. }
    destruct (Hd l c Hc') as (s & t & Hl). exists s, t. rewrite lookup_delete_ne; [done|]. intros ->.
    rewrite Hl in Hn. injection Hn as <-. simpl in Hempty. apply negb_false_iff, bool_decide_eq_true in Hempty.
    destruct Hc' as [n' Hn']. apply children_elem in Hn'. rewrite Hempty in Hn'. by apply not_elem_of_nil in Hn'.
  - intros l t u Hl. apply lookup_delete_Some in Hl as [_ Hl]. by exists u.
Qed.

Lemma refusal_good fs cs resp :
  fs_wf fs → in_directories (nodes fs) → Forall call_inside cs → status resp ≠ 200 →
  good_turn fs cs (Answered resp) fs.
Proof. intros Hwf Hd Hcs Hr. split; try done. intros resp' [= <-] Hr'. by destruct Hr. Qed.

Lemma onward_good fs cs t' :
  fs_wf fs → in_directories (nodes fs) → Forall call_inside cs → thread_settled fs t' →
  (∀ resp, t' ≠ Answered resp) → good_turn fs cs t' fs.
Proof. intros Hwf Hd Hcs Ht Hr. split; try done. intros resp E. by apply Hr in E. Qed.

Lemma writeErr_not e : status (writeErr e) ≠ 200.
Proof. unfold writeErr, statusFor. simpl. by destruct (errors_is _ _). Qed.

Lemma download_turn_good fs t cs t' :
  fs_wf fs → in_directories (nodes fs) → roots_ok (up_roots a) → thread_settled fs t →
  download_turn fs t = Some (cs, t') → calm (fs, Calling cs) → good_turn fs cs t' fs.
Proof.
  intros Hwf Hd Hroots Ht Hturn Hcalm.
  destruct t as [r|p abs|p abs size|p abs size sum| | | |]; simpl in Hturn; try done.
  - destruct (negb _); [injection Hturn as <- <-; by apply refusal_good|].
    destruct (String.eqb _ ""); [injection Hturn as <- <-; by apply refusal_good|].
    destruct (Resolve _ _ _) as [abs|e] eqn:HR; injection Hturn as <- <-;
      [apply onward_good|apply refusal_good]; try done; try (by repeat constructor); [|apply writeErr_not].
    apply (Resolve_settled fs (query_get r "path")); try done. apply Hcalm. by left.
  - pose proof (at_path_settled fs true Stat abs Hwf Ht) as Hcs. injection Hturn as <- <-. rewrite app_nil_r.
    destruct (Stat fs abs) as [info|e]; simpl; [destruct (is_dir info)|];
      [apply refusal_good|apply onward_good|apply refusal_good]; try done; apply writeErr_not.
  - pose proof (at_path_settled fs true HashFile abs Hwf Ht) as Hcs. injection Hturn as <- <-. rewrite app_nil_r.
    destruct (HashFile fs abs) as [sum|e]; simpl;
      [apply onward_good|apply refusal_good]; try done; apply writeErr_not.
  - pose proof (at_path_settled fs true os_Open abs Hwf Ht) as Hcs. injection Hturn as <- <-. rewrite app_nil_r.
    destruct (os_Open fs abs) as [l|e] eqn:HO; [|apply refusal_good; try done; apply writeErr_not].
    split; try done. intros resp [= <-] _. simpl.
    destruct (nodes fs !! l) as [[d u| |]|] eqn:Hn; [right|by left..].
    exists l, d, u. split_and!; [by apply at_path_Open|done|done].
Qed.

Lemma delete_turn_good fs t cs t' fs' :
  "/" ∉ up_roots a → fs_wf fs → in_directories (nodes fs) → roots_ok (up_roots a) → thread_settled fs t →
  delete_turn fs t = Some (cs, (t', fs')) → calm (fs, Calling cs) → good_turn fs cs t' fs'.
Proof.
  intros Hslash Hwf Hd Hroots Ht Hturn Hcalm. destruct t as [| | | |r|p abs|p abs|]; simpl in Hturn; try done.
  - injection Hturn as <- Hturn. destruct (Resolve _ _ _) as [abs|e] eqn:HR; injection Hturn as <- <-;
      [apply onward_good|apply refusal_good]; try done; try (by repeat constructor); [|apply writeErr_not].
    eapply Resolve_settled; [done..| |done|exact HR]. apply Hcalm. by left.
  - pose proof (at_path_settled fs true Stat abs Hwf Ht) as Hcs.
    injection Hturn as <- Hturn. rewrite app_nil_r.
    destruct (Stat fs abs) as [info|e]; [destruct (is_dir info)|]; injection Hturn as <- <-;
      [apply refusal_good|apply onward_good|apply refusal_good]; try done; apply writeErr_not.
  - pose proof (at_path_settled fs false Remove abs Hwf Ht) as Hcs. pose proof (at_path_Remove fs abs) as Hk.
    destruct (Remove fs abs) as [e fs1] eqn:HR.
    destruct (Remove_settled fs abs e fs1 Hslash Hwf Hd Ht HR) as (Hwf1 & Hd1 & Hn1). simpl in Hk.
    assert (good_turn fs (at_path false Remove fs abs).1
      (Answered (match e with Some e => writeErr (EWrap ("delete " +:+ p +:+ ": ") e "") | None => write_status 204 end)) fs1) as HG.
    { split; try done.
      - intros resp [= <-] H200. destruct e; [|done]. by apply writeErr_not in H200.
      - intros k Hu. apply Hk. intros Hin. by apply (proj1 (Forall_forall _ _) Hcs) in Hin. }
    injection Hturn as <- Hturn. rewrite app_nil_r. destruct e; injection Hturn as <- <-; exact HG.
Qed.

Lemma file_turn_good fs t cs t' fs' :
  "/" ∉ up_roots a → fs_wf fs → in_directories (nodes fs) → roots_ok (up_roots a) → thread_settled fs t →
  file_turn fs t = Some (cs, (t', fs')) → calm (fs, Calling cs) → good_turn fs cs t' fs'.
Proof.
  intros Hslash Hwf Hd Hroots Ht. unfold file_turn. destruct (download_turn fs t) as [[cs1 t1]|] eqn:HD.
  - intros [= <- <- <-]. rewrite app_nil_r. by eapply download_turn_good.
  - by apply delete_turn_good.
Qed.

(** *** All interleavings *)

(** What has held so far, from [fs0] on. *)
Record race_inv fs0 (ls : list (label FS file_event)) fs (ts : list file_thread) : Prop := {
  ri_wf : fs_wf fs;
  ri_dirs : in_directories (nodes fs);
  ri_threads : Forall (thread_settled fs) ts;
  ri_inside fs1 c : calls_made ls fs1 c → call_inside c;
  ri_sent resp : Answered resp ∈ ts → status resp = 200 → ∃ fs1, sends_file fs1 (calls_made ls fs1) resp;
  ri_rest k : ¬ under (up_roots a) k → left_alone ls k → nodes fs !! k = nodes fs0 !! k;
}.

Lemma calls_made_app ls ls' fs c : calls_made (ls ++ ls') fs c ↔ calls_made ls fs c ∨ calls_made ls' fs c.
Proof. unfold calls_made. setoid_rewrite elem_of_app. naive_solver. Qed.

Lemma calls_made_single fs cs fs1 c : calls_made [(fs, Calling cs)] fs1 c ↔ fs1 = fs ∧ c ∈ cs.
Proof. unfold calls_made. setoid_rewrite list_elem_of_singleton. naive_solver. Qed.

Lemma sends_file_mono fs (c c' : file_call → Prop) resp :
  (∀ x, c x → c' x) → sends_file fs c resp → sends_file fs c' resp.
Proof. intros Hc [Hp|(l & d & t & Hl & Hr)]; [by left|right]. exists l, d, t. split; [by apply Hc|done]. Qed.

Lemma left_alone_app ls ls' k : left_alone (ls ++ ls') k ↔ left_alone ls k ∧ left_alone ls' k.
Proof. unfold left_alone. setoid_rewrite elem_of_app. naive_solver. Qed.

Lemma race_turn fs0 ls fs ts k t cs t' fs' :
  race_inv fs0 ls fs ts → ts !! k = Some t → good_turn fs cs t' fs' →
  race_inv fs0 (ls ++ [(fs, Calling cs)]) fs' (<[k := t']> ts).
Proof.
  intros [Hwf Hd Hts Hin Hsent Hrest] Hk [Hwf' Hd' Hn Ht' Hcs Hs Hr]. split; try done.
  - apply Forall_insert; [by eapply threads_later|done].
  - intros fs1 c [Hc|[-> Hc]%calls_made_single]%calls_made_app; [by eapply Hin|].
    by apply (proj1 (Forall_forall _ _) Hcs).
  - intros resp [E|Hresp]%elem_of_update H200.
    + exists fs. eapply sends_file_mono; [|by apply Hs]. intros c Hc. apply calls_made_app. right.
      by apply calls_made_single.
    + destruct (Hsent resp Hresp H200) as [fs1 Hs1]. exists fs1. eapply sends_file_mono; [|exact Hs1].
      intros c Hc. apply calls_made_app. by left.
  - intros x Hx [Ha _]%left_alone_app. rewrite Hr by done. by apply Hrest.
Qed.

Lemma race_change fs0 ls fs ts fs' :
  race_inv fs0 ls fs ts → calm (fs, Changing fs') → race_inv fs0 (ls ++ [(fs, Changing fs')]) fs' ts.
Proof.
  intros [Hwf Hd Hts Hin Hsent Hrest] (Hwf' & Hd' & Hn). simpl in Hn.
  assert (∀ fs1 c, calls_made (ls ++ [(fs, Changing fs')]) fs1 c ↔ calls_made ls fs1 c) as Hc.
  { intros fs1 c. rewrite calls_made_app. split; [|by left]. intros [|(cs & [=]%list_elem_of_singleton & _)]; done. }
  split; try done.
  - by eapply threads_later.
  - intros fs1 c ?%Hc. by eapply Hin.
  - intros resp Hresp H200. destruct (Hsent resp Hresp H200) as [fs1 Hs1]. exists fs1.
    eapply sends_file_mono; [|exact Hs1]. intros c ?. by apply Hc.
  - intros x Hx [Ha Hb]%left_alone_app. rewrite (Hb fs fs') by (by left). by apply Hrest.
Qed.

Lemma file_race_run fs0 ls cf :
  roots_ok (up_roots a) → "/" ∉ up_roots a → fs_wf fs0 → in_directories (nodes fs0) →
  conc_run (Conf fs0 []) ls cf → Forall calm ls → race_inv fs0 ls (cf_state cf) (cf_threads cf).
Proof.
  intros Hroots Hslash Hwf0 Hd0. apply (conc_run_history (race_inv fs0) calm).
  - intros ls1 fs ts t [Hwf Hd Hts Hin Hsent Hrest] Ht. split; try done.
    + apply Forall_app_2; [done|]. repeat constructor. by destruct t.
    + intros resp [Hresp|E%list_elem_of_singleton]%elem_of_app; [by apply Hsent|]. by subst t.
  - intros ls1 fs ts k t [] t' fs' HI Hk Hst Hok. unfold label_of in *. simpl in *.
    destruct (file_turn fs t) as [[cs [t1 fs1]]|] eqn:HT; simpl in *; [|done]. injection Hst as -> ->.
    apply Forall_cons in Hok as [Hok _]. eapply race_turn; [done|done|].
    eapply file_turn_good; [done|apply HI|apply HI|done| |done|done].
    eapply Forall_lookup_1; [apply HI|done].
  - intros ls1 fs ts [cs|fs1] fs' HI Hst Hok; [done|]. injection Hst as ->. by apply race_change.
  - split; try done; [by intros fs1 c (cs & Hin%elem_of_nil & _)|by intros resp Hin%elem_of_nil].
Qed.

(** C27: However downloads, deletions and changes of the files by anyone else interleave,
    between one system call of a request and the next too: as long as nobody adds a symbolic
    link, none dangles when a path is resolved and / is no root, every call a request makes on
    its resolved path leads to a location under one of the roots, or nowhere; a download
    answered 200 carries the content of a file that such a call led to, or nothing; and what is
    outside the roots is as the others left it. *)
Theorem raced_files_stay_inside fs0 ls cf :
  roots_ok (up_roots a) → "/" ∉ up_roots a → fs_wf fs0 → in_directories (nodes fs0) →
  conc_run (Conf fs0 []) ls cf → Forall calm ls →
  (∀ fs l, calls_made ls fs (Reaching l) → under (up_roots a) l) ∧
  (∀ resp, Answered resp ∈ cf_threads cf → status resp = 200 → ∃ fs, sends_file fs (calls_made ls fs) resp) ∧
  ∀ k, ¬ under (up_roots a) k → left_alone ls k → nodes (cf_state cf) !! k = nodes fs0 !! k.
Proof.
  intros Hroots Hslash Hwf0 Hd0 Hrun Hcalm.
  destruct (file_race_run fs0 ls cf Hroots Hslash Hwf0 Hd0 Hrun Hcalm) as [_ _ _ Hin Hsent Hrest].
  split_and!; [|done|done]. intros fs l Hc. exact (Hin fs _ Hc).
Qed.
End file_race.

(** ** Concrete races *)

Section examples.
#[local] Existing Instances ascii_only b64_codec.
#[local] Instance verbatim_quote : Quote := λ s, s.

(** Decidable versions for concrete trees. *)
Definition housed (m : gmap loc node) : bool :=
  forallb (λ p, match p.1 with
                | [] => true
                | _ => match m !! parent p.1 with Some (Directory _ _) => true | _ => false end
                end) (map_to_list m).

Lemma housed_sound m : housed m = true → in_directories m.
Proof.
  intros Hh l c [n Hn]. apply elem_of_map_to_list in Hn. unfold housed in Hh. rewrite forallb_forall in Hh.
  apply list_elem_of_In, Hh in Hn. simpl in Hn. unfold parent in Hn. rewrite removelast_last in Hn.
  destruct (l ++ [c]) eqn:E; [by destruct l|]. destruct (m !! l) as [[]|]; eauto; done.
Qed.

Definition attached_links (m : gmap loc node) : bool :=
  forallb (λ p, match p.2 with
                | Symlink _ _ => match walk 255 m true [] p.1 with
                                 | Missing _ _ | Failed ErrNotExist => false
                                 | _ => true end
                | _ => true end) (map_to_list m).

Lemma attached_links_sound m : attached_links m = true → no_dangling m.
Proof.
  intros Hh l t u Hn Hnt. apply elem_of_map_to_list in Hn. unfold attached_links in Hh. rewrite forallb_forall in Hh.
  apply list_elem_of_In, Hh in Hn. simpl in Hn. destruct (walk _ _ _ _ _) as [| |e]; try done.
  simpl in Hnt. by subst.
Qed.

(** The sample tree without its dangling link, and with another a.txt. *)
Definition tidy_fs : FS := with_nodes sample_fs (delete ["srv"; "exchange"; "dangling"] sample_nodes).
Definition a_txt : loc := ["srv"; "exchange"; "a.txt"].
Definition swapped (n : node) : FS := with_nodes tidy_fs (<[a_txt := n]> (nodes tidy_fs)).

Lemma tidy_wf : fs_wf tidy_fs.
Proof. apply fs_wf_delete; [apply sample_wf|]. by intros s t [=]. Qed.

Lemma swapped_calm n :
  is_link n = false → fs_wf (swapped n) ∧ no_new_links (nodes tidy_fs) (nodes (swapped n)).
Proof.
  intros Hl. split.
  - apply fs_wf_insert; [apply tidy_wf|by intros s t [=]|by repeat constructor].
  - intros l t u Hlk. simpl in Hlk. apply lookup_insert_Some in Hlk as [[_ ->]|[_ Hlk]]; [done|by exists u].
Qed.

Definition race_uploader : Uploader := MkUploader sample_roots "/var/up".
#[local] Instance sample_race : Threads _ _ _ _ := file_threads race_uploader.

Definition get_a : request := download_request "a.txt".
Definition bye : FS := swapped (File "goodbye" (8 * Second)).

(** The file is replaced after it was hashed and before it is opened. *)
Definition replacement : list (move file_thread unit file_event) :=
  [Arrive (Downloading get_a); Turn 0 (); Turn 0 (); Turn 0 (); Other (Changing bye); Turn 0 ()].

Definition replacement_sections : list (label FS file_event) :=
  [(tidy_fs, Calling [Resolving]); (tidy_fs, Calling [Reaching a_txt]); (tidy_fs, Calling [Reaching a_txt]);
   (tidy_fs, Changing bye); (bye, Calling [Reaching a_txt])].

Lemma replaced_between_hash_and_open :
  ∃ resp, do_moves [] (Conf tidy_fs []) replacement = Some (replacement_sections, Conf bye [Answered resp]) ∧
    status resp = 200 ∧ get_first (headers resp) "X-Checksum-SHA256" = sha256_hex "hello" ∧
    get_first (headers resp) "Content-Length" = "5" ∧ payload_of resp = Raw "goodbye".
Proof. eexists. split_and!; [by vm_compute|by vm_compute..]. Qed.

(** Delete refuses directories, but not one that takes the place of the file in
    time. *)
Definition remove_a : request :=
  Request MethodDelete "/files" [("path", "a.txt")] [] "100.64.0.2:5555" "daemon" (Stream "" None) None.

Lemma raced_delete_takes_a_directory :
  let empty_dir := swapped (Directory 4096 0) in
  ∃ ls fs, do_moves [] (Conf tidy_fs [])
      [Arrive (Deleting remove_a); Turn 0 (); Turn 0 (); Other (Changing empty_dir); Turn 0 ()] =
    Some (ls, Conf fs [Answered (write_status 204)]) ∧
    is_Some (nodes empty_dir !! a_txt) ∧ nodes fs !! a_txt = None.
Proof. do 2 eexists. split_and!; [by vm_compute|by vm_compute; eexists|by vm_compute]. Qed.

Lemma etc_not_under l : ¬ under sample_roots ("etc" :: l).
Proof.
  intros (rl & Hin%list_elem_of_singleton & Hp & Hl).
  change "/srv/exchange" with (render ["srv"; "exchange"]) in Hin.
  apply render_inj in Hin as ->; [|done|by_decide].
  by destruct Hl as [|(_ & c & l' & [=])].
Qed.

Lemma raced_files_stay_inside_witness :
  conc_run (Conf tidy_fs []) replacement_sections
    (default (Conf tidy_fs []) (snd <$> do_moves [] (Conf tidy_fs []) replacement)) ∧
  under sample_roots a_txt ∧ nodes bye !! ["etc"; "passwd"] = nodes tidy_fs !! ["etc"; "passwd"].
Proof.
  assert (conc_run (Conf tidy_fs []) replacement_sections
    (default (Conf tidy_fs []) (snd <$> do_moves [] (Conf tidy_fs []) replacement))) as Hrun.
  { apply (do_moves_run (Conf tidy_fs []) [] (Conf tidy_fs []) replacement); [constructor|by vm_compute]. }
  split; [exact Hrun|].
  apply (raced_files_stay_inside race_uploader tidy_fs _ _ sample_roots_ok) in Hrun as (Hin & _ & Hrest).
  - split.
    + apply (Hin bye). exists [Reaching a_txt]. split; [|by left].
      unfold replacement_sections. do 4 (apply elem_of_cons; right). by apply elem_of_cons; left.
    + apply (Hrest ["etc"; "passwd"]); [by apply etc_not_under|].
      intros fs fs' Hc. unfold replacement_sections in Hc. apply list_elem_of_In in Hc. simpl in Hc.
      intuition simplify_eq. by vm_compute.
  - by_decide.
  - apply tidy_wf.
  - by apply housed_sound; vm_compute.
  - destruct (swapped_calm (File "goodbye" (8 * Second)) eq_refl) as [Hwf Hn].
    repeat first [apply List.Forall_nil|apply List.Forall_cons].
    + intros _. by apply attached_links_sound; vm_compute.
    + by intros [=]%list_elem_of_singleton.
    + by intros [=]%list_elem_of_singleton.
    + split_and!; [exact Hwf|by apply housed_sound; vm_compute|exact Hn].
    + by intros [=]%list_elem_of_singleton.
Defined.
End examples.
