(* ===== verification/Owner.v ===== *)
(** * identity/owner.go: the pairing and device-management routes

    [Owner] is the struct of the same name: the account's e-mail address, the
    three verifier objects it shares between all attempts, and the attempts in
    progress. The rate limiter and the device store it points to sit beside it
    in [owner_state]. A handler takes the clock readings its calls make
    ([clock]), the bytes crypto/rand returned and the answer of the database
    driver; it returns the response and the new state, or [None] when it
    panicked. *)

From S2P Require Import Prelude GoStr Http NetAddr Verifier Pairing RateLimit Totp Password.
From S2P Require Import WebAuthn Database DeviceAuth IdStore.

(** ** The shared verifier objects *)

Section owner.
Context `{Unicode} `{TotpLib} `{Argon2} `{WebAuthnLib} `{JsonDecoder} `{SqlOrder}.

Record factors := Factors {
  passwordVerifier : option string;             (* the encoded hash *)
  totpVerifier : option (string * string);      (* secret, lastAccepted *)
  passkeyVerifier : WebAuthnVerifier;
}.

(** Pointers to them. *)
Inductive factor_ptr := PtrPassword | PtrTOTP | PtrPasskey.

(** The objects, and the reading [nowFunc] of the TOTP verifier will return. *)
Abbreviation factor_store := (factors * Z)%type.

(** A call through a pointer. The nil pointers of unconfigured factors are
    never put into a verifier map; a call through one panics. *)
Definition factor_verify (p : factor_ptr) (ev : string) (st : factor_store)
    : option (error * factor_store) :=
  let '(f, now) := st in
  match p with
  | PtrPassword =>
     encoded ← passwordVerifier f;
     r ← password_Verify encoded ev;
     Some (r, st)
  | PtrTOTP =>
     '(secret, last) ← totpVerifier f;
     let '(r, last') := totp_Verify secret ev now last in
     Some (r, (Factors (passwordVerifier f) (Some (secret, last')) (passkeyVerifier f), now))
  | PtrPasskey => Some (webauthn_Verify (passkeyVerifier f) ev, st)
  end.

#[export] Instance factor_Verifier : Verifier factor_store factor_ptr := factor_verify.

(** ** State *)

Record pairingRecord := PairingRecord {
  attempt : Attempt factor_ptr;
  deviceName : string;
  platform : string;
}.

Record Owner := MkOwner {
  email : string;
  shared : factors;
  attempts : gmap string pairingRecord;
}.

Record OwnerConfig := MkOwnerConfig {
  Email : string;
  PasswordHash : string;
  TOTPSecret : string;
  WebAuthnRPID : string;
  WebAuthnDisplayName : string;
  WebAuthnOrigins : list string;
}.

Record owner_state := OwnerState {
  owner : Owner;
  limiter : RateLimiter;
  store : DB;
}.

(** The clock readings of one request, in the order a handler makes them.
    The sweep reads the clock once per attempt. *)
Record clock := Clock {
  t_allow : Z;              (* limiter.Allow *)
  t_new : Z;                (* time.Now in NewAttempt *)
  t_sweep : string → Z;     (* Expired, in sweepLocked *)
  t_expired : Z;            (* Expired, in Satisfy or Complete *)
  t_totp : Z;               (* TOTPVerifier.nowFunc *)
  t_fail : Z;               (* limiter.RecordFailure *)
  t_unix : Z;               (* time.Now().Unix() in db.PairDevice, seconds *)
}.

(** All readings equal to [t], as on a clock that stands still. *)
Definition still (t : Z) : clock := Clock t t (λ _, t) t t t (t / Second).

Definition NewOwner (cfg : OwnerConfig) : Owner :=
  MkOwner (Email cfg)
    (Factors (if String.eqb (PasswordHash cfg) "" then None else Some (PasswordHash cfg))
             (if String.eqb (TOTPSecret cfg) "" then None else Some (TOTPSecret cfg, ""))
             (NewWebAuthnVerifier (WebAuthnRPID cfg) (WebAuthnDisplayName cfg) (WebAuthnOrigins cfg)))
    ∅.

Definition owner_verifiers (o : Owner) : gmap string (option factor_ptr) :=
  let m := {[FactorPasskey := Some PtrPasskey]} in
  let m := match passwordVerifier (shared o) with
           | Some _ => <[FactorPassword := Some PtrPassword]> m | None => m end in
  match totpVerifier (shared o) with
  | Some _ => <[FactorTOTP := Some PtrTOTP]> m | None => m end.

Definition owner_sweepLocked (m : gmap string pairingRecord) (tick : string → Z)
    : gmap string pairingRecord :=
  filter (λ kv, Expired (attempt kv.2) (tick kv.1) = false) m.

Definition with_attempts (st : owner_state) (m : gmap string pairingRecord) : owner_state :=
  OwnerState (MkOwner (email (owner st)) (shared (owner st)) m) (limiter st) (store st).

Definition with_limiter (st : owner_state) (r : RateLimiter) : owner_state :=
  OwnerState (owner st) r (store st).

(** randomID: hex of the sixteen bytes crypto/rand returned. *)
Definition randomID (rand : result (list Z)) : result string :=
  match rand with
  | Err e => Err (EWrap "generate id: " e "")
  | Ok buf => Ok (hex_encode buf)
  end.

Definition clientIP (r : request) : string :=
  match SplitHostPort (RemoteAddr r) with
  | Err _ => RemoteAddr r
  | Ok (host, _) => host
  end.

(** A []Factor as encoding/json prints it: a nil slice is null. *)
Definition json_factors (fs : list string) : json :=
  match fs with [] => JNull | _ => JArray (map JString fs) end.

Definition not_post (r : request) : bool := negb (String.eqb (Method r) MethodPost).

Definition method_not_allowed : response := write_error 405 "method not allowed".
Definition invalid_json : response := write_error 400 "invalid JSON body".
Definition too_many_attempts : response := write_error 429 "too many failed attempts".
Definition invalid_credentials : response := write_error 401 "invalid credentials".
Definition unknown_attempt : response := write_error 404 "unknown pairing attempt".

(** ** Starting an attempt *)

Definition handlePairStart (st : owner_state) (r : request) (rand : result (list Z)) (c : clock)
    : response * owner_state :=
  if not_post r then (method_not_allowed, st) else
  match json_decode (Body r) with
  | Err _ => (invalid_json, st)
  | Ok body =>
     let key := field body "device_pubkey" in
     let bad := (write_error 400 "device_pubkey must be a base64-encoded ed25519 public key", st) in
     match b64_decode true key with
     | None => bad
     | Some raw =>
        if negb (Z.of_nat (length raw) =? PublicKeySize) then bad else
        match randomID rand with
        | Err _ => (write_error 500 "failed to start pairing", st)
        | Ok id =>
           let att := NewAttempt id key (owner_verifiers (owner st)) (t_new c) in
           let rec := PairingRecord att (field body "device_name") (field body "platform") in
           let m := <[id := rec]> (owner_sweepLocked (attempts (owner st)) (t_sweep c)) in
           (write_json 200 (JObject [("pairing_id", JString id);
                                     ("outstanding", json_factors (Outstanding att))]),
            with_attempts st m)
        end
     end
  end.

(** ** Presenting a factor *)

Definition satisfy_response (res : error) (outstanding : list string) : response :=
  match res with
  | None => write_json 200 (JObject [("outstanding", json_factors outstanding)])
  | Some e =>
     if errors_is e ErrPairingExpired then write_error 410 "pairing attempt expired"
     else if errors_is e ErrPairingConsumed then write_error 409 "pairing attempt already completed"
     else if errors_is e ErrUnknownFactor then write_error 400 "unknown factor"
     else invalid_credentials
  end.

(** The limiter call that goes with it: the three errors about the attempt
    itself are not counted. *)
Definition satisfy_limiter (res : error) (lim : RateLimiter) (ip acct : string) (now : Z)
    : RateLimiter :=
  match res with
  | None => RecordSuccess lim ip acct
  | Some e =>
     if errors_is e ErrPairingExpired || errors_is e ErrPairingConsumed ||
        errors_is e ErrUnknownFactor
     then lim else RecordFailure lim ip acct now
  end.

Definition satisfyFactor (st : owner_state) (ip pairingID factor evidence : string) (c : clock)
    : option (response * owner_state) :=
  let o := owner st in
  let m := owner_sweepLocked (attempts o) (t_sweep c) in
  match m !! pairingID with
  | None => Some (unknown_attempt, with_attempts st m)
  | Some rec =>
     '(res, att, (fs, _)) ← Satisfy (attempt rec) factor evidence (t_expired c) (shared o, t_totp c);
     let rec' := PairingRecord att (deviceName rec) (platform rec) in
     let lim := satisfy_limiter res (limiter st) ip (email o) (t_fail c) in
     Some (satisfy_response res (Outstanding att),
           OwnerState (MkOwner (email o) fs (<[pairingID := rec']> m)) lim (store st))
  end.

Definition handlePairPassword (st : owner_state) (r : request) (c : clock)
    : option (response * owner_state) :=
  if not_post r then Some (method_not_allowed, st) else
  match json_decode (Body r) with
  | Err _ => Some (invalid_json, st)
  | Ok body =>
     let ip := clientIP r in
     let acct := email (owner st) in
     match Allow (limiter st) ip acct (t_allow c) with
     | Some _ => Some (too_many_attempts, st)
     | None =>
        if String.eqb acct "" || negb (equal_fold (field body "email") acct)
        then Some (invalid_credentials,
                   with_limiter st (RecordFailure (limiter st) ip acct (t_fail c)))
        else satisfyFactor st ip (field body "pairing_id") FactorPassword (field body "password") c
     end
  end.

(** handlePairTOTP and handlePairPasskey differ in the factor and in the
    field that carries the evidence. *)
Definition handlePairFactor (factor evidence_field : string) (st : owner_state) (r : request)
    (c : clock) : option (response * owner_state) :=
  if not_post r then Some (method_not_allowed, st) else
  match json_decode (Body r) with
  | Err _ => Some (invalid_json, st)
  | Ok body =>
     let ip := clientIP r in
     match Allow (limiter st) ip (email (owner st)) (t_allow c) with
     | Some _ => Some (too_many_attempts, st)
     | None => satisfyFactor st ip (field body "pairing_id") factor (field body evidence_field) c
     end
  end.

Definition handlePairTOTP := handlePairFactor FactorTOTP "code".
Definition handlePairPasskey := handlePairFactor FactorPasskey "assertion".

(** ** Completing an attempt *)

Definition complete_error (e : goerr) (outstanding : list string) : response :=
  if errors_is e ErrPairingIncomplete then
    write_json 409 (JObject [("error", JString "pairing is not complete");
                             ("outstanding", json_factors outstanding)])
  else if errors_is e ErrPairingExpired then write_error 410 "pairing attempt expired"
  else if errors_is e ErrPairingConsumed then write_error 409 "pairing attempt already completed"
  else write_error 500 "failed to complete pairing".

Definition handlePairComplete (st : owner_state) (r : request) (rand : result (list Z))
    (io : error) (c : clock) : response * owner_state :=
  if not_post r then (method_not_allowed, st) else
  match json_decode (Body r) with
  | Err _ => (invalid_json, st)
  | Ok body =>
     let id := field body "pairing_id" in
     let m := owner_sweepLocked (attempts (owner st)) (t_sweep c) in
     match m !! id with
     | None => (unknown_attempt, with_attempts st m)
     | Some rec =>
        match Complete (attempt rec) (t_expired c) with
        | (Some e, _) => (complete_error e (Outstanding (attempt rec)), with_attempts st m)
        | (None, att) =>
           let st' := with_attempts st (delete id m) in
           match randomID rand with
           | Err _ => (write_error 500 "failed to complete pairing", st')
           | Ok deviceID =>
              match Store_PairDevice (store st) deviceID (deviceName rec) (platform rec)
                      (DevicePub att) (t_unix c) io with
              | (Some _, _) => (write_error 500 "failed to store paired device", st')
              | (None, d) =>
                 (write_json 200 (JObject [("device_id", JString deviceID)]),
                  OwnerState (owner st') (limiter st') d)
              end
           end
        end
     end
  end.

(** ** Device management *)

Definition json_device (d : DeviceInfo) : json :=
  JObject [("id", JString (InfoID d)); ("name", JString (InfoName d));
           ("platform", JString (InfoPlatform d)); ("pubkey", JString (InfoPubKey d));
           ("paired_at", JNumber (InfoPairedAt d)); ("last_seen_at", JNumber (InfoLastSeenAt d));
           ("revoked", JBool (InfoRevoked d))].

Definition handleDevices (st : owner_state) (r : request) (io : error) : response :=
  if negb (String.eqb (Method r) MethodGet) then method_not_allowed else
  match Store_ListDevices (store st) io with
  | Err _ => write_error 500 "failed to list devices"
  | Ok devices => write_json 200 (JArray (map json_device devices))
  end.

Definition handleDevicesRevoke (st : owner_state) (r : request) (io : error)
    : response * owner_state :=
  if not_post r then (method_not_allowed, st) else
  let bad := (write_error 400 "device_id is required", st) in
  match json_decode (Body r) with
  | Err _ => bad
  | Ok body =>
     let id := field body "device_id" in
     if String.eqb id "" then bad else
     match Store_RevokeDevice (store st) id io with
     | (Some e, _) =>
        if errors_is e ErrNoRows then (write_error 404 "no such device", st)
        else (write_error 500 "failed to revoke device", st)
     | (None, d) => (write_status 204, OwnerState (owner st) (limiter st) d)
     end
  end.

(** ** Histories of requests *)

Inductive owner_call :=
  | OStart (r : request) (rand : result (list Z)) (c : clock)
  | OPassword (r : request) (c : clock)
  | OTOTP (r : request) (c : clock)
  | OPasskey (r : request) (c : clock)
  | OComplete (r : request) (rand : result (list Z)) (io : error) (c : clock)
  | ODevices (r : request) (io : error)
  | ORevoke (r : request) (io : error).

Definition owner_step (st : owner_state) (oc : owner_call) : option (response * owner_state) :=
  match oc with
  | OStart r rand c => Some (handlePairStart st r rand c)
  | OPassword r c => handlePairPassword st r c
  | OTOTP r c => handlePairTOTP st r c
  | OPasskey r c => handlePairPasskey st r c
  | OComplete r rand io c => Some (handlePairComplete st r rand io c)
  | ODevices r io => Some (handleDevices st r io, st)
  | ORevoke r io => Some (handleDevicesRevoke st r io)
  end.

Fixpoint owner_run (st : owner_state) (ocs : list owner_call) : option owner_state :=
  match ocs with
  | [] => Some st
  | oc :: ocs' => '(_, st') ← owner_step st oc; owner_run st' ocs'
  end.

(** What a call of a factor endpoint presents: pairing id, factor, evidence,
    and the clock of the request. *)
Definition presents (oc : owner_call) : option (string * string * string * clock) :=
  let body_of r c f ev :=
    match json_decode (Body r) with
    | Ok body => Some (field body "pairing_id", f, field body ev, c)
    | Err _ => None
    end in
  match oc with
  | OPassword r c => body_of r c FactorPassword "password"
  | OTOTP r c => body_of r c FactorTOTP "code"
  | OPasskey r c => body_of r c FactorPasskey "assertion"
  | _ => None
  end.

(** A base64-encoded Ed25519 public key. *)
Definition key_ok (pub : string) : Prop :=
  ∃ raw, b64_decode true pub = Some raw ∧ Z.of_nat (length raw) = PublicKeySize.

(** ** One record across one step *)

(** Request [r], with the random bytes [rand], starts attempt [id] for a device
    with this key, name and platform. *)
Definition minted (r : request) (rand : result (list Z)) (id pub name plat : string) : Prop :=
  not_post r = false ∧ randomID rand = Ok id ∧ key_ok pub ∧
  ∃ body, json_decode (Body r) = Ok body ∧ pub = field body "device_pubkey" ∧
    name = field body "device_name" ∧ plat = field body "platform".

(** Request [r] names attempt [id]. *)
Definition names_attempt (r : request) (id : string) : Prop :=
  not_post r = false ∧ ∃ body, json_decode (Body r) = Ok body ∧ field body "pairing_id" = id.

(** How the record stored under [id] after a step came about. *)
Inductive record_origin (st : owner_state) (oc : owner_call) (id : string)
    : pairingRecord → Prop :=
  | ro_kept rec :
      attempts (owner st) !! id = Some rec → record_origin st oc id rec
  | ro_new r rand c pub n p :
      oc = OStart r rand c → minted r rand id pub n p →
      record_origin st oc id
        (PairingRecord (NewAttempt id pub (owner_verifiers (owner st)) (t_new c)) n p)
  | ro_marked rec f ev c v fs :
      attempts (owner st) !! id = Some rec →
      presents oc = Some (id, f, ev, c) →
      consumed (attempt rec) = false →
      t_expired c ≤ StartedAt (attempt rec) + PairingTTL →
      verifiers (attempt rec) !! f = Some v →
      slot_verify v ev (shared (owner st), t_totp c) = Some (None, fs) →
      record_origin st oc id (PairingRecord (mark (attempt rec) f) (deviceName rec) (platform rec)).

Lemma owner_sweep_lookup m tick id rec :
  owner_sweepLocked m tick !! id = Some rec ↔
  m !! id = Some rec ∧ tick id ≤ StartedAt (attempt rec) + PairingTTL.
Proof.
  unfold owner_sweepLocked. rewrite map_lookup_filter_Some; simpl.
  by rewrite Expired_spec, Z.ltb_ge.
Qed.

(** The results of [Satisfy], the successful one set apart. *)
Lemma Satisfy_cases (a : Attempt factor_ptr) f ev now s r :
  Satisfy a f ev now s = r →
  match r with
  | None => ∃ v, verifiers a !! f = Some v ∧ slot_verify v ev s = None
  | Some (Some e, a', s') =>
      a' = a ∧ ((consumed a = true ∧ e = ESent ErrPairingConsumed ∧ s' = s) ∨
        (consumed a = false ∧ StartedAt a + PairingTTL < now ∧ e = ESent ErrPairingExpired ∧ s' = s) ∨
        (verifiers a !! f = None ∧ s' = s ∧ errors_is e ErrUnknownFactor = true) ∨
        (consumed a = false ∧ now ≤ StartedAt a + PairingTTL ∧
         ∃ v, verifiers a !! f = Some v ∧ slot_verify v ev s = Some (Some e, s')))
  | Some (None, a', s') =>
      a' = mark a f ∧ consumed a = false ∧ now ≤ StartedAt a + PairingTTL ∧
      ∃ v, verifiers a !! f = Some v ∧ slot_verify v ev s = Some (None, s')
  end.
Proof.
  intros <-. unfold Satisfy. rewrite Expired_spec.
  destruct (consumed a) eqn:C; [auto 8|].
  destruct (Z.ltb_spec (StartedAt a + PairingTTL) now); [auto 8|].
  destruct (verifiers a !! f) as [v|] eqn:Hv; [|split; [done|auto 8]].
  destruct (slot_verify v ev s) as [[[e|] s']|] eqn:Hs; simpl; [| |by exists v].
  - split; [done|]. do 3 right. by split_and!; [..|exists v].
  - by split_and!; [..|exists v].
Qed.

(** The verifier objects keep their configuration: only the TOTP memory of
    the last accepted code moves. *)
Definition same_config (f f' : factors) : Prop :=
  passwordVerifier f' = passwordVerifier f ∧
  fst <$> totpVerifier f' = fst <$> totpVerifier f ∧
  passkeyVerifier f' = passkeyVerifier f.

#[export] Instance same_config_preorder : PreOrder same_config.
Proof.
  split; [by intros f; split_and!|].
  intros f g h (? & ? & ?) (? & ? & ?). split_and!; congruence.
Qed.

Lemma slot_verify_config v ev fs t r fs' t' :
  slot_verify v ev (fs, t) = Some (r, (fs', t')) → same_config fs fs' ∧ t' = t.
Proof.
  destruct v as [[| |]|f]; simpl; unfold verify, factor_Verifier; simpl.
  - destruct (passwordVerifier fs) eqn:E; simpl; [|done].
    destruct (password_Verify _ _); simpl; [|done]. by intros [= <- <- <-].
  - destruct (totpVerifier fs) as [[secret last]|] eqn:E; simpl; [|done].
    destruct (totp_Verify secret ev t last) as [r' last'] eqn:V. intros [= <- <- <-].
    unfold same_config; simpl. by rewrite E.
  - by intros [= <- <- <-].
  - by intros [= <- <- <-].
Qed.

Lemma satisfyFactor_cases st ip id f ev c resp st' :
  satisfyFactor st ip id f ev c = Some (resp, st') →
  let m := owner_sweepLocked (attempts (owner st)) (t_sweep c) in
  (m !! id = None ∧ resp = unknown_attempt ∧ st' = with_attempts st m) ∨
  ∃ rec res att fs t,
    m !! id = Some rec ∧
    Satisfy (attempt rec) f ev (t_expired c) (shared (owner st), t_totp c) = Some (res, att, (fs, t)) ∧
    resp = satisfy_response res (Outstanding att) ∧
    st' = OwnerState (MkOwner (email (owner st)) fs
                        (<[id := PairingRecord att (deviceName rec) (platform rec)]> m))
            (satisfy_limiter res (limiter st) ip (email (owner st)) (t_fail c)) (store st).
Proof.
  unfold satisfyFactor. destruct (_ !! id) as [rec|] eqn:Em; simpl.
  - destruct (Satisfy _ _ _ _ _) as [[[res att] [fs t]]|] eqn:Es; simpl; [|done].
    intros [= <- <-]. right. by exists rec, res, att, fs, t.
  - intros [= <- <-]. by left.
Qed.

(** A factor endpoint either leaves attempts and objects alone or runs
    [satisfyFactor] on what it presents. *)
Lemma factor_endpoint st oc resp st' :
  owner_step st oc = Some (resp, st') →
  (∃ r c, oc = OPassword r c ∨ oc = OTOTP r c ∨ oc = OPasskey r c) →
  (owner st' = owner st ∧ store st' = store st) ∨
  ∃ ip id f ev c, presents oc = Some (id, f, ev, c) ∧
    satisfyFactor st ip id f ev c = Some (resp, st').
Proof.
  intros Hs (r & c & Hoc).
  assert (∀ f ef, owner_step st oc = handlePairFactor f ef st r c →
    presents oc = (match json_decode (Body r) with
                   | Ok body => Some (field body "pairing_id", f, field body ef, c)
                   | Err _ => None end) →
    (owner st' = owner st ∧ store st' = store st) ∨
    ∃ ip id f ev c, presents oc = Some (id, f, ev, c) ∧
      satisfyFactor st ip id f ev c = Some (resp, st')) as Hgen.
  { intros f ef Hstep Hp. rewrite Hstep in Hs. revert Hs. unfold handlePairFactor.
    destruct (not_post r); [by intros [= <- <-]; left|].
    destruct (json_decode (Body r)) as [body|]; [|by intros [= <- <-]; left].
    destruct (Allow _ _ _ _); [by intros [= <- <-]; left|].
    intros Hs. right. by eexists _, _, _, _, c. }
  destruct Hoc as [->|[->| ->]]; [|by apply (Hgen FactorTOTP "code")|by apply (Hgen FactorPasskey "assertion")].
  simpl in Hs |- *. revert Hs. unfold handlePairPassword.
  destruct (not_post r); [by intros [= <- <-]; left|].
  destruct (json_decode (Body r)) as [body|]; [|by intros [= <- <-]; left].
  destruct (Allow _ _ _ _); [by intros [= <- <-]; left|].
  destruct (_ || _); [by intros [= <- <-]; left|].
  intros Hs. right. by eexists _, _, _, _, c.
Qed.

(** ** The frame of a step *)

Definition pairs_device (st : owner_state) (oc : owner_call) (st' : owner_state) : Prop :=
  ∃ r rand io c id rec deviceID,
    oc = OComplete r rand io c ∧ names_attempt r id ∧ randomID rand = Ok deviceID ∧
    attempts (owner st) !! id = Some rec ∧
    (Complete (attempt rec) (t_expired c)).1 = None ∧
    (Store_PairDevice (store st) deviceID (deviceName rec) (platform rec)
       (DevicePub (attempt rec)) (t_unix c) io) = (None, store st').

Definition owner_frame (st : owner_state) (oc : owner_call) (st' : owner_state) : Prop :=
  email (owner st') = email (owner st) ∧
  same_config (shared (owner st)) (shared (owner st')) ∧
  (∀ id rec, attempts (owner st') !! id = Some rec → record_origin st oc id rec) ∧
  (store st' = store st ∨
   (∃ r io, oc = ORevoke r io ∧ ∃ id, store st' = (Store_RevokeDevice (store st) id io).2) ∨
   pairs_device st oc st').

Lemma frame_refl st oc lim : owner_frame st oc (with_limiter st lim).
Proof. split_and!; simpl; try done; [by apply ro_kept|by left]. Qed.

Lemma frame_sweep st oc tick :
  owner_frame st oc (with_attempts st (owner_sweepLocked (attempts (owner st)) tick)).
Proof.
  split_and!; simpl; try done; [|by left].
  intros id rec [Hr _]%owner_sweep_lookup. by apply ro_kept.
Qed.

Lemma frame_eq st oc st' :
  owner st' = owner st → store st' = store st → owner_frame st oc st'.
Proof.
  intros Ho Hs. unfold owner_frame. rewrite Ho, Hs.
  split_and!; try done; [by apply ro_kept|by left].
Qed.

Lemma frame_satisfy st oc ip id f ev c resp st' :
  presents oc = Some (id, f, ev, c) →
  satisfyFactor st ip id f ev c = Some (resp, st') →
  owner_frame st oc st'.
Proof.
  intros Hp [(_ & -> & ->)|(rec & res & att & fs & t & Hm & Hsat & -> & ->)]%satisfyFactor_cases;
    [by apply frame_sweep|].
  apply owner_sweep_lookup in Hm as [Hm _].
  pose proof (Satisfy_cases _ _ _ _ _ _ Hsat) as Hc.
  assert (same_config (shared (owner st)) fs) as Hcfg.
  { destruct res as [e|]; simpl in Hc.
    - destruct Hc as (_ & [(_ & _ & [= -> _])|[(_ & _ & _ & [= -> _])|[(_ & [= -> _] & _)|(_ & _ & v & _ & Hv)]]]);
        [done..|by eapply slot_verify_config].
    - destruct Hc as (_ & _ & _ & v & _ & Hv). by eapply slot_verify_config. }
  split_and!; simpl; [done|done| |by left].
  intros id' rec' [[<- <-]|[Hne [Hr _]%owner_sweep_lookup]]%lookup_insert_Some;
    [|by apply ro_kept].
  destruct res as [e|]; simpl in Hc.
  - destruct Hc as [-> _]. destruct rec; by apply ro_kept.
  - destruct Hc as (-> & Hc & Hle & v & Hv & Hsl). by eapply ro_marked.
Qed.

Lemma frame_complete st r rand io c :
  owner_frame st (OComplete r rand io c) (handlePairComplete st r rand io c).2.
Proof.
  unfold handlePairComplete.
  destruct (not_post r) eqn:Hpost; [by apply frame_eq|].
  destruct (json_decode (Body r)) as [body|] eqn:Hbody; [|by apply frame_eq].
  destruct (_ !! field body "pairing_id") as [rec|] eqn:Hm; [|by apply frame_sweep].
  apply owner_sweep_lookup in Hm as [Hm _].
  destruct (Complete (attempt rec) (t_expired c)) as [[e|] att] eqn:HC; [by apply frame_sweep|].
  pose proof (Complete_pub (attempt rec) (t_expired c)) as Hpub. rewrite HC in Hpub. simpl in Hpub.
  assert (∀ d, (d = store st ∨
      ∃ id, randomID rand = Ok id ∧ Store_PairDevice (store st) id (deviceName rec) (platform rec)
        (DevicePub (attempt rec)) (t_unix c) io = (None, d)) →
    owner_frame st (OComplete r rand io c)
      (OwnerState (owner (with_attempts st (delete (field body "pairing_id")
         (owner_sweepLocked (attempts (owner st)) (t_sweep c))))) (limiter st) d)) as Hgen.
  { intros d Hd. split_and!; simpl; try done.
    - intros id rec' [_ [Hr _]%owner_sweep_lookup]%lookup_delete_Some. by apply ro_kept.
    - destruct Hd as [->|(id & Hid & Hd)]; [by left|]. right; right.
      exists r, rand, io, c, (field body "pairing_id"), rec, id. rewrite HC.
      split_and!; [done|split; [done|by exists body]|done..]. }
  destruct (randomID rand) as [deviceID|]; [|apply (Hgen (store st)); by left].
  rewrite Hpub. destruct (Store_PairDevice _ _ _ _ _ _ _) as [[e|] d] eqn:HP;
    [apply (Hgen (store st)); by left|].
  apply Hgen. right. by exists deviceID.
Qed.

Lemma frame_start st r rand c : owner_frame st (OStart r rand c) (handlePairStart st r rand c).2.
Proof.
  unfold handlePairStart.
  destruct (not_post r) eqn:Hpost; [by apply frame_eq|].
  destruct (json_decode (Body r)) as [body|] eqn:Hbody; [|by apply frame_eq].
  destruct (b64_decode _ _) as [raw|] eqn:Hraw; [|by apply frame_eq].
  destruct (negb _) eqn:Hlen; [by apply frame_eq|].
  destruct (randomID rand) as [id|] eqn:Hid; [|by apply frame_eq].
  split_and!; simpl; try done; [|by left].
  intros id' rec [[<- <-]|[_ [Hr _]%owner_sweep_lookup]]%lookup_insert_Some;
    [|by apply ro_kept].
  eapply ro_new; [done|]. split_and!; [done|done| |by exists body].
  exists raw. split; [done|]. by apply Z.eqb_eq, negb_false_iff.
Qed.

Lemma owner_step_frame st oc resp st' :
  owner_step st oc = Some (resp, st') → owner_frame st oc st'.
Proof.
  intros Hs. destruct oc as [r rand c|r c|r c|r c|r rand io c|r io|r io].
  1: { pose proof (frame_start st r rand c) as Hf. simpl in Hs. injection Hs as Hs.
       by rewrite Hs in Hf. }
  1-3: destruct (factor_endpoint _ _ _ _ Hs) as [[Ho Hst]|(ip & id & f & ev & c' & Hp & Hsat)];
    [by eauto|by apply frame_eq|by eapply frame_satisfy].
  - pose proof (frame_complete st r rand io c) as Hf. simpl in Hs. injection Hs as Hs.
    by rewrite Hs in Hf.
  - simpl in Hs. injection Hs as _ <-. by apply frame_eq.
  - simpl in Hs. injection Hs as Hs. revert Hs. unfold handleDevicesRevoke.
    destruct (not_post r); [intros [= _ <-]; by apply frame_eq|].
    destruct (json_decode (Body r)) as [body|]; [|intros [= _ <-]; by apply frame_eq].
    destruct (String.eqb _ _); [intros [= _ <-]; by apply frame_eq|].
    destruct (Store_RevokeDevice (store st) (field body "device_id") io) as [[e|] d] eqn:HR;
      [destruct (errors_is e ErrNoRows); intros [= _ <-]; by apply frame_eq|].
    intros [= _ <-]. split_and!; simpl; try done; [by apply ro_kept|].
    right; left. exists r, io. split; [done|]. exists (field body "device_id"). by rewrite HR.
Qed.
End owner.
