(* ===== verification/OwnerProps.v ===== *)
(** * What the pairing routes guarantee

    The theorems about histories of calls of the [Owner] handlers. *)

From S2P Require Import Prelude GoStr Http NetAddr Verifier Pairing RateLimit Totp Password.
From S2P Require Import WebAuthn Database DeviceAuth IdStore Owner.

Section owner_props.
Context `{Unicode} `{TotpLib} `{Argon2} `{WebAuthnLib} `{JsonDecoder} `{SqlOrder}.
Implicit Types st : owner_state.

(** ** The invariant of the attempts map *)

(** Every attempt in the map is open, is stored under its own code, belongs
    to a well-formed device key and has the verifiers of the owner. *)
Definition record_wf (vs : gmap string (option factor_ptr)) (id : string) (rec : pairingRecord)
    : Prop :=
  consumed (attempt rec) = false ∧ Code (attempt rec) = id ∧ key_ok (DevicePub (attempt rec)) ∧
  ∀ f v, verifiers (attempt rec) !! f = Some v ↔ f ∈ RequiredFactors ∧ v = pick vs f.

Definition owner_wf st : Prop :=
  map_Forall (record_wf (owner_verifiers (owner st))) (attempts (owner st)).

Lemma owner_verifiers_config st st' :
  same_config (shared (owner st)) (shared (owner st')) →
  owner_verifiers (owner st') = owner_verifiers (owner st).
Proof.
  intros (Hp & Ht & _). unfold owner_verifiers. rewrite Hp.
  destruct (totpVerifier (shared (owner st))), (totpVerifier (shared (owner st'))); done.
Qed.

Lemma origin_wf st oc id rec :
  owner_wf st → record_origin st oc id rec → record_wf (owner_verifiers (owner st)) id rec.
Proof.
  intros Hwf [rec' Hl|r rand c pub n p _ (_ & _ & Hk & _)|rec' f ev c v fs Hl _ _ _ _ _].
  - by apply Hwf.
  - split_and!; [done..|]. intros f v. cbn [attempt].
    split; [apply NewAttempt_verifiers|].
    intros [Hf ->]. by apply NewAttempt_required.
  - apply (Hwf _ _ Hl).
Qed.

Lemma frame_wf st oc st' : owner_frame st oc st' → owner_wf st → owner_wf st'.
Proof.
  intros (_ & Hcfg & Hrec & _) Hwf id rec Hl. rewrite (owner_verifiers_config st st') by done.
  eapply origin_wf; [done|by apply Hrec].
Qed.

Lemma owner_step_wf st oc resp st' :
  owner_step st oc = Some (resp, st') → owner_wf st → owner_wf st'.
Proof. intros Hs. by apply (frame_wf st oc), (owner_step_frame _ _ resp). Qed.

Lemma owner_wf_empty st : attempts (owner st) = ∅ → owner_wf st.
Proof. unfold owner_wf. intros ->. apply map_Forall_empty. Qed.

Lemma owner_run_snoc st ocs oc :
  owner_run st (ocs ++ [oc]) = (st1 ← owner_run st ocs; snd <$> owner_step st1 oc).
Proof.
  revert st. induction ocs as [|oc' ocs IH]; intros st; simpl.
  - destruct (owner_step st oc) as [[? ?]|]; done.
  - destruct (owner_step st oc') as [[? ?]|]; simpl; [apply IH|done].
Qed.

(** A property the steps preserve, from the start of a history to its end. *)
Lemma owner_run_ind (P : owner_state → Prop) st ocs st' :
  (∀ st1 oc resp st2, P st1 → owner_step st1 oc = Some (resp, st2) → P st2) →
  P st → owner_run st ocs = Some st' → P st'.
Proof.
  intros Hstep HP. revert st'. induction ocs as [|oc ocs IH] using rev_ind; intros st'.
  { by intros [= <-]. }
  rewrite owner_run_snoc. destruct (owner_run st ocs) as [st1|]; simpl; [|done].
  destruct (owner_step st1 oc) as [[resp st2]|] eqn:Hs; simpl; [|done].
  intros [= <-]. by apply (Hstep st1 oc resp); [apply IH|].
Qed.

Lemma owner_run_wf st ocs st' :
  owner_wf st → owner_run st ocs = Some st' → owner_wf st'.
Proof. apply owner_run_ind. intros. by eapply owner_step_wf. Qed.

Lemma owner_run_config st ocs st' :
  owner_run st ocs = Some st' → same_config (shared (owner st)) (shared (owner st')).
Proof.
  apply (owner_run_ind (λ st', same_config (shared (owner st)) (shared (owner st')))); [|done].
  intros st1 oc resp st2 Hc Hs. destruct (owner_step_frame _ _ _ _ Hs) as (_ & Hc' & _).
  by etrans.
Qed.

(** ** The history behind an attempt *)

(** In state [st], call [oc] presented evidence for factor [f] of attempt
    [id], started at [t0], in time, and the owner's verifier accepted it. *)
Definition accepted (vs : gmap string (option factor_ptr)) (t0 : Z) st (oc : owner_call)
    (id f : string) : Prop :=
  ∃ ev c p fs,
    presents oc = Some (id, f, ev, c) ∧ vs !! f = Some (Some p) ∧
    t_expired c ≤ t0 + PairingTTL ∧
    factor_verify p ev (shared (owner st), t_totp c) = Some (None, fs).

(** Attempt [rec] was created, as [id] and for its device, by a start call of
    [ocs] and each factor it
    counts as satisfied was accepted by a later call. *)
Definition earned st0 (ocs : list owner_call) (id : string) (rec : pairingRecord) : Prop :=
  ∃ before r rand c after,
    ocs = before ++ OStart r rand c :: after ∧
    minted r rand id (DevicePub (attempt rec)) (deviceName rec) (platform rec) ∧
    StartedAt (attempt rec) = t_new c ∧
    ∀ f, is_satisfied (attempt rec) f = true →
      ∃ b oc a st1, after = b ++ oc :: a ∧
        owner_run st0 (before ++ OStart r rand c :: b) = Some st1 ∧
        accepted (owner_verifiers (owner st0)) (t_new c) st1 oc id f.

Lemma earned_snoc st0 ocs oc id rec : earned st0 ocs id rec → earned st0 (ocs ++ [oc]) id rec.
Proof.
  intros (b & r & rand & c & a & -> & Hm & Ht & Hf).
  exists b, r, rand, c, (a ++ [oc]). split_and!; [by rewrite <- app_assoc|done|done|].
  intros f (b' & oc' & a' & st1 & -> & Hrun & Hacc)%Hf.
  exists b', oc', (a' ++ [oc]), st1. split_and!; [by rewrite <- app_assoc|done|done].
Qed.

Lemma NewAttempt_unsatisfied id pub vs t f :
  is_satisfied (NewAttempt (V:=factor_ptr) id pub vs t) f = false.
Proof. unfold is_satisfied, NewAttempt; simpl. by rewrite lookup_empty. Qed.

Lemma slot_accepts vs f ev s s' :
  slot_verify (pick vs f) ev s = Some (None, s') →
  ∃ p, vs !! f = Some (Some p) ∧ factor_verify p ev s = Some (None, s').
Proof. unfold pick. destruct (vs !! f) as [[p|]|]; simpl; [|done..]. intros. by exists p. Qed.

(** A factor that is newly satisfied was accepted. *)
Lemma marked_accepted st0 st oc id rec f ev c v fs :
  same_config (shared (owner st0)) (shared (owner st)) → owner_wf st →
  attempts (owner st) !! id = Some rec → presents oc = Some (id, f, ev, c) →
  t_expired c ≤ StartedAt (attempt rec) + PairingTTL → verifiers (attempt rec) !! f = Some v →
  slot_verify v ev (shared (owner st), t_totp c) = Some (None, fs) →
  accepted (owner_verifiers (owner st0)) (StartedAt (attempt rec)) st oc id f.
Proof.
  intros Hcfg Hwf Hl Hp Ht Hv Hsv.
  apply (proj2 (proj2 (proj2 (Hwf _ _ Hl)))) in Hv as [_ ->].
  rewrite (owner_verifiers_config st0 st) in Hsv by done.
  apply slot_accepts in Hsv as (pt & Hpt & Hfv). by exists ev, c, pt, fs.
Qed.

Lemma attempts_earned st0 ocs st id rec :
  attempts (owner st0) = ∅ → owner_run st0 ocs = Some st →
  attempts (owner st) !! id = Some rec → earned st0 ocs id rec.
Proof.
  intros Hempty. revert st rec. induction ocs as [|oc ocs IH] using rev_ind; intros st rec.
  { intros [= <-]. by rewrite Hempty, lookup_empty. }
  rewrite owner_run_snoc. destruct (owner_run st0 ocs) as [st1|] eqn:Hrun; simpl; [|done].
  destruct (owner_step st1 oc) as [[resp st2]|] eqn:Hs; simpl; [|done]. intros [= <-] Hl.
  destruct (owner_step_frame _ _ _ _ Hs) as (_ & _ & Hrec & _).
  destruct (Hrec _ _ Hl) as [rec' Hl'|r rand c pub n p -> Hm|rec' f ev c v fs Hl' Hp Hc Ht Hv Hsv].
  - apply earned_snoc. by eapply IH.
  - exists ocs, r, rand, c, []. split_and!; [done|done|done|].
    intros f Hf. cbn [attempt] in Hf. by rewrite NewAttempt_unsatisfied in Hf.
  - pose proof (IH _ _ eq_refl Hl') as (b & r & rand & c0 & a & -> & Hm & Ht0 & Hsat).
    exists b, r, rand, c0, (a ++ [oc]). split_and!; [by rewrite <- app_assoc|done|done|].
    intros f'. cbn [attempt]. rewrite is_satisfied_mark. case_bool_decide as Hff; simpl.
    + subst f'. intros _. exists a, oc, [], st1. split_and!; [done|done|]. rewrite <- Ht0.
      eapply marked_accepted; [by eapply owner_run_config|by eapply owner_run_wf; [apply owner_wf_empty|]|done..].
    + intros (b' & oc' & a' & st' & -> & Hr & Hacc)%Hsat.
      exists b', oc', (a' ++ [oc]), st'. split_and!; [by rewrite <- app_assoc|done|done].
Qed.

(** ** Device rows *)

Definition device_keys (d : DB) : gset string := dom (devices d).

Lemma Store_RevokeDevice_keys d id io : device_keys (Store_RevokeDevice d id io).2 = device_keys d.
Proof.
  unfold Store_RevokeDevice, RevokeDevice, device_keys. destruct io; simpl; [done|].
  unfold update_where. destruct (devices d !! id) as [row|] eqn:E; simpl; [|done].
  apply elem_of_dom_2 in E. rewrite dom_insert_L. set_solver.
Qed.

Lemma Store_PairDevice_ok d id name plat key t io d' :
  Store_PairDevice d id name plat key t io = (None, d') →
  io = None ∧ devices d !! id = None ∧ sessions d' = sessions d ∧
  devices d' = <[id := DeviceRow (Some name) (Some plat) key (Some t) (Some t) (Some 0)]> (devices d).
Proof.
  unfold Store_PairDevice, PairDevice. destruct io; simpl; [done|].
  destruct (devices d !! id) eqn:E; simpl; [done|]. by intros [= <-].
Qed.

(** A step that brings a new device is the completion of an attempt. *)
Lemma new_device_pairs st oc resp st' :
  owner_step st oc = Some (resp, st') →
  device_keys (store st') ≠ device_keys (store st) → pairs_device st oc st'.
Proof.
  intros Hs Hne. destruct (owner_step_frame _ _ _ _ Hs) as (_ & _ & _ & [Heq|[(r & io & _ & id & Heq)|Hp]]).
  - by rewrite Heq in Hne.
  - by rewrite Heq, Store_RevokeDevice_keys in Hne.
  - done.
Qed.

Lemma pairs_device_new st oc st' :
  pairs_device st oc st' →
  ∃ r rand io c id rec deviceID,
    oc = OComplete r rand io c ∧ names_attempt r id ∧ randomID rand = Ok deviceID ∧
    attempts (owner st) !! id = Some rec ∧
    t_expired c ≤ StartedAt (attempt rec) + PairingTTL ∧
    (∀ f, f ∈ RequiredFactors → is_satisfied (attempt rec) f = true) ∧
    devices (store st) !! deviceID = None ∧
    devices (store st') = <[deviceID := DeviceRow (Some (deviceName rec)) (Some (platform rec))
       (DevicePub (attempt rec)) (Some (t_unix c)) (Some (t_unix c)) (Some 0)]> (devices (store st)).
Proof.
  intros (r & rand & io & c & id & rec & dev & -> & Hid & Hdev & Hl & HC & HP).
  apply Complete_spec in HC as (_ & Ht & Hall).
  apply Store_PairDevice_ok in HP as (_ & Hnone & _ & Hrow).
  by exists r, rand, io, c, id, rec, dev.
Qed.

Lemma complete_200 st r rand io c :
  status (handlePairComplete st r rand io c).1 = 200 →
  pairs_device st (OComplete r rand io c) (handlePairComplete st r rand io c).2.
Proof.
  unfold handlePairComplete.
  destruct (not_post r) eqn:Hpost; [done|]. destruct (json_decode (Body r)) as [body|] eqn:Hbody; [|done].
  destruct (_ !! field body "pairing_id") as [rec|] eqn:Hm; [|done].
  apply owner_sweep_lookup in Hm as [Hm _].
  destruct (Complete (attempt rec) (t_expired c)) as [[e|] att] eqn:HC.
  { simpl. unfold complete_error. by repeat case_match. }
  destruct (randomID rand) as [dev|] eqn:Hdev; [|done].
  destruct (Store_PairDevice _ _ _ _ _ _ _) as [[e|] d] eqn:HP; [done|].
  pose proof (Complete_pub (attempt rec) (t_expired c)) as Hpub. rewrite HC in Hpub. simpl in Hpub.
  rewrite Hpub in HP. intros _.
  exists r, rand, io, c, (field body "pairing_id"), rec, dev. rewrite HC.
  split_and!; [done|split; [done|by exists body]|done..].
Qed.

(** C2: In any history of owner requests that begins with no attempts, a request that adds a
    device row is a completion naming a pairing id that an earlier start call minted, at most
    ten minutes after that start; the row it adds, under a fresh device id, holds the name,
    platform and well-formed Ed25519 key of that start call; and between the two each required
    factor was presented for that pairing id with evidence the configured verifier accepted in
    the state it met. *)
Theorem paired_device_passed_every_factor st0 ocs st oc resp st' :
  attempts (owner st0) = ∅ → owner_run st0 ocs = Some st →
  owner_step st oc = Some (resp, st') → device_keys (store st') ≠ device_keys (store st) →
  ∃ id before r0 rand0 c0 after deviceID key name plat c r rand io,
    ocs = before ++ OStart r0 rand0 c0 :: after ∧ minted r0 rand0 id key name plat ∧
    oc = OComplete r rand io c ∧ names_attempt r id ∧
    randomID rand = Ok deviceID ∧ devices (store st) !! deviceID = None ∧
    devices (store st') = <[deviceID := DeviceRow (Some name) (Some plat) key (Some (t_unix c))
                              (Some (t_unix c)) (Some 0)]> (devices (store st)) ∧
    t_expired c ≤ t_new c0 + PairingTTL ∧
    ∀ f, f ∈ RequiredFactors →
      ∃ b oc1 a st1, after = b ++ oc1 :: a ∧
        owner_run st0 (before ++ OStart r0 rand0 c0 :: b) = Some st1 ∧
        accepted (owner_verifiers (owner st0)) (t_new c0) st1 oc1 id f.
Proof.
  intros Hempty Hrun Hs Hne. pose proof (new_device_pairs _ _ _ _ Hs Hne) as Hp.
  apply pairs_device_new in Hp
    as (r & rand & io & c & id & rec & dev & -> & Hid & Hdev & Hl & Ht & Hall & Hnone & ->).
  destruct (attempts_earned st0 ocs st id rec Hempty Hrun Hl)
    as (b & r0 & rand0 & c0 & a & -> & Hm & Ht0 & Hf).
  rewrite Ht0 in Ht. exists id, b, r0, rand0, c0, a, dev. eexists _, _, _, c, r, rand, io.
  split_and!; try done. intros f Hrf. by apply Hf, Hall.
Qed.

(** ** A daemon whose passkey verifier is never bound *)

Lemma unbound_never_accepts vs t0 st oc id :
  vs !! FactorPasskey = Some (Some PtrPasskey) → unbound (passkeyVerifier (shared (owner st))) →
  ¬ accepted vs t0 st oc id FactorPasskey.
Proof.
  intros Hvs Hu (ev & c & p & fs & _ & Hp & _ & Hv). rewrite Hvs in Hp. injection Hp as <-.
  simpl in Hv. injection Hv as Hv _. destruct (unbound_refuses _ ev Hu) as [e He]. congruence.
Qed.

Lemma owner_verifiers_passkey o : owner_verifiers o !! FactorPasskey = Some (Some PtrPasskey).
Proof.
  unfold owner_verifiers. destruct (passwordVerifier (shared o)), (totpVerifier (shared o)); by vm_compute.
Qed.

Lemma unbound_never_satisfied st0 ocs st id rec :
  attempts (owner st0) = ∅ → unbound (passkeyVerifier (shared (owner st0))) →
  owner_run st0 ocs = Some st → attempts (owner st) !! id = Some rec →
  is_satisfied (attempt rec) FactorPasskey = false.
Proof.
  intros Hempty Hu Hrun Hl. apply not_true_is_false. intros Hsat.
  destruct (attempts_earned st0 ocs st id rec Hempty Hrun Hl) as (b & r0 & rand0 & c0 & a & _ & _ & _ & Hf).
  destruct (Hf _ Hsat) as (b' & oc1 & a' & st1 & _ & Hrun1 & Hacc).
  apply (unbound_never_accepts _ _ _ _ _ (owner_verifiers_passkey _)) in Hacc; [done|].
  by destruct (owner_run_config _ _ _ Hrun1) as (_ & _ & ->).
Qed.

(** From a state NewOwner made, no call completes an attempt. *)
Lemma fresh_never_pairs cfg lim d ocs st oc st' :
  owner_run (OwnerState (NewOwner cfg) lim d) ocs = Some st → ¬ pairs_device st oc st'.
Proof.
  intros Hrun (? & ? & ? & ? & id & rec & ? & _ & _ & _ & Hl & _ & Hall & _)%pairs_device_new.
  assert (is_satisfied (attempt rec) FactorPasskey = false) as Hf
    by (apply (unbound_never_satisfied (OwnerState (NewOwner cfg) lim d) ocs st id); [done|apply New_unbound|done|done]).
  by rewrite (Hall FactorPasskey) in Hf by (right; right; left).
Qed.

Definition revokes (oc : owner_call) : bool := match oc with ORevoke _ _ => true | _ => false end.

Lemma fresh_run_store cfg lim d ocs st :
  owner_run (OwnerState (NewOwner cfg) lim d) ocs = Some st →
  Forall (λ oc, revokes oc = false) ocs → store st = d.
Proof.
  revert st. induction ocs as [|oc ocs IH] using rev_ind; intros st; [by intros [= <-]|].
  rewrite owner_run_snoc. destruct (owner_run _ ocs) as [st1|] eqn:Hrun; simpl; [|done].
  destruct (owner_step st1 oc) as [[resp st2]|] eqn:Hs; simpl; [|done]. intros [= <-].
  intros [HF Hoc%Forall_inv]%Forall_app. rewrite <- (IH _ eq_refl HF).
  destruct (owner_step_frame _ _ _ _ Hs) as (_ & _ & _ & [->|[(r & io & -> & _)|Hp]]); [done|done|].
  by destruct (fresh_never_pairs _ _ _ _ _ _ _ Hrun Hp).
Qed.

(** From NewOwner, whatever the configuration, no history of owner requests ever adds a
    device and no completion answers 200: the passkey verifier is only usable after BindSession,
    which no handler calls. *)
Lemma deployed_daemon_never_pairs cfg lim d ocs st r rand io c :
  owner_run (OwnerState (NewOwner cfg) lim d) ocs = Some st →
  device_keys (store st) = device_keys d ∧
  status (handlePairComplete st r rand io c).1 ≠ 200.
Proof.
  intros Hrun. split.
  - revert st Hrun. induction ocs as [|oc ocs IH] using rev_ind; intros st; [by intros [= <-]|].
    rewrite owner_run_snoc. destruct (owner_run _ ocs) as [st1|] eqn:Hrun1; simpl; [|done].
    destruct (owner_step st1 oc) as [[resp st2]|] eqn:Hs; simpl; [|done]. intros [= <-].
    rewrite <- (IH _ eq_refl). destruct (decide (device_keys (store st2) = device_keys (store st1))) as [|Hne];
      [done|].
    by destruct (fresh_never_pairs _ _ _ _ _ _ _ Hrun1 (new_device_pairs _ _ _ _ Hs Hne)).
  - intros Hok%complete_200. by eapply fresh_never_pairs.
Qed.

(** ** Refusals *)

(** The three endpoints that take a factor, with their request and clock. *)
Definition factor_call (oc : owner_call) : option (request * clock) :=
  match oc with
  | OPassword r c | OTOTP r c | OPasskey r c => Some (r, c)
  | _ => None
  end.

(** What a factor endpoint does to the limiter, by its answer. *)
Inductive limiter_effect st (r : request) (c : clock) (resp : response) : RateLimiter → Prop :=
  | le_failure :
      resp = invalid_credentials →
      limiter_effect st r c resp (RecordFailure (limiter st) (clientIP r) (email (owner st)) (t_fail c))
  | le_success :
      status resp = 200 → limiter_effect st r c resp (RecordSuccess (limiter st) (clientIP r) (email (owner st)))
  | le_nothing : status resp ≠ 401 → limiter_effect st r c resp (limiter st).

Lemma satisfy_effect st r id f ev c resp st' :
  satisfyFactor st (clientIP r) id f ev c = Some (resp, st') → limiter_effect st r c resp (limiter st').
Proof.
  intros [(_ & -> & ->)|(rec & res & att & fs & t & _ & _ & -> & ->)]%satisfyFactor_cases; [by simpl; apply le_nothing|].
  simpl. unfold satisfy_response, satisfy_limiter. destruct res as [e|]; [|by apply le_success].
  destruct (errors_is e ErrPairingExpired), (errors_is e ErrPairingConsumed), (errors_is e ErrUnknownFactor);
    simpl; by first [apply le_nothing|apply le_failure].
Qed.

Lemma factor_effect st oc r c resp st' :
  factor_call oc = Some (r, c) → owner_step st oc = Some (resp, st') →
  limiter_effect st r c resp (limiter st').
Proof.
  intros Hoc Hs. assert (∀ f ef, handlePairFactor f ef st r c = Some (resp, st') →
    limiter_effect st r c resp (limiter st')) as Hgen.
  { intros f ef. unfold handlePairFactor. destruct (not_post r); [intros [= <- <-]; by apply le_nothing|].
    destruct (json_decode (Body r)); [|intros [= <- <-]; by apply le_nothing].
    destruct (Allow _ _ _ _); [intros [= <- <-]; by apply le_nothing|]. apply satisfy_effect. }
  destruct oc; simpl in Hoc; try done; injection Hoc as -> ->; simpl in Hs; [|by eapply Hgen..].
  revert Hs. unfold handlePairPassword. destruct (not_post r); [intros [= <- <-]; by apply le_nothing|].
  destruct (json_decode (Body r)); [|intros [= <- <-]; by apply le_nothing].
  destruct (Allow _ _ _ _); [intros [= <- <-]; by apply le_nothing|].
  destruct (_ || _); [intros [= <- <-]; by apply le_failure|]. apply satisfy_effect.
Qed.

(** No other endpoint asks the limiter or tells it anything. *)
Lemma other_effect st oc resp st' :
  factor_call oc = None → owner_step st oc = Some (resp, st') → limiter st' = limiter st.
Proof.
  intros Hoc Hs. destruct oc as [r rand c|r c|r c|r c|r rand io c|r io|r io]; simpl in Hoc, Hs; try done.
  - injection Hs as Hs. revert Hs. unfold handlePairStart. by repeat case_match; intros [= _ <-].
  - injection Hs as Hs. revert Hs. unfold handlePairComplete. by repeat case_match; intros [= _ <-].
  - by injection Hs as _ <-.
  - injection Hs as Hs. revert Hs. unfold handleDevicesRevoke. by repeat case_match; intros [= _ <-].
Qed.

(** A history in which no factor is accepted: the times at which the 401s of the
    factor endpoints were recorded, and the state it ends in. Anything else may
    happen in between. *)
Fixpoint unaccepted_run st (ocs : list owner_call) : option (list Z * owner_state) :=
  match ocs with
  | [] => Some ([], st)
  | oc :: ocs' =>
     '(resp, st1) ← owner_step st oc;
     match factor_call oc with
     | None => unaccepted_run st1 ocs'
     | Some (_, c) =>
        if status resp =? 200 then None
        else '(ts, st2) ← unaccepted_run st1 ocs'; Some (if status resp =? 401 then t_fail c :: ts else ts, st2)
     end
  end.

(** What is counted against the account meanwhile. *)
Lemma unaccepted_run_account st ocs ts st' :
  unaccepted_run st ocs = Some (ts, st') →
  email (owner st') = email (owner st) ∧
  lookup0 (byAcct (limiter st')) (email (owner st)) =
    fold_left bump ts (lookup0 (byAcct (limiter st)) (email (owner st))).
Proof.
  revert st ts. induction ocs as [|oc ocs IH]; intros st ts; simpl; [by intros [= <- <-]|].
  destruct (owner_step st oc) as [[resp st1]|] eqn:Hs; simpl; [|done].
  destruct (owner_step_frame _ _ _ _ Hs) as [He _].
  destruct (factor_call oc) as [[r c]|] eqn:Hoc; cycle 1.
  { intros Hr. apply IH in Hr as [He' Hl]. rewrite He in *. by rewrite Hl, (other_effect _ _ _ _ Hoc Hs). }
  destruct (Z.eqb_spec (status resp) 200) as [|H200]; [done|].
  destruct (unaccepted_run st1 ocs) as [[ts1 st2]|] eqn:Hr; simpl; [|done]. intros [= <- <-].
  destruct (IH st1 ts1 Hr) as [He' Hl]. rewrite He in *. split; [done|]. rewrite Hl.
  pose proof (factor_effect _ _ _ _ _ _ Hoc Hs) as Heff.
  inversion Heff as [E HL|E HL|E HL]; [|done|].
  - subst resp. simpl. by rewrite lookup0_fail.
  - by rewrite (proj2 (Z.eqb_neq _ _) E).
Qed.

(** What a locked-out request gets. *)
Lemma locked_out st oc r c body :
  factor_call oc = Some (r, c) → not_post r = false → json_decode (Body r) = Ok body →
  is_Some (Allow (limiter st) (clientIP r) (email (owner st)) (t_allow c)) →
  owner_step st oc = Some (too_many_attempts, st).
Proof.
  intros Hoc Hp Hj [e He].
  destruct oc; simpl in Hoc; try done; injection Hoc as -> ->; simpl;
    unfold handlePairPassword, handlePairTOTP, handlePairPasskey, handlePairFactor;
    by rewrite Hp, Hj, He.
Qed.

(** A factor request, if it is one, asks the limiter before [t]. *)
Definition asks_before (t : Z) (oc : owner_call) : Prop :=
  ∀ r c, factor_call oc = Some (r, c) → 0 ≤ t_allow c < t.

Definition account_locked (t : Z) st : Prop := lockedUntil (lookup0 (byAcct (limiter st)) (email (owner st))) = t.

Lemma account_locked_refuses t st r c :
  account_locked t st → 0 ≤ t_allow c < t →
  is_Some (Allow (limiter st) (clientIP r) (email (owner st)) (t_allow c)).
Proof.
  intros HL Ht. apply Allow_refuses. right. rewrite locked_lookup0, HL by lia. apply Z.ltb_lt. lia.
Qed.

(** Until then a locked account stays locked, whatever is asked. *)
Lemma account_locked_step t st oc resp st' :
  account_locked t st → asks_before t oc → owner_step st oc = Some (resp, st') → account_locked t st'.
Proof.
  intros HL Ht Hs. destruct (owner_step_frame _ _ _ _ Hs) as [He _]. unfold account_locked in *. rewrite He.
  destruct (factor_call oc) as [[r c]|] eqn:Hoc; [|by rewrite (other_effect _ _ _ _ Hoc Hs)].
  specialize (Ht r c Hoc). destruct (not_post r) eqn:Hp.
  { destruct oc; simpl in Hoc; try done; injection Hoc as -> ->; simpl in Hs;
      unfold handlePairPassword, handlePairTOTP, handlePairPasskey, handlePairFactor in Hs;
      rewrite Hp in Hs; by injection Hs as _ <-. }
  destruct (json_decode (Body r)) as [body|] eqn:Hj.
  - rewrite (locked_out st oc r c body) in Hs; [by injection Hs as _ <-|done..|].
    by eapply account_locked_refuses.
  - destruct oc; simpl in Hoc; try done; injection Hoc as -> ->; simpl in Hs;
      unfold handlePairPassword, handlePairTOTP, handlePairPasskey, handlePairFactor in Hs;
      rewrite Hp, Hj in Hs; by injection Hs as _ <-.
Qed.

Lemma account_locked_run t st ocs st' :
  account_locked t st → Forall (asks_before t) ocs → owner_run st ocs = Some st' → account_locked t st'.
Proof.
  intros HL HF. revert st HL. induction HF as [|oc ocs Hoc _ IH]; intros st HL; simpl; [by intros [= <-]|].
  destruct (owner_step st oc) as [[resp st1]|] eqn:Hs; simpl; [|done].
  apply IH. by eapply account_locked_step.
Qed.

(** C9: From a state in which nothing is counted against the account (at the start, or after an
    accepted factor): after 5k factor requests answered 401, from whatever addresses and with
    whatever other requests and answers in between but no accepted factor, every well-formed
    POST to one of the three factor endpoints that asks before the k-th lockout ends (one minute
    doubled k-1 times, at most an hour, from the last of the 401s) is answered 429 and changes
    nothing, wherever it comes from and whatever requests, asking before that too, came in
    between. *)
Theorem guessing_locks_the_account st0 ocs ts tl st k later st' oc r c body :
  byAcct (limiter st0) !! email (owner st0) = None → unaccepted_run st0 ocs = Some (ts ++ [tl], st) →
  Z.of_nat (length (ts ++ [tl])) = 5 * k → 1 ≤ k ≤ max_int64 →
  owner_run st later = Some st' → Forall (asks_before (tl + lockout_spec k)) later →
  factor_call oc = Some (r, c) → not_post r = false → json_decode (Body r) = Ok body →
  0 ≤ t_allow c < tl + lockout_spec k →
  owner_step st' oc = Some (too_many_attempts, st').
Proof.
  intros Hnew Hrun Hlen Hk Hlater Hbefore Hoc Hp Hj Ht.
  destruct (unaccepted_run_account _ _ _ _ Hrun) as [He Hl].
  assert (account_locked (tl + lockout_spec k) st) as HL.
  { unfold account_locked. rewrite He, Hl. unfold lookup0 at 1. rewrite Hnew. simpl.
    by rewrite (bump_rounds k). }
  eapply locked_out; [done..|].
  apply (account_locked_refuses (tl + lockout_spec k)); [|done]. by eapply account_locked_run.
Qed.

(** ** The verifiers of an owner *)

Lemma pick_password o :
  pick (owner_verifiers o) FactorPassword =
  match passwordVerifier (shared o) with
  | Some _ => Supplied PtrPassword
  | None => NotImplemented FactorPassword
  end.
Proof.
  unfold owner_verifiers. by destruct (passwordVerifier (shared o)), (totpVerifier (shared o)); vm_compute.
Qed.

Lemma pick_totp o :
  pick (owner_verifiers o) FactorTOTP =
  match totpVerifier (shared o) with
  | Some _ => Supplied PtrTOTP
  | None => NotImplemented FactorTOTP
  end.
Proof.
  unfold owner_verifiers. by destruct (passwordVerifier (shared o)), (totpVerifier (shared o)); vm_compute.
Qed.

Lemma pick_passkey o : pick (owner_verifiers o) FactorPasskey = Supplied PtrPasskey.
Proof. unfold pick. by rewrite owner_verifiers_passkey. Qed.

(** ** No request panics *)

(** A stored hash the key derivation accepts, as [HashPassword] makes them. *)
Definition hash_safe (f : factors) : Prop :=
  ∀ enc pr salt hash, passwordVerifier f = Some enc →
    decodeArgon2id enc = Ok (pr, salt, hash) → 1 ≤ iterations pr ∧ 1 ≤ parallelism pr.

Lemma password_total enc pw :
  (∀ pr salt hash, decodeArgon2id enc = Ok (pr, salt, hash) → 1 ≤ iterations pr ∧ 1 ≤ parallelism pr) →
  is_Some (password_Verify enc pw).
Proof.
  intros Hsafe. unfold password_Verify, ComparePassword.
  destruct (decodeArgon2id enc) as [[[pr salt] hash]|] eqn:Hd; simpl; [|by eexists].
  destruct (Hsafe _ _ _ eq_refl) as [Hi Hpar].
  destruct (IDKey_ok pw salt (iterations pr) (memoryKiB pr) (parallelism pr)
    (Z.of_nat (length hash) mod 2 ^ 32)) as (key & -> & _); [done..|apply Z.mod_pos_bound; lia|].
  simpl. by eexists.
Qed.

Lemma slot_total o f ev t :
  hash_safe (shared o) → f ∈ RequiredFactors →
  is_Some (slot_verify (pick (owner_verifiers o) f) ev (shared o, t)).
Proof.
  intros Hsafe. unfold RequiredFactors. rewrite !elem_of_cons, elem_of_nil.
  intros [->|[->|[->|[]]]]; rewrite ?pick_password, ?pick_totp, ?pick_passkey.
  - destruct (passwordVerifier (shared o)) as [enc|] eqn:E; simpl; [|by eexists].
    unfold verify, factor_Verifier; simpl. rewrite E; simpl.
    destruct (password_total enc ev) as [res ->]; [intros; by eapply Hsafe|]. by eexists.
  - destruct (totpVerifier (shared o)) as [[secret last]|] eqn:E; simpl; [|by eexists].
    unfold verify, factor_Verifier; simpl. rewrite E; simpl.
    destruct (totp_Verify _ _ _ _). by eexists.
  - by eexists.
Qed.

Lemma satisfyFactor_total st ip id f ev c :
  owner_wf st → hash_safe (shared (owner st)) → is_Some (satisfyFactor st ip id f ev c).
Proof.
  intros Hwf Hsafe. unfold satisfyFactor.
  destruct (_ !! id) as [rec|] eqn:Hm; simpl; [|by eexists].
  apply owner_sweep_lookup in Hm as [Hl _].
  destruct (Satisfy _ _ _ _ _) as [[[res att] [fs t]]|] eqn:Hs; simpl; [by eexists|].
  apply Satisfy_cases in Hs as (v & Hv & Hn).
  apply (proj2 (proj2 (proj2 (Hwf _ _ Hl)))) in Hv as [Hf ->].
  destruct (slot_total (owner st) f ev (t_totp c)) as [x Hx]; [done..|]. congruence.
Qed.

Lemma owner_step_total st oc :
  owner_wf st → hash_safe (shared (owner st)) → is_Some (owner_step st oc).
Proof.
  intros Hwf Hsafe.
  destruct oc; simpl; try (by eexists);
    unfold handlePairPassword, handlePairTOTP, handlePairPasskey, handlePairFactor;
    destruct (not_post r); try (by eexists); destruct (json_decode (Body r)); try (by eexists);
    destruct (Allow _ _ _ _); try (by eexists); try by apply satisfyFactor_total.
  destruct (_ || _); [by eexists|by apply satisfyFactor_total].
Qed.

(** C28: If the stored password hash decodes to at least one pass and one thread, or does not
    decode, every history of owner requests runs to its end without a panic. *)
Theorem no_request_panics st0 ocs :
  attempts (owner st0) = ∅ → hash_safe (shared (owner st0)) → is_Some (owner_run st0 ocs).
Proof.
  intros Hempty Hsafe. induction ocs as [|oc ocs [st Hrun]] using rev_ind; [by eexists|].
  rewrite owner_run_snoc, Hrun; simpl.
  destruct (owner_run_config _ _ _ Hrun) as (Hp & _ & _).
  destruct (owner_step_total st oc) as [[resp st'] ->]; [| |by eexists].
  - eapply owner_run_wf; [|done]. by apply owner_wf_empty.
  - unfold hash_safe. by rewrite Hp.
Qed.

(** ** The password endpoint *)

(** The request that reaches the check of the credentials. *)
Definition unlocked st (r : request) (c : clock) (body : gmap string string) : Prop :=
  not_post r = false ∧ json_decode (Body r) = Ok body ∧
  Allow (limiter st) (clientIP r) (email (owner st)) (t_allow c) = None.

Definition email_matches st (body : gmap string string) : bool :=
  negb (String.eqb (email (owner st)) "") && equal_fold (field body "email") (email (owner st)).

Lemma handlePairPassword_unlocked st r c body :
  unlocked st r c body →
  handlePairPassword st r c =
  if email_matches st body
  then satisfyFactor st (clientIP r) (field body "pairing_id") FactorPassword (field body "password") c
  else Some (invalid_credentials,
             with_limiter st (RecordFailure (limiter st) (clientIP r) (email (owner st)) (t_fail c))).
Proof.
  intros (Hp & Hj & Ha). unfold handlePairPassword, email_matches. rewrite Hp, Hj, Ha.
  by destruct (String.eqb _ _), (equal_fold _ _).
Qed.

Definition right_password st (body : gmap string string) : Prop :=
  ∃ enc, passwordVerifier (shared (owner st)) = Some enc ∧
    password_Verify enc (field body "password") = Some None.

Lemma password_error_plain enc pw e :
  password_Verify enc pw = Some (Some e) →
  errors_is e ErrPairingExpired = false ∧ errors_is e ErrPairingConsumed = false ∧
  errors_is e ErrUnknownFactor = false.
Proof.
  unfold password_Verify, ComparePassword.
  destruct (decodeArgon2id enc) as [[[pr salt] hash]|e'] eqn:Hd.
  - destruct (IDKey _ _ _ _ _ _); simpl; [|done]. case_bool_decide; [done|]. by intros [= <-].
  - intros [= <-]. revert Hd. unfold decodeArgon2id, malformed.
    repeat (case_match; try done); by intros [= <-].
Qed.

(** C31: For a live attempt a wrong e-mail address and a wrong password get the same 401
    response and the same counted failure, and leave the attempt, the verifiers and the tables
    as they were. *)
Theorem wrong_credentials_look_alike st r c body rec resp st' :
  owner_wf st → unlocked st r c body →
  attempts (owner st) !! field body "pairing_id" = Some rec →
  t_sweep c (field body "pairing_id") ≤ StartedAt (attempt rec) + PairingTTL →
  t_expired c ≤ StartedAt (attempt rec) + PairingTTL →
  email_matches st body = false ∨ ¬ right_password st body →
  handlePairPassword st r c = Some (resp, st') →
  resp = invalid_credentials ∧
  limiter st' = RecordFailure (limiter st) (clientIP r) (email (owner st)) (t_fail c) ∧
  attempts (owner st') !! field body "pairing_id" = Some rec ∧
  shared (owner st') = shared (owner st) ∧ store st' = store st.
Proof.
  intros Hwf Hu Hl Hsw Hexp Hbad. rewrite (handlePairPassword_unlocked _ _ _ body) by done.
  destruct (email_matches st body); [|by intros [= <- <-]].
  destruct Hbad as [[=]|Hbad]. unfold satisfyFactor.
  assert (owner_sweepLocked (attempts (owner st)) (t_sweep c) !! field body "pairing_id" = Some rec)
    as -> by (by apply owner_sweep_lookup).
  simpl. destruct (Satisfy _ _ _ _ _) as [[[res att] [fs t]]|] eqn:Hs; simpl; [|done].
  intros [= <- <-]. destruct (Hwf _ _ Hl) as (Hopen & _ & _ & Hv).
  assert (verifiers (attempt rec) !! FactorPassword = Some (pick (owner_verifiers (owner st)) FactorPassword))
    as Hpw by (apply Hv; split; [by left|done]).
  rewrite pick_password in Hpw. apply Satisfy_cases in Hs.
  assert (∃ e, res = Some e ∧ att = attempt rec ∧ fs = shared (owner st) ∧
    errors_is e ErrPairingExpired = false ∧ errors_is e ErrPairingConsumed = false ∧
    errors_is e ErrUnknownFactor = false) as (e & -> & -> & -> & He1 & He2 & He3).
  { destruct (passwordVerifier (shared (owner st))) as [enc|] eqn:Henc.
    - assert (∀ r fs', slot_verify (Supplied PtrPassword) (field body "password") (shared (owner st), t_totp c)
        = Some (r, fs') → fs' = (shared (owner st), t_totp c) ∧
        password_Verify enc (field body "password") = Some r) as Hpv.
      { intros r' fs'. simpl. unfold verify, factor_Verifier. simpl. rewrite Henc; simpl.
        destruct (password_Verify enc _); simpl; [|done]. by intros [= <- <-]. }
      destruct res as [e|]; simpl in Hs.
      + destruct Hs as (-> & [(? & _)|[(_ & ? & _)|[(? & _)|(_ & _ & v & Hv' & Hsl)]]]); [congruence|lia|congruence|].
        rewrite Hpw in Hv'. injection Hv' as <-. apply Hpv in Hsl as [[= -> _] Hpe].
        apply password_error_plain in Hpe as (? & ? & ?). by exists e.
      + destruct Hs as (_ & _ & _ & v & Hv' & Hsl). rewrite Hpw in Hv'. injection Hv' as <-.
        apply Hpv in Hsl as [_ Hok]. by destruct Hbad; exists enc.
    - destruct res as [e|]; simpl in Hs.
      + destruct Hs as (-> & [(? & _)|[(_ & ? & _)|[(? & _)|(_ & _ & v & Hv' & Hsl)]]]); [congruence|lia|congruence|].
        rewrite Hpw in Hv'. injection Hv' as <-. simpl in Hsl. injection Hsl as <- <- _. by eexists.
      + destruct Hs as (_ & _ & _ & v & Hv' & Hsl). rewrite Hpw in Hv'. by injection Hv' as <-. }
  unfold satisfy_response, satisfy_limiter. rewrite He1, He2, He3; simpl.
  split_and!; try done. rewrite lookup_insert_eq. by destruct rec.
Qed.

(** With a pairing id no attempt has, an unlocked password request is answered 404 when its
    e-mail address is the account's and 401 when it is not, so the response tells the two apart.
    *)
Lemma unknown_attempt_reveals_the_email st r c body :
  unlocked st r c body → attempts (owner st) !! field body "pairing_id" = None →
  ∃ st', handlePairPassword st r c =
    Some (if email_matches st body then unknown_attempt else invalid_credentials, st').
Proof.
  intros Hu Hl. rewrite (handlePairPassword_unlocked _ _ _ body) by done.
  destruct (email_matches st body); [|by eexists]. unfold satisfyFactor.
  destruct (owner_sweepLocked _ _ !! _) as [rec|] eqn:Hm; [|by eexists].
  apply owner_sweep_lookup in Hm as [Hm _]. congruence.
Qed.

(** ** The good case *)

(** C29: Completing a live attempt with no outstanding factor answers 200 with the new device
    id, stores the device with the attempt's name, platform and key, unrevoked, and removes the
    attempt, so that completing it again is answered 404. *)
Theorem satisfied_attempt_pairs st r rand buf c body rec :
  not_post r = false → json_decode (Body r) = Ok body → rand = Ok buf →
  attempts (owner st) !! field body "pairing_id" = Some rec →
  consumed (attempt rec) = false → Outstanding (attempt rec) = [] →
  t_sweep c (field body "pairing_id") ≤ StartedAt (attempt rec) + PairingTTL →
  t_expired c ≤ StartedAt (attempt rec) + PairingTTL →
  devices (store st) !! hex_encode buf = None →
  (handlePairComplete st r rand None c).1 =
    write_json 200 (JObject [("device_id", JString (hex_encode buf))]) ∧
  attempts (owner (handlePairComplete st r rand None c).2) !! field body "pairing_id" = None ∧
  GetDevice (store (handlePairComplete st r rand None c).2) (hex_encode buf) None =
    Ok (MkDevice (hex_encode buf) (deviceName rec) (platform rec) (DevicePub (attempt rec))
          (t_unix c) (t_unix c) false) ∧
  ∀ rand' io' c',
    (handlePairComplete (handlePairComplete st r rand None c).2 r rand' io' c').1 = unknown_attempt.
Proof.
  intros Hp Hj -> Hl Hopen Hout Hsw Hexp Hfresh.
  assert (∃ d', handlePairComplete st r (Ok buf) None c =
      (write_json 200 (JObject [("device_id", JString (hex_encode buf))]),
       OwnerState (owner (with_attempts st (delete (field body "pairing_id")
         (owner_sweepLocked (attempts (owner st)) (t_sweep c))))) (limiter st) d') ∧
      Store_PairDevice (store st) (hex_encode buf) (deviceName rec) (platform rec)
        (DevicePub (attempt rec)) (t_unix c) None = (None, d')) as (d' & -> & HP).
  { unfold handlePairComplete. rewrite Hp, Hj.
    rewrite (proj2 (owner_sweep_lookup _ _ _ rec)) by done.
    unfold Complete. rewrite Hopen, Expired_spec, (proj2 (Z.ltb_ge _ _) Hexp), Hout; simpl.
    unfold Store_PairDevice, PairDevice; simpl. rewrite Hfresh; simpl.
    by eexists. }
  apply Store_PairDevice_ok in HP as (_ & _ & _ & Hd).
  split_and!; [done|by simpl; rewrite lookup_delete_eq| |].
  - unfold GetDevice; simpl. by rewrite Hd, lookup_insert_eq.
  - intros rand' io' c'. unfold handlePairComplete; simpl. rewrite Hp, Hj.
    destruct (owner_sweepLocked (delete _ _) _ !! _) as [rec'|] eqn:E; [|done].
    apply owner_sweep_lookup in E as [E _]. by rewrite lookup_delete_eq in E.
Qed.

(** C30: In every reachable state each stored attempt is unconsumed, has its map key as code, a
    valid device key and exactly the owner's verifiers for the three required factors; the
    verifiers keep their configuration; and completion never answers that an attempt was already
    completed. *)
Theorem attempts_stay_well_formed st0 ocs st :
  attempts (owner st0) = ∅ → owner_run st0 ocs = Some st →
  owner_wf st ∧ same_config (shared (owner st0)) (shared (owner st)) ∧
  ∀ r rand io c, (handlePairComplete st r rand io c).1 ≠ write_error 409 "pairing attempt already completed".
Proof.
  intros Hempty Hrun. pose proof (owner_run_wf _ _ _ (owner_wf_empty _ Hempty) Hrun) as Hwf.
  split_and!; [done|by eapply owner_run_config|]. intros r rand io c. unfold handlePairComplete.
  destruct (not_post r); [done|]. destruct (json_decode (Body r)) as [body|]; [|done].
  destruct (_ !! field body "pairing_id") as [rec|] eqn:Hm; [|done].
  apply owner_sweep_lookup in Hm as [Hl _]. destruct (Hwf _ _ Hl) as [Hopen _].
  unfold Complete. rewrite Hopen. destruct (Expired _ _); [done|].
  destruct (Outstanding _); simpl; [|done].
  destruct (randomID rand); [|done]. by destruct (Store_PairDevice _ _ _ _ _ _ _) as [[]].
Qed.
End owner_props.

(** ** Concrete histories *)

Module Example_run.
#[local] Existing Instances ascii_only window_lib padding_kdf echo_lib form_decoder merge_order.

Definition key : string := b64_encode true (replicate 32 7).
Definition hash : string := encode_hash (replicate 16 1) (bytes "pw" ++ replicate 30 0).

Definition config : OwnerConfig := MkOwnerConfig "me@x.org" hash "S" "x.org" "Remote" ["https://x.org"].

(** The owner after a [BindSession] for the answer "ok". *)
Definition bound (o : Owner) : Owner :=
  MkOwner (email o)
    (Factors (passwordVerifier (shared o)) (totpVerifier (shared o))
       (BindSession (passkeyVerifier (shared o)) "me" "ok")) (attempts o).

Definition start : owner_state := OwnerState (bound (NewOwner config)) NewRateLimiter empty_db.

Definition at_ (s : Z) : clock := still (s * Second).
Definition post (body : string) : request := post_form "/" "10.0.0.9:4711" body.
Definition id1 : string := hex_encode [171].

Definition history : list owner_call :=
  [OStart (post ("device_pubkey=" +:+ b64_encode true (replicate 33 7))) (Ok [171]) (at_ 90);
   OStart (post ("device_pubkey=" +:+ key +:+ "&device_name=phone")) (Ok [171]) (at_ 90);
   OPassword (post "pairing_id=ab&email=ME@x.org&password=no") (at_ 91);
   OPassword (post "pairing_id=ab&email=ME@x.org&password=pw") (at_ 92);
   OTOTP (post "pairing_id=ab&code=3") (at_ 95);
   OPasskey (post "pairing_id=ab&assertion=ok") (at_ 99)].

Definition last_call : owner_call := OComplete (post "pairing_id=ab") (Ok [17]) None (at_ 100).

Definition after_history : owner_state := default start (owner_run start history).
Definition paired : response * owner_state :=
  default (unknown_attempt, start) (owner_step after_history last_call).

Lemma history_runs : owner_run start history = Some after_history.
Proof. by vm_compute. Qed.

Lemma history_pairs :
  owner_step after_history last_call = Some (paired.1, paired.2) ∧
  device_keys (store paired.2) ≠ device_keys (store after_history).
Proof. split; [by vm_compute|]. intros Heq. by vm_compute in Heq. Qed.

Lemma paired_device_passed_every_factor_witness :
  ∃ id deviceID row, devices (store paired.2) = <[deviceID := row]> (devices (store after_history)) ∧
    d_pubkey row = key ∧ ∀ f, f ∈ RequiredFactors → ∃ b oc a ev c, history = b ++ oc :: a ∧ presents oc = Some (id, f, ev, c).
Proof.
  destruct (paired_device_passed_every_factor start history after_history last_call paired.1 paired.2)
    as (id & b & r & rand & c & a & dev & k & name & plat & c1 & r1 & rd & io & Hh & Hm & Hoc & _ & Hdev & _ & Hd & _ & Hf);
    [done|apply history_runs|apply history_pairs|apply history_pairs|].
  exists id, dev. eexists. split; [exact Hd|]. split.
  { injection Hoc as _ <- _ _. injection Hdev as <-.
    assert (d_pubkey <$> devices (store paired.2) !! "11" = Some key) as Hk by by vm_compute.
    change (hex_encode [17]) with "11" in Hd. rewrite Hd, lookup_insert_eq in Hk. by injection Hk. }
  intros f (b1 & oc & a1 & st1 & -> & _ & ev & c2 & p & fs & Hp & _)%Hf.
  exists (b ++ OStart r rand c :: b1), oc, a1, ev, c2. split; [|done].
  by rewrite Hh, <- app_assoc.
Defined.

(** The same requests, after a start from the configuration alone. *)
Definition fresh : owner_state := OwnerState (NewOwner config) NewRateLimiter empty_db.

Lemma deployed_daemon_never_pairs_witness :
  let st := default fresh (owner_run fresh history) in
  device_keys (store st) = ∅ ∧
  status (handlePairComplete st (post "pairing_id=ab") (Ok [17]) None (at_ 100)).1 ≠ 200.
Proof.
  apply (deployed_daemon_never_pairs config NewRateLimiter empty_db history). by vm_compute.
Defined.

(** Five wrong guesses, at two endpoints, then the right password. *)
Definition guesses : list owner_call :=
  [OPassword (post "pairing_id=ab&email=ME@x.org&password=no") (at_ 1000);
   OPassword (post "pairing_id=ab&email=you@x.org&password=pw") (at_ 1001);
   OTOTP (post "pairing_id=ab&code=1") (at_ 1002);
   OPassword (post "pairing_id=&email=&password=") (at_ 1003);
   OPasskey (post "pairing_id=ab&assertion=no") (at_ 1004)].

Definition opened : owner_state :=
  default start (owner_run start
    [OStart (post ("device_pubkey=" +:+ key)) (Ok [171]) (at_ 999)]).

(** The same with another start and a guess at an attempt that is not there in
    between, from two addresses. *)
Definition more_guesses : list owner_call :=
  firstn 2 guesses ++
  [OStart (post ("device_pubkey=" +:+ key)) (Ok [172]) (at_ 1001);
   OTOTP (post_form "/" "10.0.0.8:4711" "pairing_id=zz&code=1") (at_ 1001);
   OPassword (post_form "/" "10.0.0.8:4711" "pairing_id=ab&email=ME@x.org&password=no") (at_ 1002)] ++
  skipn 3 guesses.

Definition guessed : owner_state := default start (owner_run opened more_guesses).

Definition right_password : owner_call := OPassword (post "pairing_id=ab&email=ME@x.org&password=pw") (at_ 1030).

(** The fields of a body. *)
Definition sent (body : string) : gmap string string :=
  match json_decode (Stream body None) with Ok b => b | Err _ => ∅ end.

Lemma guessing_locks_the_account_witness :
  let oc := OPassword (post "pairing_id=ab&email=ME@x.org&password=pw") (at_ 1063) in
  owner_step guessed oc = Some (too_many_attempts, guessed).
Proof.
  intros oc.
  apply (guessing_locks_the_account opened more_guesses
           [1000 * Second; 1001 * Second; 1002 * Second; 1003 * Second] (1004 * Second) guessed 1
           [right_password] guessed oc (post "pairing_id=ab&email=ME@x.org&password=pw") (at_ 1063)
           (sent "pairing_id=ab&email=ME@x.org&password=pw"));
    [by vm_compute|by vm_compute|done|by vm_compute|by vm_compute| |done|done|done|by vm_compute].
  constructor; [|constructor]. intros r c [= <- <-]. by vm_compute.
Defined.

Lemma config_hash_safe : hash_safe (shared (owner start)).
Proof.
  intros enc pr salt h [= <-] Hd. vm_compute in Hd. by injection Hd as <- _ _.
Qed.

Lemma no_request_panics_witness : is_Some (owner_run start (history ++ guesses)).
Proof. apply no_request_panics; [done|apply config_hash_safe]. Defined.

Definition open_record : pairingRecord :=
  PairingRecord (NewAttempt id1 key (owner_verifiers (owner start)) (999 * Second)) "" "".

Lemma opened_wf : owner_wf opened.
Proof.
  apply (owner_run_wf start [OStart (post ("device_pubkey=" +:+ key)) (Ok [171]) (at_ 999)]);
    [by apply owner_wf_empty|by vm_compute].
Qed.

Lemma wrong_credentials_look_alike_witness :
  let r := post "pairing_id=ab&email=you@x.org&password=pw" in
  let r' := post "pairing_id=ab&email=me@x.org&password=no" in
  fst <$> handlePairPassword opened r (at_ 1000) = Some invalid_credentials ∧
  fst <$> handlePairPassword opened r' (at_ 1000) = Some invalid_credentials.
Proof.
  intros r r'. split.
  - destruct (handlePairPassword opened r (at_ 1000)) as [[resp st']|] eqn:Hs;
      [|by vm_compute in Hs]. simpl. f_equal.
    destruct (wrong_credentials_look_alike opened r (at_ 1000)
      (sent "pairing_id=ab&email=you@x.org&password=pw") open_record resp st') as [-> _];
      [apply opened_wf|by split_and!|by vm_compute..| |apply Hs|done].
    left. by vm_compute.
  - destruct (handlePairPassword opened r' (at_ 1000)) as [[resp st']|] eqn:Hs;
      [|by vm_compute in Hs]. simpl. f_equal.
    destruct (wrong_credentials_look_alike opened r' (at_ 1000)
      (sent "pairing_id=ab&email=me@x.org&password=no") open_record resp st') as [-> _];
      [apply opened_wf|by split_and!|by vm_compute..| |apply Hs|done].
    right. intros (enc & Henc & Hok).
    assert (passwordVerifier (shared (owner opened)) = Some hash) as Hh by by vm_compute.
    rewrite Hh in Henc. injection Henc as <-. by vm_compute in Hok.
Defined.

Lemma unknown_attempt_reveals_the_email_witness :
  (∃ st', handlePairPassword start (post "email=you@x.org") (at_ 1) = Some (invalid_credentials, st')) ∧
  (∃ st', handlePairPassword start (post "email=me@x.org") (at_ 1) = Some (unknown_attempt, st')).
Proof.
  split.
  - apply (unknown_attempt_reveals_the_email start (post "email=you@x.org") (at_ 1)
      (sent "email=you@x.org")); [by split_and!|by vm_compute].
  - apply (unknown_attempt_reveals_the_email start (post "email=me@x.org") (at_ 1)
      (sent "email=me@x.org")); [by split_and!|by vm_compute].
Defined.

Definition last_record : pairingRecord :=
  default open_record (attempts (owner after_history) !! id1).

Lemma satisfied_attempt_pairs_witness :
  let done_ := handlePairComplete after_history (post "pairing_id=ab") (Ok [17]) None (at_ 100) in
  done_.1 = write_json 200 (JObject [("device_id", JString "11")]) ∧
  GetDevice (store done_.2) "11" None = Ok (MkDevice "11" "phone" "" key 100 100 false).
Proof.
  intros done_.
  destruct (satisfied_attempt_pairs after_history (post "pairing_id=ab") (Ok [17]) [17] (at_ 100)
    (sent "pairing_id=ab") last_record) as (Hr & _ & Hget & _);
    [done|done|done|by vm_compute..|].
  split; [apply Hr|]. unfold done_. change "11" with (hex_encode [17]). rewrite Hget. by vm_compute.
Defined.

Lemma attempts_stay_well_formed_witness : owner_wf after_history.
Proof.
  destruct (attempts_stay_well_formed start history after_history) as (Hwf & _ & _);
    [done|apply history_runs|done].
Defined.
End Example_run.
