(* ===== verification/Concurrent.v ===== *)
(** * Concurrent requests at the pairing routes

    A factor request holds no lock all the way: it asks the limiter, looks at
    the attempt under the owner's mutex, and reports to the limiter. A
    completion takes the attempt under the mutex and stores the device after
    it. Here each of these is a step of a thread, and threads take turns in any
    order. The other routes of the owner touch shared state once, so they stay
    single steps. (A start reads the new attempt once more for its answer, but
    nobody knows the attempt's id before that answer.) *)

From S2P Require Import Prelude GoStr Http NetAddr Verifier Pairing RateLimit Totp Password.
From S2P Require Import WebAuthn Database DeviceAuth IdStore Owner OwnerProps Threads.

Inductive endpoint := EPassword | ETOTP | EPasskey.

Definition ep_factor (e : endpoint) : string :=
  match e with EPassword => FactorPassword | ETOTP => FactorTOTP | EPasskey => FactorPasskey end.

Definition ep_field (e : endpoint) : string :=
  match e with EPassword => "password" | ETOTP => "code" | EPasskey => "assertion" end.

(** Where a request of an endpoint stands. *)
Inductive thread :=
  | Arrived (e : endpoint) (r : request)
  | Allowed (e : endpoint) (r : request) (body : gmap string string)
  | Mismatched (ip : string)                            (* a wrong e-mail address, not yet counted *)
  | Checked (ip : string) (res : error) (outstanding : list string)
  | Completing (r : request)
  | Taken (name platform pub : string)                  (* a consumed attempt, its device not yet stored *)
  | Answered (resp : response).

(** What a step finds around it: the clock, the random source, the state of
    the database file. *)
Record ambient := Ambient {
  clk : clock;
  random : result (list Z);
  dbio : error;
}.

Lemma sweep_size m tick : (size (owner_sweepLocked m tick) ≤ size m)%nat.
Proof. apply map_size_filter. Qed.

Abbreviation pair_conf := (conf owner_state thread).
Abbreviation section_label := (label owner_state owner_call).

Section concurrent.
Context `{Unicode} `{TotpLib} `{Argon2} `{WebAuthnLib} `{JsonDecoder} `{SqlOrder}.
Implicit Types st : owner_state.

Definition ep_call (e : endpoint) (r : request) (c : clock) : owner_call :=
  match e with EPassword => OPassword r c | ETOTP => OTOTP r c | EPasskey => OPasskey r c end.

Definition complete_call (r : request) (x : ambient) : owner_call :=
  OComplete r (random x) (dbio x) (clk x).

(** ** The three sections of a request *)

(** Up to the limiter's Allow. *)
Definition ask_limiter st (e : endpoint) (r : request) (c : clock) : thread :=
  if not_post r then Answered method_not_allowed else
  match json_decode (Body r) with
  | Err _ => Answered invalid_json
  | Ok body =>
     match Allow (limiter st) (clientIP r) (email (owner st)) (t_allow c) with
     | Some _ => Answered too_many_attempts
     | None => Allowed e r body
     end
  end.

(** The e-mail address, for a password, and what satisfyFactor does with the
    mutex held. *)
Definition look_at_attempt st (e : endpoint) (r : request) (body : gmap string string) (c : clock)
    : option (thread * owner_state) :=
  let o := owner st in
  let wrong_email := match e with
                     | EPassword => String.eqb (email o) "" || negb (equal_fold (field body "email") (email o))
                     | _ => false
                     end in
  if wrong_email then Some (Mismatched (clientIP r), st) else
  let id := field body "pairing_id" in
  let m := owner_sweepLocked (attempts o) (t_sweep c) in
  match m !! id with
  | None => Some (Answered unknown_attempt, with_attempts st m)
  | Some rec =>
     '(res, att, (fs, _)) ←
       Satisfy (attempt rec) (ep_factor e) (field body (ep_field e)) (t_expired c) (shared o, t_totp c);
     let rec' := PairingRecord att (deviceName rec) (platform rec) in
     Some (Checked (clientIP r) res (Outstanding att),
           OwnerState (MkOwner (email o) fs (<[id := rec']> m)) (limiter st) (store st))
  end.

(** What the limiter is told, and the answer. *)
Definition report st (ip : string) (res : error) (outstanding : list string) (c : clock)
    : thread * owner_state :=
  (Answered (satisfy_response res outstanding),
   with_limiter st (satisfy_limiter res (limiter st) ip (email (owner st)) (t_fail c))).

(** ** The two sections of a completion *)

Definition take_attempt st (r : request) (c : clock) : thread * owner_state :=
  if not_post r then (Answered method_not_allowed, st) else
  match json_decode (Body r) with
  | Err _ => (Answered invalid_json, st)
  | Ok body =>
     let id := field body "pairing_id" in
     let m := owner_sweepLocked (attempts (owner st)) (t_sweep c) in
     match m !! id with
     | None => (Answered unknown_attempt, with_attempts st m)
     | Some rec =>
        match Complete (attempt rec) (t_expired c) with
        | (Some e, _) => (Answered (complete_error e (Outstanding (attempt rec))), with_attempts st m)
        | (None, att) => (Taken (deviceName rec) (platform rec) (DevicePub att), with_attempts st (delete id m))
        end
     end
  end.

Definition store_device st (name platform pub : string) (x : ambient) : thread * owner_state :=
  match randomID (random x) with
  | Err _ => (Answered (write_error 500 "failed to complete pairing"), st)
  | Ok deviceID =>
     match Store_PairDevice (store st) deviceID name platform pub (t_unix (clk x)) (dbio x) with
     | (Some _, _) => (Answered (write_error 500 "failed to store paired device"), st)
     | (None, d) =>
        (Answered (write_json 200 (JObject [("device_id", JString deviceID)])),
         OwnerState (owner st) (limiter st) d)
     end
  end.

Definition pair_step st (t : thread) (x : ambient) : option (thread * owner_state) :=
  match t with
  | Arrived e r => Some (ask_limiter st e r (clk x), st)
  | Allowed e r body => look_at_attempt st e r body (clk x)
  | Mismatched ip =>
     Some (Answered invalid_credentials,
           with_limiter st (RecordFailure (limiter st) ip (email (owner st)) (t_fail (clk x))))
  | Checked ip res outstanding => Some (report st ip res outstanding (clk x))
  | Completing r => Some (take_attempt st r (clk x))
  | Taken name plat pub => Some (store_device st name plat pub x)
  | Answered _ => None
  end.

(** The call whose critical section a step is. *)
Definition pair_section st (t : thread) (x : ambient) : option owner_call :=
  match t with
  | Allowed e r _ => Some (ep_call e r (clk x))
  | Completing r => Some (complete_call r x)
  | _ => None
  end.

Definition one_section (oc : owner_call) : bool :=
  match oc with OStart _ _ _ | ODevices _ _ | ORevoke _ _ => true | _ => false end.

#[export] Instance pair_threads : Threads owner_state thread ambient owner_call := {
  arriving t := match t with Arrived _ _ | Completing _ => true | _ => false end;
  finished t := match t with Answered _ => true | _ => false end;
  thread_step := pair_step;
  section_of := pair_section;
  other_step st oc := if one_section oc then snd <$> owner_step st oc else None;
}.

(** ** A request nothing comes between *)

Definition answered (p : response * owner_state) : thread * owner_state := (Answered p.1, p.2).

Lemma alone_factor st e r x :
  alone 3 st (Arrived e r) x = answered <$> owner_step st (ep_call e r (clk x)).
Proof.
  destruct x as [c rnd io]. simpl clk.
  assert (∀ body, Allow (limiter st) (clientIP r) (email (owner st)) (t_allow c) = None →
    (match e with
     | EPassword => String.eqb (email (owner st)) "" || negb (equal_fold (field body "email") (email (owner st)))
     | _ => false end) = false →
    alone 2 st (Allowed e r body) (Ambient c rnd io) =
    answered <$> satisfyFactor st (clientIP r) (field body "pairing_id") (ep_factor e) (field body (ep_field e)) c) as Hsat.
  { intros body Ha Hw. simpl. unfold look_at_attempt, satisfyFactor. rewrite Hw.
    destruct (_ !! field body "pairing_id") as [rec|]; [|done].
    by destruct (Satisfy _ _ _ _ _) as [[[res att] [fs t]]|]. }
  change (alone 3 st (Arrived e r) (Ambient c rnd io)) with (alone 2 st (ask_limiter st e r c) (Ambient c rnd io)).
  unfold ask_limiter.
  destruct e; cbn [owner_step ep_call];
    unfold handlePairPassword, handlePairTOTP, handlePairPasskey, handlePairFactor;
    (destruct (not_post r); [done|]); (destruct (json_decode (Body r)) as [body|]; [|done]);
    (destruct (Allow _ _ _ _) eqn:Ha; [done|]).
  - destruct (_ || _) eqn:Hw; [simpl; unfold look_at_attempt; by rewrite Hw|]. by apply (Hsat body).
  - by apply (Hsat body).
  - by apply (Hsat body).
Qed.

Lemma alone_complete st r x : alone 3 st (Completing r) x = answered <$> owner_step st (complete_call r x).
Proof.
  unfold complete_call. simpl. unfold take_attempt, handlePairComplete. destruct (not_post r); [done|].
  destruct (json_decode (Body r)) as [body|]; [|done].
  destruct (_ !! field body "pairing_id") as [rec|]; [|done].
  destruct (Complete _ _) as [[e|] att]; [done|]. simpl. unfold store_device.
  destruct (randomID _); [|done]. by destruct (Store_PairDevice _ _ _ _ _ _ _) as [[?|] ?].
Qed.

(** Run one after the other with nothing in between, the sections of a factor request are
    the handler of its endpoint, and the two sections of a completion are handlePairComplete. *)
Lemma uninterrupted_sections_make_the_handler st r x :
  (∀ e, alone 3 st (Arrived e r) x = answered <$> owner_step st (ep_call e r (clk x))) ∧
  alone 3 st (Completing r) x = answered <$> owner_step st (complete_call r x).
Proof. split; [intros e; apply alone_factor|apply alone_complete]. Qed.

(** ** What one section changes *)

Lemma frame_ext st oc st1 st2 :
  owner st2 = owner st1 → store st2 = store st → owner_frame st oc st1 → owner_frame st oc st2.
Proof. unfold owner_frame. intros -> Hst (? & ? & ? & _). split_and!; [done..|by left]. Qed.

(** A thread past the limiter holds the decoded body of its request. *)
Definition decoded (t : thread) : Prop :=
  match t with Allowed _ r body => json_decode (Body r) = Ok body | _ => True end.

Lemma ask_limiter_decoded st e r c : decoded (ask_limiter st e r c).
Proof.
  unfold ask_limiter. destruct (not_post r); [done|].
  destruct (json_decode (Body r)) as [body|] eqn:E; [|done]. by destruct (Allow _ _ _ _).
Qed.

(** The device of the attempt a thread holds: its name, platform and key. *)
Definition taken (t : thread) : option (string * string * string) :=
  match t with Taken name plat pub => Some (name, plat, pub) | _ => None end.

Definition device_of (rec : pairingRecord) : string * string * string :=
  (deviceName rec, platform rec, DevicePub (attempt rec)).

Lemma ask_limiter_takes_nothing st e r c : taken (ask_limiter st e r c) = None.
Proof.
  unfold ask_limiter. destruct (not_post r); [done|].
  destruct (json_decode (Body r)) as [body|] eqn:E; [|done]. by destruct (Allow _ _ _ _).
Qed.

(** The look at an attempt changes what the whole handler would change. *)
Lemma look_frame st e r body c t' st' :
  json_decode (Body r) = Ok body → look_at_attempt st e r body c = Some (t', st') →
  decoded t' ∧ taken t' = None ∧ store st' = store st ∧ owner_frame st (ep_call e r c) st' ∧
  (size (attempts (owner st')) ≤ size (attempts (owner st)))%nat.
Proof.
  intros Hdec. unfold look_at_attempt.
  destruct (match e with EPassword => _ | _ => false end).
  { intros [= <- <-]. split_and!; [done..|by apply frame_eq|done]. }
  assert (presents (ep_call e r c) = Some (field body "pairing_id", ep_factor e, field body (ep_field e), c)) as Hp
    by (destruct e; simpl; by rewrite Hdec).
  pose proof (λ resp st1, frame_satisfy st _ (clientIP r) _ _ _ _ resp st1 Hp) as HF.
  pose proof (sweep_size (attempts (owner st)) (t_sweep c)) as Hsz.
  unfold satisfyFactor in HF. destruct (_ !! field body "pairing_id") as [rec|] eqn:Hm; cycle 1.
  { intros [= <- <-]. split_and!; [done..| |done]. by eapply HF. }
  destruct (Satisfy _ _ _ _ _) as [[[res att] [fs t]]|]; simpl in *; [|done].
  intros [= <- <-]. split_and!; [done..| |].
  - eapply frame_ext; [| |by eapply HF]; done.
  - simpl. rewrite map_size_insert_Some by done. done.
Qed.

(** Taking an attempt is the part of a completion that changes the map. *)
Lemma take_frame st r x t' st' :
  take_attempt st r (clk x) = (t', st') →
  decoded t' ∧ store st' = store st ∧ owner_frame st (complete_call r x) st' ∧
  match taken t' with
  | None => (size (attempts (owner st')) ≤ size (attempts (owner st)))%nat
  | Some dev =>
     (S (size (attempts (owner st'))) ≤ size (attempts (owner st)))%nat ∧
     ∃ id rec, names_attempt r id ∧ attempts (owner st) !! id = Some rec ∧ dev = device_of rec ∧
       t_expired (clk x) ≤ StartedAt (attempt rec) + PairingTTL ∧
       ∀ f, f ∈ RequiredFactors → is_satisfied (attempt rec) f = true
  end.
Proof.
  pose proof (frame_complete st r (random x) (dbio x) (clk x)) as HF.
  pose proof (sweep_size (attempts (owner st)) (t_sweep (clk x))) as Hsz.
  unfold take_attempt, complete_call. unfold handlePairComplete in HF.
  destruct (not_post r) eqn:Hpost; [intros [= <- <-]; by split_and!; simpl; try lia|].
  destruct (json_decode (Body r)) as [body|] eqn:Hbody; [|intros [= <- <-]; by split_and!; simpl; try lia].
  destruct (_ !! field body "pairing_id") as [rec|] eqn:Hm; [|intros [= <- <-]; by split_and!; simpl; try lia].
  pose proof (Complete_pub (attempt rec) (t_expired (clk x))) as Hpub.
  destruct (Complete (attempt rec) (t_expired (clk x))) as [[e|] att] eqn:HC; [intros [= <- <-]; by split_and!; simpl; try lia|].
  intros [= <- <-]. split_and!; [done|done| |].
  - eapply frame_ext; [| |exact HF]; [|done].
    destruct (randomID _); [|done]. by destruct (Store_PairDevice _ _ _ _ _ _ _) as [[?|] ?].
  - simpl. pose proof (map_size_delete_Some _ _ (mk_is_Some _ _ Hm)) as Hd. split.
    { pose proof (map_size_ne_0_lookup_2 _ _ (mk_is_Some _ _ Hm)). rewrite Hd. lia. }
    apply owner_sweep_lookup in Hm as [Hm _]. exists (field body "pairing_id"), rec.
    assert ((Complete (attempt rec) (t_expired (clk x))).1 = None) as Hok by by rewrite HC.
    apply Complete_spec in Hok as (_ & Ht & Hall). simpl in Hpub. unfold device_of. rewrite Hpub.
    split_and!; try done. split; [done|by exists body].
Qed.

(** The row of a device that is stored now. *)
Definition stored_row (dev : string * string * string) (x : ambient) : device_row :=
  DeviceRow (Some dev.1.1) (Some dev.1.2) dev.2 (Some (t_unix (clk x))) (Some (t_unix (clk x))) (Some 0).

Lemma store_frame st name plat pub x t' st' :
  store_device st name plat pub x = (t', st') →
  decoded t' ∧ taken t' = None ∧ owner st' = owner st ∧
  (store st' = store st ∨
   ∃ deviceID, randomID (random x) = Ok deviceID ∧ devices (store st) !! deviceID = None ∧
     devices (store st') = <[deviceID := stored_row (name, plat, pub) x]> (devices (store st))).
Proof.
  unfold store_device. destruct (randomID (random x)) as [dev|] eqn:Hdev.
  2: { intros [= <- <-]. split_and!; [done..|by left]. }
  destruct (Store_PairDevice _ _ _ _ _ _ _) as [[e|] d] eqn:HP; intros [= <- <-].
  { split_and!; [done..|by left]. }
  apply Store_PairDevice_ok in HP as (_ & Hn & _ & Hd). split_and!; [done..|]. right. by exists dev.
Qed.

Lemma other_owner st oc st' :
  other_step st oc = Some st' → one_section oc = true ∧ ∃ resp, owner_step st oc = Some (resp, st').
Proof.
  simpl. destruct (one_section oc); [|done].
  destruct (owner_step st oc) as [[resp st1]|]; simpl; [|done]. intros [= <-]. by split; [|exists resp].
Qed.

(** Where no section ran, the owner did not change. *)
Lemma thread_frame st t x t' st' :
  decoded t → thread_step st t x = Some (t', st') →
  decoded t' ∧
  match pair_section st t x with
  | None => owner st' = owner st ∧ taken t' = None
  | Some oc => owner_frame st oc st'
  end.
Proof.
  intros Hok. destruct t as [e r|e r body|ip|ip res out|r|n p k|resp]; simpl; [..|done].
  - intros [= <- <-]. split_and!; [apply ask_limiter_decoded|done|apply ask_limiter_takes_nothing].
  - intros Ht. by apply look_frame in Ht as (? & _ & _ & ? & _).
  - by intros [= <- <-].
  - by intros [= <- <-].
  - intros [= Ht]. by apply take_frame in Ht as (? & _ & ? & _).
  - intros [= Ht]. by apply store_frame in Ht as (? & ? & ? & _).
Qed.

(** The rows change with a stored device, and then at a [Taken] thread only. *)
Lemma thread_store st t x t' st' :
  decoded t → thread_step st t x = Some (t', st') →
  store st' = store st ∨
  ∃ dev deviceID, taken t = Some dev ∧ taken t' = None ∧ owner st' = owner st ∧
    randomID (random x) = Ok deviceID ∧ devices (store st) !! deviceID = None ∧
    devices (store st') = <[deviceID := stored_row dev x]> (devices (store st)).
Proof.
  intros Hok. destruct t as [e r|e r body|ip|ip res out|r|n p k|resp]; simpl; [..|done].
  - intros [= _ <-]. by left.
  - intros Ht. apply look_frame in Ht as (_ & _ & ? & _); [by left|done].
  - intros [= _ <-]. by left.
  - intros [= _ <-]. by left.
  - intros [= Ht]. apply take_frame in Ht as (_ & ? & _). by left.
  - intros [= Ht]. apply store_frame in Ht as (_ & Ht' & Ho & [?|(dev & Hid & Hn & Hd)]); [by left|].
    right. by exists (n, p, k), dev.
Qed.

Lemma conc_run_decoded st0 ls cf : conc_run (Conf st0 []) ls cf → Forall decoded (cf_threads cf).
Proof.
  apply conc_run_threads; simpl; [by intros []|intros; by eapply thread_frame|constructor].
Qed.

(** ** What every interleaving preserves *)

(** Like [earned], but over the critical sections of an interleaving. *)
Definition earned_in (vs : gmap string (option factor_ptr)) (ls : list section_label)
    (id : string) (rec : pairingRecord) : Prop :=
  ∃ before st r rand c after,
    ls = before ++ (st, OStart r rand c) :: after ∧
    minted r rand id (DevicePub (attempt rec)) (deviceName rec) (platform rec) ∧
    StartedAt (attempt rec) = t_new c ∧
    ∀ f, is_satisfied (attempt rec) f = true →
      ∃ st1 oc, (st1, oc) ∈ after ∧ accepted vs (t_new c) st1 oc id f.

Lemma earned_in_app vs ls ls' id rec : earned_in vs ls id rec → earned_in vs (ls ++ ls') id rec.
Proof.
  intros (b & st & r & rand & c & a & -> & Hm & Ht & Hf). exists b, st, r, rand, c, (a ++ ls').
  split_and!; [by rewrite <- app_assoc|done|done|]. intros f (st1 & oc & Hin & Hacc)%Hf.
  exists st1, oc. split; [|done]. rewrite elem_of_app. by left.
Qed.

(** The device [dev] is that of an attempt which a completion that names it took
    in time, all of its factors earned before. *)
Definition taken_in (vs : gmap string (option factor_ptr)) (ls : list section_label)
    (dev : string * string * string) : Prop :=
  ∃ before st r x after id rec,
    ls = before ++ (st, complete_call r x) :: after ∧ names_attempt r id ∧
    attempts (owner st) !! id = Some rec ∧ earned_in vs before id rec ∧ dev = device_of rec ∧
    t_expired (clk x) ≤ StartedAt (attempt rec) + PairingTTL ∧
    ∀ f, f ∈ RequiredFactors → is_satisfied (attempt rec) f = true.

Lemma taken_in_app vs ls ls' pub : taken_in vs ls pub → taken_in vs (ls ++ ls') pub.
Proof.
  intros (b & st & r & x & a & id & rec & -> & ?). exists b, st, r, x, (a ++ ls'), id, rec.
  split; [by rewrite <- app_assoc|done].
Qed.

Record conc_inv st0 (ls : list section_label) (cf : pair_conf) : Prop := {
  ci_wf : owner_wf (cf_state cf);
  ci_config : same_config (shared (owner st0)) (shared (owner (cf_state cf)));
  ci_earned id rec : attempts (owner (cf_state cf)) !! id = Some rec →
    earned_in (owner_verifiers (owner st0)) ls id rec;
  ci_taken t pub : t ∈ cf_threads cf → taken t = Some pub →
    taken_in (owner_verifiers (owner st0)) ls pub;
}.

(** A critical section, whoever ran it. *)
Lemma earned_section st0 ls st ts oc st' id rec :
  conc_inv st0 ls (Conf st ts) → owner_frame st oc st' →
  attempts (owner st') !! id = Some rec →
  earned_in (owner_verifiers (owner st0)) (ls ++ [(st, oc)]) id rec.
Proof.
  intros [Hwf Hcfg He _] (_ & _ & Hrec & _) Hl. simpl in *.
  destruct (Hrec _ _ Hl) as [rec' Hl'|r rand c pub n p -> Hm|rec' f ev c v fs Hl' Hp Hc Ht Hv Hsv].
  - by apply earned_in_app, He.
  - exists ls, st, r, rand, c, []. split_and!; [done|done|done|].
    intros f Hf. cbn [attempt] in Hf. by rewrite NewAttempt_unsatisfied in Hf.
  - pose proof (He _ _ Hl') as (b & stb & r & rand & c0 & a & -> & Hm & Ht0 & Hsat).
    exists b, stb, r, rand, c0, (a ++ [(st, oc)]). split_and!; [by rewrite <- app_assoc|done|done|].
    intros f'. cbn [attempt]. rewrite is_satisfied_mark. case_bool_decide as Hff; simpl.
    + subst f'. intros _. exists st, oc. rewrite elem_of_app, list_elem_of_singleton.
      split; [by right|]. rewrite <- Ht0. by eapply marked_accepted.
    + intros (st1 & oc1 & Hin & Hacc)%Hsat. exists st1, oc1. rewrite elem_of_app. split; [by left|done].
Qed.

Lemma inv_section st0 ls st ts oc st' ts' :
  conc_inv st0 ls (Conf st ts) → owner_frame st oc st' →
  (∀ t pub, t ∈ ts' → taken t = Some pub →
     taken_in (owner_verifiers (owner st0)) (ls ++ [(st, oc)]) pub) →
  conc_inv st0 (ls ++ [(st, oc)]) (Conf st' ts').
Proof.
  intros HI Hfr Hts. split; simpl; [| |by intros; eapply earned_section|done].
  - eapply frame_wf; [done|apply HI].
  - etrans; [apply (ci_config _ _ _ HI)|apply Hfr].
Qed.

(** A turn of a thread that comes out holding nothing. *)
Lemma taken_update vs ls l (ts : list thread) k t' :
  (∀ t pub, t ∈ ts → taken t = Some pub → taken_in vs ls pub) →
  (∀ pub, taken t' = Some pub → taken_in vs (ls ++ l) pub) →
  ∀ t pub, t ∈ <[k := t']> ts → taken t = Some pub → taken_in vs (ls ++ l) pub.
Proof.
  intros Hold Hnew t pub [->|Hin]%elem_of_update Ht; [by apply Hnew|].
  by eapply taken_in_app, Hold.
Qed.

Lemma inv_turn st0 ls st ts k t x t' st' :
  conc_inv st0 ls (Conf st ts) → ts !! k = Some t → decoded t → thread_step st t x = Some (t', st') →
  conc_inv st0 (ls ++ option_list (label_of st t x)) (Conf st' (<[k := t']> ts)).
Proof.
  intros HI Hk Hok Ht. pose proof HI as [Hwf Hcfg He Htk].
  pose proof (thread_frame _ _ _ _ _ Hok Ht) as [_ Hfr]. simpl in *.
  unfold label_of; simpl. destruct (pair_section st t x) as [oc|] eqn:Es; simpl.
  - eapply inv_section; [done|done|]. apply taken_update; [exact Htk|].
    intros pub Hpub. destruct t as [ | | | |r| |]; simpl in Es; simplify_eq/=.
    + apply look_frame in Ht as (_ & Hn & _); [congruence|done].
    + apply take_frame in Ht as (_ & _ & _ & Hm). rewrite Hpub in Hm.
      destruct Hm as (_ & id & rec & Hid & Hl & -> & Hexp & Hall).
      exists ls, st, r, x, [], id, rec. split_and!; [done..|by apply He|done|done|done].
  - destruct Hfr as [Ho Hn]. split; simpl.
    + unfold owner_wf. by rewrite Ho.
    + by rewrite Ho.
    + intros id rec. rewrite Ho. intros Hl. by apply earned_in_app, He.
    + apply taken_update; [exact Htk|]. intros pub. by rewrite Hn.
Qed.

Lemma inv_step st0 ls cf l cf' :
  conc_inv st0 ls cf → Forall decoded (cf_threads cf) → conc_step cf l cf' →
  conc_inv st0 (ls ++ option_list l) cf'.
Proof.
  intros HI Hok Hs. destruct Hs as [st ts t Ha|st ts k t t' st' x Hk Ht|st ts oc st' [_ [resp Hs]]%other_owner]; simpl in *.
  - rewrite app_nil_r. split; [apply HI|apply HI|apply HI|]. simpl.
    intros t0 pub. rewrite elem_of_app, list_elem_of_singleton. intros [Hin| ->]; [by apply HI|].
    by destruct t.
  - eapply inv_turn; [done|done| |done]. by eapply Forall_lookup_1.
  - eapply inv_section; [done|by eapply owner_step_frame|].
    intros t pub Hin Htk. by eapply taken_in_app, HI.
Qed.

Lemma conc_run_inv st0 ls cf : attempts (owner st0) = ∅ → conc_run (Conf st0 []) ls cf → conc_inv st0 ls cf.
Proof.
  intros Hempty. induction 1 as [|ls cf l cf' Hr IH Hs].
  - split; simpl; [by apply owner_wf_empty|done| |by intros ? ? ?%elem_of_nil].
    intros id rec. by rewrite Hempty, lookup_empty.
  - eapply inv_step; [done|by eapply conc_run_decoded|done].
Qed.

(** C3: However the steps of any number of concurrent requests interleave (limiter, look at the
    attempt, report; taking an attempt, storing the device), beginning with no attempts, a step
    that adds a device row stores the name, platform and key of the attempt that a completion
    naming its pairing id took out of the map, at most ten minutes after the start call that
    minted that id with that name, platform and well-formed key; and between that start and that
    completion each required factor was accepted for the same pairing id. *)
Theorem interleaved_pairing_needs_every_factor st0 ls cf l cf' :
  attempts (owner st0) = ∅ → conc_run (Conf st0 []) ls cf → conc_step cf l cf' →
  device_keys (store (cf_state cf')) ≠ device_keys (store (cf_state cf)) →
  ∃ id before st1 r0 rand0 c0 mid st2 rec r x after deviceID x',
    ls = before ++ (st1, OStart r0 rand0 c0) :: mid ++ (st2, complete_call r x) :: after ∧
    minted r0 rand0 id (DevicePub (attempt rec)) (deviceName rec) (platform rec) ∧
    names_attempt r id ∧ attempts (owner st2) !! id = Some rec ∧
    devices (store (cf_state cf)) !! deviceID = None ∧
    devices (store (cf_state cf')) =
      <[deviceID := stored_row (device_of rec) x']> (devices (store (cf_state cf))) ∧
    t_expired (clk x) ≤ t_new c0 + PairingTTL ∧
    ∀ f, f ∈ RequiredFactors → ∃ st3 oc, (st3, oc) ∈ mid ∧
      accepted (owner_verifiers (owner st0)) (t_new c0) st3 oc id f.
Proof.
  intros Hempty Hrun Hs Hne. pose proof (conc_run_decoded _ _ _ Hrun) as Hok.
  pose proof (conc_run_inv _ _ _ Hempty Hrun) as [_ _ _ Htk].
  destruct Hs as [|st ts k t t' st' x Hk Ht|st ts oc st' [Ho [resp Hs]]%other_owner]; simpl in *; [done| |].
  - destruct (thread_store st t x t' st') as [Hst|(dev & deviceID & Hdev & _ & _ & _ & Hn & Hd)];
      [by eapply Forall_lookup_1|done|by rewrite Hst in Hne|].
    destruct (Htk t dev) as (b2 & st2 & r & x2 & a2 & id & rec & -> & Hid & Hl & He & -> & Hexp & Hall);
      [by eapply list_elem_of_lookup_2|done|].
    destruct He as (b & st1 & r0 & rand0 & c0 & mid & -> & Hm & Ht0 & Hf). rewrite Ht0 in Hexp.
    exists id, b, st1, r0, rand0, c0, mid, st2, rec, r, x2, a2, deviceID, x.
    split_and!; [by rewrite <- app_assoc|done..|]. intros f Hrf. by apply Hf, Hall.
  - pose proof (new_device_pairs _ _ _ _ Hs Hne) as (? & ? & ? & ? & ? & ? & ? & -> & _). done.
Qed.

(** ** One device for each start *)

Definition is_start (s : section_label) : bool := match s with (_, OStart _ _ _) => true | _ => false end.

Definition starts (ls : list section_label) : nat := length (filter (λ s, is_start s = true) ls).

(** The attempts, the devices, and what is between the two. *)
Definition credit (cf : pair_conf) : nat :=
  size (attempts (owner (cf_state cf))) + length (omap taken (cf_threads cf)) +
  size (devices (store (cf_state cf))).

Definition held (t : thread) : nat := length (option_list (taken t)).

Lemma omap_update ts k t t' :
  ts !! k = Some t →
  (length (omap taken (<[k := t']> ts)) + held t = length (omap taken ts) + held t')%nat.
Proof.
  unfold held. revert k. induction ts as [|t0 ts IH]; intros [|k] Hk; simpl in *; simplify_eq/=.
  - destruct (taken t), (taken t'); simpl; lia.
  - specialize (IH _ Hk). unfold omap in IH. destruct (taken t0); simpl; lia.
Qed.

Lemma starts_app ls ls' : starts (ls ++ ls') = (starts ls + starts ls')%nat.
Proof. unfold starts. by rewrite filter_app, length_app. Qed.

Lemma start_size st r rand c :
  (size (attempts (owner (handlePairStart st r rand c).2)) ≤ S (size (attempts (owner st))))%nat.
Proof.
  unfold handlePairStart. destruct (not_post r); [simpl; lia|].
  destruct (json_decode (Body r)) as [body|]; [|simpl; lia].
  destruct (b64_decode _ _) as [raw|]; [|simpl; lia].
  destruct (negb _); [simpl; lia|]. destruct (randomID rand) as [id|]; [|simpl; lia]. simpl.
  pose proof (sweep_size (attempts (owner st)) (t_sweep c)).
  rewrite map_size_insert. destruct (owner_sweepLocked _ _ !! id); unfold Datatypes.id; lia.
Qed.

Lemma turn_credit st t x t' st' :
  decoded t → thread_step st t x = Some (t', st') →
  (size (attempts (owner st')) + held t' + size (devices (store st')) ≤
   size (attempts (owner st)) + held t + size (devices (store st)))%nat.
Proof.
  intros Hok. unfold held. destruct t as [e r|e r body|ip|ip res out|r|n p k|resp]; simpl; [..|done].
  - intros [= <- <-]. rewrite ask_limiter_takes_nothing. simpl. lia.
  - intros Ht. apply look_frame in Ht as (_ & -> & -> & _ & Hsz); [simpl; lia|done].
  - intros [= <- <-]. simpl. lia.
  - intros [= <- <-]. simpl. lia.
  - intros [= Ht]. apply take_frame in Ht as (_ & -> & _ & Hm). destruct (taken t'); simpl; lia.
  - intros [= Ht]. apply store_frame in Ht as (_ & -> & -> & [->|(dev & _ & Hn & ->)]); simpl; [lia|].
    rewrite map_size_insert_None by done. lia.
Qed.

Lemma other_credit st oc resp st' :
  one_section oc = true → owner_step st oc = Some (resp, st') →
  (size (attempts (owner st')) + size (devices (store st')) ≤
   size (attempts (owner st)) + size (devices (store st)) + starts [(st, oc)])%nat.
Proof.
  intros Ho Hs. destruct oc as [r rand c| | | | |r io|r io]; simpl in Ho; try done; simpl in Hs.
  - pose proof (start_size st r rand c) as Hsz. injection Hs as Hs. rewrite Hs in Hsz. simpl in Hsz.
    assert (store st' = store st) as ->.
    { destruct (owner_step_frame st (OStart r rand c) resp st') as (_ & _ & _ & Hst); [by simpl; rewrite Hs|].
      by destruct Hst as [->|[(? & ? & ? & _)|(? & ? & ? & ? & ? & ? & ? & ? & _)]]. }
    unfold starts. simpl. lia.
  - injection Hs as _ <-. lia.
  - destruct (owner_step_frame st (ORevoke r io) resp st' Hs) as (_ & _ & _ & Hst). injection Hs as Hs.
    assert (owner st' = owner st) as ->.
    { revert Hs. unfold handleDevicesRevoke. by repeat case_match; intros [= _ <-]. }
    enough (size (devices (store st')) = size (devices (store st))) by lia. rewrite <- !size_dom.
    destruct Hst as [->|[(? & ? & [= <- <-] & id & ->)|(? & ? & ? & ? & ? & ? & ? & ? & _)]]; [done| |done].
    pose proof (Store_RevokeDevice_keys (store st) id io) as Hk. unfold device_keys in Hk. by rewrite Hk.
Qed.

(** C4: In every interleaving the open attempts, the attempts taken but not yet stored and the
    device rows together never outnumber those of the beginning and the start calls: completions
    that race for one attempt enrol at most one device. *)
Theorem each_start_enrols_at_most_one_device st0 ls cf :
  conc_run (Conf st0 []) ls cf →
  (credit cf ≤ size (attempts (owner st0)) + size (devices (store st0)) + starts ls)%nat.
Proof.
  induction 1 as [|ls cf l cf' Hr IH Hs]; [unfold credit; simpl; lia|].
  pose proof (conc_run_decoded _ _ _ Hr) as Hok. rewrite starts_app. unfold credit in *.
  destruct Hs as [st ts t Ha|st ts k t t' st' x Hk Ht|st ts oc st' [Ho [resp Hs]]%other_owner]; simpl in *.
  - rewrite omap_app, length_app. assert (omap taken [t] = []) as -> by by destruct t.
    change (starts []) with 0%nat. simpl. lia.
  - pose proof (omap_update ts k t t' Hk).
    pose proof (turn_credit st t x t' st' (Forall_lookup_1 _ _ _ _ Hok Hk) Ht).
    lia.
  - pose proof (other_credit st oc resp st' Ho Hs) as Hc. unfold label in *. lia.
Qed.

(** ** The limiter is asked too early *)

(** C38: However many requests with the same wrong evidence are sent at once, an interleaving
    has all of them evaluated and answered 401 and none 429: all ask the limiter before the
    first one reports, so the lockout only bounds guesses that come one after the other. *)
Theorem racing_guesses n st e r x body res out :
  not_post r = false → json_decode (Body r) = Ok body →
  Allow (limiter st) (clientIP r) (email (owner st)) (t_allow (clk x)) = None →
  look_at_attempt st e r body (clk x) = Some (Checked (clientIP r) res out, st) →
  satisfy_response res out = invalid_credentials →
  ∃ ls st', conc_run (Conf st []) ls (Conf st' (replicate n (Answered invalid_credentials))).
Proof.
  intros Hpost Hdec Ha Hlook Hresp. destruct (all_arrive st n (Arrived e r)) as [ls0 Hr]; [done|].
  apply (all_step (λ s, s = st) _ _ _ _ _ (Allowed e r body) x) in Hr as (ls1 & ? & Hr & ->); [| |done].
  2: { intros s ->. eexists. split; [|done]. simpl. unfold ask_limiter. by rewrite Hpost, Hdec, Ha. }
  apply (all_step (λ s, s = st) _ _ _ _ _ (Checked (clientIP r) res out) x) in Hr as (ls2 & ? & Hr & ->); [| |done].
  2: { intros s ->. by exists st. }
  apply (all_step (λ _, True) _ _ _ _ _ (Answered invalid_credentials) x) in Hr as (ls3 & st3 & Hr & _); [| |done].
  2: { intros s _. eexists. split; [|done]. simpl. unfold report. by rewrite Hresp. }
  by exists ls3, st3.
Qed.
End concurrent.

(** ** Witnesses *)

Module Example_race.
Import Example_run.
#[local] Existing Instances ascii_only window_lib padding_kdf echo_lib form_decoder merge_order.

Definition at_ (s : Z) : ambient := Ambient (still (s * Second)) (Ok [17]) None.

(** Four factor requests and two completions, all of them under way at the
    same time; the wrong password is looked at between the right ones. *)
Definition schedule : list (move thread ambient owner_call) :=
  [Other (OStart (post ("device_pubkey=" +:+ key +:+ "&device_name=phone")) (Ok [171]) (still (90 * Second)));
   Arrive (Arrived EPassword (post "pairing_id=ab&email=ME@x.org&password=no"));
   Arrive (Arrived EPassword (post "pairing_id=ab&email=ME@x.org&password=pw"));
   Arrive (Arrived ETOTP (post "pairing_id=ab&code=3"));
   Arrive (Arrived EPasskey (post "pairing_id=ab&assertion=ok"));
   Turn 3 (at_ 91); Turn 2 (at_ 91); Turn 1 (at_ 91); Turn 0 (at_ 92);
   Turn 2 (at_ 95); Turn 1 (at_ 96); Turn 0 (at_ 97); Turn 3 (at_ 98);
   Arrive (Completing (post "pairing_id=ab")); Turn 0 (at_ 98);
   Arrive (Completing (post "pairing_id=ab")); Turn 4 (at_ 99); Turn 5 (at_ 99); Turn 1 (at_ 99)].

Definition before_store : list section_label * pair_conf :=
  default ([], Conf start []) (do_moves [] (Conf start []) schedule).

Definition after_store : option section_label * pair_conf :=
  default (None, before_store.2) (do_move before_store.2 (Turn 4 (at_ 100))).

Lemma schedule_runs : conc_run (Conf start []) before_store.1 before_store.2.
Proof. apply (do_moves_run (Conf start []) [] (Conf start []) schedule); [constructor|by vm_compute]. Qed.

Lemma store_step : conc_step before_store.2 after_store.1 after_store.2.
Proof. apply (do_move_step _ (Turn 4 (at_ 100))). by vm_compute. Qed.

Lemma interleaved_pairing_needs_every_factor_witness :
  ∃ id deviceID row,
    devices (store (cf_state after_store.2)) =
      <[deviceID := row]> (devices (store (cf_state before_store.2))) ∧
    ∀ f, f ∈ RequiredFactors → ∃ t0 st3 oc, (st3, oc) ∈ before_store.1 ∧
      accepted (owner_verifiers (owner start)) t0 st3 oc id f.
Proof.
  destruct (interleaved_pairing_needs_every_factor start before_store.1 before_store.2
      after_store.1 after_store.2) as
    (id & b & st1 & r0 & rd0 & c0 & mid & st2 & rec & r & x & a & dev & x' & Hls & _ & _ & _ & _ & Hd & _ & Hf);
    [done|apply schedule_runs|apply store_step| |].
  { intros Heq. by vm_compute in Heq. }
  exists id, dev. eexists. split; [exact Hd|]. intros f (st3 & oc & Hin & Hacc)%Hf.
  exists (t_new c0), st3, oc. split; [|done]. rewrite Hls. apply elem_of_app. right. apply elem_of_cons. right. apply elem_of_app. by left.
Defined.

Lemma each_start_enrols_at_most_one_device_witness :
  (credit after_store.2 ≤ 1)%nat ∧ size (devices (store (cf_state after_store.2))) = 1%nat.
Proof.
  split; [|by vm_compute].
  assert (conc_run (Conf start []) (before_store.1 ++ option_list after_store.1) after_store.2) as Hr
    by (eapply cr_step; [apply schedule_runs|apply store_step]).
  pose proof (each_start_enrols_at_most_one_device start _ _ Hr) as Hc. by vm_compute in Hc |- *.
Defined.

(** A hundred wrong passwords, when five in a row would lock the account. *)
Lemma racing_guesses_witness :
  ∃ ls st', conc_run (Conf opened []) ls (Conf st' (replicate 100 (Answered invalid_credentials))).
Proof.
  set (r := post "pairing_id=ab&email=me@x.org&password=no").
  apply (racing_guesses 100 opened EPassword r (at_ 1000) (sent "pairing_id=ab&email=me@x.org&password=no")
           (Some (ESent ErrPasswordMismatch)) RequiredFactors); by vm_compute.
Defined.
End Example_race.
