(* ===== verification/Mux.v ===== *)
(** * net/http: ServeMux, as the daemon uses it

    Patterns here are paths without methods, hosts or wildcards: a pattern that
    ends in a slash stands for the subtree below it. A request is routed by its
    escaped path ([r.URL.EscapedPath()], beside the request because handlers
    never read it), cleaned first unless the method is CONNECT. The text of a
    redirection is the parameter [Redirector]. *)

From S2P Require Import Prelude GoStr Path Http Middleware.
From Stdlib Require Import Ascii.

(** What RedirectHandler(path, code) answers to a request. *)
Class Redirector := redirect_to : string → request → response.

(** ** Paths *)

Definition hex_val (a : ascii) : option Z :=
  let b := byte_of a in
  if in_range 48 57 b then Some (b - 48)
  else if in_range 97 102 b then Some (b - 87)
  else if in_range 65 70 b then Some (b - 55) else None.

(** url.PathUnescape *)
Fixpoint PathUnescape (s : string) : option string :=
  match s with
  | "" => Some ""
  | String a s' =>
     if Ascii.eqb a "%" then
       match s' with
       | String h (String l s'') =>
          h ← hex_val h; l ← hex_val l; String (ascii_of (16 * h + l)) <$> PathUnescape s''
       | _ => None
       end
     else String a <$> PathUnescape s'
  end.

(** pathUnescape: a segment that does not decode stands for itself. *)
Definition segment (s : string) : string := default s (PathUnescape s).

Definition cleanPath (p : string) : string :=
  if String.eqb p "" then "/" else
  let p := if IsAbs p then p else "/" +:+ p in
  let np := Clean p in
  if has_suffix p "/" && negb (String.eqb np "/") then np +:+ "/" else np.

(** The segments of a path; the last one is empty after a trailing slash. *)
Definition segments (p : string) : list string :=
  match p with "" => [] | String _ rest => split_char "/" rest end.

Fixpoint segs_match (pat segs : list string) : bool :=
  match pat, segs with
  | [], [] => true
  | p :: pat', s :: segs' =>
     match pat' with
     | [] => if String.eqb p "" then true
             else String.eqb p (segment s) && match segs' with [] => true | _ => false end
     | _ => String.eqb p (segment s) && segs_match pat' segs'
     end
  | _, _ => false
  end.

Definition path_match (path pat : string) : bool := segs_match (segments pat) (segments path).

(** The most specific of the patterns that match. *)
Definition more_specific (p : string) (o : option string) : option string :=
  match o with
  | Some q => if slen p <? slen q then Some q else Some p
  | None => Some p
  end.

Definition mux_match (pats : list string) (path : string) : option string :=
  foldr more_specific None (List.filter (path_match path) pats).

(** exactMatch: no subtree pattern matched more than its own path. *)
Definition exact_match (pat path : string) : bool :=
  if negb (has_suffix pat "/") then true
  else if negb (String.eqb path "") && negb (has_suffix path "/") then false
  else Z.of_nat (length (segments pat)) =? Z.of_nat (length (segments path)).

Definition exactly_matched (pats : list string) (path : string) : bool :=
  match mux_match pats path with Some p => exact_match p path | None => false end.

Inductive route :=
  | RPattern (pat : string)
  | RRedirect (path : string)
  | RNotFound
  | RBadRequest.

(** [path] is the path that is matched, [url_path] the decoded one. *)
Definition matchOrRedirect (pats : list string) (path url_path : string) : option string :=
  if negb (exactly_matched pats path) && negb (has_suffix path "/") &&
     exactly_matched pats (path +:+ "/")
  then Some (cleanPath url_path +:+ "/") else None.

Definition route_of (pats : list string) (path : string) : route :=
  match mux_match pats path with Some p => RPattern p | None => RNotFound end.

Definition mux_route (pats : list string) (method escaped url_path : string) : route :=
  if String.eqb escaped "*" then RBadRequest else
  if String.eqb method "CONNECT" then
    match matchOrRedirect pats escaped url_path with
    | Some u => RRedirect u
    | None => route_of pats escaped
    end
  else
    let path := cleanPath escaped in
    match matchOrRedirect pats path url_path with
    | Some u => RRedirect u
    | None => if String.eqb path escaped then route_of pats path else RRedirect path
    end.

(** http.NotFound *)
Definition not_found_page : response :=
  Response 404 [("Content-Type", "text/plain; charset=utf-8"); ("X-Content-Type-Options", "nosniff")]
    (Raw ("404 page not found" +:+ String (ascii_of 10) "")).

Lemma mux_match_in pats path p : mux_match pats path = Some p → p ∈ pats ∧ path_match path p = true.
Proof.
  unfold mux_match. intros Hm.
  cut (p ∈ List.filter (path_match path) pats);
    [rewrite list_elem_of_In, List.filter_In, <- list_elem_of_In; done|].
  revert Hm. induction (List.filter (path_match path) pats) as [|q l IH]; simpl; [done|].
  unfold more_specific. destruct (foldr _ None l) as [x|]; [destruct (_ <? _)|]; intros [= <-]; rewrite elem_of_cons; auto.
Qed.

(** The escaped path of a request that reaches a handler matches its pattern. *)
Lemma mux_route_match pats method escaped url_path p :
  mux_route pats method escaped url_path = RPattern p → p ∈ pats ∧ path_match escaped p = true.
Proof.
  unfold mux_route. destruct (String.eqb escaped "*"); [done|].
  assert (∀ path, route_of pats path = RPattern p → p ∈ pats ∧ path_match path p = true) as Hr.
  { intros path. unfold route_of. destruct (mux_match pats path) eqn:Em; [|done]. intros [= <-].
    by apply mux_match_in. }
  destruct (String.eqb method "CONNECT"); [destruct (matchOrRedirect _ _ _); [done|apply Hr]|].
  destruct (matchOrRedirect _ _ _); [done|].
  destruct (String.eqb_spec (cleanPath escaped) escaped) as [->|]; [apply Hr|done].
Qed.

(** A pattern that does not stand for a subtree. *)
Definition exact_pattern (p : string) : Prop := segments p ≠ [] ∧ last (segments p) ≠ Some "".

Lemma segs_match_length pat segs :
  last pat ≠ Some "" → segs_match pat segs = true → length pat = length segs.
Proof.
  revert segs. induction pat as [|p pat IH]; intros [|s segs] Hl; simpl; try done.
  destruct pat as [|p' pat].
  - destruct (String.eqb_spec p "") as [->|]; [done|]. rewrite andb_true_iff. by destruct segs; [|intros [_ ?]].
  - rewrite andb_true_iff. intros [_ Hm]. simpl. f_equal. by apply (IH segs).
Qed.

Lemma exact_patterns_differ path p q :
  exact_pattern p → exact_pattern q → path_match path p = true →
  length (segments p) ≠ length (segments q) → path_match path q = false.
Proof.
  intros [_ Hp] [_ Hq] Hm Hne. apply not_true_is_false. intros Hm'.
  apply segs_match_length in Hm, Hm'; [|done..]. congruence.
Qed.

Section mux.
Context {E S : Type} `{Redirector}.
Variable escaped : E → string.

Fixpoint handler_at (routes : list (string * Handler E S)) (pat : string) : option (Handler E S) :=
  match routes with
  | [] => None
  | (p, h) :: routes' => if String.eqb p pat then Some h else handler_at routes' pat
  end.

Definition serve_mux (routes : list (string * Handler E S)) : Handler E S := λ env st r,
  match mux_route (map fst routes) (Method r) (escaped env) (URLPath r) with
  | RPattern pat => match handler_at routes pat with
                    | Some h => h env st r
                    | None => Some (not_found_page, st)
                    end
  | RRedirect path => Some (redirect_to path r, st)
  | RNotFound => Some (not_found_page, st)
  | RBadRequest => Some (write_status 400, st)
  end.

(** ** What a mux can do *)

Lemma handler_at_in routes pat h : handler_at routes pat = Some h → (pat, h) ∈ routes.
Proof.
  induction routes as [|[p k] routes IH]; simpl; [done|].
  destruct (String.eqb_spec p pat) as [->|]; [intros [= <-]; by left|]. intros Hh. right. by apply IH.
Qed.

(** A mux answers by itself, leaving the state alone, or hands the request to
    the handler of one pattern, whatever the states are. *)
Lemma serve_mux_cases routes env r :
  (∃ resp, ∀ st, serve_mux routes env st r = Some (resp, st)) ∨
  ∃ pat h, mux_route (map fst routes) (Method r) (escaped env) (URLPath r) = RPattern pat ∧
    (pat, h) ∈ routes ∧ ∀ st, serve_mux routes env st r = h env st r.
Proof.
  unfold serve_mux. destruct (mux_route _ _ _ _) as [pat|path| |] eqn:Ert; [|by left; eexists..].
  destruct (handler_at routes pat) as [h|] eqn:Eh; [|by left; eexists].
  right. exists pat, h. split_and!; [done|by apply handler_at_in|done].
Qed.

Lemma serve_mux_route routes env st r pat h :
  mux_route (map fst routes) (Method r) (escaped env) (URLPath r) = RPattern pat →
  handler_at routes pat = Some h → serve_mux routes env st r = h env st r.
Proof. intros Hr Hh. unfold serve_mux. by rewrite Hr, Hh. Qed.

End mux.

(** ** Examples *)

Definition two_level : list string := ["/files"; "/files/upload"; "/files/upload/"; "/"].

Example mux_exact : mux_route two_level MethodGet "/files/upload" "/files/upload" = RPattern "/files/upload".
Proof. reflexivity. Qed.

Example mux_subtree : mux_route two_level MethodGet "/files/upload/ab" "/files/upload/ab" = RPattern "/files/upload/".
Proof. reflexivity. Qed.

Example mux_falls_back : mux_route two_level MethodGet "/files/x" "/files/x" = RPattern "/".
Proof. reflexivity. Qed.

Example mux_decodes : mux_route two_level MethodGet "/%66iles" "/files" = RPattern "/files".
Proof. reflexivity. Qed.

Example mux_cleans : mux_route two_level MethodGet "/x/../files" "/x/../files" = RRedirect "/files".
Proof. reflexivity. Qed.

Example mux_slash_is_not_a_separator : mux_route two_level MethodGet "/files%2Fupload" "/files/upload" = RPattern "/".
Proof. reflexivity. Qed.
