(* ===== verification/Daemon.v ===== *)
(** * cmd/claudecode-remoted/main.go: the daemon's HTTP surface

    [daemon_state] is everything the handlers share; [daemon_env] what the
    environment supplies while one request is served. A request is one step; a
    stream it started goes on by steps of its own. The embedded test client is the parameter [StaticWeb]. *)

From S2P Require Import Prelude GoStr Http Fs Database DeviceAuth IdStore StepUp RateLimit Verifier.
From S2P Require Import Totp Password WebAuthn Owner Middleware Mux Tickets Locks Tmux Manager.
From S2P Require Import Stream TermHttp FileStore Upload FilesHttp.
From Stdlib Require Import Ascii.

(** http.FileServer over the embedded files. *)
Class StaticWeb := static_web : request → response.

Record daemon_env := DaemonEnv {
  q_escaped : string;             (* r.URL.EscapedPath() *)
  q_rand : result (list Z);       (* crypto/rand; no handler reads it twice *)
  q_clock : clock;                (* the clock readings of the owner handlers *)
  q_verify : Z;                   (* of DeviceAuthenticator.Verify *)
  q_consume : Z;                  (* of StepUpGate.Consume *)
  q_sweep : Z;                    (* of the sweeps of challenges and tickets *)
  q_issue : Z;                    (* of IssueChallenge and issue *)
  q_ticket : Z;                   (* of consume *)
  q_now : Z;                      (* of the statements on sessions, in seconds *)
  q_io_device : error;            (* the driver's answer to a device lookup *)
  q_io1 : error;                  (* to the handler's first and second statement *)
  q_io2 : error;
  q_snapshot_send : error;        (* sending the first screen of a stream *)
}.

Section daemon.
Context `{Unicode} `{TotpLib} `{Argon2} `{WebAuthnLib} `{JsonDecoder} `{SqlOrder} `{Ed25519}.
Context `{StateCodec} `{Quote} `{UrlParse} `{Upgrader} `{Redirector} `{StaticWeb}.
Context {W : Type} `{TmuxBinary W}.

Record daemon_state := Daemon {
  d_owner : owner_state;
  d_pending : Pending;
  d_gate : StepUpGate;
  d_tickets : Tickets;
  d_fs : FS;
  d_tmux : W;
  d_live : list (string * stream_state);
}.

Abbreviation handler := (Handler daemon_env daemon_state).

(** ** The parts of the state *)

Definition d_db (st : daemon_state) : DB := store (d_owner st).

Definition pending_lens : Lens daemon_state Pending.
Proof.
  by refine {| get := d_pending;
    set p st := Daemon (d_owner st) p (d_gate st) (d_tickets st) (d_fs st) (d_tmux st) (d_live st) |}.
Defined.

Definition gate_lens : Lens daemon_state StepUpGate.
Proof.
  by refine {| get := d_gate;
    set g st := Daemon (d_owner st) (d_pending st) g (d_tickets st) (d_fs st) (d_tmux st) (d_live st) |}.
Defined.

Definition with_owner (st : daemon_state) (o : owner_state) : daemon_state :=
  Daemon o (d_pending st) (d_gate st) (d_tickets st) (d_fs st) (d_tmux st) (d_live st).

Definition with_tickets (st : daemon_state) (t : Tickets) : daemon_state :=
  Daemon (d_owner st) (d_pending st) (d_gate st) t (d_fs st) (d_tmux st) (d_live st).

Definition with_fs (st : daemon_state) (fs : FS) : daemon_state :=
  Daemon (d_owner st) (d_pending st) (d_gate st) (d_tickets st) fs (d_tmux st) (d_live st).

Definition term_part (st : daemon_state) : http_state (W := W) :=
  HttpState (TermState (d_db st) (d_fs st) (d_tmux st)) (d_live st).

Definition with_term (st : daemon_state) (t : http_state (W := W)) : daemon_state :=
  Daemon (OwnerState (owner (d_owner st)) (limiter (d_owner st)) (tdb (term t)))
    (d_pending st) (d_gate st) (d_tickets st) (tfs (term t)) (tmux (term t)) (live t).

Definition term_env_of (env : daemon_env) : term_env :=
  TermEnv (q_rand env) (q_now env) (q_io1 env) (q_io2 env) (q_snapshot_send env).

(** What a device lookup sees. *)
Definition device_store (env : daemon_env) (st : daemon_state) : DB * error :=
  (d_db st, q_io_device env).

(** ** Handlers of the other packages on this state *)

Definition on_term (f : http_state (W := W) → request → term_env → response * http_state (W := W))
    : handler := λ env st r,
  let '(resp, t) := f (term_part st) r (term_env_of env) in Some (resp, with_term st t).

Definition on_files (f : FS → request → result (list Z) → response * FS) : handler := λ env st r,
  let '(resp, fs) := f (d_fs st) r (q_rand env) in Some (resp, with_fs st fs).

Definition on_owner (f : daemon_env → owner_state → request → option (response * owner_state))
    : handler := λ env st r,
  '(resp, o) ← f env (d_owner st) r; Some (resp, with_owner st o).

(** terminal.Manager.Routes *)
Definition Routes (m : Manager) : handler :=
  serve_mux q_escaped
    [("/sessions", on_term (λ st r env, lift st (handleSessions m (TermHttp.term st) r env)));
     ("/sessions/", on_term (handleSession m))].

(** files.API.Register on a mux of its own *)
Definition Register (a : Uploader) : handler :=
  serve_mux q_escaped
    [("/files", on_files (λ fs r _, handleFiles fs a r));
     ("/files/download", on_files (λ fs r _, (handleDownload fs a r, fs)));
     ("/files/upload", on_files (λ fs r rand, handleUploadCreate fs a r rand));
     ("/files/upload/", on_files (λ fs r _, handleUploadResume fs a r))].

Definition RegisterPairing : list (string * handler) :=
  [("/owner/pair/start", on_owner (λ env o r, Some (handlePairStart o r (q_rand env) (q_clock env))));
   ("/owner/pair/password", on_owner (λ env o r, handlePairPassword o r (q_clock env)));
   ("/owner/pair/totp", on_owner (λ env o r, handlePairTOTP o r (q_clock env)));
   ("/owner/pair/passkey", on_owner (λ env o r, handlePairPasskey o r (q_clock env)));
   ("/owner/pair/complete",
      on_owner (λ env o r, Some (handlePairComplete o r (q_rand env) (q_io1 env) (q_clock env))))].

Definition RegisterDeviceManagement : list (string * handler) :=
  [("/owner/devices", on_owner (λ env o r, Some (handleDevices o r (q_io1 env), o)));
   ("/owner/devices/revoke", on_owner (λ env o r, Some (handleDevicesRevoke o r (q_io1 env))))].

(** ** The handlers of main.go *)

Definition writeJSONError (code : Z) (msg : string) : response := write_error code msg.

Definition wrapSessionAuth (next : handler) : handler := λ env st r,
  if has_suffix (URLPath r) "/stream" then
    let ticket := query_get r "ticket" in
    let refuse st := Some (writeJSONError 401 "missing or invalid ws ticket", st) in
    if String.eqb ticket "" then refuse st else
    let '(ok, t) := consume (d_tickets st) ticket (q_ticket env) in
    let st' := with_tickets st t in
    if ok then next env st' r else refuse st'
  else RequireDevice pending_lens device_store q_verify next env st r.

Definition handleAuthChallenge : handler := λ env st r,
  if negb (String.eqb (Method r) MethodPost)
  then Some (writeJSONError 405 "method not allowed", st)
  else
    let bad := Some (writeJSONError 400 "device_id is required", st) in
    match json_decode (Body r) with
    | Err _ => bad
    | Ok body =>
       let id := field body "device_id" in
       if String.eqb id "" then bad else
       match IssueChallenge (d_pending st) (device_store env st) id (q_rand env) (q_sweep env) (q_issue env) with
       | (Err _, p) => Some (writeJSONError 500 "failed to issue challenge", set pending_lens p st)
       | (Ok nonce, p) =>
          Some (write_json 200 (JObject [("challenge", JString (b64_encode true nonce))]),
                set pending_lens p st)
       end
    end.

Definition handleAuthWSTicket : handler := λ env st r,
  if negb (String.eqb (Method r) MethodPost)
  then Some (writeJSONError 405 "method not allowed", st)
  else match issue (d_tickets st) (q_rand env) (q_sweep env) (q_issue env) with
  | (Err _, t) => Some (writeJSONError 500 "failed to issue ticket", with_tickets st t)
  | (Ok ticket, t) => Some (write_json 200 (JObject [("ticket", JString ticket)]), with_tickets st t)
  end.

Definition handleHealth : handler := λ _ st _,
  Some (write_json 200 (JObject [("status", JString "ok")]), st).

Definition maxJSONBody : Z := 2 ^ 20.

(** http.MaxBytesReader *)
Definition MaxBytesReader (body : stream) (n : Z) : stream :=
  if slen (content body) <=? n then body
  else Stream (String.substring 0 (Z.to_nat n) (content body)) (Some (EMsg "http: request body too large")).

Definition with_body (r : request) (body : stream) : request :=
  Request (Method r) (URLPath r) (Query r) (Header r) (RemoteAddr r) (Host r) body (ctx_device r).

Definition limited (r : request) : request :=
  if negb (has_prefix (URLPath r) "/files/upload")
  then with_body r (MaxBytesReader (Body r) maxJSONBody) else r.

Definition limitRequestBody (next : handler) : handler := λ env st r, next env st (limited r).

Definition secure_headers (path : string) : list (string * string) :=
  [("X-Content-Type-Options", "nosniff"); ("X-Frame-Options", "DENY");
   ("Referrer-Policy", "no-referrer"); ("Cross-Origin-Opener-Policy", "same-origin")] ++
  (if negb (has_prefix path "/static") && negb (String.eqb path "/")
   then [("Content-Security-Policy", "default-src 'none'; frame-ancestors 'none'")] else []).

(** The headers are set before the handler runs. *)
Definition secureHeaders (next : handler) : handler := λ env st r,
  '(resp, st') ← next env st r; Some (add_headers (secure_headers (URLPath r)) resp, st').

(** ** newRouter *)

Record routerConfig := RouterConfig {
  TermMux : handler;
  FilesMux : handler;
  OwnerEmail : string;
  OwnerPasswordHash : string;
  OwnerTOTPSecret : string;
  PublicDomain : string;
  InsecureNoAuth : bool;
}.

Definition authenticated (next : handler) : handler :=
  RequireDevice pending_lens device_store q_verify next.

Definition with_step_up (action : string) (next : handler) : handler :=
  RequireStepUp gate_lens q_consume action next.

(** The patterns of the root mux. *)
Definition root_routes (cfg : routerConfig) : list (string * handler) :=
  let authedTerm := if InsecureNoAuth cfg then TermMux cfg else wrapSessionAuth (TermMux cfg) in
  let authedFiles := if InsecureNoAuth cfg then FilesMux cfg else authenticated (FilesMux cfg) in
  let deviceMux := serve_mux q_escaped RegisterDeviceManagement in
  map (λ p, (p, authedTerm)) ["/sessions"; "/sessions/"] ++
  map (λ p, (p, authedFiles)) ["/files"; "/files/download"; "/files/upload"; "/files/upload/"] ++
  RegisterPairing ++
  [("/owner/devices", authenticated deviceMux);
   ("/owner/devices/revoke", authenticated (with_step_up ActionRevokeDevice deviceMux));
   ("/auth/challenge", handleAuthChallenge);
   ("/auth/ws-ticket", authenticated handleAuthWSTicket);
   ("/health", handleHealth);
   ("/", λ _ st r, Some (static_web r, st))].

Definition serve (cfg : routerConfig) : handler :=
  secureHeaders (limitRequestBody (serve_mux q_escaped (root_routes cfg))).

Definition owner_config (cfg : routerConfig) : OwnerConfig :=
  MkOwnerConfig (OwnerEmail cfg) (OwnerPasswordHash cfg) (OwnerTOTPSecret cfg) (PublicDomain cfg)
    "ClaudeCode Remote"
    (if String.eqb (PublicDomain cfg) "" then [] else ["https://" +:+ PublicDomain cfg]).

(** The state newRouter builds around the database, the files and the tmux server. *)
Definition newRouter (cfg : routerConfig) (d : DB) (fs : FS) (w : W) : handler * daemon_state :=
  (serve cfg,
   Daemon (OwnerState (NewOwner (owner_config cfg)) NewRateLimiter d)
     NewDeviceAuthenticator NewStepUpGate newWSTicketStore fs w []).

(** ** Histories *)

(** A request with its environment, an event of the [k]-th stream, or a change
    of files and tmux server that is not the daemon's. *)
Inductive daemon_event :=
  | Serve (env : daemon_env) (r : request)
  | OnStream (k : nat) (e : stream_event)
  | World (fs : FS) (w : W).

Definition daemon_step (h : handler) (st : daemon_state) (e : daemon_event) : option daemon_state :=
  match e with
  | Serve env r => snd <$> h env st r
  | OnStream k e => Some (with_term st (stream_event_at (term_part st) k e))
  | World fs w =>
     Some (Daemon (d_owner st) (d_pending st) (d_gate st) (d_tickets st) fs w (d_live st))
  end.

Fixpoint daemon_run (h : handler) (st : daemon_state) (es : list daemon_event) : option daemon_state :=
  match es with
  | [] => Some st
  | e :: es' => st' ← daemon_step h st e; daemon_run h st' es'
  end.
End daemon.
