(* ===== verification/DaemonProps.v ===== *)
(** * What the daemon as a whole guarantees

    [credentials]: who is let through. [blind]: a handler that neither looks at
    nor touches files, tmux sessions and the sessions table. The rest is about
    histories of requests from the state newRouter builds. *)

From S2P Require Import Prelude GoStr Http Fs Database DeviceAuth IdStore StepUp RateLimit Verifier.
From S2P Require Import Totp Password WebAuthn Pairing Owner OwnerProps Middleware Mux Tickets Locks.
From S2P Require Import Tmux Manager Stream TermHttp FileStore Upload FilesHttp Daemon.
From Stdlib Require Import Ascii.

Section daemon_props.
Context `{Unicode} `{TotpLib} `{Argon2} `{WebAuthnLib} `{JsonDecoder} `{SqlOrder} `{Ed25519}.
Context `{StateCodec} `{Quote} `{UrlParse} `{Upgrader} `{Redirector} `{StaticWeb}.
Context {W : Type} `{TmuxBinary W}.
Implicit Types st : daemon_state (W := W).
Abbreviation handler := (Handler daemon_env (daemon_state (W := W))).
Implicit Types h : handler.
Implicit Types cfg : routerConfig (W := W).

(** ** The private part of the state *)

Definition private_part : Type := gmap string session_row * FS * W * list (string * stream_state).

Definition with_sessions (s : gmap string session_row) (o : owner_state) : owner_state :=
  OwnerState (owner o) (limiter o) (Tables s (devices (store o))).

Definition with_private (p : private_part) st : daemon_state (W := W) :=
  Daemon (with_sessions p.1.1.1 (d_owner st)) (d_pending st) (d_gate st) (d_tickets st) p.1.1.2 p.1.2 p.2.

Definition private st : private_part := (sessions (d_db st), d_fs st, d_tmux st, d_live st).

Lemma with_private_id st : with_private (private st) st = st.
Proof. by destruct st as [[o l [s d]] p g t fs w lv]. Qed.

Lemma private_with p st : private (with_private p st) = p.
Proof. by destruct p as [[[? ?] ?] ?]. Qed.

(** Whatever the private part is, the answer and the rest of the new state are
    the same, and the private part stays. *)
Definition blind h (env : daemon_env) st (r : request) : Prop :=
  ∀ p, h env (with_private p st) r = prod_map id (with_private p) <$> h env st r.

Lemma blind_keeps h env st r resp st' :
  blind h env st r → h env st r = Some (resp, st') → private st' = private st.
Proof.
  intros Hb Hh. specialize (Hb (private st)). rewrite with_private_id, Hh in Hb. simpl in Hb.
  injection Hb as Hb. rewrite Hb. apply private_with.
Qed.

Lemma blind_fixed h env st r resp : (∀ st, h env st r = Some (resp, st)) → blind h env st r.
Proof. intros Hh p. by rewrite !Hh. Qed.

(** *** Muxes and plain middleware *)

Lemma blind_mux routes env st r :
  (∀ pat h, (pat, h) ∈ routes → mux_route (map fst routes) (Method r) (q_escaped env) (URLPath r) = RPattern pat →
     blind h env st r) →
  blind (serve_mux q_escaped routes) env st r.
Proof.
  intros Hr. destruct (serve_mux_cases q_escaped routes env r) as [[resp Hh]|(pat & h & Hp & Hin & Hh)].
  - by eapply blind_fixed.
  - intros p. rewrite !Hh. by eapply Hr.
Qed.

Lemma blind_secureHeaders h env st r : blind h env st r → blind (secureHeaders h) env st r.
Proof. intros Hb p. unfold secureHeaders. rewrite Hb. by destruct (h env st r) as [[? ?]|]. Qed.

(** *** Device authentication *)

Lemma GetDevice_devices d d' id io : devices d = devices d' → GetDevice d id io = GetDevice d' id io.
Proof. unfold GetDevice. by intros ->. Qed.

Lemma device_lookup_private env p st id :
  lookup_device (device_store env (with_private p st)) id = lookup_device (device_store env st) id.
Proof.
  unfold lookup_device, store_lookup, Store_Device; simpl. by rewrite (GetDevice_devices _ (d_db st)).
Qed.

Lemma Verify_lookup {D} `{DeviceLookup D} p (s s' : D) id sig now :
  lookup_device s id = lookup_device s' id →
  DeviceAuth.Verify p s id sig now = DeviceAuth.Verify p s' id sig now.
Proof. unfold DeviceAuth.Verify. by intros ->. Qed.

Lemma Issue_lookup {D} `{DeviceLookup D} p (s s' : D) id rand ts ti :
  lookup_device s id = lookup_device s' id →
  IssueChallenge p s id rand ts ti = IssueChallenge p s' id rand ts ti.
Proof. unfold IssueChallenge. by intros ->. Qed.

Definition authentic_for (env : daemon_env) st (r : request) : Prop :=
  ∃ id, authentic pending_lens device_store q_verify env st r id.

Definition ticket_for (env : daemon_env) st (r : request) : Prop :=
  has_suffix (URLPath r) "/stream" = true ∧ query_get r "ticket" ≠ "" ∧
  (consume (d_tickets st) (query_get r "ticket") (q_ticket env)).1 = true.

(** A request the daemon lets through to files or terminals. *)
Definition credentials (env : daemon_env) st (r : request) : Prop :=
  authentic_for env st r ∨ ticket_for env st r.

Lemma authentic_private env p st r : authentic_for env (with_private p st) r ↔ authentic_for env st r.
Proof.
  unfold authentic_for, authentic. setoid_rewrite device_lookup_private. done.
Qed.

Definition quiet : handler := λ _ st _, Some (write_status 200, st).

(** A refusal does not depend on what is behind. *)
Lemma refused_alike h h' env st r :
  ¬ authentic_for env st r → authenticated h env st r = authenticated h' env st r.
Proof.
  intros Hn. destruct (RequireDevice_cases pending_lens device_store q_verify h env st r)
    as [[Ha _]|(_ & msg & st' & _ & HR)]; [by destruct Hn; eexists|].
  unfold authenticated. by rewrite !HR.
Qed.

Lemma blind_authenticated h env st r :
  (∀ st' id, blind h env st' (with_device r id)) → blind (authenticated h) env st r.
Proof.
  intros Hb p. unfold authenticated, RequireDevice.
  destruct (_ || _); [done|]. destruct (b64_decode _ _) as [sig|]; [|done].
  rewrite (Verify_lookup _ _ (device_store env st)) by apply device_lookup_private.
  change (get pending_lens (with_private p st)) with (get pending_lens st).
  destruct (DeviceAuth.Verify _ _ _ _ _) as [[[e|] q]|]; simpl; [done| |done].
  apply (Hb (set pending_lens q st)).
Qed.

Lemma blind_refused h env st r : ¬ authentic_for env st r → blind (authenticated h) env st r.
Proof.
  intros Hn p. rewrite (refused_alike h quiet env st) by done.
  rewrite (refused_alike h quiet) by (by rewrite authentic_private).
  apply blind_authenticated. by intros st' id p'.
Qed.

Lemma blind_wrapSessionAuth h env st r : ¬ credentials env st r → blind (wrapSessionAuth h) env st r.
Proof.
  intros Hn p. unfold wrapSessionAuth. destruct (has_suffix _ _) eqn:Es.
  - destruct (String.eqb_spec (query_get r "ticket") "") as [|Hne]; [done|].
    change (d_tickets (with_private p st)) with (d_tickets st).
    destruct (consume _ _ _) as [[] t] eqn:Ec; [|done].
    destruct Hn. right. unfold ticket_for. by rewrite Ec.
  - apply (blind_refused h). intros Ha. apply Hn. by left.
Qed.

(** *** Pairing *)

(** An owner handler that works on devices only. *)
Definition session_free (f : owner_state → option (response * owner_state)) : Prop :=
  ∀ o s, f (with_sessions s o) = prod_map id (with_sessions s) <$> f o.

Lemma blind_on_owner f env st r :
  session_free (λ o, f env o r) → blind (on_owner f) env st r.
Proof.
  intros Hf p. unfold on_owner. change (d_owner (with_private p st)) with (with_sessions p.1.1.1 (d_owner st)).
  rewrite (Hf (d_owner st)). by destruct (f env (d_owner st) r) as [[? ?]|].
Qed.

Lemma free_start r rand c : session_free (λ o, Some (handlePairStart o r rand c)).
Proof.
  intros o s. unfold handlePairStart. simpl.
  destruct (not_post r); [done|]. destruct (json_decode (Body r)) as [body|]; [|done].
  destruct (b64_decode _ _) as [raw|]; [|done]. destruct (negb _); [done|]. by destruct (randomID rand).
Qed.

Lemma free_satisfy ip id f ev c : session_free (λ o, satisfyFactor o ip id f ev c).
Proof.
  intros o s. unfold satisfyFactor. simpl. destruct (_ !! id) as [rec|]; [|done].
  by destruct (Satisfy _ _ _ _ _) as [[[? ?] [? ?]]|].
Qed.

Lemma free_password r c : session_free (λ o, handlePairPassword o r c).
Proof.
  intros o s. unfold handlePairPassword. simpl. destruct (not_post r); [done|].
  destruct (json_decode (Body r)) as [body|]; [|done]. destruct (Allow _ _ _ _); [done|].
  destruct (_ || _); [done|]. apply free_satisfy.
Qed.

Lemma free_factor f ef r c : session_free (λ o, handlePairFactor f ef o r c).
Proof.
  intros o s. unfold handlePairFactor. simpl. destruct (not_post r); [done|].
  destruct (json_decode (Body r)) as [body|]; [|done]. destruct (Allow _ _ _ _); [done|].
  apply free_satisfy.
Qed.

Lemma free_complete r rand io c : session_free (λ o, Some (handlePairComplete o r rand io c)).
Proof.
  intros o s. unfold handlePairComplete. simpl. destruct (not_post r); [done|].
  destruct (json_decode (Body r)) as [body|]; [|done].
  destruct (_ !! field body "pairing_id") as [rec|]; [|done].
  destruct (Complete _ _) as [[e|] att]; [done|]. destruct (randomID rand); [|done].
  unfold Store_PairDevice, PairDevice. simpl. destruct io; [done|]. by destruct (devices _ !! _).
Qed.

Lemma public_blind cfg env st r :
  InsecureNoAuth cfg = false → ¬ credentials env st r → blind (serve cfg) env st r.
Proof.
  intros Hsec Hn. unfold serve. apply blind_secureHeaders.
  assert (¬ credentials env st (limited r)) as Hn' by (unfold limited; by destruct (negb _)).
  assert (¬ authentic_for env st (limited r)) as Ha by (intros ?; apply Hn'; by left).
  change (blind (serve_mux q_escaped (root_routes cfg)) env st (limited r)).
  generalize dependent (limited r). clear r Hn. intros r Hn Ha.
  apply blind_mux. intros pat h Hin _. unfold root_routes in Hin. rewrite Hsec in Hin.
  repeat rewrite elem_of_app in Hin. destruct Hin as [Hin|[Hin|[Hin|Hin]]].
  - simpl in Hin. rewrite !elem_of_cons, elem_of_nil in Hin.
    destruct Hin as [[= _ ->]|[[= _ ->]|[]]]; by apply blind_wrapSessionAuth.
  - simpl in Hin. rewrite !elem_of_cons, elem_of_nil in Hin.
    destruct Hin as [[= _ ->]|[[= _ ->]|[[= _ ->]|[[= _ ->]|[]]]]]; by apply blind_refused.
  - unfold RegisterPairing in Hin. rewrite !elem_of_cons, elem_of_nil in Hin.
    destruct Hin as [[= _ ->]|[[= _ ->]|[[= _ ->]|[[= _ ->]|[[= _ ->]|[]]]]]]; apply blind_on_owner.
    + apply free_start.
    + apply free_password.
    + apply free_factor.
    + apply free_factor.
    + apply free_complete.
  - rewrite !elem_of_cons, elem_of_nil in Hin.
    destruct Hin as [[= _ ->]|[[= _ ->]|[[= _ ->]|[[= _ ->]|[[= _ ->]|[[= _ ->]|[]]]]]]]; try by apply blind_refused.
    + intros p. unfold handleAuthChallenge. destruct (negb _); [done|].
      destruct (json_decode _) as [body|]; [|done]. destruct (String.eqb _ ""); [done|].
      rewrite (Issue_lookup _ _ (device_store env st)) by apply device_lookup_private.
      change (d_pending (with_private p st)) with (d_pending st).
      by destruct (IssueChallenge _ _ _ _ _ _) as [[] ?].
    + done.
    + done.
Qed.

(** C1: Unless --insecure-no-auth is set, a request that carries neither a valid device
    signature over its outstanding challenge nor, on a path ending in /stream, a valid ticket
    leaves files, tmux sessions, streams and the sessions table as they are, and its answer and
    everything else it changes do not depend on them. *)
Theorem unauthenticated_request_is_blind cfg env st r resp st' :
  InsecureNoAuth cfg = false → ¬ credentials env st r → serve cfg env st r = Some (resp, st') →
  private st' = private st ∧
  ∀ p, serve cfg env (with_private p st) r = Some (resp, with_private p st').
Proof.
  intros Hsec Hn Hs. pose proof (public_blind cfg env st r Hsec Hn) as Hb.
  split; [by eapply blind_keeps|]. intros p. by rewrite Hb, Hs.
Qed.

(** ** What all handlers preserve *)

Section preserves.
Variable I : daemon_state (W := W) → Prop.
Variable env : daemon_env.

Definition preserves (r : request) h : Prop :=
  ∀ st resp st', I st → h env st r = Some (resp, st') → I st'.

Lemma preserves_mux routes r :
  (∀ pat h, (pat, h) ∈ routes → mux_route (map fst routes) (Method r) (q_escaped env) (URLPath r) = RPattern pat →
     preserves r h) →
  preserves r (serve_mux q_escaped routes).
Proof.
  intros Hr st resp st' HI Hs.
  destruct (serve_mux_cases q_escaped routes env r) as [[resp' Hh]|(pat & h & Hp & Hin & Hh)];
    rewrite Hh in Hs; [by injection Hs as _ <-|by eapply Hr].
Qed.

Lemma preserves_secureHeaders h r : preserves r h → preserves r (secureHeaders h).
Proof.
  intros Hh st resp st' HI. unfold secureHeaders.
  destruct (h env st r) as [[x st1]|] eqn:E1; simpl; [|done]. intros [= _ <-]. by eapply Hh.
Qed.

Hypothesis I_pending : ∀ p st, I st → I (set pending_lens p st).

Lemma preserves_authenticated h r :
  (∀ id, preserves (with_device r id) h) → preserves r (authenticated h).
Proof.
  intros Hh st resp st' HI Hs.
  destruct (RequireDevice_cases pending_lens device_store q_verify h env st r)
    as [[_ Ha]|(_ & msg & st1 & Hst & HR)].
  - unfold authenticated in Hs. rewrite Ha in Hs. eapply Hh; [|done]. by apply I_pending.
  - unfold authenticated in Hs. rewrite HR in Hs. injection Hs as _ <-.
    destruct Hst as [->| ->]; [done|by apply I_pending].
Qed.

Lemma preserves_challenge r : preserves r handleAuthChallenge.
Proof.
  intros st resp st' HI. unfold handleAuthChallenge.
  destruct (negb _); [by intros [= _ <-]|].
  destruct (json_decode _) as [body|]; [|by intros [= _ <-]].
  destruct (String.eqb _ ""); [by intros [= _ <-]|].
  destruct (IssueChallenge _ _ _ _ _ _) as [[n|e] p]; intros [= _ <-]; by apply (I_pending p).
Qed.

(** The list route never reaches the revoke handler of the mux it shares with it. *)
Lemma preserves_device_list r :
  path_match (q_escaped env) "/owner/devices" = true →
  preserves r (serve_mux q_escaped RegisterDeviceManagement).
Proof.
  intros Hm. apply preserves_mux. intros pat h Hin Hp. unfold RegisterDeviceManagement in Hin.
  rewrite !elem_of_cons, elem_of_nil in Hin. destruct Hin as [[= _ ->]|[[= -> _]|[]]].
  - intros st resp st' HI. unfold on_owner. simpl. intros [= _ <-]. by destruct st.
  - apply mux_route_match in Hp as [_ Hp]. 
    by rewrite (exact_patterns_differ _ "/owner/devices/revoke" "/owner/devices") in Hm.
Qed.

(** The patterns of the secure root mux, one obligation each. *)
Lemma preserves_serve cfg r :
  InsecureNoAuth cfg = false →
  (∀ q, preserves q (wrapSessionAuth (TermMux cfg))) →
  (∀ q, preserves q (authenticated (FilesMux cfg))) →
  (∀ q pat h, (pat, h) ∈ RegisterPairing → preserves q h) →
  (∀ q h, preserves q (with_step_up ActionRevokeDevice h)) →
  (∀ q, preserves q (authenticated handleAuthWSTicket)) →
  preserves r (serve cfg).
Proof.
  intros Hsec Hterm Hfiles Hpair Hrev Htick. unfold serve. apply preserves_secureHeaders.
  cut (∀ q, preserves q (serve_mux q_escaped (root_routes cfg))); [intros Hq; exact (Hq (limited r))|].
  clear r. intros r. apply preserves_mux. intros pat h Hin Hp. unfold root_routes in Hin. rewrite Hsec in Hin.
  repeat rewrite elem_of_app in Hin. destruct Hin as [Hin|[Hin|[Hin|Hin]]].
  - simpl in Hin. rewrite !elem_of_cons, elem_of_nil in Hin.
    destruct Hin as [[= _ ->]|[[= _ ->]|[]]]; apply Hterm.
  - simpl in Hin. rewrite !elem_of_cons, elem_of_nil in Hin.
    destruct Hin as [[= _ ->]|[[= _ ->]|[[= _ ->]|[[= _ ->]|[]]]]]; apply Hfiles.
  - by eapply Hpair.
  - rewrite !elem_of_cons, elem_of_nil in Hin.
    destruct Hin as [[= -> ->]|[[= _ ->]|[[= _ ->]|[[= _ ->]|[[= _ ->]|[[= _ ->]|[]]]]]]].
    + apply mux_route_match in Hp as [_ Hp]. apply preserves_authenticated. intros id.
      by apply preserves_device_list.
    + apply preserves_authenticated. intros id. apply Hrev.
    + apply preserves_challenge.
    + apply Htick.
    + intros st resp st' HI. by intros [= _ <-].
    + intros st resp st' HI. by intros [= _ <-].
Qed.

Hypothesis I_tickets : ∀ t st, I st → I (with_tickets st t).

Lemma preserves_wrapSessionAuth h r : (∀ q, preserves q h) → preserves r (wrapSessionAuth h).
Proof.
  intros Hh st resp st' HI. unfold wrapSessionAuth.
  destruct (has_suffix _ _); [|by apply preserves_authenticated].
  destruct (String.eqb _ ""); [by intros [= _ <-]|].
  destruct (consume _ _ _) as [[] t]; [apply Hh; by apply I_tickets|].
  intros [= _ <-]. by apply I_tickets.
Qed.

Lemma preserves_ws_ticket r : preserves r handleAuthWSTicket.
Proof.
  intros st resp st' HI. unfold handleAuthWSTicket. destruct (negb _); [by intros [= _ <-]|].
  destruct (issue _ _ _ _) as [[tk|e] t]; intros [= _ <-]; by apply I_tickets.
Qed.
End preserves.

(** ** The devices table never changes *)

(** The daemon as main wires it. *)
Definition deployed cfg (m : Manager) (a : Uploader) : Prop :=
  InsecureNoAuth cfg = false ∧ TermMux cfg = Routes m ∧ FilesMux cfg = Register a.

(** The owner routes' part of the state, sessions set aside. *)
Definition owner_only (o : owner_state) : owner_state := with_sessions ∅ o.

(** No grant exists, and the owner part is what some history of pairing calls
    made of the initial one. *)
Record frozen cfg (d : DB) st : Prop := {
  fz_gate : d_gate st = NewStepUpGate;
  fz_run : ∃ ocs, Forall (λ oc, revokes oc = false) ocs ∧
    owner_run (owner_only (OwnerState (NewOwner (owner_config cfg)) NewRateLimiter d)) ocs =
    Some (owner_only (d_owner st));
}.

Lemma frozen_devices cfg d st : frozen cfg d st → devices (d_db st) = devices d.
Proof.
  intros [_ (ocs & HF & Hrun)]. apply fresh_run_store in Hrun; [|done]. by injection Hrun.
Qed.

Lemma frozen_start cfg d fs w : frozen cfg d (newRouter cfg d fs w).2.
Proof. split; [done|]. by exists []. Qed.

Lemma frozen_pending cfg d p st : frozen cfg d st → frozen cfg d (set pending_lens p st).
Proof. by intros []. Qed.

Lemma frozen_tickets cfg d t st : frozen cfg d st → frozen cfg d (with_tickets st t).
Proof. by intros []. Qed.

Lemma frozen_owner cfg d st oc resp o :
  frozen cfg d st → revokes oc = false → session_free (λ o, owner_step o oc) →
  owner_step (d_owner st) oc = Some (resp, o) → frozen cfg d (with_owner st o).
Proof.
  intros [Hg (ocs & HF & Hrun)] Hoc Hfree Hs. split; [done|].
  exists (ocs ++ [oc]). split; [by apply Forall_app_2; [|constructor]|].
  rewrite owner_run_snoc, Hrun. simpl. unfold owner_only. by rewrite (Hfree (d_owner st)), Hs.
Qed.

Lemma frozen_term cfg d st t :
  frozen cfg d st → devices (tdb (term t)) = devices (d_db st) → frozen cfg d (with_term st t).
Proof.
  intros [Hg (ocs & HF & Hrun)] Hd. split; [done|]. exists ocs. split; [done|].
  rewrite Hrun. unfold owner_only, with_sessions; simpl. by rewrite Hd.
Qed.

(** A pairing route is one owner call. *)
Lemma pairing_calls env q pat h :
  (pat, h) ∈ RegisterPairing →
  ∃ oc, revokes oc = false ∧ session_free (λ o, owner_step o oc) ∧
    ∀ st, h env st q = ('(resp, o) ← owner_step (d_owner st) oc; Some (resp, with_owner st o)).
Proof.
  unfold RegisterPairing. rewrite !elem_of_cons, elem_of_nil.
  intros [[= _ ->]|[[= _ ->]|[[= _ ->]|[[= _ ->]|[[= _ ->]|[]]]]]].
  - exists (OStart q (q_rand env) (q_clock env)). split_and!; [done|apply free_start|done].
  - exists (OPassword q (q_clock env)). split_and!; [done|apply free_password|done].
  - exists (OTOTP q (q_clock env)). split_and!; [done|apply free_factor|done].
  - exists (OPasskey q (q_clock env)). split_and!; [done|apply free_factor|done].
  - exists (OComplete q (q_rand env) (q_io1 env) (q_clock env)). split_and!; [done|apply free_complete|done].
Qed.

Lemma frozen_pairing cfg d env q pat h : (pat, h) ∈ RegisterPairing → preserves (frozen cfg d) env q h.
Proof.
  intros Hin st resp st' HI. destruct (pairing_calls env q pat h Hin) as (oc & Hoc & Hfree & ->).
  destruct (owner_step _ oc) as [[x o]|] eqn:Hs; simpl; [|done]. intros [= _ <-]. by eapply frozen_owner.
Qed.

(** Nothing grants, so nothing passes. *)
Lemma frozen_step_up cfg d env q h : preserves (frozen cfg d) env q (with_step_up ActionRevokeDevice h).
Proof.
  intros st resp st' HI. unfold with_step_up, RequireStepUp.
  destruct (DeviceIDFromContext q) as [id []]; [|by intros [= _ <-]]. simpl.
  rewrite (fz_gate _ _ _ HI). unfold Consume, NewStepUpGate; simpl. rewrite lookup_empty. intros [= _ <-].
  destruct HI as [Hg Hr]. split; [done|exact Hr].
Qed.

Lemma frozen_Routes cfg d m env q : preserves (frozen cfg d) env q (Routes m).
Proof.
  apply preserves_mux. intros pat h Hin _. rewrite !elem_of_cons, elem_of_nil in Hin.
  destruct Hin as [[= _ ->]|[[= _ ->]|[]]]; intros st resp st' HI; unfold on_term.
  - pose proof (handleSessions_devices m (term (term_part st)) q (term_env_of env)) as Hd.
    destruct (handleSessions _ _ _ _) as [x t]. simpl. intros [= _ <-]. by apply frozen_term.
  - pose proof (handleSession_devices m (term_part st) q (term_env_of env)) as Hd.
    destruct (handleSession _ _ _ _) as [x t]. intros [= _ <-]. by apply frozen_term.
Qed.

Lemma frozen_Register cfg d a env q : preserves (frozen cfg d) env q (Register a).
Proof.
  apply preserves_mux. intros pat h Hin _.
  assert (∃ f, h = on_files f) as [f ->].
  { rewrite !elem_of_cons, elem_of_nil in Hin.
    destruct Hin as [[= _ ->]|[[= _ ->]|[[= _ ->]|[[= _ ->]|[]]]]]; by eexists. }
  intros st resp st' [Hg Hr]. unfold on_files. destruct (f _ _ _) as [x fs]. intros [= _ <-]. by split.
Qed.

Lemma frozen_serve cfg m a d env r : deployed cfg m a → preserves (frozen cfg d) env r (serve cfg).
Proof.
  intros (Hsec & Ht & Hf). apply preserves_serve; [by intros; apply frozen_pending|done| | | | |].
  - intros q. rewrite Ht. apply preserves_wrapSessionAuth;
      [by intros; apply frozen_pending|by intros; apply frozen_tickets|]. intros q'. apply frozen_Routes.
  - intros q. rewrite Hf. apply preserves_authenticated; [by intros; apply frozen_pending|].
    intros id. apply frozen_Register.
  - intros q pat h Hin. by eapply frozen_pairing.
  - intros q h. apply frozen_step_up.
  - intros q. apply preserves_authenticated; [by intros; apply frozen_pending|].
    intros id. apply preserves_ws_ticket. by intros; apply frozen_tickets.
Qed.

Lemma daemon_run_ind (I : daemon_state (W := W) → Prop) h st es st' :
  (∀ env r, preserves I env r h) →
  (∀ k e st, I st → I (with_term st (stream_event_at (term_part st) k e))) →
  (∀ fs w st, I st → I (Daemon (d_owner st) (d_pending st) (d_gate st) (d_tickets st) fs w (d_live st))) →
  I st → daemon_run h st es = Some st' → I st'.
Proof.
  intros Hh Hk Hw. revert st. induction es as [|e es IH]; intros st HI; simpl; [by intros [= <-]|].
  destruct e as [env r|k e|fs w]; simpl; [|by apply IH, Hk|by apply IH, Hw].
  destruct (h env st r) as [[resp st1]|] eqn:Hs; simpl; [|done]. apply IH. by eapply Hh.
Qed.

Lemma frozen_stream cfg d st k e :
  frozen cfg d st → frozen cfg d (with_term st (stream_event_at (term_part st) k e)).
Proof. intros HI. apply frozen_term; [done|]. apply (stream_event_devices (term_part st)). Qed.

Lemma deployed_frozen cfg m a d fs w es st :
  deployed cfg m a → daemon_run (newRouter cfg d fs w).1 (newRouter cfg d fs w).2 es = Some st →
  frozen cfg d st.
Proof.
  intros Hd. apply (daemon_run_ind (frozen cfg d) (serve cfg));
    [by intros; eapply frozen_serve|by intros; apply frozen_stream|by intros ??? []|apply frozen_start].
Qed.

(** The route a request takes through the root mux. *)
Definition takes cfg (env : daemon_env) (r : request) (pat : string) : Prop :=
  mux_route (map fst (root_routes cfg)) (Method r) (q_escaped env) (URLPath r) = RPattern pat.

Lemma serve_takes cfg env st r pat h :
  takes cfg env r pat → handler_at (root_routes cfg) pat = Some h →
  serve cfg env st r =
    ('(resp, st') ← h env st (limited r); Some (add_headers (secure_headers (URLPath r)) resp, st')).
Proof.
  intros Ht Hh. unfold serve, secureHeaders, limitRequestBody.
  rewrite (serve_mux_route q_escaped (root_routes cfg) env st (limited r) pat h); [done| |done].
  unfold limited. by destruct (negb _).
Qed.

(** A handler that always answers 401 does so behind device authentication. *)
Lemma authenticated_401 h env st r resp st' :
  (∀ st1 id resp st2, d_gate st1 = d_gate st →
     h env st1 (with_device r id) = Some (resp, st2) → status resp = 401) →
  authenticated h env st r = Some (resp, st') → status resp = 401.
Proof.
  intros Hh Hs.
  destruct (RequireDevice_cases pending_lens device_store q_verify h env st r)
    as [[_ Ha]|(_ & msg & st1 & Hst & HR)]; unfold authenticated in Hs.
  - rewrite Ha in Hs. by eapply Hh in Hs.
  - rewrite HR in Hs. by injection Hs as <- _.
Qed.

(** C10: With authentication on, in every history of requests from the state newRouter builds
    the devices table stays exactly what it was at the start, and every request routed to
    /owner/devices/revoke is answered 401: no handler grants step-up or binds a passkey session,
    so no device is ever added or revoked. *)
Theorem deployed_devices_are_frozen cfg m a d fs w es st :
  deployed cfg m a → daemon_run (newRouter cfg d fs w).1 (newRouter cfg d fs w).2 es = Some st →
  devices (d_db st) = devices d ∧
  ∀ env r resp st', takes cfg env r "/owner/devices/revoke" → serve cfg env st r = Some (resp, st') →
    status resp = 401 ∧ devices (d_db st') = devices d.
Proof.
  intros Hd Hrun. pose proof (deployed_frozen _ _ _ _ _ _ _ _ Hd Hrun) as HF.
  split; [by apply (frozen_devices cfg)|].
  intros env r resp st' Ht Hs. split; [|by eapply (frozen_devices cfg), frozen_serve].
  rewrite (serve_takes cfg env st r _ _ Ht eq_refl) in Hs.
  destruct (authenticated _ _ _ _) as [[x st1]|] eqn:Ha; simpl in Hs; [|done]. injection Hs as <- _.
  eapply authenticated_401 in Ha; [done|].
  intros st2 id resp2 st3 Hg. unfold with_step_up, RequireStepUp. simpl.
  rewrite Hg, (fz_gate _ _ _ HF). unfold Consume, NewStepUpGate; simpl. rewrite lookup_empty. by intros [= <- _].
Qed.

(** ** A daemon without devices lets nobody in *)

Lemma no_device_no_signature env st r : devices (d_db st) = ∅ → ¬ authentic_for env st r.
Proof.
  intros Hd (id & _ & _ & sig & pc & pk & _ & _ & _ & _ & Hl & _).
  unfold lookup_device, store_lookup, Store_Device, GetDevice in Hl. simpl in Hl.
  rewrite Hd, lookup_empty in Hl. by destruct (q_io_device env).
Qed.

Lemma no_ticket_no_stream env st r : d_tickets st = newWSTicketStore → ¬ ticket_for env st r.
Proof. intros Ht (_ & _ & Hc). unfold consume in Hc. by rewrite Ht in Hc. Qed.

Definition unreachable cfg (d : DB) st : Prop := frozen cfg d st ∧ d_tickets st = newWSTicketStore.

Lemma unreachable_refuses cfg d env st r :
  devices d = ∅ → unreachable cfg d st → ¬ credentials env st r.
Proof.
  intros Hd [HF Ht] [Ha|Htk]; [|by eapply no_ticket_no_stream].
  eapply no_device_no_signature; [|done]. by rewrite (frozen_devices _ _ _ HF).
Qed.

Lemma unreachable_authenticated cfg d env r h :
  devices d = ∅ → preserves (unreachable cfg d) env r (authenticated h).
Proof.
  intros Hd st resp st' HI Hs. unfold authenticated in Hs.
  destruct (RequireDevice_cases pending_lens device_store q_verify h env st r)
    as [[Ha _]|(_ & msg & st1 & Hst & HR)].
  - destruct (unreachable_refuses cfg d env st r Hd HI). left. by eexists.
  - rewrite HR in Hs. injection Hs as _ <-. destruct HI as [HF Ht].
    destruct Hst as [->| ->]; (split; [by try apply frozen_pending|done]).
Qed.

Lemma unreachable_serve cfg m a d env r :
  deployed cfg m a → devices d = ∅ → preserves (unreachable cfg d) env r (serve cfg).
Proof.
  intros (Hsec & _ & _) Hd. apply preserves_serve.
  - intros p st [HF Ht]. by split; [apply frozen_pending|].
  - done.
  - intros q st resp st' HI. unfold wrapSessionAuth.
    destruct (has_suffix _ _); [|by apply (unreachable_authenticated cfg d env q)].
    destruct HI as [HF Ht]. destruct (String.eqb _ ""); [by intros [= _ <-]|].
    unfold consume. rewrite Ht. unfold newWSTicketStore. rewrite lookup_empty. intros [= _ <-]. by split; [apply frozen_tickets|].
  - intros q. by apply unreachable_authenticated.
  - intros q pat h Hin st resp st' [HF Ht] Hs. split; [by eapply frozen_pairing|].
    destruct (pairing_calls env q pat h Hin) as (oc & _ & _ & E). rewrite E in Hs.
    destruct (owner_step _ oc) as [[x o]|]; simpl in Hs; [|done]. by injection Hs as _ <-.
  - intros q h st resp st' [HF Ht] Hs. split; [by eapply frozen_step_up|].
    revert Hs. unfold with_step_up, RequireStepUp.
    destruct (DeviceIDFromContext q) as [id []]; [|by intros [= _ <-]]. simpl.
    rewrite (fz_gate _ _ _ HF). unfold Consume, NewStepUpGate; simpl. rewrite lookup_empty. by intros [= _ <-].
  - intros q. by apply unreachable_authenticated.
Qed.

(** What files and tmux sessions are after the changes from outside. *)
Definition last_world (w0 : FS * W) (es : list daemon_event) : FS * W :=
  fold_left (λ w e, match e with World fs w' => (fs, w') | _ => w end) es w0.

Lemma no_stream_no_event st k e : d_live st = [] → with_term st (stream_event_at (term_part st) k e) = st.
Proof. intros Hl. unfold stream_event_at. simpl. rewrite Hl. by destruct st as [[? ? ?] ? ? ? ? ? ?]. Qed.

(** From any state that cannot be reached by credentials. *)
Lemma unreachable_run cfg m a d es st0 st :
  deployed cfg m a → devices d = ∅ → unreachable cfg d st0 → d_live st0 = [] →
  daemon_run (serve cfg) st0 es = Some st →
  unreachable cfg d st ∧ d_live st = [] ∧ sessions (d_db st) = sessions (d_db st0) ∧
  (d_fs st, d_tmux st) = last_world (d_fs st0, d_tmux st0) es.
Proof.
  intros Hdep Hd. revert st0. induction es as [|e es IH]; intros st0 HI Hl; simpl; [by intros [= <-]|].
  destruct e as [env r|k e|fs' w']; simpl.
  - destruct (serve cfg env st0 r) as [[resp st1]|] eqn:Hs; simpl; [|done]. intros Hrun.
    assert (private st1 = private st0) as [= Hp1 Hp2 Hp3 Hp4].
    { eapply blind_keeps; [|done]. apply public_blind; [by destruct Hdep|by eapply unreachable_refuses]. }
    rewrite <- Hp1, <- Hp2, <- Hp3. apply IH; [by eapply unreachable_serve|by rewrite Hp4|done].
  - rewrite no_stream_no_event by done. by apply IH.
  - apply (IH (Daemon (d_owner st0) (d_pending st0) (d_gate st0) (d_tickets st0) fs' w' (d_live st0))); [|done].
    destruct HI as [[] ?]. by split.
Qed.

(** C16: A daemon started on a database without devices, and without --insecure-no-auth, lets
    nobody in: after any history of requests the sessions table is the initial one, no stream
    was started, files and tmux sessions are as the world outside last left them, and no request
    carries valid credentials. *)
Theorem fresh_installation_admits_nobody cfg m a d fs w es st :
  deployed cfg m a → devices d = ∅ →
  daemon_run (newRouter cfg d fs w).1 (newRouter cfg d fs w).2 es = Some st →
  sessions (d_db st) = sessions d ∧ (d_fs st, d_tmux st) = last_world (fs, w) es ∧ d_live st = [] ∧
  ∀ env r, ¬ credentials env st r.
Proof.
  intros Hdep Hd Hrun.
  assert (unreachable cfg d (newRouter cfg d fs w).2) as HI by (by split; [apply frozen_start|]).
  destruct (unreachable_run cfg m a d es (newRouter cfg d fs w).2 st Hdep Hd HI eq_refl Hrun) as (HI' & Hl & Hs & Hw).
  split_and!; [done|done|done|]. intros env r. by apply (unreachable_refuses cfg d).
Qed.
End daemon_props.
