(* ===== verification/DaemonUse.v ===== *)
(** * Using the daemon: challenge, signature, ticket, and the limit on bodies

    What a client with a paired device obtains, request by request, and
    concrete runs of the daemon. *)

From S2P Require Import Prelude GoStr Http Fs Database DeviceAuth IdStore StepUp RateLimit Verifier.
From S2P Require Import Totp Password WebAuthn Pairing Owner OwnerProps Middleware Mux Tickets Locks.
From S2P Require Import Tmux Manager Stream TermHttp FileStore Upload FilesHttp Daemon DaemonProps.
From Stdlib Require Import Ascii.

Section daemon_use.
Context `{Unicode} `{TotpLib} `{Argon2} `{WebAuthnLib} `{JsonDecoder} `{SqlOrder} `{Ed25519}.
Context `{StateCodec} `{Quote} `{UrlParse} `{Upgrader} `{Redirector} `{StaticWeb}.
Context {W : Type} `{TmuxBinary W}.
Implicit Types st : daemon_state (W := W).
Implicit Types cfg : routerConfig (W := W).

(** The response of [h] with the headers every response has. *)
Definition secured (r : request) (o : option (response * daemon_state (W := W)))
    : option (response * daemon_state (W := W)) :=
  '(resp, st) ← o; Some (add_headers (secure_headers (URLPath r)) resp, st).

Lemma limited_headers r : Header (limited r) = Header r.
Proof. unfold limited. by destruct (negb _). Qed.

Lemma limited_path r : URLPath (limited r) = URLPath r.
Proof. unfold limited. by destruct (negb _). Qed.

Lemma limited_method r : Method (limited r) = Method r.
Proof. unfold limited. by destruct (negb _). Qed.

Lemma limited_query r : Query (limited r) = Query r.
Proof. unfold limited. by destruct (negb _). Qed.

Lemma authentic_limited env st r id :
  authentic pending_lens device_store q_verify env st r id →
  authentic pending_lens device_store q_verify env st (limited r) id.
Proof. unfold authentic, header_get. by rewrite limited_headers. Qed.

(** An authentic request reaches what is behind device authentication. *)
Lemma authenticated_serves h env st r id :
  authentic pending_lens device_store q_verify env st r id →
  authenticated h env st r = h env (set pending_lens (delete id (d_pending st)) st) (with_device r id).
Proof.
  intros Ha. destruct (RequireDevice_cases pending_lens device_store q_verify h env st r)
    as [[_ HE]|(Hn & _)]; [|by destruct (Hn id)].
  by destruct Ha as [-> _].
Qed.

(** The routes behind device authentication, with the muxes they lead to. *)
Inductive leads_to cfg (r : request) : string → Handler daemon_env (daemon_state (W := W)) → Prop :=
  | to_files pat :
      pat ∈ ["/files"; "/files/download"; "/files/upload"; "/files/upload/"] → leads_to cfg r pat (FilesMux cfg)
  | to_sessions pat :
      pat ∈ ["/sessions"; "/sessions/"] → has_suffix (URLPath r) "/stream" = false →
      leads_to cfg r pat (TermMux cfg).

Lemma serve_authentic cfg env st r pat h id :
  InsecureNoAuth cfg = false → takes cfg env r pat → leads_to cfg r pat h →
  authentic pending_lens device_store q_verify env st r id →
  serve cfg env st r =
    secured r (h env (set pending_lens (delete id (d_pending st)) st) (with_device (limited r) id)).
Proof.
  intros Hsec Ht Hl Ha. unfold secured.
  assert (∃ k, handler_at (root_routes cfg) pat = Some k ∧
    k env st (limited r) = authenticated h env st (limited r)) as (k & Hk & HE).
  { destruct Hl as [pat Hp|pat Hp Hs]; rewrite !elem_of_cons, elem_of_nil in Hp.
    - exists (authenticated (FilesMux cfg)). split; [|done]. unfold root_routes. rewrite Hsec.
      destruct Hp as [->|[->|[->|[->|[]]]]]; done.
    - exists (wrapSessionAuth (TermMux cfg)). split.
      + unfold root_routes. rewrite Hsec. destruct Hp as [->|[->|[]]]; done.
      + unfold wrapSessionAuth. by rewrite limited_path, Hs. }
  rewrite (serve_takes cfg env st r pat k Ht Hk), HE.
  by rewrite (authenticated_serves h env st (limited r) id) by (by apply authentic_limited).
Qed.

(** ** A challenge and the request it admits *)

(** The device exists, is not revoked, and has this key. *)
Definition usable_device (d : DB) (id : string) (pk : list Z) : Prop :=
  ∃ dev, GetDevice d id None = Ok dev ∧ b64_decode true (PubKey dev) = Some pk ∧
    Z.of_nat (length pk) = PublicKeySize ∧ Revoked dev = false.

Lemma usable_lookup d id pk : usable_device d id pk → Store_Device (d, None) id = (pk, false, true).
Proof. intros (dev & ? & ? & ? & <-). apply Store_Device_spec. by exists dev. Qed.

Lemma challenge_issued cfg env st r body id pk nonce :
  takes cfg env r "/auth/challenge" → Method r = MethodPost →
  json_decode (Body (limited r)) = Ok body → field body "device_id" = id → id ≠ "" →
  q_rand env = Ok nonce → q_io_device env = None → usable_device (d_db st) id pk →
  serve cfg env st r =
    secured r (Some (write_json 200 (JObject [("challenge", JString (b64_encode true nonce))]),
      set pending_lens (<[id := Challenge nonce (q_issue env + ChallengeTTL)]>
        (sweepLocked (d_pending st) (q_sweep env))) st)).
Proof.
  intros Ht HM Hb <- Hid Hr Hio Hu.
  rewrite (serve_takes cfg env st r _ _ Ht eq_refl). unfold secured, handleAuthChallenge.
  rewrite limited_method, HM, Hb. simpl. rewrite (proj2 (String.eqb_neq _ _) Hid).
  unfold IssueChallenge, lookup_device, store_lookup, device_store.
  by rewrite Hr, Hio, (usable_lookup _ _ _ Hu).
Qed.

(** C17: POST /auth/challenge for a usable device answers with the fresh nonce, and the next
    request of that device to /files or /sessions that signs the nonce within two minutes is
    answered exactly as the handler behind the authentication answers it, with the challenge
    consumed and the device id in the context. *)
Theorem challenge_then_request cfg env1 st r1 body id pk nonce :
  InsecureNoAuth cfg = false →
  takes cfg env1 r1 "/auth/challenge" → Method r1 = MethodPost →
  json_decode (Body (limited r1)) = Ok body → field body "device_id" = id → id ≠ "" →
  q_rand env1 = Ok nonce → q_io_device env1 = None → usable_device (d_db st) id pk →
  ∃ resp st1, serve cfg env1 st r1 = Some (resp, st1) ∧
    payload_of resp = Json (JObject [("challenge", JString (b64_encode true nonce))]) ∧
    ∀ env2 r2 pat h sig,
      takes cfg env2 r2 pat → leads_to cfg r2 pat h → header_get r2 "X-Device-Id" = id →
      header_get r2 "X-Device-Signature" ≠ "" →
      b64_decode true (header_get r2 "X-Device-Signature") = Some sig →
      signature_valid pk nonce sig = true → q_verify env2 ≤ q_issue env1 + ChallengeTTL →
      q_io_device env2 = None →
      serve cfg env2 st1 r2 =
        secured r2 (h env2 (set pending_lens (delete id (d_pending st1)) st1) (with_device (limited r2) id)).
Proof.
  intros Hsec Ht HM Hb Hf Hid Hr Hio Hu. do 2 eexists.
  rewrite (challenge_issued cfg env1 st r1 body id pk nonce) by done. simpl.
  split_and!; [done|done|].
  intros env2 r2 pat h sig Ht2 Hl Hdev Hne Hdec Hv Hle Hio2.
  eapply serve_authentic; [done..|]. split; [done|]. split; [done|].
  exists sig, (Challenge nonce (q_issue env1 + ChallengeTTL)), pk. split_and!; [done|done| |done| |done].
  - apply lookup_insert_eq.
  - unfold lookup_device, store_lookup, device_store. rewrite Hio2. by apply usable_lookup.
Qed.

(** ** A ticket and the stream it opens *)

(** C18: An authenticated POST /auth/ws-ticket answers with a ticket that opens one request to
    /sessions/.../stream within thirty seconds, handed to the terminal routes without header
    credentials; the same request afterwards is answered 401. *)
Theorem ticket_opens_one_stream cfg env1 st r1 id buf :
  InsecureNoAuth cfg = false → takes cfg env1 r1 "/auth/ws-ticket" → Method r1 = MethodPost →
  authentic pending_lens device_store q_verify env1 st r1 id → q_rand env1 = Ok buf → buf ≠ [] →
  ∃ resp st1, serve cfg env1 st r1 = Some (resp, st1) ∧
    payload_of resp = Json (JObject [("ticket", JString (hex_encode buf))]) ∧
    ∀ env2 r2,
      takes cfg env2 r2 "/sessions/" → has_suffix (URLPath r2) "/stream" = true →
      query_get r2 "ticket" = hex_encode buf → q_ticket env2 < q_issue env1 + wsTicketTTL →
      let st2 := with_tickets st1 (delete (hex_encode buf) (d_tickets st1)) in
      serve cfg env2 st1 r2 = secured r2 (TermMux cfg env2 st2 (limited r2)) ∧
      ∀ env3 st3, takes cfg env3 r2 "/sessions/" → d_tickets st3 = d_tickets st2 →
        serve cfg env3 st3 r2 =
          secured r2 (Some (write_error 401 "missing or invalid ws ticket", st3)).
Proof.
  intros Hsec Ht HM Ha Hr Hbuf.
  assert (hex_encode buf ≠ "") as Hne by (by destruct buf).
  assert (∀ env st r, takes cfg env r "/sessions/" → serve cfg env st r =
    secured r (wrapSessionAuth (TermMux cfg) env st (limited r))) as Hsess.
  { intros env st0 r Htk. apply (serve_takes cfg env st0 r "/sessions/"); [done|].
    unfold root_routes. by rewrite Hsec. }
  do 2 eexists. split_and!.
  - rewrite (serve_takes cfg env1 st r1 _ _ Ht eq_refl).
    rewrite (authenticated_serves _ env1 st (limited r1) id) by (by apply authentic_limited).
    unfold handleAuthWSTicket. cbn [Method with_device]. rewrite limited_method, HM, Hr. simpl. reflexivity.
  - done.
  - intros env2 r2 Htk Hs Hq Hlt st2. split.
    + rewrite (Hsess env2 _ r2 Htk). unfold wrapSessionAuth, query_get in *.
      rewrite limited_path, Hs, limited_query, Hq, (proj2 (String.eqb_neq _ _) Hne).
      unfold consume at 1. cbn [d_tickets with_tickets]. rewrite lookup_insert_eq.
      unfold time_before, time_add. by rewrite (proj2 (Z.ltb_lt _ _) Hlt).
    + intros env3 st3 Htk3 Hst. rewrite (Hsess env3 _ r2 Htk3). unfold wrapSessionAuth, query_get in *.
      rewrite limited_path, Hs, limited_query, Hq, (proj2 (String.eqb_neq _ _) Hne).
      assert (d_tickets st3 !! hex_encode buf = None) as Hnone by (rewrite Hst; apply lookup_delete_eq).
      unfold consume. rewrite Hnone. by destruct st3.
Qed.

(** ** Bodies *)

Lemma substring_app n s t : (n <= String.length s)%nat → String.substring 0 n (s +:+ t) = String.substring 0 n s.
Proof.
  revert n. induction s as [|c s IH]; intros [|n]; simpl; try lia; try done.
  - by destruct t.
  - intros Hn. by rewrite IH by lia.
Qed.

Lemma slen_app_le s t : slen s ≤ slen (s +:+ t).
Proof. unfold slen. induction s as [|c s IH]; simpl; lia. Qed.

(** Outside /files/upload the daemon's answer and new state do not depend on what a request
    body holds after its first 2^20+1 bytes, nor on how it ends. *)
Lemma body_beyond_limit_is_unread cfg env st r pre rest rest' err err' :
  has_prefix (URLPath r) "/files/upload" = false → maxJSONBody < slen pre →
  serve cfg env st (with_body r (Stream (pre +:+ rest) err)) =
  serve cfg env st (with_body r (Stream (pre +:+ rest') err')).
Proof.
  intros Hp Hlen. unfold serve, secureHeaders, limitRequestBody.
  assert (∀ rest err, limited (with_body r (Stream (pre +:+ rest) err)) =
    with_body r (Stream (String.substring 0 (Z.to_nat maxJSONBody) pre) (Some (EMsg "http: request body too large")))) as HL;
    [|by rewrite !HL].
  intros x e. unfold limited. cbn [URLPath with_body]. rewrite Hp. cbn [negb].
  unfold MaxBytesReader. cbn [content Body with_body].
  pose proof (slen_app_le pre x). rewrite (proj2 (Z.leb_gt _ _)) by lia.
  rewrite substring_app by (unfold slen in *; lia). done.
Qed.
End daemon_use.

(** ** Concrete requests *)

Section examples.
#[local] Existing Instances ascii_only window_lib padding_kdf echo_lib form_decoder merge_order echo_scheme.
#[local] Existing Instances b64_codec origin_host origin_upgrader set_tmux set_tmux_spec.
#[local] Instance demo_quote : Quote := λ s, s.
#[local] Instance demo_redirector : Redirector := λ p _, Response 301 [("Location", p)] NoBody.
#[local] Instance demo_web : StaticWeb := λ _, Response 200 [] (Raw "test client").

Abbreviation demo_daemon := (daemon_state (W := gset string)).

Definition demo_cfg : routerConfig (W := gset string) :=
  RouterConfig (Routes demo_manager) (Register uploader) "me@x.org" "" "" "x.org" false.

Lemma demo_deployed : deployed demo_cfg demo_manager uploader.
Proof. done. Qed.

(** One device, with the key of the signature scheme's example. *)
Definition demo_db : DB :=
  Tables ∅ {["d1" := DeviceRow (Some "phone") (Some "android") (b64_encode true sample_key) (Some 1) (Some 1) (Some 0)]}.

Definition demo_initial : demo_daemon := (newRouter demo_cfg demo_db sample_fs ∅).2.

(** A clock that stands at [t] seconds; nothing fails. *)
Definition calm (path : string) (t : Z) (rand : list Z) : daemon_env :=
  DaemonEnv path (Ok rand) (still (t * Second)) (t * Second) (t * Second) (t * Second) (t * Second)
    (t * Second) t None None None None.

Definition demo_request (method path body : string) (query hs : list (string * string)) : request :=
  Request method path query hs "100.64.0.2:5555" "x.org" (Stream body None) None.

Definition ask_challenge : request := demo_request MethodPost "/auth/challenge" "device_id=d1" [] [].

Definition signed (method path : string) (query : list (string * string)) (nonce : list Z) : request :=
  demo_request method path "" query
    [("X-Device-Id", "d1"); ("X-Device-Signature", b64_encode true (sample_key ++ nonce))].

Definition after_challenge : demo_daemon :=
  match serve demo_cfg (calm "/auth/challenge" 10 [3; 4]) demo_initial ask_challenge with
  | Some (_, st) => st
  | None => demo_initial
  end.

Lemma demo_device : usable_device (d_db demo_initial) "d1" sample_key.
Proof. eexists. by split_and!. Qed.

Lemma challenge_then_request_witness :
  ∃ st1, serve demo_cfg (calm "/files" 20 []) st1 (signed MethodGet "/files" [("path", "/srv/exchange")] [3; 4]) =
    secured (signed MethodGet "/files" [("path", "/srv/exchange")] [3; 4])
      (Register uploader (calm "/files" 20 []) (set pending_lens (delete "d1" (d_pending st1)) st1)
        (with_device (limited (signed MethodGet "/files" [("path", "/srv/exchange")] [3; 4])) "d1")).
Proof.
  destruct (challenge_then_request demo_cfg (calm "/auth/challenge" 10 [3; 4]) demo_initial ask_challenge
    (list_to_map [("device_id", "d1")]) "d1" sample_key [3; 4]) as (resp & st1 & _ & _ & Hserve);
    [done..|apply demo_device|].
  exists st1. apply (Hserve (calm "/files" 20 []) (signed MethodGet "/files" [("path", "/srv/exchange")] [3; 4])
    "/files" (FilesMux demo_cfg) (sample_key ++ [3; 4])); [done|by apply to_files; left|done|done|done|done|done|done].
Defined.

Lemma demo_authentic_ticket :
  authentic pending_lens device_store q_verify (calm "/auth/ws-ticket" 20 [9]) after_challenge
    (signed MethodPost "/auth/ws-ticket" [] [3; 4]) "d1".
Proof.
  split; [done|]. split; [done|].
  exists (sample_key ++ [3; 4]), (Challenge [3; 4] (130 * Second)), sample_key. by vm_compute.
Qed.

Definition stream_request : request :=
  demo_request MethodGet "/sessions/0a/stream" "" [("ticket", "09")] [].

Lemma ticket_opens_one_stream_witness :
  ∃ st1, serve demo_cfg (calm "/sessions/0a/stream" 30 []) st1 stream_request =
    secured stream_request (Routes demo_manager (calm "/sessions/0a/stream" 30 [])
      (with_tickets st1 (delete "09" (d_tickets st1))) (limited stream_request)).
Proof.
  destruct (ticket_opens_one_stream demo_cfg (calm "/auth/ws-ticket" 20 [9]) after_challenge
    (signed MethodPost "/auth/ws-ticket" [] [3; 4]) "d1" [9]) as (resp & st1 & _ & _ & Hserve);
    [done..|apply demo_authentic_ticket|done|done|].
  exists st1. apply (Hserve (calm "/sessions/0a/stream" 30 []) stream_request); done.
Defined.

Lemma body_beyond_limit_is_unread_witness :
  ∃ pre, serve demo_cfg (calm "/auth/challenge" 10 []) demo_initial
    (with_body ask_challenge (Stream (pre +:+ "device_id=d1") None)) =
  serve demo_cfg (calm "/auth/challenge" 10 []) demo_initial (with_body ask_challenge (Stream (pre +:+ "") None)).
Proof.
  exists (join_char " " (replicate (Z.to_nat maxJSONBody + 2) "")).
  apply body_beyond_limit_is_unread; [done|].
  assert (∀ n, slen (join_char " " (replicate (S n) "")) = Z.of_nat n) as Hlen.
  { intros n. unfold slen. induction n as [|n IH]; [done|].
    change (replicate (S (S n)) "") with ("" :: replicate (S n) ""). simpl in *. lia. }
  rewrite Nat.add_comm. change (2 + ?x)%nat with (S (S x)). rewrite Hlen. unfold maxJSONBody. lia.
Defined.

(** The value of a computation that succeeds. *)
Lemma succeeds {A} (o : option A) d :
  match o with Some _ => true | None => false end = true → o = Some (default d o).
Proof. by destruct o. Qed.

Definition anonymous (path : string) : request := demo_request MethodGet path "" [] [].

Lemma unauthenticated_request_is_blind_witness :
  let answer := default (write_status 0, demo_initial)
    (serve demo_cfg (calm "/files" 5 []) demo_initial (anonymous "/files")) in
  private answer.2 = private demo_initial ∧
  ∀ p, serve demo_cfg (calm "/files" 5 []) (with_private p demo_initial) (anonymous "/files") =
    Some (answer.1, with_private p answer.2).
Proof.
  intros answer. apply (unauthenticated_request_is_blind demo_cfg _ _ _ _ _ eq_refl).
  - intros [(id & -> & Hid & _)|(Hst & _)]; [by apply Hid|by vm_compute in Hst].
  - rewrite <- surjective_pairing. apply succeeds. by vm_compute.
Defined.

Definition demo_events : list (daemon_event (W := gset string)) :=
  [Serve (calm "/auth/challenge" 10 [3; 4]) ask_challenge;
   Serve (calm "/files" 20 []) (signed MethodGet "/files" [("path", "/srv/exchange")] [3; 4]);
   OnStream 0 (PtyRead "$ " None None);
   World sample_fs {["ccr-0a"]};
   Serve (calm "/auth/challenge" 30 [5]) ask_challenge].

Definition revoke_request : request :=
  Request MethodPost "/owner/devices/revoke" []
    [("X-Device-Id", "d1"); ("X-Device-Signature", b64_encode true (sample_key ++ [5]))]
    "100.64.0.2:5555" "x.org" (Stream "device_id=d1" None) None.

Definition demo_final : demo_daemon := default demo_initial (daemon_run (serve demo_cfg) demo_initial demo_events).

Lemma demo_runs : daemon_run (serve demo_cfg) demo_initial demo_events = Some demo_final.
Proof. apply succeeds. by vm_compute. Qed.

(** The signature is accepted; what is missing is a grant. *)
Example revoke_answer :
  (payload_of ∘ fst) <$> serve demo_cfg (calm "/owner/devices/revoke" 40 []) demo_final revoke_request =
  Some (Json (JObject [("error", JString "step-up authentication required")])).
Proof. by vm_compute. Qed.

Lemma deployed_devices_are_frozen_witness :
  let answer := default (write_status 0, demo_initial)
    (serve demo_cfg (calm "/owner/devices/revoke" 40 []) demo_final revoke_request) in
  status answer.1 = 401 ∧ devices (d_db answer.2) = devices demo_db.
Proof.
  intros answer.
  destruct (deployed_devices_are_frozen demo_cfg demo_manager uploader demo_db sample_fs ∅ demo_events demo_final
    demo_deployed demo_runs) as [_ Hrev].
  apply (Hrev (calm "/owner/devices/revoke" 40 []) revoke_request); [by vm_compute|].
  rewrite <- surjective_pairing. apply succeeds. by vm_compute.
Defined.

Definition fresh_final : demo_daemon :=
  default demo_initial (daemon_run (serve demo_cfg) (newRouter demo_cfg empty_db sample_fs ∅).2 demo_events).

Lemma fresh_installation_admits_nobody_witness :
  d_tmux fresh_final = {["ccr-0a"]} ∧ ∀ env r, ¬ credentials env fresh_final r.
Proof.
  destruct (fresh_installation_admits_nobody demo_cfg demo_manager uploader empty_db sample_fs ∅ demo_events
    fresh_final demo_deployed eq_refl) as (_ & Hw & _ & Hn); [apply succeeds; by vm_compute|].
  split; [exact (f_equal snd Hw)|done].
Defined.
End examples.
