(* ===== verification/Startup.v ===== *)
(** * main: from the flags to a listening daemon

    What main does between flag.Parse and ListenAndServe. The SQL driver's
    answers are the fields of [sql_driver]; a log.Fatalf is a value, with the
    files as they are then. *)

From S2P Require Import Prelude GoStr Path Http Fs NetAddr Database DeviceAuth IdStore StepUp RateLimit.
From S2P Require Import Verifier Totp Password WebAuthn Pairing Owner OwnerProps Middleware Mux Tickets Locks.
From S2P Require Import Tmux Manager Stream TermHttp FileStore Upload FilesHttp Config Daemon DaemonProps.
From Stdlib Require Import Ascii.

Record flags := Flags {
  fl_addr : string;
  fl_db : string;
  fl_lock_dir : string;
  fl_file_roots : string;
  fl_upload_dir : string;
  fl_owner_email : string;
  fl_owner_password_hash : string;
  fl_owner_totp_secret : string;
  fl_setup_owner : bool;
  fl_insecure_no_auth : bool;
  fl_public_domain : string;
}.

Definition default_flags : flags :=
  Flags "127.0.0.1:8080" "/var/lib/claudecode-remote/daemon.db" DefaultDir "/srv/exchange"
    "/var/lib/claudecode-remote/uploads" "" "" "" false false "".

(** sql.Open, and what Ping and the schema's Exec return. *)
Record sql_driver := SqlDriver {
  sql_open : string → result DB;
  sql_ping : error;
  sql_schema : error;
}.

Definition open_database (s : sql_driver) (fl : flags) : result DB :=
  db_Open (sql_open s) (sql_ping s) (sql_schema s) (fl_db fl).

Section startup.
Context `{Unicode} `{TotpLib} `{Argon2} `{WebAuthnLib} `{JsonDecoder} `{SqlOrder} `{Ed25519}.
Context `{StateCodec} `{Quote} `{UrlParse} `{Upgrader} `{Redirector} `{StaticWeb}.
Context {W : Type} `{TmuxBinary W}.

Inductive outcome :=
  | Fatalf (what : string) (e : goerr) (fs : FS)
  | SetupDone (printed : string)
  | SetupPanicked
  | Listening (addr : string) (handler : Handler daemon_env (daemon_state (W := W)))
      (st : daemon_state (W := W)).

(** The checks on the flags, in the order main makes them. *)
Definition check_flags (fl : flags) : option (string * goerr) :=
  match checkBindAddress (fl_addr fl) with
  | Some e => Some ("refusing to start: ", e)
  | None =>
     match validatePublicDomain (fl_public_domain fl) with
     | Some e => Some ("invalid --public-domain: ", e)
     | None =>
        if fl_insecure_no_auth fl then
          match checkLoopbackOnly (fl_addr fl) with
          | Some e => Some ("refusing to start with --insecure-no-auth: ", e)
          | None => None
          end
        else None
     end
  end.

Definition router_config (fl : flags) (m : Manager) (a : Uploader) : routerConfig (W := W) :=
  RouterConfig (Routes m) (Register a) (fl_owner_email fl) (fl_owner_password_hash fl)
    (fl_owner_totp_secret fl) (fl_public_domain fl) (fl_insecure_no_auth fl).

(** What follows the checks: directories, database, managers and routes. *)
Definition assemble (fl : flags) (fs : FS) (w : W) (sql : sql_driver) : outcome :=
  match MkdirAll fs (Dir (fl_db fl)) with
  | (Some e, fs1) => Fatalf "create database directory: " e fs1
  | (None, fs1) =>
     match open_database sql fl with
     | Err e => Fatalf "open database: " e fs1
     | Ok d =>
        match New fs1 (fl_lock_dir fl) with
        | (Err e, fs2) => Fatalf "lock directory: " e fs2
        | (Ok lockDir, fs2) =>
           let m := MkManager lockDir NewTmux in
           let w := NewManager m w in
           match NewStore fs2 (splitRoots (fl_file_roots fl)) with
           | Err e => Fatalf "file roots: " e fs2
           | Ok roots =>
              match NewUploader fs2 roots (fl_upload_dir fl) with
              | (Err e, fs3) => Fatalf "upload directory: " e fs3
              | (Ok a, fs3) =>
                 let '(handler, st) := newRouter (router_config fl m a) d fs3 w in
                 Listening (fl_addr fl) handler st
              end
           end
        end
     end
  end.

Definition main (fl : flags) (fs : FS) (w : W) (sql : sql_driver) (stdin : stream)
    (salt : result (list Z)) : outcome :=
  if fl_setup_owner fl then
    match runSetupOwner stdin (fl_owner_email fl) salt with
    | None => SetupPanicked
    | Some (Some e, _) => Fatalf "setup-owner: " e fs
    | Some (None, printed) => SetupDone printed
    end
  else match check_flags fl with
  | Some (what, e) => Fatalf what e fs
  | None => assemble fl fs w sql
  end.

(** ** What a listening daemon is *)

Lemma check_flags_ok fl :
  check_flags fl = None →
  checkBindAddress (fl_addr fl) = None ∧ validatePublicDomain (fl_public_domain fl) = None ∧
  (fl_insecure_no_auth fl = true → checkLoopbackOnly (fl_addr fl) = None).
Proof.
  unfold check_flags. destruct (checkBindAddress _); [done|]. destruct (validatePublicDomain _); [done|].
  destruct (fl_insecure_no_auth fl); [|done]. by destruct (checkLoopbackOnly _).
Qed.

Lemma assemble_listening fl fs w sql addr h st :
  assemble fl fs w sql = Listening addr h st →
  addr = fl_addr fl ∧ ∃ m a d fs' w', open_database sql fl = Ok d ∧
    (h, st) = newRouter (router_config fl m a) d fs' w' ∧
    ∃ fs2, NewStore fs2 (splitRoots (fl_file_roots fl)) = Ok (up_roots a).
Proof.
  unfold assemble. destruct (MkdirAll _ _) as [[e|] fs1]; [done|].
  destruct (open_database sql fl) as [d|e]; [|done]. destruct (New _ _) as [[lockDir|e] fs2]; [|done].
  destruct (NewStore _ _) as [roots|e] eqn:EN; [|done].
  unfold NewUploader. destruct (MkdirAll fs2 _) as [[e|] fs3]; [done|].
  destruct (newRouter _ _ _ _) as [h' st'] eqn:ER. intros [= <- <- <-]. split; [done|].
  exists (MkManager lockDir NewTmux). eexists (MkUploader roots _), d, fs3, _.
  split_and!; [done|by rewrite <- ER|by exists fs2].
Qed.

Lemma main_listening fl fs w sql stdin salt addr h st :
  main fl fs w sql stdin salt = Listening addr h st →
  check_flags fl = None ∧ assemble fl fs w sql = Listening addr h st.
Proof.
  unfold main. destruct (fl_setup_owner fl).
  { by destruct (runSetupOwner _ _ _) as [[[e|] p]|]. }
  by destruct (check_flags fl) as [[what e]|].
Qed.

Lemma bind_address addr :
  checkBindAddress addr = None →
  ∃ host port, SplitHostPort addr = Ok (host, port) ∧ trim_space host ∉ wildcard_hosts.
Proof.
  unfold checkBindAddress. destruct (SplitHostPort addr) as [[host port]|]; [|done].
  destruct (existsb _ _) eqn:E; [done|]. intros _. exists host, port. split; [done|].
  intros Hin%list_elem_of_In. assert (existsb (String.eqb (trim_space host)) wildcard_hosts = true) as E'.
  { apply existsb_exists. exists (trim_space host). split; [done|]. apply String.eqb_refl. }
  congruence.
Qed.

(** C15: If main gets as far as listening, its address splits into host and port, the host is
    none of the spellings of all interfaces that checkBindAddress knows (empty, 0.0.0.0, the two
    of ::, a star), and either authentication was switched off by the flag and the host is
    localhost or a loopback IP, or requests without credentials neither see nor touch files and
    terminals. *)
Theorem listening_daemon_is_guarded fl fs w sql stdin salt addr h st0 :
  main fl fs w sql stdin salt = Listening addr h st0 →
  ∃ host port, SplitHostPort addr = Ok (host, port) ∧
  (trim_space host ∉ [""; "0.0.0.0"; "::"; "[::]"; "*"]) ∧
  ((fl_insecure_no_auth fl = true ∧
    (trim_space host = "localhost" ∨
     ∃ ip, ParseIP (trim_space host) = Some ip ∧ IsLoopback ip = true ∧ IsUnspecified ip = false)) ∨
   (fl_insecure_no_auth fl = false ∧
    ∀ env st r resp st', ¬ credentials env st r → h env st r = Some (resp, st') →
      private st' = private st ∧ ∀ p, h env (with_private p st) r = Some (resp, with_private p st'))).
Proof.
  intros [(Hb & _ & Hl)%check_flags_ok Ha]%main_listening.
  apply assemble_listening in Ha as (-> & m & a & d & fs' & w' & _ & HR & _).
  destruct (bind_address _ Hb) as (host & port & Hs & Hw). exists host, port. split_and!; [done..|].
  destruct (fl_insecure_no_auth fl) eqn:Ef.
  - left. split; [done|]. destruct (loopback_address _ (Hl eq_refl)) as (_ & host' & port' & Hs' & Hc).
    rewrite Hs in Hs'. by injection Hs' as <- <-.
  - right. split; [done|]. injection HR as -> _. intros env st r resp st' Hn Hst.
    assert (blind (serve (router_config fl m a)) env st r) as Hbl by (by apply public_blind).
    split; [by eapply blind_keeps|]. intros p. by rewrite Hbl, Hst.
Qed.

Lemma passkey_needs_a_domain fl fs w sql stdin salt addr h st :
  main fl fs w sql stdin salt = Listening addr h st →
  (fl_public_domain fl = "" →
     passkeyVerifier (shared (owner (d_owner st))) = MkWebAuthn None None None) ∧
  (fl_public_domain fl ≠ "" →
     contains_char "/" (fl_public_domain fl) = false ∧ contains_char ":" (fl_public_domain fl) = false ∧
     ParseIP (fl_public_domain fl) = None ∧ slen (fl_public_domain fl) ≤ 253 ∧
     passkeyVerifier (shared (owner (d_owner st))) =
       NewWebAuthnVerifier (fl_public_domain fl) "ClaudeCode Remote" ["https://" +:+ fl_public_domain fl]).
Proof.
  intros [(_ & Hv & _)%check_flags_ok Ha]%main_listening.
  apply assemble_listening in Ha as (-> & m & a & d & fs' & w' & _ & HR & _).
  injection HR as _ ->. split; simpl.
  - intros E. by rewrite E.
  - intros Hne. revert Hv. unfold validatePublicDomain. rewrite (proj2 (String.eqb_neq _ _) Hne).
    destruct (contains _ "://"); [done|]. destruct (contains_char "/" _); [done|].
    destruct (contains_char ":" _); [done|]. simpl. destruct (ParseIP _); [done|].
    destruct (Z.ltb_spec 253 (slen (fl_public_domain fl))); simpl; [done|]. done.
Qed.
End startup.

(** ** A start *)

Section examples.
#[local] Existing Instances ascii_only window_lib padding_kdf echo_lib form_decoder merge_order echo_scheme.
#[local] Existing Instances b64_codec origin_host origin_upgrader set_tmux set_tmux_spec.
#[local] Instance start_quote : Quote := λ s, s.
#[local] Instance start_redirector : Redirector := λ p _, Response 301 [("Location", p)] NoBody.
#[local] Instance start_web : StaticWeb := λ _, Response 200 [] (Raw "test client").

Definition start_fs : FS :=
  MkFS {[[] := Directory 4096 0; ["srv"] := Directory 4096 0; ["srv"; "exchange"] := Directory 4096 0]} []
    (λ _ _, None) (λ _, 0%nat) 0 (λ _, 0).

Definition empty_driver : sql_driver := SqlDriver (λ _, Ok empty_db) None None.

Abbreviation main_with fl :=
  (main fl start_fs (∅ : gset string) empty_driver (Stream "" None) (Ok [])).

Definition domain_flags (noauth : bool) (addr : string) : flags :=
  Flags addr "/var/lib/claudecode-remote/daemon.db" DefaultDir "/srv/exchange,"
    "/var/lib/claudecode-remote/uploads" "" "" "" false noauth "remote.example.org".

Definition what_of (o : outcome (W := gset string)) : string :=
  match o with Fatalf what _ _ => what | SetupDone _ => "setup" | SetupPanicked => "panic" | Listening a _ _ => a end.

Example default_starts : what_of (main_with default_flags) = "127.0.0.1:8080".
Proof. by vm_compute. Qed.

Example noauth_on_the_network : what_of (main_with (domain_flags true "100.64.0.1:8080")) =
  "refusing to start with --insecure-no-auth: ".
Proof. by vm_compute. Qed.

Example wildcard_refused : what_of (main_with (domain_flags false ":8080")) = "refusing to start: ".
Proof. by vm_compute. Qed.

Definition listens (o : outcome (W := gset string)) : bool :=
  match o with Listening _ _ _ => true | _ => false end.

Definition state_of (o : outcome (W := gset string)) : daemon_state (W := gset string) :=
  match o with
  | Listening _ _ st => st
  | _ => Daemon (OwnerState (NewOwner (MkOwnerConfig "" "" "" "" "" [])) NewRateLimiter empty_db) NewDeviceAuthenticator NewStepUpGate newWSTicketStore start_fs ∅ []
  end.

Definition handler_of (o : outcome (W := gset string)) : Handler daemon_env (daemon_state (W := gset string)) :=
  match o with Listening _ h _ => h | _ => λ _ _ _, None end.

Lemma listening_parts o : listens o = true → o = Listening (what_of o) (handler_of o) (state_of o).
Proof. by destruct o. Qed.

Abbreviation local_start := (main_with (domain_flags true "127.0.0.1:8080")).

Lemma listening_daemon_is_guarded_witness :
  ∃ host port, SplitHostPort (what_of local_start) = Ok (host, port) ∧
    trim_space host ∉ [""; "0.0.0.0"; "::"; "[::]"; "*"].
Proof.
  destruct (listening_daemon_is_guarded (domain_flags true "127.0.0.1:8080") start_fs ∅ empty_driver
    (Stream "" None) (Ok []) (what_of local_start) (handler_of local_start) (state_of local_start))
    as (host & port & Hs & Hw & _).
  - refine (listening_parts local_start _). by vm_compute.
  - exists host, port. split; [exact Hs|exact Hw].
Defined.

Abbreviation network_start := (main_with (domain_flags false "100.64.0.1:8080")).

Lemma passkey_needs_a_domain_witness :
  passkeyVerifier (shared (owner (d_owner (state_of network_start)))) =
    NewWebAuthnVerifier "remote.example.org" "ClaudeCode Remote" ["https://remote.example.org"].
Proof.
  refine (proj2 (proj2 (proj2 (proj2 (proj2
    (passkey_needs_a_domain (domain_flags false "100.64.0.1:8080") start_fs ∅ empty_driver
      (Stream "" None) (Ok []) (what_of network_start) (handler_of network_start) (state_of network_start) _) _))))).
  - refine (listening_parts network_start _). by vm_compute.
  - done.
Defined.
End examples.
